(* ===== verification/_CoqProject ===== *)
-Q . S2P
Prelude.v
Words.v
RustStr.v
IO.v
Utf8.v
Num.v
Config.v
Settings.v
Fips.v
Sha256.v
Util.v
Wire.v
Nl.v
Sock.v
NlSock.v
Net.v
Nft.v
Fw.v
FwRun.v
Wg.v
Dhcp.v
DhcpRun.v
Ipkg.v
Httpd.v
Dns.v
DnsRun.v
Mtd.v
Sysupgrade.v
Sys.v
Init.v
Json.v
Ubus.v
Daemons.v
Log.v
Ntp.v
Main.v
Pool.v
HttpdPool.v
Boot.v
SaveBoot.v
Tests.v
