(* ===== verification/Prelude.v ===== *)
(** * LWRT: a verification library for the router userspace

    LWRT is one static binary, written in Rust, that is the whole userspace of a
    home router.  [main.rs] picks an applet by the name the binary is called
    with; the applets share a configuration store (config.rs), a netlink codec
    (nl.rs), interface ioctls (net.rs) and small codecs (json.rs, sha256.rs,
    util.rs), and otherwise talk to each other through files, sockets and the
    kernel: init starts and supervises the daemons (log, ubus, dhcp, dns,
    httpd), the DHCP server writes the lease file that the DNS forwarder and the
    web interface read, the DHCP client writes the name server that the
    forwarder asks, the web interface rewrites the configuration, sysupgrade
    drives the flash tool.

    This library models the twenty source files under src/src and proves what
    makes each of them correct.

    ** How programs are modelled

    - Text is a list of Unicode scalar values ([str], [N]), raw bytes are a list
      of [Z] in [0, 256); UTF-8 is explicit (Utf8.v).
    - Integers are [Z]; wrap-around is written where the source can wrap
      ([u8] ... [u64], [usize], which is 32 bits on the target, in Words.v).
      The target (mipsel) is little-endian, so [to_ne_bytes] is [le_bytes].
    - Errors are values ([result], [option]); an index out of range or a failed
      slice is [Panic] ([outcome]): the crate is built to abort.
    - Pure code is a function.  Code that reads files, opens sockets or asks the
      kernel is a tree of events, [io] in IO.v; [runs] relates it to every trace,
      each event answered by an arbitrary value.  A theorem about all runs holds
      whatever the system answers; where it needs the system to behave (a flash
      that keeps what is written, a kernel that applies an ioctl, a disk without
      faults), that is a hypothesis about the trace or the laws of a class, with
      a concrete instance in the witness.
    - Concurrent code is a step relation: over whole events of the connections
      (Ubus.v), or over the calls of threads interleaved one at a time, with a
      shared state that decides the answers (Pool.v, HttpdPool.v).
    - [reached] relates a program to the traces it has performed so far, for
      claims about programs that never come to an end.
    - Recursion that is not structural has fuel.  For parsers and walkers the fuel
      is the length of the input or twice that, and is proved to be enough
      ([Json.parse_terminates], [Utf8.decode_fuel_enough], [Nl.for_each_attr_enc],
      [Ipkg.extract_archive]); for the daemons' endless loops it counts turns, and
      the theorems hold for every number of turns.

    ** Files

    Generic: Prelude (types, automation, list lemmas), Words (machine integers
    and byte encodings), RustStr (the [str] methods the source uses), IO, Utf8,
    Num (number parsing and printing, IPv4 addresses).

    - Config: config.rs.  [parse_line] is the body of [Config::parse].  The value
      of a key is its last assignment; what is parsed is well typed.
    - Settings: the settings rewriter of httpd.rs ([apply_settings],
      [flush_section]).  Re-parsing the rewritten text gives the old bindings
      with the updates applied; all other lines are kept.
    - Sha256: sha256.rs.  The streaming digest is that of Fips, for any split of
      the message.  Fips is FIPS 180-4 written from the standard, independently
      of the code (constants from roots of primes, rotations as divisions).
    - Util: util.rs, base64.
    - Wire: the netlink wire format, a specification that shares nothing with the
      code; Nl proves its encoding of trees equal to it.
    - Nl, Sock, NlSock: nl.rs.  Nl has the builder and the walker, with attribute
      trees ([nla], [enc]) as the specification; Sock has the system calls as
      events and the account of open descriptors; NlSock the socket functions.
    - Net: net.rs.  The specification is a table of interfaces.
    - Fw, FwRun: fw.rs.  The batch of netlink messages is the encoding of a list
      of commands ([ruleset]), and that is the documented ruleset of Nft, the
      kernel's side of nf_tables written with the numbers of its header, up to
      five conventions in which the source departs from it ([Nft.sent] against
      [Nft.uapi]); FwRun is the applet around it.
    - Wg: wg.rs.  The device message is that of linux/wireguard.h for the peers
      the configuration describes; the descriptors of the applet are accounted
      for.
    - Dhcp, DhcpRun: dhcp.rs.  Codec, pool, server and client; the receive loops
      and the client's programs are refinements of these.
    - Ipkg: ipkg.rs.  Downloads, verification, extraction, installation and
      removal.
    - Httpd: the rest of httpd.rs, but for its listener.
    - Dns, DnsRun: dns.rs.
    - Mtd, Sysupgrade: mtd.rs and sysupgrade.rs, over an interface for flash
      memory ([Flash], with the NOR instance [nor]).
    - Sys: sys.rs, and [exec_self] of init.rs.  Init: the rest of init.rs.
    - Json: json.rs, over an interface for [f64] ([Float64], [Float64Laws]).
    - Ubus: ubus.rs.  The broker is the step relation [step] over whole events of
      the connection threads.  Daemons: the listeners of ubus.rs and httpd.rs.
    - Log: log.rs.  Ntp: ntp.rs.  Main: main.rs.
    - Pool: threads over a shared state, for any program and any state.
      HttpdPool: the threads of httpd.rs (the loop of [run], one [handle] per
      connection) over the session store, with a clock.
    - Boot: init.rs, main.rs and fw.rs together.  SaveBoot: the settings form of
      httpd.rs, the configuration file and init.rs together.
    - Tests: the [#[test]] functions of the sources, as booleans that hold.

    ** What the theorems show

    Codecs: parsers read back what the builders or an independent encoder write
    (netlink, JSON, DHCP through the handshake, DNS names, base64, tar), accept
    the stated inputs and terminate on all.  Protocols: a DHCP client composed
    with the server gets the lease the server recorded, no two clients hold one
    address; a call through the bus reaches the owner of the object and its reply
    the caller, under every interleaving.  Refinement: message builders are the
    encodings of readable trees and of specifications written from the kernel's
    headers and from FIPS 180-4; the programs over events do to an abstract state
    (interface table, flash, log files, configuration) what they promise.
    Safety: nothing is written before verification (packages, firmware, flash
    partitions); package paths stay under the root; in every interleaving of the
    web interface's threads a change of the device goes back to a login less
    than an hour before, with the right password or made while none was set; ids
    on the bus are never used twice.  Resources: descriptors, log size (as long as
    renames succeed), address pool.  Composition: an address typed into the settings form is
    configured at the next boot; the firewall applet ends only when 32
    acknowledgements come, and with fewer PID 1 starts a service only after that
    applet has failed.

    ** Not modelled

    - Console output, except where it is the purpose of the applet ([log read],
      the ubus clients).
    - Threads below the level of calls: the bus is locked for each whole event,
      and httpd's store for each call, so these are the steps.
    - [f64] arithmetic, the clock, DNS resolution of server names, and the kernel
      are outside the source; they are interfaces or answers of events.
    - The usage text, and module declarations.

    Places where modelling showed the code to do something other than it means
    are Examples next to the definitions concerned. *)

From stdpp Require Export base tactics option list gmap sets strings sorting.
From Stdlib Require Export ZArith NArith Lia.

(** ** Types shared by every component

    A byte is a [Z] in [0, 256); a [char] is a Unicode scalar value in [N].  The
    two carriers differ on purpose: text and raw bytes cannot be mixed without
    an explicit UTF-8 conversion (file [Utf8.v]). *)
Abbreviation byte := Z.
Abbreviation bytes := (list Z).
Abbreviation char := N.
Abbreviation str := (list N).

Declare Scope lwrt_scope.
Delimit Scope lwrt_scope with lwrt.
Open Scope lwrt_scope.

(** ** Rust's [Result], and computations that may panic *)
Inductive result (A E : Type) : Type :=
| Ok (a : A)
| Err (e : E).
Arguments Ok {A E} a.
Arguments Err {A E} e.

(** A computation that either completes or aborts the process (an index out of
    range, a failed slice): the crate is built with [panic = "abort"]. *)
Inductive outcome (A : Type) : Type :=
| Done (a : A)
| Panic.
Arguments Done {A} a.
Arguments Panic {A}.

Definition result_bind {A B E} (r : result A E) (k : A → result B E) : result B E :=
  match r with Ok a => k a | Err e => Err e end.

(** The [?] operator of Rust on [Result]. *)
Notation "'let?' x := r 'in' k" := (result_bind r (λ x, k))
  (at level 10, x pattern, r at level 100, k at level 200) : lwrt_scope.

Definition is_Ok {A E} (r : result A E) : Prop := ∃ a, r = Ok a.

(** Turns an [Option] into a [Result] ([ok_or]). *)
Definition ok_or {A E} (o : option A) (e : E) : result A E :=
  match o with Some a => Ok a | None => Err e end.
Definition ok {A E} (r : result A E) : option A :=
  match r with Ok a => Some a | Err _ => None end.

#[global] Instance result_eq_dec {A E} `{EqDecision A, EqDecision E} : EqDecision (result A E).
Proof. solve_decision. Defined.
#[global] Instance outcome_eq_dec {A} `{EqDecision A} : EqDecision (outcome A).
Proof. solve_decision. Defined.

(** ** Automation *)
Create HintDb lwrt discriminated.

(** Closes an arithmetic side condition after exposing list lengths. *)
Ltac len :=
  repeat (rewrite ?length_app, ?length_take, ?length_drop, ?length_replicate,
    ?length_fmap, ?length_insert, ?length_reverse in * || simpl length in *); lia.

(** Case analysis on the scrutinee of the goal's first [match]. *)
Ltac case_step :=
  match goal with
  | |- context [match ?x with _ => _ end] => destruct x eqn:?
  end.

(** Lookup in a list is defined within the length. *)
Lemma nth_lookup_Some {A} (l : list A) (i : nat) (d x : A) :
  l !! i = Some x → nth i l d = x.
Proof. intros H. rewrite nth_lookup, H. done. Qed.

(** ** Slices [&l[i..j]] *)
Definition slice {A} (l : list A) (i j : nat) : list A := take (j - i) (drop i l).

Lemma slice_app_r {A} (l k : list A) i j :
  length l ≤ i → slice (l ++ k) i j = slice k (i - length l) (j - length l).
Proof.
  intros H. unfold slice. rewrite drop_app_ge by done. f_equal. lia.
Qed.

Lemma slice_app_l {A} (l k : list A) i j :
  i ≤ j → j ≤ length l → slice (l ++ k) i j = slice l i j.
Proof.
  intros Hij H. unfold slice. rewrite drop_app_le by lia. rewrite take_app_le; [done|len].
Qed.

Lemma slice_full {A} (l : list A) n : length l = n → slice l 0 n = l.
Proof. intros <-. unfold slice. rewrite drop_0, Nat.sub_0_r. apply take_ge. done. Qed.

Lemma length_slice {A} (l : list A) i j :
  i ≤ j → j ≤ length l → length (slice l i j) = j - i.
Proof. intros ??. unfold slice. len. Qed.

(** [copy_from_slice] into [l[i..]]: overwrite in place. *)
Definition splice {A} (l : list A) (i : nat) (k : list A) : list A :=
  take i l ++ k ++ drop (i + length k) l.

Lemma length_splice {A} (l : list A) i k :
  i + length k ≤ length l → length (splice l i k) = length l.
Proof. intros H. unfold splice. len. Qed.

Lemma splice_mid {A} (a b c k : list A) :
  length k = length b → splice (a ++ b ++ c) (length a) k = a ++ k ++ c.
Proof.
  intros H. unfold splice. rewrite take_app_length. f_equal. f_equal.
  rewrite H, drop_app_add. by rewrite drop_app_length.
Qed.

(** ** Longest prefix satisfying a test (the basis of the [trim] family) *)
Section DropWhile.
Context {A : Type} (p : A → bool).

Fixpoint drop_while (l : list A) : list A :=
  match l with
  | [] => []
  | x :: l' => if p x then drop_while l' else l
  end.

Fixpoint take_while (l : list A) : list A :=
  match l with
  | [] => []
  | x :: l' => if p x then x :: take_while l' else []
  end.

Lemma take_drop_while l : take_while l ++ drop_while l = l.
Proof. induction l as [|x l IH]; simpl; [done|]. destruct (p x); simpl; by rewrite ?IH. Qed.

Lemma drop_while_app_all l k : forallb p l = true → drop_while (l ++ k) = drop_while k.
Proof. induction l as [|x l IH]; simpl; [done|]. destruct (p x); simpl; auto; done. Qed.

Lemma drop_while_all l : forallb p l = true → drop_while l = [].
Proof. intros H. rewrite <- (app_nil_r l). by rewrite drop_while_app_all. Qed.

Lemma drop_while_id x l : p x = false → drop_while (x :: l) = x :: l.
Proof. simpl. by intros ->. Qed.

Lemma drop_while_head l x k : drop_while l = x :: k → p x = false.
Proof.
  induction l as [|y l IH]; simpl; [done|].
  destruct (p y) eqn:E; [done|]. by intros [= -> _].
Qed.

Lemma drop_while_idemp l : drop_while (drop_while l) = drop_while l.
Proof.
  destruct (drop_while l) as [|x k] eqn:E; [done|].
  apply drop_while_id. eapply drop_while_head, E.
Qed.

Lemma take_while_all l : forallb p (take_while l) = true.
Proof. induction l as [|x l IH]; simpl; [done|]. destruct (p x) eqn:E; simpl; by rewrite ?E. Qed.

Lemma drop_while_nil l : drop_while l = [] → forallb p l = true.
Proof. intros H. rewrite <- (take_drop_while l), H, app_nil_r. apply take_while_all. Qed.

Lemma drop_while_suffix l : ∃ k, l = k ++ drop_while l.
Proof. exists (take_while l). by rewrite take_drop_while. Qed.
End DropWhile.

Lemma take_while_app_stop {A} (p : A → bool) l x k :
  forallb p l = true → p x = false → take_while p (l ++ x :: k) = l.
Proof.
  intros Hl Hx. induction l as [|y l IH]; simpl in *; [by rewrite Hx|].
  apply andb_prop in Hl as [-> Hl]. by rewrite IH.
Qed.

Lemma take_while_id {A} (p : A → bool) l : forallb p l = true → take_while p l = l.
Proof.
  induction l as [|y l IH]; simpl; [done|]. intros [-> Hl]%andb_prop. by rewrite IH.
Qed.

(** [k] does not go on with a character of [p]. *)
Definition stops {A} (p : A → bool) (k : list A) : Prop :=
  match k with [] => True | x :: _ => p x = false end.

Lemma take_while_stops {A} (p : A → bool) l k :
  forallb p l = true → stops p k → take_while p (l ++ k) = l.
Proof.
  intros Hl Hk. destruct k as [|x k]; [rewrite app_nil_r; by apply take_while_id|]. by apply take_while_app_stop.
Qed.
