(* ===== verification/Words.v ===== *)
(** * Machine words and their byte encodings

    The part of Rust's integer primitives the sources use: [wrapping_add] and
    the silent wrap of a release build, [rotate_right], the [to_be_bytes] /
    [to_le_bytes] family and [from_be_bytes] / [from_le_bytes].  The target is
    little-endian with 32-bit [usize] (mipsel), so [to_ne_bytes] is
    [to_le_bytes]. *)

From S2P Require Import Prelude.
Open Scope Z_scope.

(** ** Wrap-around *)
Definition wrap (w : Z) (x : Z) : Z := x mod 2 ^ w.
Definition u8 (x : Z) : Z := wrap 8 x.
Definition u16 (x : Z) : Z := wrap 16 x.
Definition u32 (x : Z) : Z := wrap 32 x.
Definition u64 (x : Z) : Z := wrap 64 x.
(** [usize] of the target. *)
Definition usize (x : Z) : Z := wrap 32 x.

Definition in_u (w : Z) (x : Z) : Prop := 0 <= x < 2 ^ w.
Definition byte_ok (b : Z) : Prop := 0 <= b < 256.
Definition bytes_ok (l : bytes) : Prop := Forall byte_ok l.

#[global] Instance byte_ok_dec b : Decision (byte_ok b).
Proof. unfold byte_ok. apply _. Defined.
#[global] Instance bytes_ok_dec l : Decision (bytes_ok l).
Proof. unfold bytes_ok. apply _. Defined.

Lemma wrap_bound w x : 0 <= w → in_u w (wrap w x).
Proof. intros. apply Z.mod_pos_bound. lia. Qed.

Lemma wrap_small w x : in_u w x → wrap w x = x.
Proof. intros H. by apply Z.mod_small. Qed.

Lemma wrap_add_l w x y : wrap w (wrap w x + y) = wrap w (x + y).
Proof. unfold wrap. apply Zplus_mod_idemp_l. Qed.
Lemma wrap_add_r w x y : wrap w (x + wrap w y) = wrap w (x + y).
Proof. unfold wrap. apply Zplus_mod_idemp_r. Qed.
Lemma wrap_mul_l w x y : wrap w (wrap w x * y) = wrap w (x * y).
Proof. unfold wrap. apply Zmult_mod_idemp_l. Qed.

Lemma u8_ok x : byte_ok (u8 x).
Proof. apply (wrap_bound 8). lia. Qed.

Lemma byte_ok_u8 b : byte_ok b → u8 b = b.
Proof. apply (wrap_small 8). Qed.

(** [u32::rotate_right]. *)
Definition rotr32 (x n : Z) : Z := Z.lor (Z.shiftr x n) (u32 (Z.shiftl x (32 - n))).
(** [!x] on [u32]. *)
Definition not32 (x : Z) : Z := Z.lxor x (2 ^ 32 - 1).

(** ** Little- and big-endian bytes *)
Fixpoint le_bytes (n : nat) (x : Z) : bytes :=
  match n with
  | O => []
  | S n' => u8 x :: le_bytes n' (x / 256)
  end.
Definition be_bytes (n : nat) (x : Z) : bytes := reverse (le_bytes n x).

Fixpoint of_le_bytes (l : bytes) : Z :=
  match l with
  | [] => 0
  | b :: l' => b + 256 * of_le_bytes l'
  end.
Definition of_be_bytes (l : bytes) : Z := of_le_bytes (reverse l).

Lemma length_le_bytes n x : length (le_bytes n x) = n.
Proof. revert x. induction n; simpl; intros; by rewrite ?IHn. Qed.
Lemma length_be_bytes n x : length (be_bytes n x) = n.
Proof. unfold be_bytes. by rewrite length_reverse, length_le_bytes. Qed.

Lemma le_bytes_ok n x : bytes_ok (le_bytes n x).
Proof. revert x. induction n; intros x; constructor; [apply u8_ok|apply IHn]. Qed.
Lemma be_bytes_ok n x : bytes_ok (be_bytes n x).
Proof. unfold be_bytes, bytes_ok. apply Forall_reverse, le_bytes_ok. Qed.

Lemma le_bytes_wrap n x : le_bytes n (x mod 256 ^ Z.of_nat n) = le_bytes n x.
Proof.
  revert x. induction n as [|n IH]; intros x; simpl; [done|].
  rewrite Nat2Z.inj_succ, Z.pow_succ_r by lia. rewrite Z.rem_mul_r by lia.
  rewrite (Z.mul_comm 256). f_equal.
  - unfold u8, wrap. change (2 ^ 8) with 256.
    rewrite Z.mod_add by lia. apply Z.mod_mod. lia.
  - rewrite Z.div_add by lia. rewrite (Z.div_small (x mod 256)) by (apply Z.mod_pos_bound; lia).
    rewrite Z.add_0_l. apply IH.
Qed.
Lemma be_bytes_wrap n x : be_bytes n (x mod 256 ^ Z.of_nat n) = be_bytes n x.
Proof. unfold be_bytes. by rewrite le_bytes_wrap. Qed.

Lemma of_le_le_bytes n x : of_le_bytes (le_bytes n x) = x mod 256 ^ Z.of_nat n.
Proof.
  revert x. induction n as [|n IH]; intros x; simpl of_le_bytes.
  - simpl. by rewrite Z.mod_1_r.
  - simpl le_bytes. simpl of_le_bytes. rewrite IH.
    rewrite Nat2Z.inj_succ, Z.pow_succ_r by lia.
    unfold u8, wrap. change (2 ^ 8) with 256.
    rewrite Z.rem_mul_r by lia. done.
Qed.

Lemma of_be_be_bytes n x : of_be_bytes (be_bytes n x) = x mod 256 ^ Z.of_nat n.
Proof. unfold of_be_bytes, be_bytes. rewrite reverse_involutive. apply of_le_le_bytes. Qed.

Lemma le_bytes_of_le l : bytes_ok l → le_bytes (length l) (of_le_bytes l) = l.
Proof.
  induction 1 as [|b l Hb _ IH]; simpl; [done|]. unfold byte_ok in Hb. f_equal.
  - unfold u8, wrap. change (2 ^ 8) with 256.
    rewrite (Z.mul_comm 256), Z.mod_add by lia. by apply Z.mod_small.
  - rewrite (Z.mul_comm 256), Z.div_add by lia.
    by rewrite (Z.div_small b).
Qed.

Lemma be_bytes_of_be l : bytes_ok l → be_bytes (length l) (of_be_bytes l) = l.
Proof.
  intros H. unfold be_bytes, of_be_bytes.
  rewrite <- (length_reverse l), le_bytes_of_le by (by apply Forall_reverse).
  apply reverse_involutive.
Qed.

Lemma of_le_bytes_bound l : bytes_ok l → 0 <= of_le_bytes l < 256 ^ Z.of_nat (length l).
Proof.
  induction 1 as [|b l Hb _ IH]; simpl; [lia|].
  unfold byte_ok in Hb. rewrite Nat2Z.inj_succ, Z.pow_succ_r by lia. lia.
Qed.

Lemma of_be_bytes_bound l : bytes_ok l → 0 <= of_be_bytes l < 256 ^ Z.of_nat (length l).
Proof.
  intros H. unfold of_be_bytes. rewrite <- length_reverse.
  by apply of_le_bytes_bound, Forall_reverse.
Qed.

#[export] Hint Resolve le_bytes_ok be_bytes_ok u8_ok : lwrt.

(** The width-specific readers and writers of the sources. *)
Definition u16_from_le (a b : byte) : Z := of_le_bytes [a; b].
Definition u16_from_be (a b : byte) : Z := of_be_bytes [a; b].

(** Bytes of a fixed-width word read back the word. *)
Lemma of_be_be_bytes_small n x : 0 <= x < 256 ^ Z.of_nat n → of_be_bytes (be_bytes n x) = x.
Proof. intros H. rewrite of_be_be_bytes. by apply Z.mod_small. Qed.
Lemma of_le_le_bytes_small n x : 0 <= x < 256 ^ Z.of_nat n → of_le_bytes (le_bytes n x) = x.
Proof. intros H. rewrite of_le_le_bytes. by apply Z.mod_small. Qed.

(** [b[i]] where the sources have checked the bound. *)
Definition byte_at (b : bytes) (i : nat) : byte := nth i b 0.

Lemma byte_at_ok b i : bytes_ok b → byte_ok (byte_at b i).
Proof.
  intros H. unfold byte_at. destruct (decide (i < length b)%nat) as [Hi|Hi].
  - unfold bytes_ok in H. rewrite List.Forall_nth in H. by apply H.
  - rewrite nth_overflow by lia. unfold byte_ok. lia.
Qed.

(** [n.div_ceil(m)] and the alignment helpers. *)
Definition div_ceil (n m : Z) : Z := if n mod m =? 0 then n / m else n / m + 1.

Lemma div_ceil_spec n m : 0 < m → 0 <= n → n <= div_ceil n m * m < n + m.
Proof.
  intros Hm Hn. unfold div_ceil.
  pose proof (Z.div_mod n m ltac:(lia)). pose proof (Z.mod_pos_bound n m Hm).
  destruct (Z.eqb_spec (n mod m) 0); nia.
Qed.
