(* ===== verification/RustStr.v ===== *)
(** * Rust strings: the [str] methods the sources call

    A [str] is the list of its Unicode scalar values.  Every method is the one
    of the standard library restricted to the way the sources use it; positions
    never appear, so the byte offsets of Rust need no counterpart. *)

From Stdlib Require Ascii.
From S2P Require Import Prelude.
Open Scope N_scope.

(** ** Literals

    [lit "..."] and [chr "."] are computed when they are read, so terms hold
    plain lists of numbers. *)
Definition str_of_string (s : string) : str :=
  Ascii.N_of_ascii <$> String.list_ascii_of_string s.
Definition chr_of_string (s : string) : char :=
  match str_of_string s with c :: _ => c | [] => 0 end.

Notation lit x :=
  (ltac:(let v := eval vm_compute in (str_of_string x) in exact v)) (only parsing).
Notation chr x :=
  (ltac:(let v := eval vm_compute in (chr_of_string x) in exact v)) (only parsing).

Definition LF : char := 10.
Definition CR : char := 13.
(** The double quote, written by its code. *)
Definition DQ : char := 34.

(** A Unicode scalar value. *)
Definition char_ok (c : char) : Prop := c < 55296 ∨ (57344 <= c ∧ c < 1114112).
Definition str_ok (s : str) : Prop := Forall char_ok s.

(** [char::is_whitespace]: the Unicode [White_Space] property. *)
Definition is_whitespace (c : char) : bool :=
  ((9 <=? c) && (c <=? 13)) || (c =? 32) || (c =? 133) || (c =? 160) || (c =? 5760)
  || ((8192 <=? c) && (c <=? 8202)) || (c =? 8232) || (c =? 8233) || (c =? 8239)
  || (c =? 8287) || (c =? 12288).

(** [u8::is_ascii_whitespace]: no vertical tab. *)
Definition is_ascii_whitespace (c : char) : bool :=
  (c =? 9) || (c =? 10) || (c =? 12) || (c =? 13) || (c =? 32).

Definition is_ascii_digit (c : char) : bool := (48 <=? c) && (c <=? 57).

(** ** Trimming *)
Definition rdrop_while {A} (p : A → bool) (l : list A) : list A :=
  reverse (drop_while p (reverse l)).

Definition trim_start (s : str) : str := drop_while is_whitespace s.
Definition trim_end (s : str) : str := rdrop_while is_whitespace s.
Definition trim (s : str) : str := trim_end (trim_start s).

(** [trim_end_matches] with a set of characters. *)
Definition trim_end_chars (p : char → bool) (s : str) : str := rdrop_while p s.

(** ** Prefixes and suffixes *)
Fixpoint strip_prefix (p s : str) : option str :=
  match p, s with
  | [], _ => Some s
  | a :: p', b :: s' => if a =? b then strip_prefix p' s' else None
  | _, [] => None
  end.
Definition starts_with (p s : str) : bool :=
  match strip_prefix p s with Some _ => true | None => false end.
Definition strip_suffix (p s : str) : option str :=
  reverse <$> strip_prefix (reverse p) (reverse s).

(** [trim_start_matches(p)] for a non-empty pattern: removes it as long as it
    is a prefix.  Each round shortens the string, so its length is enough fuel. *)
Fixpoint trim_start_matches_fuel (n : nat) (p s : str) : str :=
  match n with
  | O => s
  | S n' =>
    match strip_prefix p s with
    | Some s' => trim_start_matches_fuel n' p s'
    | None => s
    end
  end.
Definition trim_start_matches (p s : str) : str := trim_start_matches_fuel (length s) p s.
Definition trim_end_matches (p s : str) : str :=
  reverse (trim_start_matches (reverse p) (reverse s)).

(** ** Splitting *)
Fixpoint split_on (p : char → bool) (s : str) : list str :=
  match s with
  | [] => [[]]
  | c :: s' =>
    if p c then [] :: split_on p s'
    else match split_on p s' with
         | w :: ws => (c :: w) :: ws
         | [] => [[c]]
         end
  end.
(** [split(c)]: one more piece than separators. *)
Definition split_char (c : char) (s : str) : list str := split_on (N.eqb c) s.

Definition is_nonempty (s : str) : bool := match s with [] => false | _ => true end.

(** [split_whitespace]. *)
Definition split_whitespace (s : str) : list str :=
  List.filter is_nonempty (split_on is_whitespace s).

(** [split_once(c)]: at the first occurrence. *)
Fixpoint split_once (c : char) (s : str) : option (str * str) :=
  match s with
  | [] => None
  | x :: s' =>
    if x =? c then Some ([], s')
    else match split_once c s' with
         | Some (a, b) => Some (x :: a, b)
         | None => None
         end
  end.
(** [rsplit_once(c)]: at the last occurrence. *)
Definition rsplit_once (c : char) (s : str) : option (str * str) :=
  match split_once c (reverse s) with
  | Some (a, b) => Some (reverse b, reverse a)
  | None => None
  end.

(** [split(pat)] for a non-empty string pattern: matches do not overlap. *)
Fixpoint split_str_fuel (n : nat) (pat s acc : str) : list str :=
  match n with
  | O => [reverse acc ++ s]
  | S n' =>
    match strip_prefix pat s with
    | Some s' => reverse acc :: split_str_fuel n' pat s' []
    | None =>
      match s with
      | [] => [reverse acc]
      | c :: s' => split_str_fuel n' pat s' (c :: acc)
      end
    end
  end.
Definition split_str (pat s : str) : list str := split_str_fuel (S (length s)) pat s [].

(** The newline-terminated pieces of a text, each without its ['\n'], and the
    unterminated rest. *)
Fixpoint split_lines (s : str) : list str * str :=
  match s with
  | [] => ([], [])
  | c :: s' =>
    let '(ls, r) := split_lines s' in
    if c =? LF then ([] :: ls, r)
    else match ls with
         | l :: ls' => ((c :: l) :: ls', r)
         | [] => ([], c :: r)
         end
  end.

(** Drops one ['\r'] at the end of a terminated line. *)
Definition strip_cr (l : str) : str :=
  match strip_suffix [CR] l with Some l' => l' | None => l end.

(** [lines]: terminators removed; an empty unterminated rest is no line. *)
Definition lines (s : str) : list str :=
  let '(ls, r) := split_lines s in
  (strip_cr <$> ls) ++ (match r with [] => [] | _ => [r] end).

(** [s.split('#').next().unwrap_or("")]. *)
Definition before_char (c : char) (s : str) : str :=
  match split_char c s with w :: _ => w | [] => [] end.

(** [join]. *)
Fixpoint join (sep : str) (l : list str) : str :=
  match l with
  | [] => []
  | [s] => s
  | s :: l' => s ++ sep ++ join sep l'
  end.

(** ** ASCII case *)
Definition to_ascii_lower (c : char) : char := if (65 <=? c) && (c <=? 90) then c + 32 else c.
Definition to_ascii_lowercase (s : str) : str := to_ascii_lower <$> s.
Definition eq_ignore_ascii_case (a b : str) : bool :=
  bool_decide (to_ascii_lowercase a = to_ascii_lowercase b).

(** ** Numbers: [parse] for the unsigned types, [from_str_radix], [Display] *)
Definition digit_val (radix : Z) (c : char) : option Z :=
  let v := Z.of_N c in
  (if (48 <=? v) && (v <=? 57) then if v - 48 <? radix then Some (v - 48) else None
   else if (97 <=? v) && (v <=? 122) then if v - 87 <? radix then Some (v - 87) else None
   else if (65 <=? v) && (v <=? 90) then if v - 55 <? radix then Some (v - 55) else None
   else None)%Z.

(** Checked accumulation: [None] on a bad digit or on overflow of width [w]. *)
Fixpoint parse_digits (radix w : Z) (s : str) (acc : Z) : option Z :=
  match s with
  | [] => Some acc
  | c :: s' =>
    match digit_val radix c with
    | Some d => let v := (acc * radix + d)%Z in
                if (v <? 2 ^ w)%Z then parse_digits radix w s' v else None
    | None => None
    end
  end.

(** [uN::from_str_radix]: an optional ['+'], then at least one digit. *)
Definition from_str_radix (radix w : Z) (s : str) : option Z :=
  let body := match s with c :: s' => if c =? chr "+" then s' else s | [] => [] end in
  match body with
  | [] => None
  | _ => parse_digits radix w body 0%Z
  end.
Definition parse_uint (w : Z) (s : str) : option Z := from_str_radix 10 w s.

Definition digit_chr (d : Z) : char := Z.to_N (if (d <? 10)%Z then d + 48 else d + 87)%Z.

Fixpoint dec_fuel (n : nat) (x : Z) : str :=
  match n with
  | O => []
  | S n' => if (x <? 10)%Z then [digit_chr x]
            else dec_fuel n' (x / 10)%Z ++ [digit_chr (x mod 10)%Z]
  end.
(** [Display] of an unsigned integer: at most one decimal digit per bit. *)
Definition dec (x : Z) : str := dec_fuel (S (Z.to_nat (Z.log2 x))) x.

(** [{:02x}] of a byte. *)
Definition hex2 (b : Z) : str := [digit_chr (b / 16)%Z; digit_chr (b mod 16)%Z].

(** * Lemmas *)

(** ** [drop_while] from the right *)
Section RdropWhile.
Context {A : Type} (p : A → bool).
Implicit Types l k : list A.

Lemma forallb_app_true l k :
  forallb p (l ++ k) = true ↔ forallb p l = true ∧ forallb p k = true.
Proof. rewrite forallb_app. apply andb_true_iff. Qed.

Lemma forallb_reverse l : forallb p (reverse l) = forallb p l.
Proof.
  induction l as [|x l IH]; [done|].
  rewrite reverse_cons, forallb_app, IH. simpl. rewrite andb_true_r. apply andb_comm.
Qed.

Lemma rdrop_while_app_all l k : forallb p k = true → rdrop_while p (l ++ k) = rdrop_while p l.
Proof.
  intros H. unfold rdrop_while. rewrite reverse_app, drop_while_app_all; [done|].
  by rewrite forallb_reverse.
Qed.

Lemma rdrop_while_id l x : p x = false → rdrop_while p (l ++ [x]) = l ++ [x].
Proof.
  intros H. unfold rdrop_while. rewrite reverse_app, reverse_singleton. simpl.
  rewrite H. change (x :: reverse l) with ([x] ++ reverse l).
  by rewrite reverse_app, reverse_involutive, reverse_singleton.
Qed.

Lemma rdrop_while_spec l :
  ∃ k, l = rdrop_while p l ++ k ∧ forallb p k = true.
Proof.
  exists (reverse (take_while p (reverse l))). split.
  - unfold rdrop_while. rewrite <- reverse_app, take_drop_while. by rewrite reverse_involutive.
  - rewrite forallb_reverse. apply take_while_all.
Qed.

Lemma rdrop_while_last l k x : rdrop_while p l = k ++ [x] → p x = false.
Proof.
  unfold rdrop_while. intros H. apply (f_equal reverse) in H.
  rewrite reverse_involutive, reverse_app, reverse_singleton in H.
  eapply drop_while_head, H.
Qed.
End RdropWhile.

(** ** [trim]: characterised by its result being trimmed between blanks *)
Definition blank (s : str) : bool := forallb is_whitespace s.

(** Neither end of the text is white space. *)
Definition trimmed (s : str) : Prop :=
  (∀ x k, s = x :: k → is_whitespace x = false) ∧
  (∀ x k, s = k ++ [x] → is_whitespace x = false).

Lemma trimmed_nil : trimmed [].
Proof. split; intros x k H; [done|]. by destruct k. Qed.
#[export] Hint Resolve trimmed_nil : lwrt.

Lemma trim_unique s a t b :
  s = a ++ t ++ b → blank a = true → blank b = true → trimmed t → trim s = t.
Proof.
  intros -> Ha Hb [Hh Hl]. unfold trim, trim_start, trim_end.
  rewrite drop_while_app_all by done.
  destruct t as [|x k _] using rev_ind.
  - simpl. rewrite drop_while_all by done. done.
  - assert (drop_while is_whitespace ((k ++ [x]) ++ b) = (k ++ [x]) ++ b) as ->.
    { destruct k as [|y k]; simpl.
      - by rewrite (Hh x []).
      - by rewrite (Hh y (k ++ [x])). }
    rewrite rdrop_while_app_all by done.
    apply rdrop_while_id. by apply (Hl x k).
Qed.

Lemma trim_spec s :
  ∃ a b, s = a ++ trim s ++ b ∧ blank a = true ∧ blank b = true ∧ trimmed (trim s).
Proof.
  unfold trim, trim_start, trim_end.
  destruct (rdrop_while_spec is_whitespace (drop_while is_whitespace s)) as (b & Hb & Hbb).
  exists (take_while is_whitespace s), b. split; [|split; [apply take_while_all|split; [done|]]].
  - rewrite <- Hb. by rewrite take_drop_while.
  - split; intros x k H.
    + rewrite H in Hb. eapply (drop_while_head is_whitespace s x). by rewrite Hb.
    + eapply rdrop_while_last, H.
Qed.

Lemma trim_trimmed s : trimmed (trim s).
Proof. by destruct (trim_spec s) as (?&?&_&_&_&?). Qed.
#[export] Hint Resolve trim_trimmed : lwrt.

Lemma trimmed_trim s : trimmed s → trim s = s.
Proof. intros H. apply (trim_unique s [] s []); auto. by rewrite app_nil_r. Qed.

Lemma not_blank_trimmed s : Forall (λ c, is_whitespace c = false) s → trim s = s.
Proof.
  intros H. apply trimmed_trim. split; intros x k ->.
  - by apply Forall_cons in H as [? _].
  - apply Forall_app in H as [_ H]. by apply Forall_cons in H as [? _].
Qed.

Lemma trim_idemp s : trim (trim s) = trim s.
Proof. apply trimmed_trim, trim_trimmed. Qed.

#[global] Instance trimmed_dec s : Decision (trimmed s).
Proof.
  refine (cast_if (decide (trim s = s))).
  - rewrite <- e. apply trim_trimmed.
  - intros H. by apply n, trimmed_trim.
Defined.

Lemma blank_app a b : blank (a ++ b) = true ↔ blank a = true ∧ blank b = true.
Proof. apply forallb_app_true. Qed.

Lemma trim_app_blank_r s b : blank b = true → trim (s ++ b) = trim s.
Proof.
  intros Hb. destruct (trim_spec s) as (a & c & Hs & Ha & Hc & Ht).
  apply (trim_unique _ a _ (c ++ b)); [|done|by apply blank_app|done].
  rewrite Hs at 1. by rewrite <- !app_assoc.
Qed.

Lemma trim_app_blank_l s a : blank a = true → trim (a ++ s) = trim s.
Proof.
  intros Ha. destruct (trim_spec s) as (c & b & Hs & Hc & Hb & Ht).
  apply (trim_unique _ (a ++ c) _ b); [|by apply blank_app|done|done].
  rewrite Hs at 1. by rewrite !app_assoc.
Qed.

Lemma trim_blank s : blank s = true → trim s = [].
Proof. intros H. apply (trim_unique s s [] []); auto with lwrt. by rewrite app_nil_r. Qed.

Lemma trimmed_app a b :
  trimmed a → a ≠ [] → b ≠ [] → (∀ x k, b = k ++ [x] → is_whitespace x = false) →
  trimmed (a ++ b).
Proof.
  intros [Hh _] Ha Hb Hl. split; intros x k H.
  - destruct a as [|y a]; [done|]. injection H as <- _. by eapply Hh.
  - destruct b as [|z b _] using rev_ind; [done|].
    rewrite app_assoc in H. apply app_inj_tail in H as [_ <-]. by eapply Hl.
Qed.

(** ** Characters that do not occur *)
Definition no_char (c : char) (s : str) : Prop := Forall (λ x, x ≠ c) s.

#[global] Instance no_char_dec c s : Decision (no_char c s).
Proof. unfold no_char. apply _. Defined.

Lemma no_char_app c a b : no_char c (a ++ b) ↔ no_char c a ∧ no_char c b.
Proof. apply Forall_app. Qed.

(** ** Prefixes *)
Lemma strip_prefix_app p s : strip_prefix p (p ++ s) = Some s.
Proof. induction p as [|a p IH]; simpl; [done|]. by rewrite N.eqb_refl. Qed.

Lemma strip_prefix_Some p s t : strip_prefix p s = Some t → s = p ++ t.
Proof.
  revert s. induction p as [|a p IH]; intros s; simpl; [by intros [= ->]|].
  destruct s as [|b s]; [done|]. destruct (N.eqb_spec a b); [|done]. subst b.
  intros H. by rewrite (IH s H).
Qed.

Lemma strip_suffix_app p s : strip_suffix p (s ++ p) = Some s.
Proof.
  unfold strip_suffix. rewrite reverse_app, strip_prefix_app. simpl. by rewrite reverse_involutive.
Qed.

Lemma strip_suffix_Some p s t : strip_suffix p s = Some t → s = t ++ p.
Proof.
  unfold strip_suffix. destruct (strip_prefix _ _) as [u|] eqn:E; simpl; [|done].
  intros [= <-]. apply strip_prefix_Some in E. apply (f_equal reverse) in E.
  by rewrite reverse_involutive, reverse_app, reverse_involutive in E.
Qed.

(** ** Splitting at a character *)
Lemma split_once_app c a b : no_char c a → split_once c (a ++ c :: b) = Some (a, b).
Proof.
  induction 1 as [|x a Hx _ IH]; simpl; [by rewrite N.eqb_refl|].
  destruct (N.eqb_spec x c); [done|]. by rewrite IH.
Qed.

Lemma split_once_Some c s a b : split_once c s = Some (a, b) → s = a ++ c :: b ∧ no_char c a.
Proof.
  revert a b. induction s as [|x s IH]; intros a b; simpl; [done|].
  destruct (N.eqb_spec x c) as [->|Hx].
  - intros [= <- <-]. split; [done|constructor].
  - destruct (split_once c s) as [[a' b']|]; [|done]. intros [= <- <-].
    destruct (IH a' b' eq_refl) as [-> ?]. split; [done|by constructor].
Qed.

Lemma split_once_None c s : split_once c s = None ↔ no_char c s.
Proof.
  induction s as [|x s IH]; simpl; [split; [constructor|done]|].
  destruct (N.eqb_spec x c) as [->|Hx].
  - split; [done|]. by inversion 1.
  - destruct (split_once c s) as [[??]|]; split; intros H; try done.
    + inversion H; subst. by apply IH in H3.
    + constructor; [done|]. by apply IH.
Qed.

Lemma rsplit_once_app c a b : no_char c b → rsplit_once c (a ++ c :: b) = Some (a, b).
Proof.
  intros H. unfold rsplit_once. rewrite reverse_app, reverse_cons, <- app_assoc. simpl.
  rewrite split_once_app by (by apply Forall_reverse). by rewrite !reverse_involutive.
Qed.

Lemma before_char_take_while c s : before_char c s = take_while (λ x, negb (c =? x)) s.
Proof.
  unfold before_char, split_char. induction s as [|x s IH]; simpl; [done|].
  destruct (c =? x); simpl; [done|].
  by destruct (split_on _ s); simpl; rewrite <- IH.
Qed.

Lemma before_char_no_char c s : no_char c s → before_char c s = s.
Proof.
  rewrite before_char_take_while. induction 1 as [|x s Hx _ IH]; simpl; [done|].
  destruct (N.eqb_spec c x); [done|]. simpl. by rewrite IH.
Qed.

Lemma before_char_app c a b : no_char c a → before_char c (a ++ c :: b) = a.
Proof.
  rewrite before_char_take_while. induction 1 as [|x s Hx _ IH]; simpl; [by rewrite N.eqb_refl|].
  destruct (N.eqb_spec c x); [done|]. simpl. by rewrite IH.
Qed.

Lemma before_char_prefix c s : ∃ t, s = before_char c s ++ t.
Proof. rewrite before_char_take_while. eexists. by rewrite take_drop_while. Qed.

Lemma before_char_free c s : no_char c (before_char c s).
Proof.
  rewrite before_char_take_while. induction s as [|x s IH]; simpl; [constructor|].
  destruct (N.eqb_spec c x); simpl; constructor; done.
Qed.

Lemma split_on_nonempty p s : split_on p s ≠ [].
Proof. destruct s as [|c s]; simpl; [done|]. destruct (p c); [done|]. by destruct (split_on p s). Qed.

Lemma split_char_no_char c s : no_char c s → split_char c s = [s].
Proof.
  unfold split_char. induction 1 as [|x s Hx _ IH]; simpl; [done|].
  destruct (N.eqb_spec c x); [done|]. by rewrite IH.
Qed.

Lemma split_char_app c a b :
  no_char c a → split_char c (a ++ c :: b) = a :: split_char c b.
Proof.
  unfold split_char. induction 1 as [|x s Hx _ IH]; simpl; [by rewrite N.eqb_refl|].
  destruct (N.eqb_spec c x); [done|]. by rewrite IH.
Qed.

Lemma split_on_app p a c b :
  Forall (λ x, p x = false) a → p c = true → split_on p (a ++ c :: b) = a :: split_on p b.
Proof. intros Ha Hc. induction Ha as [|x a Hx _ IH]; simpl; [by rewrite Hc|]. by rewrite Hx, IH. Qed.

(** At any separator the pieces of both sides are put together. *)
Lemma split_on_mid p a c b : p c = true → split_on p (a ++ c :: b) = split_on p a ++ split_on p b.
Proof.
  intros Hc. induction a as [|x a IH]; simpl; [by rewrite Hc|]. rewrite IH. destruct (p x); [done|].
  pose proof (split_on_nonempty p a) as Hn. by destruct (split_on p a).
Qed.

(** A non-empty text without white space. *)
Definition word (s : str) : Prop := s ≠ [] ∧ Forall (λ c, is_whitespace c = false) s.
#[global] Instance word_dec s : Decision (word s).
Proof. unfold word. apply _. Defined.

Lemma split_whitespace_word s : word s → split_whitespace s = [s].
Proof.
  intros [Hne Hs]. unfold split_whitespace. assert (split_on is_whitespace s = [s]) as ->.
  { clear Hne. induction Hs as [|x s Hx _ IH]; simpl; [done|]. by rewrite Hx, IH. }
  by destruct s.
Qed.

Lemma split_whitespace_cons s t :
  word s → split_whitespace (s ++ lit " " ++ t) = s :: split_whitespace t.
Proof.
  intros [Hne Hs]. unfold split_whitespace. simpl app. rewrite split_on_app by done.
  simpl. by destruct s.
Qed.

Lemma join_cons sep (x : str) l : l ≠ [] → join sep (x :: l) = x ++ sep ++ join sep l.
Proof. by destruct l. Qed.

(** [split] undoes [join] on pieces without the separator. *)
Lemma split_char_join c l :
  l ≠ [] → Forall (no_char c) l → split_char c (join [c] l) = l.
Proof.
  intros Hne. induction l as [|a l IH]; [done|]. intros [Ha Hl]%Forall_cons.
  destruct l as [|b l]; simpl; [by apply split_char_no_char|].
  change (a ++ c :: join [c] (b :: l)) with (a ++ c :: join [c] (b :: l)).
  rewrite split_char_app by done. f_equal. by apply IH.
Qed.

(** ** Lines *)
Definition unlines (ls : list str) : str := mjoin ((λ l, l ++ [LF]) <$> ls).

Lemma unlines_app a b : unlines (a ++ b) = unlines a ++ unlines b.
Proof. unfold unlines. by rewrite fmap_app, join_app. Qed.

Lemma split_lines_cons l s :
  no_char LF l → split_lines (l ++ LF :: s) = (l :: (split_lines s).1, (split_lines s).2).
Proof.
  induction 1 as [|c l Hc _ IH]; simpl.
  - by destruct (split_lines s).
  - rewrite IH. destruct (N.eqb_spec c LF); [done|]. done.
Qed.

Lemma split_lines_free s :
  Forall (no_char LF) (split_lines s).1 ∧ no_char LF (split_lines s).2.
Proof.
  induction s as [|c s [IH1 IH2]]; simpl; [repeat constructor|].
  destruct (split_lines s) as [ls r]. simpl in *.
  destruct (N.eqb_spec c LF); simpl.
  - split; [|done]. by repeat constructor.
  - destruct ls as [|l ls]; simpl; split; try done.
    + by constructor.
    + inversion IH1; subst. constructor; [|done]. by constructor.
Qed.

Lemma strip_cr_free c l : no_char c l → no_char c (strip_cr l).
Proof.
  intros H. unfold strip_cr. destruct (strip_suffix [CR] l) as [l'|] eqn:E; [|done].
  apply strip_suffix_Some in E. subst. by apply no_char_app in H as [? _].
Qed.

Lemma lines_free s : Forall (no_char LF) (lines s).
Proof.
  unfold lines. destruct (split_lines_free s) as [H1 H2].
  destruct (split_lines s) as [ls r]. simpl in *. apply Forall_app. split.
  - apply Forall_fmap. eapply Forall_impl; [exact H1|]. intros. by apply strip_cr_free.
  - destruct r; [constructor|]. by constructor; [|constructor].
Qed.

Lemma lines_unlines_app ls s :
  Forall (no_char LF) ls → lines (unlines ls ++ s) = (strip_cr <$> ls) ++ lines s.
Proof.
  induction 1 as [|l ls Hl _ IH]; [done|].
  change (unlines (l :: ls)) with ((l ++ [LF]) ++ unlines ls).
  rewrite <- !app_assoc. unfold lines. simpl app at 1.
  change (LF :: unlines ls ++ s) with (LF :: (unlines ls ++ s)).
  rewrite split_lines_cons by done. simpl. f_equal.
  unfold lines in IH. by destruct (split_lines (unlines ls ++ s)).
Qed.

Lemma lines_unlines ls : Forall (no_char LF) ls → lines (unlines ls) = strip_cr <$> ls.
Proof.
  intros H. rewrite <- (app_nil_r (unlines ls)), lines_unlines_app by done.
  by rewrite app_nil_r.
Qed.

(** A line without a final carriage return comes back unchanged. *)
Lemma strip_cr_id l : (∀ k, l ≠ k ++ [CR]) → strip_cr l = l.
Proof.
  intros H. unfold strip_cr. destruct (strip_suffix [CR] l) as [k|] eqn:E; [|done].
  apply strip_suffix_Some in E. by destruct (H k).
Qed.

Lemma strip_cr_cases l : strip_cr l = l ∨ l = strip_cr l ++ [CR].
Proof.
  unfold strip_cr. destruct (strip_suffix [CR] l) as [k|] eqn:E; [|by left].
  right. by apply strip_suffix_Some in E.
Qed.

(** Outside this file the methods are used through their lemmas. *)
Arguments split_once : simpl never.
Arguments rsplit_once : simpl never.
Arguments before_char : simpl never.
Arguments split_char : simpl never.
Arguments trim : simpl never.
Arguments lines : simpl never.
