(* ===== verification/IO.v ===== *)
(** * Programs that talk to the system

    A component that reads files, opens sockets or spawns processes is a tree
    of events with continuations.  The environment is not modelled: [runs]
    relates a program to every trace in which each event is answered by an
    arbitrary value of its type, so a theorem about all traces holds whatever
    the system answers. *)

From S2P Require Import Prelude.

Section Programs.
Context {E : Set → Type}.

Inductive io (A : Type) : Type :=
| Ret (a : A)
| Vis (X : Set) (e : E X) (k : X → io A).

Fixpoint io_bind {A B} (m : io A) (f : A → io B) : io B :=
  match m with
  | Ret _ a => f a
  | Vis _ X e k => Vis B X e (λ x, io_bind (k x) f)
  end.

(** One performed event with its answer. *)
Inductive call : Type := Call (X : Set) (e : E X) (x : X).

Fixpoint runs {A} (m : io A) (t : list call) (b : A) : Prop :=
  match m with
  | Ret _ a => t = [] ∧ b = a
  | Vis _ X e k => ∃ x t', t = Call X e x :: t' ∧ runs (k x) t' b
  end.

Lemma runs_ret_inv {A} (a b : A) t : runs (Ret A a) t b → t = [] ∧ b = a.
Proof. done. Qed.

Lemma runs_vis_inv {A} X (e : E X) k t (b : A) :
  runs (Vis A X e k) t b → ∃ x t', t = Call X e x :: t' ∧ runs (k x) t' b.
Proof. done. Qed.

Lemma runs_vis {A} X (e : E X) k x t (b : A) : runs (k x) t b → runs (Vis A X e k) (Call X e x :: t) b.
Proof. intros H. by exists x, t. Qed.

Lemma runs_bind_inv {A B} (m : io A) (f : A → io B) t b :
  runs (io_bind m f) t b → ∃ t1 t2 a, t = t1 ++ t2 ∧ runs m t1 a ∧ runs (f a) t2 b.
Proof.
  revert t. induction m as [a|X e k IH]; intros t H; simpl in H.
  - by exists [], t, a.
  - destruct H as (x & t' & -> & H). destruct (IH x _ H) as (t1 & t2 & a & -> & H1 & H2).
    exists (Call X e x :: t1), t2, a. split; [done|]. split; [by apply runs_vis|done].
Qed.

Lemma runs_bind {A B} (m : io A) (f : A → io B) t1 t2 a b :
  runs m t1 a → runs (f a) t2 b → runs (io_bind m f) (t1 ++ t2) b.
Proof.
  revert t1. induction m as [a'|X e k IH]; intros t1; simpl.
  - by intros [-> ->].
  - intros (x & t' & -> & H) H2. exists x, (t' ++ t2). split; [done|]. by apply IH.
Qed.

(** Every program ends, whatever the answers: an answer function gives a run. *)
Lemma runs_total {A} (h : ∀ X, E X → X) (m : io A) : ∃ t a, runs m t a.
Proof.
  induction m as [a|X e k IH]; [by exists [], a|].
  destruct (IH (h X e)) as (t & a & H). exists (Call X e (h X e) :: t), a. by apply runs_vis.
Qed.

(** ** Programs part of the way *)
Definition performs {A} (m : io A) (c : call) (m' : io A) : Prop :=
  match m with Ret _ _ => False | Vis _ X e k => ∃ x, c = Call X e x ∧ m' = k x end.

Inductive reached {A} (m : io A) : list call → io A → Prop :=
| reached_start : reached m [] m
| reached_call t m1 c m2 : reached m t m1 → performs m1 c m2 → reached m (t ++ [c]) m2.

Lemma reached_runs {A} (m m' : io A) t u a : reached m t m' → runs m' u a → runs m (t ++ u) a.
Proof.
  intros H. revert u. induction H as [|t m1 c m2 _ IH Hp]; intros u Hu; [done|].
  destruct m1 as [b|X e k]; [done|]. destruct Hp as (x & -> & ->).
  rewrite <-app_assoc. apply IH. by apply runs_vis.
Qed.

(** What was performed is the beginning of a complete run. *)
Lemma reached_completes {A} (h : ∀ X, E X → X) (m m' : io A) t :
  reached m t m' → ∃ u a, runs m (t ++ u) a.
Proof.
  intros H. destruct (runs_total h m') as (u & a & Hu). exists u, a. by eapply reached_runs.
Qed.

Lemma reached_cons {A} (m m1 m2 : io A) c t : performs m c m1 → reached m1 t m2 → reached m (c :: t) m2.
Proof.
  intros Hp H. induction H as [|t n1 c' n2 _ IH Hq].
  - change [c] with ([] ++ [c]). eapply reached_call; [constructor|done].
  - rewrite app_comm_cons. by eapply reached_call.
Qed.

Lemma reached_bind {A B} (m : io A) (f : A → io B) t1 t2 a n :
  runs m t1 a → reached (f a) t2 n → reached (io_bind m f) (t1 ++ t2) n.
Proof.
  revert t1. induction m as [b|X e k IH]; intros t1; simpl; [by intros [-> ->]|].
  intros (x & t' & -> & H) Hn. cbn [app]. eapply reached_cons; [by exists x|by apply IH].
Qed.

Lemma reached_within {A B} (m n : io A) (f : A → io B) t :
  reached m t n → reached (io_bind m f) t (io_bind n f).
Proof.
  intros H. induction H as [|t m1 c m2 _ IH Hp]; [constructor|]. eapply reached_call; [exact IH|].
  destruct m1 as [a|X e k]; [done|]. destruct Hp as (x & -> & ->). by exists x.
Qed.

Lemma reached_bind_inv {A B} (m : io A) (f : A → io B) t n :
  reached (io_bind m f) t n →
  (∃ m1, reached m t m1 ∧ n = io_bind m1 f) ∨
  ∃ t1 t2 a, t = t1 ++ t2 ∧ runs m t1 a ∧ reached (f a) t2 n.
Proof.
  intros H. induction H as [|t n1 c n2 _ IH Hp]; [left; by exists m; split; [constructor|]|].
  destruct IH as [(m1 & Hr & ->)|(t1 & t2 & a & -> & Hm & Hr)].
  - destruct m1 as [a|X e k].
    + right. exists t, [c], a. split; [done|].
      split; [rewrite <-(app_nil_r t); by eapply reached_runs|].
      change [c] with ([] ++ [c]). eapply reached_call; [constructor|exact Hp].
    + left. destruct Hp as (x & -> & ->). exists (k x). split; [|done].
      eapply reached_call; [exact Hr|]. by exists x.
  - right. exists t1, (t2 ++ [c]), a. rewrite app_assoc. split; [done|]. split; [done|]. by eapply reached_call.
Qed.
End Programs.

Arguments io E A : clear implicits.
Arguments call E : clear implicits.
Arguments Ret {E A} a.
Arguments Vis {E A X} e k.
Arguments Call {E X} e x.

Notation "'perform' x := e 'in' k" := (Vis e (λ x, k))
  (at level 10, x name, e at level 100, k at level 200) : lwrt_scope.
Notation "'await' x := m 'in' k" := (io_bind m (λ x, k))
  (at level 10, x pattern, m at level 100, k at level 200) : lwrt_scope.

(** ** Programs with the same behaviours *)
#[global] Instance io_equiv {E A} : Equiv (io E A) := λ m n, ∀ t a, runs m t a ↔ runs n t a.

#[global] Instance io_equivalence {E A} : Equivalence (≡@{io E A}).
Proof.
  split.
  - done.
  - intros m n H t a. symmetry. apply H.
  - intros m n o H1 H2 t a. by rewrite (H1 t a), (H2 t a).
Qed.

Lemma vis_equiv {E A} {X : Set} (e : E X) (k k' : X → io E A) :
  (∀ x, k x ≡ k' x) → Vis e k ≡ Vis e k'.
Proof.
  intros H t a. split; intros (x & t' & -> & Hr); exists x, t'; (split; [done|]); by apply H.
Qed.

Lemma bind_equiv {E A B} (m : io E A) (f g : A → io E B) :
  (∀ a, f a ≡ g a) → io_bind m f ≡ io_bind m g.
Proof.
  intros H. induction m as [a|X e k IH]; simpl; [apply H|]. by apply vis_equiv.
Qed.

#[global] Instance io_bind_proper {E A B} :
  Proper ((≡) ==> pointwise_relation A (≡) ==> (≡)) (@io_bind E A B).
Proof.
  intros m n Hmn f g Hfg t b. split; intros H; apply runs_bind_inv in H as (t1 & t2 & a & -> & H1 & H2);
    eapply runs_bind; (apply Hmn || apply Hfg); eassumption.
Qed.

(** ** A program over the events of another component *)
Fixpoint io_map {E F : Set → Type} {A} (f : ∀ X, E X → F X) (m : io E A) : io F A :=
  match m with
  | Ret a => Ret a
  | Vis e k => Vis (f _ e) (λ x, io_map f (k x))
  end.
Definition call_map {E F : Set → Type} (f : ∀ X, E X → F X) (c : call E) : call F :=
  match c with Call e x => Call (f _ e) x end.

Lemma runs_map {E F : Set → Type} {A} (f : ∀ X, E X → F X) (m : io E A) t a :
  runs (io_map f m) t a ↔ ∃ u, t = map (call_map f) u ∧ runs m u a.
Proof.
  revert t. induction m as [b|X e k IH]; intros t; simpl.
  - split; [intros [-> ->]; by exists []|by intros (u & -> & -> & ->)].
  - split.
    + intros (x & t' & -> & H). apply IH in H as (u & -> & H). exists (Call e x :: u). split; [done|]. by exists x, u.
    + intros (u & -> & x & v & -> & H). exists x, (map (call_map f) v). split; [done|]. apply IH. by exists v.
Qed.

Lemma runs_map_id {E F : Set → Type} {A} (f : ∀ X, E X → F X) (m : io E A) u a :
  runs m u a → runs (io_map f m) (map (call_map f) u) a.
Proof. intros H. apply runs_map. by exists u. Qed.

(** Opens the runs of a program given by its code. *)
Ltac run_inv H :=
  lazymatch type of H with
  | runs (Ret _) _ _ =>
      let E1 := fresh in let E2 := fresh in
      apply runs_ret_inv in H; destruct H as [E1 E2]; try discriminate E2; simplify_eq
  | runs (Vis _ _) _ _ =>
      let x := fresh "x" in let t := fresh "t" in
      apply runs_vis_inv in H; destruct H as (x & t & -> & H); cbn beta iota in H
  | runs (io_bind _ _) _ _ =>
      let t1 := fresh "t" in let t2 := fresh "t" in let a := fresh "a" in let H1 := fresh "H" in
      apply runs_bind_inv in H; destruct H as (t1 & t2 & a & -> & H1 & H); cbn beta iota in H
  end.

(** Proves a concrete run: one event of the trace at a time. *)
Ltac play_step :=
  lazymatch goal with
  | |- runs ?m ?t ?r =>
      let m' := eval hnf in m in
      let t' := eval hnf in t in
      change (runs m' t' r);
      lazymatch m' with
      | Vis _ _ => apply runs_vis; cbv beta
      | Ret _ => split; vm_compute; reflexivity
      end
  end.
Ltac play := repeat play_step.

(** Proves that a program gets as far as a concrete trace. *)
Ltac advance_step :=
  lazymatch goal with
  | |- reached ?m (_ :: _) _ =>
      let m' := eval hnf in m in change m with m'; eapply reached_cons; [eexists; split; reflexivity|]
  end.
Ltac advance := repeat advance_step; apply reached_start.
