(* ===== verification/Utf8.v ===== *)
(** * UTF-8

    The conversions between Rust's text and raw bytes that the sources call:
    [str::as_bytes], [str::from_utf8] and [String::from_utf8_lossy] (one
    U+FFFD per maximal invalid prefix). *)

From S2P Require Import Prelude Words RustStr.
Open Scope Z_scope.

Module Utf8.

Definition encode_char (c : char) : bytes :=
  let z := Z.of_N c in
  if z <? 128 then [z]
  else if z <? 2048 then [192 + z / 64; 128 + z mod 64]
  else if z <? 65536 then [224 + z / 4096; 128 + z / 64 mod 64; 128 + z mod 64]
  else [240 + z / 262144; 128 + z / 4096 mod 64; 128 + z / 64 mod 64; 128 + z mod 64].

(** [str::as_bytes] *)
Definition encode (s : str) : bytes := concat (map encode_char s).

Definition within (lo hi b : Z) : bool := (lo <=? b) && (b <=? hi).
Definition cont (b : Z) : bool := within 128 191 b.

(** The range of the second byte after a leading byte of a 3- or 4-byte
    sequence (no overlong forms, no surrogates, nothing above U+10FFFF). *)
Definition second3 (b0 b1 : Z) : bool :=
  if b0 =? 224 then within 160 191 b1
  else if b0 =? 237 then within 128 159 b1
  else cont b1.
Definition second4 (b0 b1 : Z) : bool :=
  if b0 =? 240 then within 144 191 b1
  else if b0 =? 244 then within 128 143 b1
  else cont b1.

(** Reads one scalar value: [inl] the value with the rest, [inr] the rest
    after the maximal invalid prefix. *)
Definition step (b0 : Z) (l : bytes) : (char * bytes) + bytes :=
  if within 0 127 b0 then inl (Z.to_N b0, l)
  else if within 194 223 b0 then
    match l with
    | b1 :: l1 =>
        if cont b1 then inl (Z.to_N ((b0 - 192) * 64 + (b1 - 128)), l1) else inr l
    | [] => inr []
    end
  else if within 224 239 b0 then
    match l with
    | b1 :: l1 =>
        if second3 b0 b1 then
          match l1 with
          | b2 :: l2 =>
              if cont b2
              then inl (Z.to_N ((b0 - 224) * 4096 + (b1 - 128) * 64 + (b2 - 128)), l2)
              else inr l1
          | [] => inr []
          end
        else inr l
    | [] => inr []
    end
  else if within 240 244 b0 then
    match l with
    | b1 :: l1 =>
        if second4 b0 b1 then
          match l1 with
          | b2 :: l2 =>
              if cont b2 then
                match l2 with
                | b3 :: l3 =>
                    if cont b3
                    then inl (Z.to_N ((b0 - 240) * 262144 + (b1 - 128) * 4096
                                      + (b2 - 128) * 64 + (b3 - 128)), l3)
                    else inr l2
                | [] => inr []
                end
              else inr l1
          | [] => inr []
          end
        else inr l
    | [] => inr []
    end
  else inr l.

Fixpoint decode_fuel (fuel : nat) (l : bytes) : option str :=
  match fuel, l with
  | _, [] => Some []
  | O, _ => None
  | S fuel, b0 :: l =>
      match step b0 l with
      | inl (c, rest) => cons c <$> decode_fuel fuel rest
      | inr _ => None
      end
  end.

(** [String::from_utf8]; [None] for invalid input. *)
Definition from_utf8 (l : bytes) : option str := decode_fuel (length l) l.

Definition REPLACEMENT : char := 65533%N.

Fixpoint lossy_fuel (fuel : nat) (l : bytes) : str :=
  match fuel, l with
  | _, [] => []
  | O, _ => []
  | S fuel, b0 :: l =>
      match step b0 l with
      | inl (c, rest) => c :: lossy_fuel fuel rest
      | inr rest => REPLACEMENT :: lossy_fuel fuel rest
      end
  end.

(** [String::from_utf8_lossy] *)
Definition lossy (l : bytes) : str := lossy_fuel (length l) l.

(** ** Every step consumes input *)
Lemma step_shorter b0 l :
  match step b0 l with inl (_, r) => (length r <= length l)%nat | inr r => (length r <= length l)%nat end.
Proof.
  unfold step.
  repeat match goal with
  | |- context [if ?b then _ else _] => destruct b
  | |- context [match ?l with [] => _ | _ => _ end] => destruct l
  end; simpl; lia.
Qed.

Lemma decode_fuel_enough f g l :
  (length l <= f)%nat → (length l <= g)%nat → decode_fuel f l = decode_fuel g l.
Proof.
  revert g l. induction f as [|f IH]; intros [|g] [|b l] Hf Hg; simpl in *; try done; try lia.
  pose proof (step_shorter b l) as H. destruct (step b l) as [[c r]|r]; [|done].
  f_equal. apply IH; lia.
Qed.

Lemma lossy_fuel_enough f g l :
  (length l <= f)%nat → (length l <= g)%nat → lossy_fuel f l = lossy_fuel g l.
Proof.
  revert g l. induction f as [|f IH]; intros [|g] [|b l] Hf Hg; simpl in *; try done; try lia.
  pose proof (step_shorter b l) as H. destruct (step b l) as [[c r]|r]; f_equal; apply IH; lia.
Qed.

(** ** The equations of the two decoders *)
Lemma from_utf8_cons b l :
  from_utf8 (b :: l) =
    match step b l with inl (c, r) => cons c <$> from_utf8 r | inr _ => None end.
Proof.
  unfold from_utf8. simpl. pose proof (step_shorter b l) as H.
  destruct (step b l) as [[c r]|r]; [|done]. f_equal. by apply decode_fuel_enough.
Qed.

Lemma lossy_cons b l :
  lossy (b :: l) =
    match step b l with inl (c, r) => c :: lossy r | inr r => REPLACEMENT :: lossy r end.
Proof.
  unfold lossy. simpl. pose proof (step_shorter b l) as H.
  destruct (step b l) as [[c r]|r]; f_equal; by apply lossy_fuel_enough.
Qed.

(** ** Round trip *)
Lemma encode_cons c s : encode (c :: s) = encode_char c ++ encode s.
Proof. done. Qed.

Lemma encode_app s t : encode (s ++ t) = encode s ++ encode t.
Proof. unfold encode. by rewrite map_app, concat_app. Qed.

Lemma encode_char_nonempty c : encode_char c ≠ [].
Proof. unfold encode_char. repeat case_step; done. Qed.

Lemma step_encode_char c k :
  char_ok c →
  ∃ b l, encode_char c ++ k = b :: l ∧ step b l = inl (c, k).
Proof.
  intros Hc. unfold char_ok in Hc. unfold encode_char. set (z := Z.of_N c).
  assert (Hz : 0 <= z < 55296 ∨ 57344 <= z < 1114112) by lia.
  assert (Hcz : c = Z.to_N z) by lia. clearbody z. subst c.
  repeat case_step; simpl; (eexists _, _; split; [done|]);
    unfold step, second3, second4, cont, within;
    repeat match goal with
    | |- context [?a <=? ?b] =>
        destruct (Z.leb_spec a b); simpl; try (exfalso; Z.to_euclidean_division_equations; lia)
    | |- context [?a =? ?b] =>
        destruct (Z.eqb_spec a b); simpl; try (exfalso; Z.to_euclidean_division_equations; lia)
    end; do 2 f_equal; f_equal; Z.to_euclidean_division_equations; lia.
Qed.

Lemma from_utf8_encode s : str_ok s → from_utf8 (encode s) = Some s.
Proof.
  induction 1 as [|c s Hc _ IH]; [done|]. rewrite encode_cons.
  destruct (step_encode_char c (encode s) Hc) as (b & l & -> & E).
  by rewrite from_utf8_cons, E, IH.
Qed.

Lemma lossy_encode s : str_ok s → lossy (encode s) = s.
Proof.
  induction 1 as [|c s Hc _ IH]; [done|]. rewrite encode_cons.
  destruct (step_encode_char c (encode s) Hc) as (b & l & -> & E).
  by rewrite lossy_cons, E, IH.
Qed.

(** On ASCII text a byte is a character. *)
Definition ascii (c : char) : Prop := (c < 128)%N.

Lemma encode_ascii s : Forall ascii s → encode s = map Z.of_N s.
Proof.
  induction 1 as [|c s Hc _ IH]; [done|]. rewrite encode_cons, IH. unfold ascii in Hc.
  unfold encode_char. destruct (Z.ltb_spec (Z.of_N c) 128); [done|lia].
Qed.

Lemma encode_char_ok c : char_ok c → bytes_ok (encode_char c).
Proof.
  unfold char_ok, encode_char, bytes_ok, byte_ok. intros Hc.
  repeat case_step; repeat constructor; Z.to_euclidean_division_equations; lia.
Qed.

Lemma encode_ok s : str_ok s → bytes_ok (encode s).
Proof.
  induction 1 as [|c s Hc _ IH]; [constructor|]. rewrite encode_cons.
  apply Forall_app. split; [by apply encode_char_ok|done].
Qed.

End Utf8.
