(* ===== verification/Num.v ===== *)
(** * Decimal numbers and IPv4 addresses

    [Display] and [FromStr] of the unsigned integers and of [Ipv4Addr] (RFC
    6943 strict dotted decimal, as the standard library parses it).  An
    address is its 32-bit number; [octets] are its network-order bytes. *)

From S2P Require Import Prelude Words RustStr.
Open Scope Z_scope.

(** ** Decimal *)
Lemma digit_val_chr d : 0 <= d < 10 → digit_val 10 (digit_chr d) = Some d.
Proof.
  intros H. unfold digit_val, digit_chr. destruct (Z.ltb_spec d 10); [|lia].
  rewrite Z2N.id by lia.
  destruct (Z.leb_spec 48 (d + 48)); [|lia]. destruct (Z.leb_spec (d + 48) 57); [|lia]. simpl.
  destruct (Z.ltb_spec (d + 48 - 48) 10); [|lia]. f_equal. lia.
Qed.

Lemma digit_chr_digit d : 0 <= d < 10 → is_ascii_digit (digit_chr d) = true.
Proof.
  intros H. unfold is_ascii_digit, digit_chr. destruct (Z.ltb_spec d 10); [|lia].
  apply andb_true_intro. split; apply N.leb_le; lia.
Qed.

Lemma parse_digits_app r w s t acc :
  parse_digits r w (s ++ t) acc = v ← parse_digits r w s acc; parse_digits r w t v.
Proof.
  revert acc. induction s as [|c s IH]; intros acc; simpl; [done|].
  destruct (digit_val r c); [|done]. simpl. case_match; [apply IH|done].
Qed.

Lemma dec_fuel_spec n w x :
  0 <= x < 2 ^ w → x < 2 ^ Z.of_nat n → (0 < n)%nat →
  parse_digits 10 w (dec_fuel n x) 0 = Some x ∧
  Forall (λ c, is_ascii_digit c = true) (dec_fuel n x) ∧ dec_fuel n x ≠ [].
Proof.
  revert x. induction n as [|n IH]; intros x Hx Hn Hpos; [lia|].
  rewrite Nat2Z.inj_succ, Z.pow_succ_r in Hn by lia. cbn [dec_fuel].
  destruct (Z.ltb_spec x 10) as [H10|H10].
  - cbn [parse_digits]. rewrite digit_val_chr by lia.
    destruct (Z.ltb_spec (0 * 10 + x) (2 ^ w)); [|lia].
    repeat split; [constructor; [apply digit_chr_digit; lia|constructor]|done].
  - pose proof (Z.mod_pos_bound x 10 ltac:(lia)) as Hm.
    pose proof (Z.div_mod x 10 ltac:(lia)) as Hd.
    destruct (IH (x / 10)) as (E & Hf & Hne); [lia|lia| |].
    { destruct n; [simpl in Hn; lia|lia]. }
    rewrite parse_digits_app, E. cbn [mbind option_bind parse_digits].
    rewrite digit_val_chr by done.
    destruct (Z.ltb_spec (x / 10 * 10 + x mod 10) (2 ^ w)); [|lia].
    repeat split; [f_equal; lia| |by destruct (dec_fuel n (x / 10))].
    apply Forall_app_2; [done|]. by constructor; [apply digit_chr_digit|].
Qed.

Lemma dec_spec w x :
  0 <= x < 2 ^ w →
  parse_digits 10 w (dec x) 0 = Some x ∧
  Forall (λ c, is_ascii_digit c = true) (dec x) ∧ dec x ≠ [].
Proof.
  intros H. apply dec_fuel_spec; [done| |lia].
  rewrite Nat2Z.inj_succ, Z2Nat.id by apply Z.log2_nonneg.
  destruct (Z.eq_dec x 0) as [->|]; [done|]. apply Z.log2_spec. lia.
Qed.

(** Printing then parsing an unsigned integer of width [w]. *)
Lemma parse_uint_dec w x : 0 <= x < 2 ^ w → parse_uint w (dec x) = Some x.
Proof.
  intros H. destruct (dec_spec w x H) as (E & Hf & Hne). unfold parse_uint, from_str_radix.
  destruct (dec x) as [|c s] eqn:Ed; [done|].
  assert ((c =? chr "+")%N = false) as ->; [|done].
  apply Forall_cons in Hf as [Hc _]. apply N.eqb_neq. intros ->. done.
Qed.

Lemma parse_digits_bound r w s : ∀ acc v, 0 <= r → 0 <= acc < 2 ^ w →
  parse_digits r w s acc = Some v → 0 <= v < 2 ^ w.
Proof.
  induction s as [|c s IH]; intros acc v Hr Hacc; simpl; [by intros [= ->]|].
  destruct (digit_val r c) as [d|] eqn:Ed; [|done]. case_match eqn:E; [|done].
  apply IH; [done|]. apply Z.ltb_lt in E. split; [|done].
  assert (0 <= d); [|nia]. revert Ed. unfold digit_val.
  repeat case_match; intros [= <-];
    repeat match goal with
    | H : (_ && _) = true |- _ => apply andb_prop in H as [??]
    | H : (_ <=? _) = true |- _ => apply Z.leb_le in H
    end; lia.
Qed.

Lemma parse_uint_bound w s v : 0 <= w → parse_uint w s = Some v → 0 <= v < 2 ^ w.
Proof.
  intros Hw. unfold parse_uint, from_str_radix.
  assert (0 <= 0 < 2 ^ w) as H0 by (split; [lia|apply Z.pow_pos_nonneg; lia]).
  destruct s as [|c s]; [done|]. destruct (c =? chr "+")%N.
  - destruct s; [done|]. by apply parse_digits_bound.
  - by apply parse_digits_bound.
Qed.

Module Ipv4.

(** [Ipv4Addr], as its number ([u32::from]). *)
Definition octets (ip : Z) : bytes := be_bytes 4 ip.
Definition of_octets (l : bytes) : Z := of_be_bytes l.
Definition new (a b c d : Z) : Z := of_octets [a; b; c; d].
Definition UNSPECIFIED : Z := 0.

Definition ip_ok (ip : Z) : Prop := 0 <= ip < 2 ^ 32.

(** One decimal octet: at most three digits, no leading zero. *)
Definition parse_octet (s : str) : option Z :=
  if bool_decide (s = []) || negb (forallb is_ascii_digit s) || (3 <? length s)%nat then None
  else if (1 <? length s)%nat && bool_decide (head s = Some (chr "0")) then None
  else parse_digits 10 8 s 0.

(** [str::parse::<Ipv4Addr>] *)
Definition parse (s : str) : option Z :=
  match split_char (chr ".") s with
  | [a; b; c; d] =>
      a ← parse_octet a; b ← parse_octet b; c ← parse_octet c; d ← parse_octet d;
      Some (new a b c d)
  | _ => None
  end.

(** [Display] *)
Definition show (ip : Z) : str := join (lit ".") (map dec (octets ip)).

Lemma octet_roundtrip b : byte_ok b →
  parse_octet (dec b) = Some b ∧ no_char (chr ".") (dec b).
Proof.
  unfold byte_ok. intros Hb.
  assert (Forall (λ i, parse_octet (dec (Z.of_nat i)) = Some (Z.of_nat i) ∧
    no_char (chr ".") (dec (Z.of_nat i))) (seq 0 256)) as H.
  { apply (bool_decide_unpack _). vm_compute. done. }
  rewrite Forall_forall in H. specialize (H (Z.to_nat b)).
  rewrite Z2Nat.id in H by lia. apply H, elem_of_seq. lia.
Qed.

Lemma octets_ok ip : bytes_ok (octets ip).
Proof. apply be_bytes_ok. Qed.

Lemma of_octets_octets ip : ip_ok ip → of_octets (octets ip) = ip.
Proof. intros H. apply of_be_be_bytes_small. done. Qed.

Lemma octets_of_octets l : length l = 4%nat → bytes_ok l → octets (of_octets l) = l.
Proof. intros Hl H. unfold octets, of_octets. rewrite <- Hl. by apply be_bytes_of_be. Qed.

Lemma of_octets_ok l : length l = 4%nat → bytes_ok l → ip_ok (of_octets l).
Proof. intros Hl H. pose proof (of_be_bytes_bound l H) as Hb. rewrite Hl in Hb. exact Hb. Qed.

Lemma parse_show ip : ip_ok ip → parse (show ip) = Some ip.
Proof.
  intros H. unfold parse, show. pose proof (octets_ok ip) as Ho.
  rewrite <- (of_octets_octets ip H) at 2.
  destruct (octets ip) as [|a [|b [|c [|d [|e l]]]]] eqn:E;
    try (apply (f_equal length) in E; unfold octets in E; rewrite length_be_bytes in E; done).
  repeat (apply Forall_cons in Ho as [?%octet_roundtrip Ho]). destruct_and!.
  cbn [map]. change (lit ".") with [chr "."].
  rewrite split_char_join; [|done|repeat constructor; done].
  repeat match goal with H : parse_octet _ = _ |- _ => rewrite H; clear H end. done.
Qed.

Lemma parse_octet_ok s b : parse_octet s = Some b → byte_ok b.
Proof.
  unfold parse_octet. case_match; [done|]. case_match; [done|].
  intros E. apply parse_digits_bound in E; [done|done|]. split; [lia|done].
Qed.

Lemma parse_ok s ip : parse s = Some ip → ip_ok ip.
Proof.
  unfold parse. destruct (split_char _ s) as [|a [|b [|c [|d [|e l]]]]]; try done.
  intros H. repeat match goal with
  | H : mbind _ ?x = Some _ |- _ => destruct x eqn:?; simpl in H; [|done]
  end.
  injection H as <-. apply of_octets_ok; [done|].
  repeat constructor; eapply parse_octet_ok; eassumption.
Qed.

End Ipv4.
