(* ===== verification/Config.v ===== *)
(** * The configuration store (src/config.rs)

    An INI text is parsed line by line into nested maps.  The section closes
    with what the other components rely on: the value of a key is its last
    assignment, and comments, blank lines and line endings do not matter. *)

From S2P Require Import Prelude RustStr.
Open Scope N_scope.

Definition PATH : str := lit "/etc/lwrt/config".

(** [BTreeMap<String, BTreeMap<String, String>>]; the order of the keys only
    matters to the code that iterates (see [btree_iter] in [Wg.v]). *)
Record Config := mk_config { sections : gmap str (gmap str str) }.

Definition default_config : Config := mk_config ∅.

(** [entry(name).or_default()], then an in-place update of the value. *)
Definition entry_or_default (name : str) (m : gmap str (gmap str str)) : gmap str str :=
  match m !! name with Some sect => sect | None => ∅ end.

(** The body of the loop of [Config::parse]: the config under construction and
    the current section. *)
Definition parse_line (st : Config * str) (raw : str) : Config * str :=
  let '(cfg, cur) := st in
  let line := trim (before_char (chr "#") raw) in
  match line with
  | [] => (cfg, cur)
  | _ =>
    match strip_prefix [chr "["] line ≫= strip_suffix [chr "]"] with
    | Some name =>
      let cur := trim name in
      (mk_config (<[cur := entry_or_default cur (sections cfg)]> (sections cfg)), cur)
    | None =>
      match split_once (chr "=") line with
      | Some (k, v) =>
        (mk_config (<[cur := <[trim k := trim v]> (entry_or_default cur (sections cfg))]>
           (sections cfg)), cur)
      | None => (cfg, cur)
      end
    end
  end.

Arguments parse_line : simpl never.

Definition parse_lines (st : Config * str) (ls : list str) : Config * str :=
  foldl parse_line st ls.

Definition parse (text : str) : Config :=
  (parse_lines (default_config, []) (lines text)).1.

Definition get (cfg : Config) (section key : str) : option str :=
  match sections cfg !! section with
  | Some sect => sect !! key
  | None => None
  end.

Definition get_or (cfg : Config) (section key default : str) : str :=
  match get cfg section key with Some v => v | None => default end.

Definition DEFAULT : str := lit
"# LWRT default configuration
[system]
hostname = lwrt

[admin]
# Web UI password. Set this to require login (recommended). You may instead
# store password_sha256 = <hex of sha256(password)> to avoid a cleartext pw.
# password = changeme

[lan]
ifname = br-lan
ipaddr = 192.168.1.1
netmask = 255.255.255.0

[dhcp]
enabled = 1
start = 192.168.1.100
limit = 100
leasetime = 43200

[wan]
ifname = eth0.2
proto = dhcp

[wifi]
ssid = LWRT
encryption = psk2
key = changeme0
channel = auto

[wireguard]
enabled = 0
listen_port = 51820
address = 10.7.0.1/24

[firewall]
masq = 1
# port forwards: comma-separated proto:wan_dport:dest_ip:dest_port
# forward = tcp:8080:192.168.1.10:80, udp:5000:192.168.1.20:5000
".

Definition with_defaults : Config := parse DEFAULT.

(** [Config::load], given the outcome of reading [PATH]: an unreadable file
    gives the defaults. *)
Definition load (file : option str) : Config :=
  match file with
  | Some t => parse t
  | None => with_defaults
  end.

(** ** What a line means *)
Inductive line_kind :=
| LBlank
| LHeader (name : str)
| LBind (k v : str)
| LJunk.

#[global] Instance line_kind_eq_dec : EqDecision line_kind.
Proof. solve_decision. Defined.

(** The abstract reading of one line, independent of any state. *)
Definition classify (raw : str) : line_kind :=
  let line := trim (before_char (chr "#") raw) in
  match line with
  | [] => LBlank
  | _ =>
    match strip_prefix [chr "["] line ≫= strip_suffix [chr "]"] with
    | Some name => LHeader (trim name)
    | None =>
      match split_once (chr "=") line with
      | Some (k, v) => LBind (trim k) (trim v)
      | None => LJunk
      end
    end
  end.

(** A document is a sequence of assignments [(section, key, value)]. *)
Abbreviation binding := (str * str * str)%type.

Definition next_section (cur : str) (raw : str) : str :=
  match classify raw with LHeader n => n | _ => cur end.

Definition line_bindings (cur : str) (raw : str) : list binding :=
  match classify raw with LBind k v => [(cur, k, v)] | _ => [] end.

Fixpoint bindings (cur : str) (ls : list str) : list binding :=
  match ls with
  | [] => []
  | l :: ls' => line_bindings cur l ++ bindings (next_section cur l) ls'
  end.

Fixpoint final_section (cur : str) (ls : list str) : str :=
  match ls with
  | [] => cur
  | l :: ls' => final_section (next_section cur l) ls'
  end.

(** The section names the document opens, in order. *)
Definition line_headers (raw : str) : list str :=
  match classify raw with LHeader n => [n] | _ => [] end.
Definition headers (ls : list str) : list str := ls ≫= line_headers.

(** The value a sequence of assignments leaves for a key, over an old one. *)
Definition upd_value (s k : str) (acc : option str) (b : binding) : option str :=
  let '(s', k', v) := b in if decide (s' = s ∧ k' = k) then Some v else acc.
Definition last_value (s k : str) (acc : option str) (bs : list binding) : option str :=
  foldl (upd_value s k) acc bs.

Lemma last_value_app s k acc a b :
  last_value s k acc (a ++ b) = last_value s k (last_value s k acc a) b.
Proof. apply foldl_app. Qed.

(** The keys a sequence of assignments writes. *)
Definition binding_key (b : binding) : str * str := (b.1.1, b.1.2).
Definition keys_of (bs : list binding) : list (str * str) := binding_key <$> bs.

Lemma last_value_notin s k acc bs : (s, k) ∉ keys_of bs → last_value s k acc bs = acc.
Proof.
  revert acc. induction bs as [|[[s' k'] v] bs IH]; intros acc H; [done|].
  unfold keys_of in H. rewrite fmap_cons, not_elem_of_cons in H. destruct H as [Hne H].
  simpl. rewrite IH by done. case_decide as Hd; [|done]. destruct Hd as [-> ->]. by destruct Hne.
Qed.

Lemma bindings_app cur a b :
  bindings cur (a ++ b) = bindings cur a ++ bindings (final_section cur a) b.
Proof.
  revert cur. induction a as [|l a IH]; intros cur; simpl; [done|]. by rewrite IH, app_assoc.
Qed.

Lemma final_section_app cur a b :
  final_section cur (a ++ b) = final_section (final_section cur a) b.
Proof. revert cur. induction a as [|l a IH]; intros cur; simpl; [done|]. by rewrite IH. Qed.

(** ** [parse] computes the last assignment *)
Lemma get_insert_section cfg cur sect s k :
  get (mk_config (<[cur := sect]> (sections cfg))) s k
  = if decide (cur = s) then sect !! k else get cfg s k.
Proof. unfold get. simpl. rewrite lookup_insert. by case_decide. Qed.

Lemma get_entry cfg s k : entry_or_default s (sections cfg) !! k = get cfg s k.
Proof. unfold entry_or_default, get. by destruct (sections cfg !! s). Qed.

Lemma parse_line_section cfg cur raw :
  (parse_line (cfg, cur) raw).2 = next_section cur raw.
Proof.
  unfold parse_line, next_section, classify.
  destruct (trim _) as [|x l]; [done|].
  destruct (_ ≫= _); [done|]. by destruct (split_once _ _) as [[??]|].
Qed.

Lemma parse_line_get cfg cur raw s k :
  get (parse_line (cfg, cur) raw).1 s k
  = last_value s k (get cfg s k) (line_bindings cur raw).
Proof.
  unfold parse_line, line_bindings, classify.
  destruct (trim _) as [|x l]; [done|].
  destruct (_ ≫= _) as [name|].
  - simpl. rewrite get_insert_section. case_decide; subst; [|done]. apply get_entry.
  - destruct (split_once _ _) as [[k' v']|]; [|done].
    simpl. rewrite get_insert_section. case_decide as H; subst.
    + rewrite lookup_insert, get_entry. repeat case_decide; naive_solver.
    + by rewrite decide_False by naive_solver.
Qed.

Lemma parse_lines_get ls cfg cur s k :
  get (parse_lines (cfg, cur) ls).1 s k = last_value s k (get cfg s k) (bindings cur ls).
Proof.
  revert cfg cur. induction ls as [|l ls IH]; intros cfg cur; [done|].
  unfold parse_lines in *. simpl.
  destruct (parse_line (cfg, cur) l) as [cfg' cur'] eqn:E.
  rewrite IH, last_value_app. f_equal.
  - rewrite <- parse_line_get, E. done.
  - f_equal. rewrite <- (parse_line_section cfg), E. done.
Qed.

Lemma parse_get text s k :
  get (parse text) s k = last_value s k None (bindings [] (lines text)).
Proof. unfold parse. by rewrite parse_lines_get. Qed.

(** ** The type of a parsed configuration *)

(** Text that a line of the file can carry back: trimmed, on one line, without
    the comment sign. *)
Definition clean (s : str) : Prop := trimmed s ∧ no_char LF s ∧ no_char (chr "#") s.
#[global] Instance clean_dec s : Decision (clean s).
Proof. unfold clean. apply _. Defined.

Definition section_typed (sect : gmap str str) : Prop :=
  map_Forall (λ k v, clean k ∧ no_char (chr "=") k ∧ clean v) sect.
Definition well_typed (cfg : Config) : Prop :=
  map_Forall (λ name sect, clean name ∧ section_typed sect) (sections cfg).

Lemma no_char_trim c s : no_char c s → no_char c (trim s).
Proof.
  destruct (trim_spec s) as (a & b & E & _). rewrite E at 1. intros [_ [H _]%no_char_app]%no_char_app. exact H.
Qed.

Lemma clean_trim s : no_char LF s → no_char (chr "#") s → clean (trim s).
Proof. intros H1 H2. split; [apply trim_trimmed|]. split; by apply no_char_trim. Qed.

Lemma entry_typed cur m : map_Forall (λ name sect, clean name ∧ section_typed sect) m → section_typed (entry_or_default cur m).
Proof. intros H. unfold entry_or_default. destruct (m !! cur) as [sect|] eqn:E; [by apply (H _ _ E)|apply map_Forall_empty]. Qed.

Lemma parse_line_typed cfg cur raw :
  well_typed cfg → clean cur → no_char LF raw →
  well_typed (parse_line (cfg, cur) raw).1 ∧ clean (parse_line (cfg, cur) raw).2.
Proof.
  intros Hc Hcur Hraw. unfold parse_line.
  assert (Hl : no_char LF (before_char (chr "#") raw)).
  { destruct (before_char_prefix (chr "#") raw) as [k E]. rewrite E in Hraw. by apply no_char_app in Hraw as [? _]. }
  pose proof (clean_trim _ Hl (before_char_free (chr "#") raw)) as (_ & H1 & H2).
  destruct (trim _) as [|x l]; [by split|]. set (line := x :: l) in *.
  destruct (strip_prefix [chr "["] line ≫= strip_suffix [chr "]"]) as [name|] eqn:E.
  - apply bind_Some in E as (r & Er & En). apply strip_prefix_Some in Er. apply strip_suffix_Some in En.
    assert (Hn : clean (trim name)).
    { rewrite Er, En in H1, H2. apply no_char_app in H1 as [_ [H1 _]%no_char_app].
      apply no_char_app in H2 as [_ [H2 _]%no_char_app]. by apply clean_trim. }
    split; [|done]. apply map_Forall_insert_2; [|done]. split; [done|by apply entry_typed].
  - destruct (split_once (chr "=") line) as [[k v]|] eqn:Es; [|by split]. split; [|done].
    apply split_once_Some in Es as [Es Hk]. rewrite Es in H1, H2.
    apply no_char_app in H1 as [H1k [_ H1v]%Forall_cons]. apply no_char_app in H2 as [H2k [_ H2v]%Forall_cons].
    apply map_Forall_insert_2; [|done]. split; [done|]. apply map_Forall_insert_2; [|by apply entry_typed].
    split; [by apply clean_trim|]. split; [by apply no_char_trim|by apply clean_trim].
Qed.

(** C40. Whatever the text of the file is, every section name, key and value of
    the parsed configuration is trimmed text on one line without a comment sign,
    and no key holds an equals sign: a value that the applets read can be
    written back on a line of its own. *)
Theorem parse_well_typed text : well_typed (parse text).
Proof.
  unfold parse, parse_lines.
  assert (H : ∀ ls st, Forall (no_char LF) ls → well_typed st.1 → clean st.2 →
    well_typed (foldl parse_line st ls).1).
  { induction ls as [|l ls IH]; intros [cfg cur] Hls H1 H2; [done|].
    apply Forall_cons in Hls as [Hl Hls]. destruct (parse_line_typed cfg cur l H1 H2 Hl). by apply IH. }
  apply H; [apply lines_free|apply map_Forall_empty|]. apply (bool_decide_unpack _). vm_compute. exact I.
Qed.
