(* ===== verification/Settings.v ===== *)
(** * Settings persistence of the admin UI (src/httpd.rs, [apply_settings])

    The line-preserving rewrite of the configuration text.  The main result is
    that the rewrite refines an update of the parsed store of [Config.v]: after
    it, [Config.get] answers the new value of every updated key and the old
    value of every other one. *)

From S2P Require Import Prelude RustStr.
From S2P Require Config.
Import Config (classify, bindings, last_value, keys_of, next_section, final_section,
  headers, line_kind(..), line_kind_eq_dec).
Open Scope N_scope.

Definition SECRET_KEYS : list str :=
  [lit "key"; lit "password"; lit "password_sha256"; lit "private_key"; lit "psk"].

Definition is_secret_key (key : str) : bool := bool_decide (key ∈ SECRET_KEYS).

(** [(section, key, value)]. *)
Abbreviation update := (str * str * str)%type.

Definition split_kv (raw : str) : option (str * str) :=
  let line := trim (before_char (chr "#") raw) in
  if negb (is_nonempty line) || starts_with [chr "["] line then None
  else match split_once (chr "=") line with
       | Some (k, v) => Some (trim k, trim v)
       | None => None
       end.

(** [format!("{k} = {v}\n")]. *)
Definition kv_line (k v : str) : str := k ++ lit " = " ++ v.

(** The loop of [flush_section]: [updates.remove(i)] keeps the index, so the
    loop visits every update once, in order. *)
Fixpoint flush_section (out section : str) (updates : list update) : str * list update :=
  match updates with
  | [] => (out, [])
  | (s, k, v) :: rest =>
    if decide (s = section) then flush_section (out ++ kv_line k v ++ [LF]) section rest
    else let '(out, rest') := flush_section out section rest in (out, (s, k, v) :: rest')
  end.

(** [updates.iter().position(..)] followed by [updates.remove(pos)]. *)
Fixpoint take_update (section key : str) (updates : list update)
    : option (str * list update) :=
  match updates with
  | [] => None
  | (s, k, v) :: rest =>
    if decide (s = section ∧ k = key) then Some (v, rest)
    else match take_update section key rest with
         | Some (v', rest') => Some (v', (s, k, v) :: rest')
         | None => None
         end
  end.

(** [&raw[..raw.len() - raw.trim_start().len()]]. *)
Definition indent_of (raw : str) : str := take (length raw - length (trim_start raw))%nat raw.

(** One line of the rewriting loop. *)
Definition settings_line (st : str * str * list update) (raw : str) : str * str * list update :=
  let '(out, section, updates) := st in
  match strip_prefix [chr "["] (trim raw) ≫= strip_suffix [chr "]"] with
  | Some name =>
    let '(out, updates) := flush_section out section updates in
    (out ++ raw ++ [LF], trim name, updates)
  | None =>
    match split_kv raw with
    | Some (k, _) =>
      match take_update section k updates with
      | Some (v, updates') =>
        (out ++ (indent_of raw ++ kv_line k v) ++ [LF], section, updates')
      | None => (out ++ raw ++ [LF], section, updates)
      end
    | None => (out ++ raw ++ [LF], section, updates)
    end
  end.

(** The distinct sections of the remaining updates, in order. *)
Fixpoint seen_sections (seen : list str) (updates : list update) : list str :=
  match updates with
  | [] => seen
  | (s, _, _) :: rest =>
    seen_sections (if decide (s ∈ seen) then seen else seen ++ [s]) rest
  end.

Definition create_section (st : str * list update) (s : str) : str * list update :=
  let '(out, updates) := st in
  flush_section (out ++ [LF] ++ (lit "[" ++ s ++ lit "]") ++ [LF]) s updates.

Definition keep_update (u : update) : bool :=
  let '(_, k, v) := u in negb (is_secret_key k && negb (is_nonempty (trim v))).

Definition apply_settings (old : str) (updates : list update) : str :=
  let updates := List.filter keep_update updates in
  let '(out, section, updates) := foldl settings_line ([], [], updates) (lines old) in
  let '(out, updates) := flush_section out section updates in
  (foldl create_section (out, updates) (seen_sections [] updates)).1.

Arguments settings_line : simpl never.
Arguments create_section : simpl never.

(** ** Well-formed updates and documents *)
Record clean_update (u : update) : Prop := {
  cu_section : no_char LF u.1.1 ∧ no_char (chr "#") u.1.1 ∧ trimmed u.1.1;
  cu_key : no_char LF u.1.2 ∧ no_char (chr "#") u.1.2 ∧ no_char (chr "=") u.1.2
           ∧ trimmed u.1.2;
  cu_key_start : u.1.2 ≠ [] ∧ starts_with [chr "["] u.1.2 = false;
  cu_value : no_char LF u.2 ∧ no_char (chr "#") u.2 ∧ trimmed u.2;
}.

(** A line that starts like a section header carries no comment: only then do
    the parser (which removes comments first) and the rewriter (which does not)
    agree on where sections begin. *)
Definition plain_header (raw : str) : Prop :=
  starts_with [chr "["] (trim raw) = true → no_char (chr "#") raw.

(** No section is opened twice and no key is assigned twice in a section. *)
Record plain_document (text : str) : Prop := {
  pd_headers : Forall plain_header (lines text);
  pd_sections : NoDup ([] :: headers (lines text));
  pd_keys : NoDup (keys_of (bindings [] (lines text)));
}.

#[global] Instance clean_update_dec u : Decision (clean_update u).
Proof.
  refine (cast_if (decide ((no_char LF u.1.1 ∧ no_char (chr "#") u.1.1 ∧ trimmed u.1.1) ∧
    (no_char LF u.1.2 ∧ no_char (chr "#") u.1.2 ∧ no_char (chr "=") u.1.2 ∧ trimmed u.1.2) ∧
    (u.1.2 ≠ [] ∧ starts_with [chr "["] u.1.2 = false) ∧
    (no_char LF u.2 ∧ no_char (chr "#") u.2 ∧ trimmed u.2))));
  [constructor; tauto|intros []; tauto].
Defined.

#[global] Instance plain_header_dec raw : Decision (plain_header raw).
Proof. unfold plain_header. apply _. Defined.

#[global] Instance plain_document_dec text : Decision (plain_document text).
Proof.
  refine (cast_if (decide (Forall plain_header (lines text) ∧
    NoDup ([] :: headers (lines text)) ∧ NoDup (keys_of (bindings [] (lines text))))));
  [constructor; tauto|intros []; tauto].
Defined.

(** The value an update list asks for. *)
Definition wanted (s k : str) (U : list update) : option str := fst <$> take_update s k U.

(** ** Update lists *)

(** Case analysis on key comparisons and on the lookups they guard. *)
Ltac key_step :=
  match goal with
  | |- context [decide ?P] => destruct (decide P)
  | H : context [decide ?P] |- _ => destruct (decide P)
  | H : context [take_update ?s ?k ?U] |- _ =>
    destruct (take_update s k U) as [[??]|]
  | |- context [take_update ?s ?k ?U] =>
    destruct (take_update s k U) as [[??]|]
  end; destruct_and?; subst; simpl in *; try done; try congruence; try (exfalso; tauto).
Ltac key_cases := repeat key_step.

Lemma take_update_spec s k U v U' :
  take_update s k U = Some (v, U') →
  ∀ s' k', wanted s' k' U = if decide (s' = s ∧ k' = k) then Some v
                            else wanted s' k' U'.
Proof.
  revert U'. induction U as [|[[s0 k0] v0] U IH]; intros U'; simpl; [done|].
  unfold wanted. simpl. case_decide as H0.
  - intros [= <- <-] s' k'. destruct H0 as [-> ->]. key_cases.
  - destruct (take_update s k U) as [[v1 U1]|] eqn:E; [|done]. intros [= <- <-] s' k'.
    specialize (IH U1 eq_refl s' k'). unfold wanted in IH. simpl. key_cases.
Qed.

Lemma take_update_subset s k U v U' :
  take_update s k U = Some (v, U') → (s, k, v) ∈ U ∧ U' ⊆ U.
Proof.
  revert U'. induction U as [|[[s0 k0] v0] U IH]; intros U'; simpl; [done|].
  case_decide as H0.
  - intros [= <- <-]. destruct H0 as [-> ->]. split; [by left|intros x; by right].
  - destruct (take_update s k U) as [[v1 U1]|] eqn:E; [|done]. intros [= <- <-].
    destruct (IH U1 eq_refl) as [H1 H2]. split; [by right|].
    intros x [->|Hx]%elem_of_cons; [by left|right; by apply H2].
Qed.

Lemma take_update_keys s k U v U' :
  take_update s k U = Some (v, U') → keys_of U ≡ₚ (s, k) :: keys_of U'.
Proof.
  revert U'. induction U as [|[[s0 k0] v0] U IH]; intros U'; simpl; [done|].
  case_decide as H0.
  - intros [= <- <-]. by destruct H0 as [-> ->].
  - destruct (take_update s k U) as [[v1 U1]|] eqn:E; [|done]. intros [= <- <-].
    unfold keys_of in *. rewrite !fmap_cons. simpl. rewrite (IH U1) by done.
    constructor.
Qed.

Lemma wanted_None s k U : wanted s k U = None ↔ (s, k) ∉ keys_of U.
Proof.
  unfold wanted, keys_of.
  induction U as [|[[s0 k0] v0] U IH]; simpl.
  { split; [intros _ H; by apply elem_of_nil in H|done]. }
  rewrite not_elem_of_cons, <- IH. unfold Config.binding_key. simpl.
  case_decide as H0; [destruct H0 as [-> ->]; simpl; split; [done|by intros [[] _]]|].
  assert ((s, k) ≠ (s0, k0)) by (intros [= -> ->]; tauto).
  destruct (take_update s k U) as [[??]|]; simpl; naive_solver.
Qed.

(** ** Flushing a section *)
Definition flush_lines (section : str) (U : list update) : list str :=
  (λ u : update, kv_line u.1.2 u.2) <$> filter (λ u, u.1.1 = section) U.
Definition flush_rest (section : str) (U : list update) : list update :=
  filter (λ u, u.1.1 ≠ section) U.

Lemma flush_section_spec out section U :
  flush_section out section U = (out ++ unlines (flush_lines section U), flush_rest section U).
Proof.
  unfold flush_lines, flush_rest. revert out.
  induction U as [|[[s k] v] U IH]; intros out; simpl; [by rewrite app_nil_r|].
  rewrite !filter_cons. simpl. case_decide as Hs; subst.
  - rewrite IH. rewrite decide_False by naive_solver. f_equal.
    rewrite fmap_cons. simpl. unfold unlines. rewrite fmap_cons. simpl.
    by rewrite <- !app_assoc.
  - rewrite IH. by rewrite decide_True by done.
Qed.

Lemma wanted_flush_rest s k section U :
  wanted s k (flush_rest section U) = if decide (s = section) then None else wanted s k U.
Proof.
  unfold wanted, flush_rest. induction U as [|[[s0 k0] v0] U IH]; simpl.
  - by case_decide.
  - rewrite filter_cons. simpl. destruct (decide (s0 = section)) as [->|Hs].
    + rewrite decide_False by tauto. rewrite IH. key_cases.
    + rewrite decide_True by done. simpl. key_cases.
Qed.

(** ** How the parser reads the rewritten lines *)
Lemma before_char_snoc_blank c l b :
  no_char c [b] → is_whitespace b = true →
  trim (before_char c (l ++ [b])) = trim (before_char c l).
Proof.
  intros Hc Hb. destruct (decide (no_char c l)) as [Hl|Hl].
  - rewrite !before_char_no_char by (done || (apply no_char_app; auto)).
    by apply trim_app_blank_r; simpl; rewrite Hb.
  - destruct (split_once c l) as [[x y]|] eqn:E; [|by apply split_once_None in E].
    apply split_once_Some in E as [-> Hx]. rewrite <- app_assoc. simpl.
    by rewrite !before_char_app.
Qed.

Lemma classify_strip_cr l : classify (strip_cr l) = classify l.
Proof.
  destruct (strip_cr_cases l) as [E|E]; [by rewrite E|].
  assert (trim (before_char (chr "#") l) = trim (before_char (chr "#") (strip_cr l))) as H.
  { rewrite E at 1. rewrite before_char_snoc_blank; [done| |done]. by repeat constructor. }
  unfold classify. by rewrite H.
Qed.

Lemma bindings_strip_cr cur ls : bindings cur (strip_cr <$> ls) = bindings cur ls.
Proof.
  revert cur. induction ls as [|l ls IH]; intros cur; simpl; [done|].
  unfold Config.line_bindings, next_section. rewrite classify_strip_cr. f_equal. apply IH.
Qed.

(** The rewriter's test for a section header. *)
Definition settings_header (raw : str) : option str :=
  strip_prefix [chr "["] (trim raw) ≫= strip_suffix [chr "]"].

Lemma trim_prefix_head c l x t :
  trim (before_char c l) = x :: t → ∃ u, trim l = x :: u.
Proof.
  intros H. destruct (before_char_prefix c l) as [r Hr].
  destruct (trim_spec (before_char c l)) as (a & b & Hb & Ha & _ & [Hx _]).
  rewrite H in Hb, Hx. specialize (Hx x t eq_refl).
  destruct (trim_spec l) as (a' & b' & Hl & Ha' & Hb' & [Hx' _]).
  assert (drop_while is_whitespace l = x :: t ++ b ++ r) as Hd.
  { rewrite Hr, Hb, <- !app_assoc. rewrite drop_while_app_all by done. simpl. by rewrite Hx. }
  rewrite Hl, drop_while_app_all in Hd by done.
  destruct (trim l) as [|y u].
  - simpl in Hd. rewrite drop_while_all in Hd by done. done.
  - simpl in Hd. rewrite (Hx' y u eq_refl) in Hd. injection Hd as -> _. by exists u.
Qed.

Lemma starts_with_head c s : starts_with [c] s = true ↔ ∃ u, s = c :: u.
Proof.
  unfold starts_with. destruct s as [|x s]; simpl; [split; [done|by intros [? ?]]|].
  destruct (N.eqb_spec c x); subst; split; try done; [by eexists|].
  intros [u [= -> _]]. done.
Qed.

Lemma settings_header_classify raw :
  plain_header raw →
  match settings_header raw with
  | Some n => classify raw = LHeader (trim n)
  | None => ∀ n, classify raw ≠ LHeader n
  end.
Proof.
  intros Hp. unfold plain_header in Hp.
  destruct (starts_with [chr "["] (trim raw)) eqn:E.
  - unfold classify. rewrite before_char_no_char by auto.
    unfold settings_header. apply starts_with_head in E as [u E]. rewrite E.
    simpl. destruct (strip_suffix _ u); [done|]. intros n.
    by destruct (split_once _ _) as [[??]|].
  - assert (settings_header raw = None) as ->.
    { unfold settings_header. unfold starts_with in E. revert E.
      by destruct (strip_prefix [chr "["] (trim raw)). }
    intros n. unfold classify.
    destruct (trim (before_char (chr "#") raw)) as [|x t] eqn:Ht; [done|].
    destruct (strip_prefix [chr "["] (x :: t)) as [u|] eqn:Hs; simpl.
    + exfalso. apply strip_prefix_Some in Hs. injection Hs as -> ->.
      apply trim_prefix_head in Ht as [v Hv].
      assert (starts_with [chr "["] (trim raw) = true) by (apply starts_with_head; by exists v).
      congruence.
    + by destruct (split_once _ _) as [[??]|].
Qed.

Lemma split_kv_classify raw k v :
  settings_header raw = None → plain_header raw → split_kv raw = Some (k, v) →
  classify raw = LBind k v.
Proof.
  intros Hh Hp. unfold split_kv, classify.
  destruct (trim (before_char _ raw)) as [|x t] eqn:E; [done|]. simpl negb.
  unfold starts_with. destruct (strip_prefix [chr "["] (x :: t)) as [u|] eqn:Hs; [done|].
  simpl orb. cbn [mbind option_bind]. destruct (split_once _ _) as [[k' v']|]; [|done].
  by intros [= -> ->].
Qed.

(** A line that binds a key not starting with ["["] is seen as such by the rewriter. *)
Lemma classify_split_kv raw k v :
  classify raw = LBind k v → starts_with [chr "["] k = false → k ≠ [] →
  split_kv raw = Some (k, v).
Proof.
  unfold split_kv, classify. destruct (trim (before_char _ raw)) as [|x t] eqn:E; [done|].
  destruct (strip_prefix [chr "["] (x :: t)) as [u|] eqn:Hs; cbn [mbind option_bind].
  - destruct (strip_suffix _ u); [done|].
    destruct (split_once _ _) as [[k' v']|] eqn:Ho; [|done]. intros [= <- <-] Hk Hne. exfalso.
    apply split_once_Some in Ho as [Ho _]. apply strip_prefix_Some in Hs.
    destruct k' as [|y k']; [by destruct Hne|].
    rewrite Hs in Ho. injection Ho as <- _.
    destruct (trim_spec (chr "[" :: k')) as (a & b & Hab & Ha & _ & _).
    destruct a as [|w a].
    + destruct (trim (chr "[" :: k')) as [|z l] eqn:Hz; [by destruct Hne|].
      simpl in Hab. injection Hab as <- _.
      assert (starts_with [chr "["] (chr "[" :: l) = true) by (apply starts_with_head; by eexists).
      congruence.
    + simpl in Hab. injection Hab as <- _. done.
  - destruct (split_once _ _) as [[k' v']|]; [|done]. intros [= -> ->] _ _.
    simpl negb. unfold starts_with. by rewrite Hs.
Qed.

(** The line written for an update reads back as its assignment. *)
Lemma trim_kv_line k v :
  trimmed k → k ≠ [] → trimmed v →
  ∃ t, trim (kv_line k v) = k ++ chr " " :: chr "=" :: t ∧ trim t = v.
Proof.
  intros Hk Hne Hv. unfold kv_line. destruct (decide (v = [])) as [->|Hvne].
  - exists []. split; [|done].
    apply (trim_unique _ [] (k ++ lit " =") [chr " "]); [by rewrite <- app_assoc|done|done|].
    apply trimmed_app; [done|done|done|]. intros x l H.
    by apply (app_inj_tail [chr " "] l) in H as [_ <-].
  - exists (chr " " :: v). split.
    + apply trimmed_trim. apply trimmed_app; [done|done|done|]. intros x l H.
      destruct v as [|z v _] using rev_ind; [done|].
      apply (app_inj_tail (lit " = " ++ v) l) in H as [_ <-]. by eapply Hv.
    + apply (trim_unique _ [chr " "] v []); [|done|done|done]. by rewrite app_nil_r.
Qed.

Lemma classify_kv_line indent k v s :
  blank indent = true → no_char (chr "#") indent → clean_update (s, k, v) →
  classify (indent ++ kv_line k v) = LBind k v.
Proof.
  intros Hi Hh [_ (_ & Hkh & Hke & Hkt) [Hne Hst] (_ & Hvh & Hvt)]; simpl in *.
  destruct (trim_kv_line k v) as (t & Ht & Htv); [done..|].
  unfold classify. rewrite before_char_no_char.
  2: { unfold kv_line. rewrite !no_char_app. repeat split; try done. by repeat constructor. }
  rewrite trim_app_blank_l, Ht by done.
  destruct k as [|x k]; [done|]. simpl app.
  destruct (strip_prefix [chr "["] (x :: _)) as [u|] eqn:Hs.
  { exfalso. apply strip_prefix_Some in Hs. injection Hs as -> _.
    assert (starts_with [chr "["] (chr "[" :: k) = true) by (apply starts_with_head; by eexists).
    congruence. }
  simpl mbind. change (x :: k ++ chr " " :: chr "=" :: t) with ((x :: k) ++ [chr " "] ++ chr "=" :: t).
  rewrite app_assoc, split_once_app.
  2: { apply no_char_app. split; [done|]. by repeat constructor. }
  rewrite Htv. f_equal. rewrite trim_app_blank_r by done. by apply trimmed_trim.
Qed.

Lemma classify_header_line s :
  no_char (chr "#") s → trimmed s → classify (lit "[" ++ s ++ lit "]") = LHeader s.
Proof.
  intros Hh Ht. unfold classify. rewrite before_char_no_char.
  2: { rewrite !no_char_app. repeat split; [by repeat constructor|done|by repeat constructor]. }
  rewrite trimmed_trim.
  2: { apply trimmed_app; [|done|by destruct s|].
       - split; intros x l H; [by injection H as <- _|].
         by apply (app_inj_tail [] l) in H as [_ <-].
       - intros x l H. by apply app_inj_tail in H as [_ <-]. }
  simpl. by rewrite strip_suffix_app, trimmed_trim.
Qed.

Lemma classify_nil : classify [] = LBlank.
Proof. done. Qed.

(** ** One line of the rewrite *)
Lemma indent_of_take_while raw : indent_of raw = take_while is_whitespace raw.
Proof.
  unfold indent_of, trim_start. rewrite <- (take_drop_while is_whitespace raw) at 1 3.
  rewrite length_app, Nat.add_sub. apply take_app_length.
Qed.

Lemma indent_of_ok raw :
  no_char LF raw →
  blank (indent_of raw) = true ∧ no_char (chr "#") (indent_of raw) ∧ no_char LF (indent_of raw).
Proof.
  rewrite indent_of_take_while. intros H. split; [apply take_while_all|].
  rewrite <- (take_drop_while is_whitespace raw) in H. apply no_char_app in H as [H _].
  split; [|done]. pose proof (take_while_all is_whitespace raw) as Hb.
  apply Is_true_true, forallb_True in Hb. eapply Forall_impl; [exact Hb|].
  intros x Hx ->. done.
Qed.

Lemma unlines_one l : unlines [l] = l ++ [LF].
Proof. unfold unlines. simpl. by rewrite app_nil_r. Qed.

Lemma kv_line_free k v : no_char LF k → no_char LF v → no_char LF (kv_line k v).
Proof. intros. unfold kv_line. rewrite !no_char_app. repeat split; try done. by repeat constructor. Qed.

(** The three things the loop body does with a line. *)
Inductive line_effect (cur raw : str) (U : list update) : list str → str → list update → Prop :=
| LeHeader n : classify raw = LHeader n →
    line_effect cur raw U (flush_lines cur U ++ [raw]) n (flush_rest cur U)
| LeReplace k v0 v U' : classify raw = LBind k v0 → take_update cur k U = Some (v, U') →
    line_effect cur raw U [indent_of raw ++ kv_line k v] cur U'
| LeCopy : next_section cur raw = cur →
    (∀ k v, classify raw = LBind k v → wanted cur k U = None) →
    line_effect cur raw U [raw] cur U.

Lemma take_update_None s k U : take_update s k U = None ↔ wanted s k U = None.
Proof. unfold wanted. by destruct (take_update s k U). Qed.

Lemma settings_line_effect out cur U raw :
  plain_header raw → Forall clean_update U →
  ∃ ol cur' U', settings_line (out, cur, U) raw = (out ++ unlines ol, cur', U') ∧
    line_effect cur raw U ol cur' U'.
Proof.
  intros Hp HU. pose proof (settings_header_classify raw Hp) as Hc.
  unfold settings_line. fold (settings_header raw).
  destruct (settings_header raw) as [n|] eqn:Eh.
  - rewrite flush_section_spec. do 3 eexists. split; [|by apply LeHeader].
    rewrite unlines_app, unlines_one. by rewrite <- app_assoc.
  - assert (next_section cur raw = cur) as Hn.
    { unfold next_section. destruct (classify raw) eqn:E; try done. by destruct (Hc name). }
    destruct (split_kv raw) as [[k v0]|] eqn:Ek.
    + pose proof (split_kv_classify raw k v0 Eh Hp Ek) as Hk.
      destruct (take_update cur k U) as [[v U']|] eqn:Et.
      * do 3 eexists. split; [|by eapply LeReplace]. by rewrite unlines_one.
      * do 3 eexists. split; [by rewrite unlines_one|]. apply LeCopy; [done|].
        intros k' v'. rewrite Hk. intros [= <- <-]. by apply take_update_None.
    + do 3 eexists. split; [by rewrite unlines_one|]. apply LeCopy; [done|].
      intros k v Hk. destruct (wanted cur k U) as [w|] eqn:Ew; [|done]. exfalso.
      unfold wanted in Ew. destruct (take_update cur k U) as [[w' U']|] eqn:Et; [|done].
      apply take_update_subset in Et as [Hin _]. rewrite Forall_forall in HU.
      destruct (HU _ Hin) as [_ _ [Hne Hst] _]. simpl in *.
      by rewrite (classify_split_kv raw k v) in Ek.
Qed.

(** ** Sequences of updates as sequences of assignments *)
Lemma last_value_wanted s k acc U :
  NoDup (keys_of U) →
  last_value s k acc U = match wanted s k U with Some v => Some v | None => acc end.
Proof.
  unfold wanted. revert acc. induction U as [|[[s0 k0] v0] U IH]; intros acc HU; [done|].
  unfold keys_of in HU. rewrite fmap_cons in HU. apply NoDup_cons in HU as [Hn HU].
  simpl. case_decide as H0.
  - destruct H0 as [-> ->]. by apply Config.last_value_notin.
  - rewrite IH by done. by destruct (take_update s k U) as [[??]|].
Qed.

Lemma keys_of_filter_NoDup (P : update → Prop) `{!∀ u, Decision (P u)} U :
  NoDup (keys_of U) → NoDup (keys_of (filter P U)).
Proof.
  unfold keys_of. induction U as [|u U IH]; [done|]. rewrite fmap_cons.
  intros [Hn HU]%NoDup_cons. rewrite filter_cons. case_decide; [|auto].
  rewrite fmap_cons. apply NoDup_cons. split; [|auto].
  intros [u' [Hu' Hin]]%list_elem_of_fmap. apply Hn. apply list_elem_of_fmap.
  exists u'. split; [done|]. by apply list_elem_of_filter in Hin as [_ ?].
Qed.

Lemma wanted_filter_section s k sec U :
  wanted s k (filter (λ u : update, u.1.1 = sec) U)
  = if decide (s = sec) then wanted s k U else None.
Proof.
  unfold wanted. induction U as [|[[s0 k0] v0] U IH]; simpl.
  - by case_decide.
  - rewrite filter_cons. simpl. destruct (decide (s0 = sec)) as [->|Hs]; simpl; key_cases.
Qed.

Lemma flush_lines_bindings sec U :
  Forall clean_update U →
  bindings sec (flush_lines sec U) = filter (λ u, u.1.1 = sec) U ∧
  final_section sec (flush_lines sec U) = sec ∧
  Forall (no_char LF) (flush_lines sec U).
Proof.
  unfold flush_lines. induction 1 as [|[[s k] v] U Hu _ IH]; [done|].
  rewrite filter_cons. simpl. case_decide as Hs; [|done]. subst s. rewrite fmap_cons. simpl.
  pose proof (classify_kv_line [] k v sec eq_refl ltac:(constructor) Hu) as Hk. simpl in Hk.
  unfold Config.line_bindings, next_section. rewrite Hk. destruct IH as (-> & -> & ?).
  split; [done|split; [done|]]. constructor; [|done].
  apply kv_line_free; [apply (cu_key _ Hu)|apply (cu_value _ Hu)].
Qed.

Lemma flush_lines_value s k acc sec U :
  Forall clean_update U → NoDup (keys_of U) →
  last_value s k acc (bindings sec (flush_lines sec U))
  = match (if decide (s = sec) then wanted s k U else None) with Some v => Some v | None => acc end.
Proof.
  intros HU Hn. destruct (flush_lines_bindings sec U HU) as (-> & _ & _).
  rewrite last_value_wanted by (by apply keys_of_filter_NoDup).
  by rewrite wanted_filter_section.
Qed.

(** [U'] is what is left of [U]: fewer keys, same values. *)
Definition leftover (U U' : list update) : Prop :=
  Forall clean_update U' ∧ NoDup (keys_of U') ∧
  ∀ s k v, wanted s k U' = Some v → wanted s k U = Some v.

(** What a rewritten piece of the document assigns: the wanted values of the
    updates it consumed, the original assignments for every other key. *)
Definition rewrites (cur : str) (U U' : list update) (ls ol : list str) : Prop :=
  Forall (no_char LF) ol ∧ final_section cur ol = final_section cur ls ∧
  ∀ s k acc, last_value s k acc (bindings cur ol)
    = match wanted s k U, wanted s k U' with
      | Some v, None => Some v
      | _, _ => last_value s k acc (bindings cur ls)
      end.

Lemma leftover_trans U U1 U2 : leftover U U1 → leftover U1 U2 → leftover U U2.
Proof. intros (_&_&H1) (?&?&H2). repeat split; auto. Qed.

Lemma leftover_refl U : Forall clean_update U → NoDup (keys_of U) → leftover U U.
Proof. by repeat split. Qed.

Lemma take_update_leftover s k U v U' :
  Forall clean_update U → NoDup (keys_of U) → take_update s k U = Some (v, U') →
  leftover U U' ∧ wanted s k U' = None.
Proof.
  intros HU Hn Ht. pose proof (take_update_keys _ _ _ _ _ Ht) as Hk.
  rewrite Hk in Hn. apply NoDup_cons in Hn as [Hnin Hn].
  pose proof (proj2 (take_update_subset _ _ _ _ _ Ht)) as Hsub.
  assert (wanted s k U' = None) as Hw by (by apply wanted_None).
  split; [|done]. split; [|split; [done|]].
  - apply Forall_forall. intros u Hin. rewrite Forall_forall in HU. apply HU, Hsub, Hin.
  - intros s' k' w Hw'. rewrite (take_update_spec _ _ _ _ _ Ht). case_decide as Hd; [|done].
    destruct Hd as [-> ->]. congruence.
Qed.

Lemma flush_rest_leftover sec U :
  Forall clean_update U → NoDup (keys_of U) → leftover U (flush_rest sec U).
Proof.
  intros HU Hn. split; [|split; [by apply keys_of_filter_NoDup|]].
  { rewrite Forall_forall in *. intros u [_ Hin]%list_elem_of_filter. by apply HU. }
  intros s k v. rewrite wanted_flush_rest. by case_decide.
Qed.

(** Later lines of the document do not touch what this line consumed. *)
Lemma keys_of_bindings_section s k cur ls :
  (s, k) ∈ keys_of (bindings cur ls) → s = cur ∨ s ∈ headers ls.
Proof.
  revert cur. induction ls as [|l ls IH]; intros cur; simpl; [by intros ?%elem_of_nil|].
  unfold keys_of. rewrite fmap_app, elem_of_app. intros [H|H].
  - left. unfold Config.line_bindings in H. destruct (classify l); simpl in H;
      try (by apply elem_of_nil in H). apply list_elem_of_singleton in H. by injection H.
  - destruct (IH _ H) as [->|Hin].
    + unfold next_section. unfold headers. simpl. unfold Config.line_headers.
      destruct (classify l); auto. right. apply elem_of_app. left. by apply list_elem_of_singleton.
    + right. unfold headers. simpl. apply elem_of_app. by right.
Qed.

(** The sound effect of one line: [rest] is what follows it. *)
Definition sound_step (cur raw : str) (U U' : list update) (ol : list str) (cur' : str)
    (rest : list str) : Prop :=
  leftover U U' ∧ rewrites cur U U' [raw] ol ∧ cur' = next_section cur raw ∧
  ∀ s k, wanted s k U ≠ None → wanted s k U' = None → (s, k) ∉ keys_of (bindings cur' rest).

Lemma sound_header cur raw U n rest :
  Forall clean_update U → NoDup (keys_of U) → no_char LF raw →
  NoDup (cur :: headers (raw :: rest)) → classify raw = LHeader n →
  sound_step cur raw U (flush_rest cur U) (flush_lines cur U ++ [raw]) n rest.
Proof.
  intros HU Hn Hraw Hh Hc.
  assert (next_section cur raw = n) as Hnext by (unfold next_section; by rewrite Hc).
  destruct (flush_lines_bindings cur U HU) as (_ & Hf & Hfree).
  split; [by apply flush_rest_leftover|]. split; [split; [|split]|split; [done|]].
  - apply Forall_app. by split; [|constructor].
  - rewrite Config.final_section_app, Hf. done.
  - intros s k acc. rewrite Config.bindings_app, Config.last_value_app, Hf.
    rewrite flush_lines_value, wanted_flush_rest by done. simpl.
    unfold Config.line_bindings. rewrite Hc. simpl.
    case_decide; by destruct (wanted s k U).
  - intros s k Hne. rewrite wanted_flush_rest. case_decide as Hd; [|by intros ?].
    subst s. intros _ Hin. apply keys_of_bindings_section in Hin.
    unfold headers in Hh. simpl in Hh. unfold Config.line_headers at 1 in Hh. rewrite Hc in Hh.
    apply NoDup_cons in Hh as [Hnot _]. apply Hnot. apply elem_of_app.
    destruct Hin as [->|Hin]; [left; by left|by right].
Qed.

Lemma sound_replace cur raw U k0 v0 v U' rest :
  Forall clean_update U → NoDup (keys_of U) → no_char LF raw →
  NoDup (keys_of (bindings cur (raw :: rest))) →
  classify raw = LBind k0 v0 → take_update cur k0 U = Some (v, U') →
  sound_step cur raw U U' [indent_of raw ++ kv_line k0 v] cur rest.
Proof.
  intros HU Hn Hraw Hk Hc Ht.
  assert (next_section cur raw = cur) as Hnext by (unfold next_section; by rewrite Hc).
  destruct (take_update_leftover _ _ _ _ _ HU Hn Ht) as [Hl Hw].
  destruct (indent_of_ok raw Hraw) as (Hi & Hih & HiLF).
  pose proof (proj1 (take_update_subset _ _ _ _ _ Ht)) as Hin.
  assert (clean_update (cur, k0, v)) as Hu by (rewrite Forall_forall in HU; by apply HU).
  pose proof (classify_kv_line _ k0 v cur Hi Hih Hu) as Hkv.
  split; [done|]. split; [split; [|split]|split; [done|]].
  - constructor; [|done]. apply no_char_app. split; [done|].
    apply kv_line_free; [apply (cu_key _ Hu)|apply (cu_value _ Hu)].
  - simpl. unfold next_section. by rewrite Hkv, Hc.
  - intros s k acc. simpl. unfold Config.line_bindings. rewrite Hkv, Hc. simpl.
    rewrite (take_update_spec _ _ _ _ _ Ht).
    destruct (decide (s = cur ∧ k = k0)) as [[-> ->]|Hd].
    + by rewrite decide_True, Hw.
    + rewrite !decide_False by naive_solver. by destruct (wanted s k U').
  - intros s k Hw1 Hw2. rewrite (take_update_spec _ _ _ _ _ Ht) in Hw1.
    case_decide as Hd; [|done]. destruct Hd as [-> ->].
    simpl in Hk. unfold Config.line_bindings in Hk. rewrite Hc, Hnext in Hk. simpl in Hk.
    by apply NoDup_cons in Hk as [? _].
Qed.

Lemma line_effect_sound cur raw U ol cur' U' rest :
  Forall clean_update U → NoDup (keys_of U) → no_char LF raw →
  NoDup (cur :: headers (raw :: rest)) → NoDup (keys_of (bindings cur (raw :: rest))) →
  line_effect cur raw U ol cur' U' → sound_step cur raw U U' ol cur' rest.
Proof.
  intros HU Hn Hraw Hh Hk He. destruct He as [n Hc|k0 v0 v U' Hc Ht|Hs Hc].
  - by apply sound_header.
  - by eapply sound_replace.
  - split; [by apply leftover_refl|]. split; [split; [|split]|split; [done|]].
    + by constructor.
    + done.
    + intros s k acc. by destruct (wanted s k U).
    + congruence.
Qed.

(** ** The loop over the document *)
Lemma rewrites_cons cur U U1 U2 raw ls ol ol' :
  leftover U U1 → leftover U1 U2 →
  rewrites cur U U1 [raw] ol → rewrites (next_section cur raw) U1 U2 ls ol' →
  (∀ s k, wanted s k U ≠ None → wanted s k U1 = None →
    (s, k) ∉ keys_of (bindings (next_section cur raw) ls)) →
  rewrites cur U U2 (raw :: ls) (ol ++ ol').
Proof.
  intros HL1 (_ & _ & HL2) (Hf1 & Hs1 & Hv1) (Hf2 & Hs2 & Hv2) Hnot.
  change (final_section cur [raw]) with (next_section cur raw) in Hs1.
  split; [by apply Forall_app|]. split.
  - rewrite Config.final_section_app, Hs1. exact Hs2.
  - intros s k acc. rewrite Config.bindings_app, Config.last_value_app, Hs1, Hv2, Hv1.
    simpl. rewrite app_nil_r, Config.last_value_app.
    destruct HL1 as (_ & _ & HL1). specialize (HL1 s k). specialize (HL2 s k). specialize (Hnot s k).
    destruct (wanted s k U) as [v|], (wanted s k U1) as [v1|], (wanted s k U2) as [v2|];
      try (by specialize (HL1 _ eq_refl)); try (by specialize (HL2 _ eq_refl)); try done.
    apply Config.last_value_notin. by apply Hnot.
Qed.

Lemma settings_lines_sound ls : ∀ out cur U,
  Forall (no_char LF) ls → Forall plain_header ls →
  NoDup (cur :: headers ls) → NoDup (keys_of (bindings cur ls)) →
  Forall clean_update U → NoDup (keys_of U) →
  ∃ ol U', foldl settings_line (out, cur, U) ls = (out ++ unlines ol, final_section cur ls, U') ∧
    leftover U U' ∧ rewrites cur U U' ls ol.
Proof.
  induction ls as [|raw ls IH]; intros out cur U Hfree Hp Hh Hk HU Hn.
  - exists [], U. simpl. rewrite app_nil_r. split; [done|].
    split; [by apply leftover_refl|]. split; [constructor|split; [done|]].
    intros s k acc. by destruct (wanted s k U).
  - apply Forall_cons in Hfree as [Hraw Hfree]. apply Forall_cons in Hp as [Hpr Hp].
    destruct (settings_line_effect out cur U raw Hpr HU) as (ol & cur' & U1 & Heq & He).
    destruct (line_effect_sound _ _ _ _ _ _ ls HU Hn Hraw Hh Hk He) as (Hl1 & Hr1 & Hc & Hnot).
    rewrite Hc in Heq, Hnot. clear Hc.
    destruct (IH (out ++ unlines ol) (next_section cur raw) U1) as (ol' & U2 & Heq2 & Hl2 & Hr2);
      [done|done| | |apply Hl1|apply Hl1|].
    + unfold headers in *. simpl in Hh. unfold Config.line_headers at 1 in Hh.
      unfold next_section. destruct (classify raw); try done. by apply NoDup_cons in Hh as [_ Hh].
    + simpl in Hk. unfold keys_of in *. rewrite fmap_app in Hk. by apply NoDup_app in Hk as (_&_&?).
    + exists (ol ++ ol'), U2. simpl. rewrite Heq, Heq2, unlines_app, app_assoc.
      split; [done|]. split; [by eapply leftover_trans|]. by apply rewrites_cons with U1.
Qed.

(** ** Sections created at the end *)
Definition create_lines (s : str) (U : list update) : list str :=
  [] :: (lit "[" ++ s ++ lit "]") :: flush_lines s U.

Lemma create_section_eq out U s :
  create_section (out, U) s = (out ++ unlines (create_lines s U), flush_rest s U).
Proof.
  unfold create_section. rewrite flush_section_spec. f_equal.
  unfold create_lines, unlines. rewrite !fmap_cons. simpl. by rewrite <- !app_assoc; simpl; rewrite <- !app_assoc.
Qed.

Lemma create_lines_value cur s' U s k acc :
  Forall clean_update U → NoDup (keys_of U) → no_char (chr "#") s' → trimmed s' →
  last_value s k acc (bindings cur (create_lines s' U))
  = match (if decide (s = s') then wanted s k U else None) with Some v => Some v | None => acc end.
Proof.
  intros HU Hn Hs Ht. rewrite <- (flush_lines_value s k acc s' U) by done.
  pose proof (classify_header_line s' Hs Ht) as Hc. simpl in Hc.
  simpl. unfold Config.line_bindings, next_section. by rewrite Hc.
Qed.

(** Every section name of the remaining updates is clean. *)
Lemma create_sections_sound secs : ∀ out U cur,
  Forall clean_update U → NoDup (keys_of U) →
  Forall (λ s, no_char LF s ∧ no_char (chr "#") s ∧ trimmed s) secs →
  (∀ u, u ∈ U → u.1.1 ∈ secs) →
  ∃ ol, (foldl create_section (out, U) secs).1 = out ++ unlines ol ∧
    Forall (no_char LF) ol ∧
    ∀ s k acc, last_value s k acc (bindings cur ol)
      = match wanted s k U with Some v => Some v | None => acc end.
Proof.
  induction secs as [|s0 secs IH]; intros out U cur HU Hn Hs Hin.
  - destruct U as [|u U]; [|by destruct (not_elem_of_nil u.1.1); apply Hin; left].
    exists []. simpl. by rewrite app_nil_r.
  - apply Forall_cons in Hs as [(Hlf & Hh & Ht) Hs].
    destruct (flush_rest_leftover s0 U HU Hn) as (HU' & Hn' & _).
    simpl foldl. rewrite create_section_eq.
    destruct (IH (out ++ unlines (create_lines s0 U)) (flush_rest s0 U)
      (final_section cur (create_lines s0 U)) HU' Hn' Hs) as (ol & Heq & Hf & Hv).
    + intros u [Hne Hu]%list_elem_of_filter. apply Hin in Hu.
      apply elem_of_cons in Hu as [?|?]; [by destruct Hne|done].
    + exists (create_lines s0 U ++ ol). rewrite Heq, unlines_app, app_assoc.
      split; [done|]. split.
      * apply Forall_app. split; [|done]. constructor; [by constructor|]. constructor.
        { rewrite !no_char_app. repeat split; [by repeat constructor|done|by repeat constructor]. }
        by apply flush_lines_bindings.
      * intros s k acc. rewrite Config.bindings_app, Config.last_value_app, Hv.
        rewrite create_lines_value, wanted_flush_rest by done.
        case_decide; [by destruct (wanted s k U)|]. done.
Qed.

Lemma seen_sections_in U : ∀ seen,
  (∀ s, s ∈ seen → s ∈ seen_sections seen U) ∧
  (∀ u, u ∈ U → u.1.1 ∈ seen_sections seen U).
Proof.
  induction U as [|[[s0 k0] v0] U IH]; intros seen; simpl; [by split; [|intros ? ?%elem_of_nil]|].
  destruct (IH (if decide (s0 ∈ seen) then seen else seen ++ [s0])) as [H1 H2].
  assert (∀ s, s ∈ seen ∨ s = s0 → s ∈ (if decide (s0 ∈ seen) then seen else seen ++ [s0])) as Hin.
  { intros s Hs. case_decide as Hd; [destruct Hs as [?| ->]; done|].
    apply elem_of_app. destruct Hs as [?| ->]; [by left|right; by left]. }
  split.
  - intros s Hs. apply H1, Hin. by left.
  - intros u [->|Hu]%elem_of_cons; [|by apply H2]. apply H1, Hin. by right.
Qed.

Lemma seen_sections_from U : ∀ seen s,
  s ∈ seen_sections seen U → s ∈ seen ∨ ∃ u, u ∈ U ∧ u.1.1 = s.
Proof.
  induction U as [|[[s0 k0] v0] U IH]; intros seen s; simpl; [by left|].
  intros H. apply IH in H as [H|(u & Hu & <-)]; [|right; exists u; split; [by right|done]].
  case_decide; [by left|]. apply elem_of_app in H as [H|H]; [by left|].
  apply list_elem_of_singleton in H as ->. right. exists (s0, k0, v0). split; [by left|done].
Qed.

(** ** What the rewrite leaves alone *)

(** A line that no update can replace: a header, a comment, a blank line, or the
    assignment of a key no update names. *)
Definition untouched (U : list update) (raw : str) : Prop :=
  match split_kv raw with
  | Some (k, _) => k ∉ (λ u : update, u.1.2) <$> U
  | None => True
  end.

#[global] Instance untouched_dec U raw : Decision (untouched U raw).
Proof. unfold untouched. destruct (split_kv raw) as [[??]|]; apply _. Defined.

Lemma settings_line_keeps U0 out cur U raw :
  U ⊆ U0 →
  ∃ ol cur' U', settings_line (out, cur, U) raw = (out ++ unlines ol, cur', U') ∧
    U' ⊆ U0 ∧ filter (untouched U0) [raw] `sublist_of` ol.
Proof.
  intros HU. rewrite filter_cons, filter_nil. unfold settings_line.
  destruct (strip_prefix _ _ ≫= _) as [n|].
  - rewrite flush_section_spec. exists (flush_lines cur U ++ [raw]). do 2 eexists.
    split; [by rewrite unlines_app, unlines_one, <- app_assoc|]. split.
    + intros u [_ Hu]%list_elem_of_filter. by apply HU.
    + case_decide; [by apply sublist_inserts_l|apply sublist_nil_l].
  - assert (∃ ol cur' U', (out ++ raw ++ [LF], cur, U) = (out ++ unlines ol, cur', U') ∧
      U' ⊆ U0 ∧ (if decide (untouched U0 raw) then [raw] else []) `sublist_of` ol) as Hcopy.
    { exists [raw], cur, U. rewrite unlines_one. split; [done|split; [done|]].
      case_decide; [done|apply sublist_nil_l]. }
    destruct (split_kv raw) as [[k v]|] eqn:Ek; [|done].
    destruct (take_update cur k U) as [[w U']|] eqn:Et; [|done].
    apply take_update_subset in Et as [Hin Hsub].
    exists [indent_of raw ++ kv_line k w], cur, U'. rewrite unlines_one.
    split; [done|]. split; [by etransitivity|]. rewrite decide_False; [apply sublist_nil_l|].
    unfold untouched. rewrite Ek. intros Hn. apply Hn, list_elem_of_fmap.
    exists (cur, k, w). split; [done|by apply HU].
Qed.

Lemma settings_lines_keep U0 ls : ∀ out cur U,
  U ⊆ U0 →
  ∃ ol cur' U', foldl settings_line (out, cur, U) ls = (out ++ unlines ol, cur', U') ∧
    filter (untouched U0) ls `sublist_of` ol.
Proof.
  induction ls as [|raw ls IH]; intros out cur U HU.
  - exists [], cur, U. simpl. by rewrite app_nil_r.
  - destruct (settings_line_keeps U0 out cur U raw HU) as (ol & cur' & U' & Heq & HU' & Hs).
    destruct (IH (out ++ unlines ol) cur' U' HU') as (ol' & cur'' & U'' & Heq' & Hs').
    exists (ol ++ ol'), cur'', U''. simpl. rewrite Heq, Heq', unlines_app, app_assoc.
    split; [done|]. change (raw :: ls) with ([raw] ++ ls). rewrite filter_app.
    by apply sublist_app.
Qed.

Lemma create_sections_out secs : ∀ out U,
  ∃ ol, (foldl create_section (out, U) secs).1 = out ++ unlines ol.
Proof.
  induction secs as [|s secs IH]; intros out U; simpl; [exists []; by rewrite app_nil_r|].
  rewrite create_section_eq.
  destruct (IH (out ++ unlines (create_lines s U)) (flush_rest s U)) as [ol ->].
  exists (create_lines s U ++ ol). by rewrite unlines_app, app_assoc.
Qed.

(** * Properties *)

(** The value of every key after a save. *)
Lemma apply_settings_get old updates s k :
  plain_document old →
  Forall clean_update (List.filter keep_update updates) →
  NoDup (keys_of (List.filter keep_update updates)) →
  Config.get (Config.parse (apply_settings old updates)) s k
  = match wanted s k (List.filter keep_update updates) with
    | Some v => Some v
    | None => Config.get (Config.parse old) s k
    end.
Proof.
  intros [Hp Hh Hk] HU Hn. unfold apply_settings.
  set (U := List.filter keep_update updates) in *.
  destruct (settings_lines_sound (lines old) [] [] U (lines_free old) Hp Hh Hk HU Hn)
    as (ol1 & U1 & -> & (HU1 & Hn1 & HL1) & Hf1 & Hs1 & Hv1).
  rewrite flush_section_spec. set (sec := final_section [] (lines old)) in *.
  destruct (flush_rest_leftover sec U1 HU1 Hn1) as (HU2 & Hn2 & HL2).
  set (U2 := flush_rest sec U1) in *.
  destruct (create_sections_sound (seen_sections [] U2) ([] ++ unlines ol1 ++ unlines (flush_lines sec U1)) U2 sec)
    as (ol2 & Heq & Hf2 & Hv2); [done|done| |apply seen_sections_in|].
  { apply Forall_forall. intros x Hx.
    apply seen_sections_from in Hx as [Hx|(u & Hu & <-)]; [by apply elem_of_nil in Hx|].
    rewrite Forall_forall in HU2. apply (cu_section _ (HU2 _ Hu)). }
  destruct (flush_lines_bindings sec U1 HU1) as (_ & Hs2 & Hf3).
  rewrite app_assoc in Heq. rewrite Heq. simpl app. rewrite <- !unlines_app.
  rewrite !Config.parse_get, lines_unlines, bindings_strip_cr by (by rewrite !Forall_app).
  rewrite !Config.bindings_app, !Config.last_value_app, Config.final_section_app, Hs1, Hs2.
  rewrite Hv2, flush_lines_value, Hv1 by done. unfold U2. rewrite wanted_flush_rest.
  specialize (HL1 s k). destruct (wanted s k U1) as [v1|] eqn:E1.
  - rewrite (HL1 v1 eq_refl). by case_decide.
  - case_decide; by destruct (wanted s k U).
Qed.

(** C1. Saving settings refines an update of the parsed configuration, for a
    plain document (no section opened twice or without a name, no key assigned
    twice in a section, no comment on a header line) and clean updates (sections,
    keys and values that are trimmed and hold no line feed and no comment sign,
    keys that are not empty, hold no equals sign and do not start with a
    bracket), each key updated once: re-parsing the rewritten text yields the
    new value of every updated key and the old value of every other key; a blank
    secret is no update at all.  The conditions are needed:
    [apply_settings_does_not_escape] and [apply_settings_duplicate_key_lost]
    show the update lost without them. *)
Theorem apply_settings_refines old updates s k :
  plain_document old →
  Forall clean_update (List.filter keep_update updates) →
  NoDup (keys_of (List.filter keep_update updates)) →
  Config.get (Config.parse (apply_settings old updates)) s k
  = match wanted s k (List.filter keep_update updates) with
    | Some v => Some v
    | None => Config.get (Config.parse old) s k
    end.
Proof. apply apply_settings_get. Qed.

Definition refines_example_doc : str := lit "# router
[lan]
  ipaddr = 192.168.1.1  # static
[wifi]
key = secret
".
Definition refines_example_updates : list update :=
  [(lit "lan", lit "ipaddr", lit "10.0.0.1"); (lit "wifi", lit "key", lit "");
   (lit "dhcp", lit "enabled", lit "1")].

Lemma apply_settings_refines_witness :
  Config.get (Config.parse (apply_settings refines_example_doc refines_example_updates))
    (lit "lan") (lit "ipaddr") = Some (lit "10.0.0.1").
Proof.
  rewrite apply_settings_refines.
  - vm_compute. reflexivity.
  - apply (bool_decide_unpack _). vm_compute. exact I.
  - apply (bool_decide_unpack _). vm_compute. exact I.
  - apply (bool_decide_unpack _). vm_compute. exact I.
Defined.

(** C2. The rewrite preserves the document around the managed keys: whatever the
    text and the updates, every header, comment, blank line and assignment of a
    key that no update names is still there, verbatim and in the same order. *)
Theorem apply_settings_preserves_lines old updates :
  ∃ ol, apply_settings old updates = unlines ol ∧
    filter (untouched (List.filter keep_update updates)) (lines old) `sublist_of` ol.
Proof.
  unfold apply_settings. set (U := List.filter keep_update updates).
  destruct (settings_lines_keep U (lines old) [] [] U) as (ol & cur & U' & -> & Hs); [done|].
  rewrite flush_section_spec.
  destruct (create_sections_out (seen_sections [] (flush_rest cur U'))
    (([] ++ unlines ol) ++ unlines (flush_lines cur U')) (flush_rest cur U')) as [ol' ->].
  exists (ol ++ flush_lines cur U' ++ ol'). rewrite !unlines_app, <- !app_assoc.
  split; [done|]. by apply sublist_inserts_r.
Qed.

(** Values are not escaped: a newline in a submitted value starts a new line
    of the stored configuration, so the hostname field can assign any other key
    (here the admin password), and everything after a number sign is lost (here
    half of the Wi-Fi key). *)
Theorem apply_settings_does_not_escape :
  let inject := [(lit "system", lit "hostname", lit "x
[admin]
password = p")] in
  let hash := [(lit "wifi", lit "key", lit "ab#cd")] in
  Config.get (Config.parse (apply_settings (lit "[system]") inject))
    (lit "admin") (lit "password") = Some (lit "p") ∧
  Config.get (Config.parse (apply_settings (lit "[wifi]") hash))
    (lit "wifi") (lit "key") = Some (lit "ab").
Proof. vm_compute. split; reflexivity. Qed.

(** An update of a key that the section assigns twice is silently lost: only
    the first assignment is rewritten, and the parser keeps the last one. *)
Theorem apply_settings_duplicate_key_lost :
  let old := lit "[lan]
ipaddr = 192.168.1.1
ipaddr = 192.168.2.1
" in
  Config.get (Config.parse (apply_settings old [(lit "lan", lit "ipaddr", lit "10.0.0.1")]))
    (lit "lan") (lit "ipaddr") = Some (lit "192.168.2.1").
Proof. vm_compute. reflexivity. Qed.
