(* ===== verification/Fips.v ===== *)
(** * FIPS 180-4: SHA-256 as the standard writes it

    The specification [Sha256.v] is proved against.  It models no source file
    and shares nothing with the model of sha256.rs: the constants are computed
    from the prime numbers the standard derives them from, rotations and
    shifts are divisions and remainders, the message schedule is a recurrence
    on lists and the bytes of a word are written out.  Section numbers are
    those of the standard. *)

From S2P Require Import Prelude.
Open Scope Z_scope.

Module Fips.

(** ** Words (2.2.2, 3.2) *)
Definition add (x y : Z) : Z := (x + y) mod 2 ^ 32.
Definition SHR (n x : Z) : Z := x / 2 ^ n.
Definition ROTR (n x : Z) : Z := Z.lor (x / 2 ^ n) ((x * 2 ^ (32 - n)) mod 2 ^ 32).
Definition Not (x : Z) : Z := Z.lxor x 0xffffffff.

(** ** Functions (4.1.2) *)
Definition Ch (x y z : Z) : Z := Z.lxor (Z.land x y) (Z.land (Not x) z).
Definition Maj (x y z : Z) : Z := Z.lxor (Z.lxor (Z.land x y) (Z.land x z)) (Z.land y z).
Definition Sigma0 (x : Z) : Z := Z.lxor (Z.lxor (ROTR 2 x) (ROTR 13 x)) (ROTR 22 x).
Definition Sigma1 (x : Z) : Z := Z.lxor (Z.lxor (ROTR 6 x) (ROTR 11 x)) (ROTR 25 x).
Definition sigma0 (x : Z) : Z := Z.lxor (Z.lxor (ROTR 7 x) (ROTR 18 x)) (SHR 3 x).
Definition sigma1 (x : Z) : Z := Z.lxor (Z.lxor (ROTR 17 x) (ROTR 19 x)) (SHR 10 x).

(** ** Constants (4.2.2, 5.3.3) *)

(** The first [n] prime numbers, by trial division from [c] on. *)
Fixpoint primes (fuel n : nat) (c : Z) (found : list Z) : list Z :=
  match fuel, n with
  | S fuel, S n' =>
      if forallb (λ p, negb (c mod p =? 0)) found
      then primes fuel n' (c + 1) (found ++ [c])
      else primes fuel n (c + 1) found
  | _, _ => found
  end.
Definition first_primes (n : nat) : list Z := primes 400 n 2 [].

(** The largest [r < acc + 2 ^ bits] with [r ^ k <= x], a bit at a time. *)
Fixpoint root (k : Z) (bits : nat) (x acc : Z) : Z :=
  match bits with
  | O => acc
  | S b => let r := acc + 2 ^ Z.of_nat b in root k b x (if r ^ k <=? x then r else acc)
  end.

(** The first thirty-two bits of the fractional part of the [k]-th root of
    [p]: the root of [p * 2^(32 k)] is [2^32] times the root of [p]. *)
Definition fraction (k p : Z) : Z := root k 40 (p * 2 ^ (32 * k)) 0 mod 2 ^ 32.

(** The cube roots of the first sixty-four primes; the square roots of the
    first eight. *)
Definition K : list Z := map (fraction 3) (first_primes 64).
Definition H0 : list Z := map (fraction 2) (first_primes 8).

(** ** Padding and parsing (5.1.1, 5.2.1) *)

(** A one bit, zero bits up to 448 modulo 512, and the length in bits as a
    64-bit big-endian number (the standard is about messages of fewer than
    [2^64] bits; longer ones have their length taken modulo [2^64]). *)
Definition pad (m : bytes) : bytes :=
  let l := 8 * Z.of_nat (length m) in
  m ++ 0x80 :: replicate (Z.to_nat ((55 - Z.of_nat (length m)) mod 64)) 0
    ++ [(l / 2 ^ 56) mod 256; (l / 2 ^ 48) mod 256; (l / 2 ^ 40) mod 256;
        (l / 2 ^ 32) mod 256; (l / 2 ^ 24) mod 256; (l / 2 ^ 16) mod 256;
        (l / 2 ^ 8) mod 256; l mod 256].

Fixpoint parse (n : nat) (m : bytes) : list bytes :=
  match n with
  | O => []
  | S n => take 64 m :: parse n (drop 64 m)
  end.
Definition parse_blocks (m : bytes) : list bytes := parse (length m / 64) m.

(** The [t]-th big-endian word of a block. *)
Definition M (blk : bytes) (t : nat) : Z :=
  nth (4 * t) blk 0 * 2 ^ 24 + nth (4 * t + 1) blk 0 * 2 ^ 16
  + nth (4 * t + 2) blk 0 * 2 ^ 8 + nth (4 * t + 3) blk 0.

(** ** Hash computation (6.2.2) *)

(** Step 1: the schedule, sixteen words of the block and then the recurrence. *)
Definition next_word (w : list Z) (t : nat) : Z :=
  add (add (sigma1 (nth (t - 2) w 0)) (nth (t - 7) w 0))
      (add (sigma0 (nth (t - 15) w 0)) (nth (t - 16) w 0)).
Fixpoint extend (n : nat) (w : list Z) : list Z :=
  match n with
  | O => w
  | S n => extend n (w ++ [next_word w (length w)])
  end.
Definition W (blk : bytes) : list Z := extend 48 (map (M blk) (seq 0 16)).

(** Steps 2 to 4. *)
Inductive working := Working (a b c d e f g h : Z).
Definition start (hs : list Z) : working :=
  Working (nth 0 hs 0) (nth 1 hs 0) (nth 2 hs 0) (nth 3 hs 0)
          (nth 4 hs 0) (nth 5 hs 0) (nth 6 hs 0) (nth 7 hs 0).
Definition round (v : working) (kw : Z * Z) : working :=
  let 'Working a b c d e f g h := v in
  let T1 := add (add (add (add h (Sigma1 e)) (Ch e f g)) (fst kw)) (snd kw) in
  let T2 := add (Sigma0 a) (Maj a b c) in
  Working (add T1 T2) a b c (add d T1) e f g.
Definition intermediate (hs : list Z) (blk : bytes) : list Z :=
  let 'Working a b c d e f g h := fold_left round (combine K (W blk)) (start hs) in
  [add a (nth 0 hs 0); add b (nth 1 hs 0); add c (nth 2 hs 0); add d (nth 3 hs 0);
   add e (nth 4 hs 0); add f (nth 5 hs 0); add g (nth 6 hs 0); add h (nth 7 hs 0)].

Definition word_bytes (x : Z) : bytes :=
  [(x / 2 ^ 24) mod 256; (x / 2 ^ 16) mod 256; (x / 2 ^ 8) mod 256; x mod 256].

Definition sha256 (m : bytes) : bytes :=
  flat_map word_bytes (fold_left intermediate (parse_blocks (pad m)) H0).

(** The root is the root: [root k bits x acc] is the largest number below
    [acc + 2^bits] whose [k]-th power is at most [x]. *)
Lemma root_spec k bits : ∀ x acc,
  0 <= k → 0 <= acc → acc ^ k <= x → x < (acc + 2 ^ Z.of_nat bits) ^ k →
  root k bits x acc ^ k <= x < (root k bits x acc + 1) ^ k.
Proof.
  induction bits as [|b IH]; intros x acc Hk Ha Hlo Hhi; cbn [root]; [done|].
  rewrite Nat2Z.inj_succ, Z.pow_succ_r in Hhi by lia.
  pose proof (Z.pow_pos_nonneg 2 (Z.of_nat b) ltac:(lia) ltac:(lia)) as Hp.
  set (B := 2 ^ Z.of_nat b) in *.
  destruct (Z.leb_spec ((acc + B) ^ k) x); apply IH; try done; try lia.
  by replace (acc + B + B) with (acc + 2 * B) by lia.
Qed.

Example first_primes_8 : first_primes 8 = [2; 3; 5; 7; 11; 13; 17; 19].
Proof. vm_compute. reflexivity. Qed.

End Fips.
