(* ===== verification/Sha256.v ===== *)
(** * SHA-256 (sha256.rs)

    The streaming hash used to check packages and firmware images, over its
    in-memory state: chaining words, the partially filled block and the byte
    counter.  The abstract view of a state is the message absorbed so far
    ([absorbed]); every operation is proved against it, and the compression
    function against [Fips], the standard written independently of the code. *)

From S2P Require Import Prelude Words RustStr Fips.
Open Scope Z_scope.

Module Sha.

(** ** Constants *)
Definition K : list Z :=
   0x428a2f98 :: 0x71374491 :: 0xb5c0fbcf :: 0xe9b5dba5 ::
   0x3956c25b :: 0x59f111f1 :: 0x923f82a4 :: 0xab1c5ed5 ::
   0xd807aa98 :: 0x12835b01 :: 0x243185be :: 0x550c7dc3 ::
   0x72be5d74 :: 0x80deb1fe :: 0x9bdc06a7 :: 0xc19bf174 ::
   0xe49b69c1 :: 0xefbe4786 :: 0x0fc19dc6 :: 0x240ca1cc ::
   0x2de92c6f :: 0x4a7484aa :: 0x5cb0a9dc :: 0x76f988da ::
   0x983e5152 :: 0xa831c66d :: 0xb00327c8 :: 0xbf597fc7 ::
   0xc6e00bf3 :: 0xd5a79147 :: 0x06ca6351 :: 0x14292967 ::
   0x27b70a85 :: 0x2e1b2138 :: 0x4d2c6dfc :: 0x53380d13 ::
   0x650a7354 :: 0x766a0abb :: 0x81c2c92e :: 0x92722c85 ::
   0xa2bfe8a1 :: 0xa81a664b :: 0xc24b8b70 :: 0xc76c51a3 ::
   0xd192e819 :: 0xd6990624 :: 0xf40e3585 :: 0x106aa070 ::
   0x19a4c116 :: 0x1e376c08 :: 0x2748774c :: 0x34b0bcb5 ::
   0x391c0cb3 :: 0x4ed8aa4a :: 0x5b9cca4f :: 0x682e6ff3 ::
   0x748f82ee :: 0x78a5636f :: 0x84c87814 :: 0x8cc70208 ::
   0x90befffa :: 0xa4506ceb :: 0xbef9a3f7 :: 0xc67178f2 :: [].

Definition H0 : list Z :=
   0x6a09e667 :: 0xbb67ae85 :: 0x3c6ef372 :: 0xa54ff53a ::
   0x510e527f :: 0x9b05688c :: 0x1f83d9ab :: 0x5be0cd19 :: [].

(** ** State *)
Record Sha256 := mkSha256 {
  h : list Z;       (* [u32; 8] *)
  block : bytes;    (* [u8; 64] *)
  fill : nat;
  len : Z           (* u64 *)
}.

Definition new : Sha256 := mkSha256 H0 (replicate 64 0) 0 0.

(** ** The compression function *)
Definition word (w : list Z) (i : nat) : Z := nth i w 0.

Definition load_words (blk : bytes) : list Z :=
  foldl (λ w i, <[i := of_be_bytes (slice blk (4 * i) (4 * i + 4))]> w)
    (replicate 64 0) (seq 0 16).

Definition sched_word (w : list Z) (i : nat) : Z :=
  let s0 := Z.lxor (Z.lxor (rotr32 (word w (i - 15)) 7) (rotr32 (word w (i - 15)) 18))
                   (Z.shiftr (word w (i - 15)) 3) in
  let s1 := Z.lxor (Z.lxor (rotr32 (word w (i - 2)) 17) (rotr32 (word w (i - 2)) 19))
                   (Z.shiftr (word w (i - 2)) 10) in
  u32 (u32 (u32 (word w (i - 16) + s0) + word w (i - 7)) + s1).

Definition schedule (blk : bytes) : list Z :=
  foldl (λ w i, <[i := sched_word w i]> w) (load_words blk) (seq 16 48).

(** The eight working variables [a] .. [h]. *)
Record vars := mkVars { va : Z; vb : Z; vc : Z; vd : Z; ve : Z; vf : Z; vg : Z; vh : Z }.

Definition round (w : list Z) (v : vars) (i : nat) : vars :=
  let s1 := Z.lxor (Z.lxor (rotr32 (ve v) 6) (rotr32 (ve v) 11)) (rotr32 (ve v) 25) in
  let ch := Z.lxor (Z.land (ve v) (vf v)) (Z.land (not32 (ve v)) (vg v)) in
  let t1 := u32 (u32 (u32 (u32 (vh v + s1) + ch) + word K i) + word w i) in
  let s0 := Z.lxor (Z.lxor (rotr32 (va v) 2) (rotr32 (va v) 13)) (rotr32 (va v) 22) in
  let maj := Z.lxor (Z.lxor (Z.land (va v) (vb v)) (Z.land (va v) (vc v)))
                    (Z.land (vb v) (vc v)) in
  let t2 := u32 (s0 + maj) in
  mkVars (u32 (t1 + t2)) (va v) (vb v) (vc v) (u32 (vd v + t1)) (ve v) (vf v) (vg v).

Definition vars_of (l : list Z) : vars :=
  mkVars (word l 0) (word l 1) (word l 2) (word l 3) (word l 4) (word l 5) (word l 6) (word l 7).
Definition vars_list (v : vars) : list Z :=
  va v :: vb v :: vc v :: vd v :: ve v :: vf v :: vg v :: vh v :: [].

Definition compress (hs : list Z) (blk : bytes) : list Z :=
  let w := schedule blk in
  let v := foldl (round w) (vars_of hs) (seq 0 64) in
  zip_with (λ dst x, u32 (dst + x)) hs (vars_list v).

(** ** [update] *)

(** The [while data.len() >= 64] loop; it returns the chaining words and the
    input left over. *)
Fixpoint whole_blocks (fuel : nat) (hs : list Z) (data : bytes) : option (list Z * bytes) :=
  if (64 <=? length data)%nat then
    match fuel with
    | O => None
    | S fuel => whole_blocks fuel (compress hs (take 64 data)) (drop 64 data)
    end
  else Some (hs, data).

(** The part of [update] after the partial block was dealt with. *)
Definition update_blocks (s : Sha256) (data : bytes) : option Sha256 :=
  match whole_blocks (length data) (h s) data with
  | None => None
  | Some (hs, rest) =>
      Some (mkSha256 hs (splice (block s) 0 rest) (length rest) (len s))
  end.

Definition update (s : Sha256) (data : bytes) : option Sha256 :=
  let s := mkSha256 (h s) (block s) (fill s) (u64 (len s + Z.of_nat (length data))) in
  if (0 <? fill s)%nat then
    let n := Nat.min (64 - fill s) (length data) in
    let blk := splice (block s) (fill s) (take n data) in
    let data := drop n data in
    if (fill s + n =? 64)%nat
    then update_blocks (mkSha256 (compress (h s) blk) blk 0 (len s)) data
    else Some (mkSha256 (h s) blk (fill s + n) (len s))
  else update_blocks s data.

(** ** [finish], [digest], [hex] *)
Fixpoint pad_zeros (fuel : nat) (s : Sha256) : option Sha256 :=
  if (fill s =? 56)%nat then Some s
  else match fuel with
       | O => None
       | S fuel => s ← update s [0]; pad_zeros fuel s
       end.

Definition finish (s : Sha256) : option bytes :=
  let bits := u64 (len s * 8) in
  s ← update s [128];
  s ← pad_zeros 64 s;
  s ← update s (be_bytes 8 bits);
  Some (concat (map (be_bytes 4) (h s))).

Definition digest (data : bytes) : option bytes :=
  s ← update new data; finish s.

(** [digest] as the callers see it; it always returns ([digest_bytes_fips]). *)
Definition digest_bytes (data : bytes) : bytes := default [] (digest data).

Definition LUT : str := lit "0123456789abcdef".

Definition hex (l : bytes) : str :=
  concat (map (λ b, [nth (Z.to_nat (Z.shiftr b 4)) LUT 0%N;
                     nth (Z.to_nat (Z.land b 15)) LUT 0%N]) l).

(** ** Padding and chaining, in terms of the code's own compression *)
Definition blocks (m : bytes) : list bytes :=
  map (λ i, slice m (64 * i) (64 * i + 64)) (seq 0 (length m / 64)).

Definition pad (m : bytes) : bytes :=
  m ++ 128 :: replicate ((119 - length m mod 64) mod 64) 0
    ++ be_bytes 8 (8 * Z.of_nat (length m)).

Definition chained (m : bytes) : bytes :=
  concat (map (be_bytes 4) (foldl compress H0 (blocks (pad m)))).

(** The state [s] has absorbed exactly the message [m]. *)
Definition absorbed (s : Sha256) (m : bytes) : Prop :=
  ∃ m0 r n,
    m = m0 ++ r ∧ length m0 = (64 * n)%nat ∧ (length r < 64)%nat ∧
    h s = foldl compress H0 (blocks m0) ∧
    fill s = length r ∧ take (length r) (block s) = r ∧ length (block s) = 64%nat ∧
    len s = u64 (Z.of_nat (length m)).

(** The table the loops fill in place: the words of the block, then the
    recurrence. *)
Definition is_schedule (blk : bytes) (w : list Z) : Prop :=
  length w = 64%nat ∧
  (∀ t, (t < 16)%nat → word w t = of_be_bytes (slice blk (4 * t) (4 * t + 4))) ∧
  (∀ t, (16 <= t < 64)%nat → word w t = Fips.next_word w t).

(** ** Blocks of a message *)
Lemma blocks_short m : (length m < 64)%nat → blocks m = [].
Proof. intros H. unfold blocks. rewrite Nat.div_small by done. done. Qed.

Lemma blocks_cons b m : length b = 64%nat → blocks (b ++ m) = b :: blocks m.
Proof.
  intros Hb. unfold blocks. rewrite length_app, Hb.
  replace (64 + length m)%nat with (length m + 1 * 64)%nat by lia.
  rewrite Nat.div_add by lia. rewrite Nat.add_1_r. simpl seq. simpl map. f_equal.
  - rewrite slice_app_l by lia. by apply slice_full.
  - rewrite <- seq_shift, map_map. apply map_ext. intros i.
    rewrite slice_app_r by lia. f_equal; lia.
Qed.

Lemma blocks_app n m k : length m = (64 * n)%nat → blocks (m ++ k) = blocks m ++ blocks k.
Proof.
  revert m. induction n as [|n IH]; intros m Hm.
  - destruct m; [done|simpl in Hm; lia].
  - rewrite <- (take_drop 64 m), <- app_assoc.
    rewrite !(blocks_cons (take 64 m)) by len. simpl. f_equal. apply IH. len.
Qed.

Lemma whole_blocks_spec fuel hs data :
  (length data <= fuel)%nat →
  ∃ m0 rest n, data = m0 ++ rest ∧ length m0 = (64 * n)%nat ∧ (length rest < 64)%nat ∧
    whole_blocks fuel hs data = Some (foldl compress hs (blocks m0), rest).
Proof.
  revert hs data. induction fuel as [|fuel IH]; intros hs data Hf; cbn [whole_blocks];
    destruct (Nat.leb_spec 64 (length data)) as [Hl|Hl]; try lia;
    try (exists [], data, 0%nat; repeat split; done || lia).
  destruct (IH (compress hs (take 64 data)) (drop 64 data)) as (m0 & rest & n & E & Hm & Hr & HW);
    [len|].
  exists (take 64 data ++ m0), rest, (S n).
  rewrite HW, <- app_assoc, <- E, take_drop, blocks_cons by len. repeat split; try done. len.
Qed.

(** ** [update] extends the absorbed message *)
Lemma new_absorbed : absorbed new [].
Proof. exists [], [], 0%nat. repeat split; simpl; lia. Qed.

Lemma update_blocks_absorbed hs blk f l m0 n data :
  length m0 = (64 * n)%nat → hs = foldl compress H0 (blocks m0) → length blk = 64%nat →
  l = u64 (Z.of_nat (length (m0 ++ data))) →
  ∃ s', update_blocks (mkSha256 hs blk f l) data = Some s' ∧ absorbed s' (m0 ++ data).
Proof.
  intros Hm0 -> Hblk ->. unfold update_blocks. cbn [h block len].
  destruct (whole_blocks_spec (length data) (foldl compress H0 (blocks m0)) data)
    as (m1 & rest & n1 & E & Hm1 & Hr & HW); [lia|].
  rewrite HW. eexists; split; [done|].
  exists (m0 ++ m1), rest, (n + n1)%nat. cbn [h block fill len].
  rewrite <- app_assoc, <- E, (blocks_app n) by done.
  repeat split; try done; try len.
  - by rewrite foldl_app.
  - unfold splice. simpl. apply take_app_length.
  - rewrite length_splice; lia.
Qed.

Lemma update_absorbed s m data :
  absorbed s m → ∃ s', update s data = Some s' ∧ absorbed s' (m ++ data).
Proof.
  intros (m0 & r & n & -> & Hm0 & Hr & Hh & Hf & Ht & Hb & Hl).
  unfold update. cbn [h block fill len]. rewrite Hf.
  assert (Hlen : u64 (len s + Z.of_nat (length data))
                 = u64 (Z.of_nat (length ((m0 ++ r) ++ data)))).
  { rewrite Hl. unfold u64. rewrite wrap_add_l. f_equal. len. }
  rewrite Hlen.
  destruct (Nat.ltb_spec 0 (length r)) as [Hr0|Hr0].
  2: { destruct r; [|simpl in Hr0; lia]. rewrite app_nil_r in *.
       eapply update_blocks_absorbed; done. }
  set (k := Nat.min (64 - length r) (length data)).
  assert (Hblk : splice (block s) (length r) (take k data)
                 = r ++ take k data ++ drop (length r + k) (block s)).
  { unfold splice. rewrite Ht. do 3 f_equal. len. }
  rewrite Hblk. destruct (Nat.eqb_spec (length r + k) 64) as [Hk|Hk].
  - rewrite (drop_ge (block s)), app_nil_r by len.
    replace ((m0 ++ r) ++ data) with ((m0 ++ (r ++ take k data)) ++ drop k data)
      by (by rewrite <- !app_assoc, take_drop).
    apply (update_blocks_absorbed _ _ _ _ _ (S n)); [len| |len|done].
    rewrite (blocks_app n), foldl_app, <- Hh by done.
    rewrite <- (app_nil_r (r ++ take k data)) at 2. by rewrite blocks_cons by len.
  - assert (Hd : k = length data) by lia.
    eexists; split; [done|]. exists m0, (r ++ data), n. cbn [h block fill len].
    rewrite (take_ge data) by lia.
    repeat split; try done; try len; [by rewrite app_assoc|].
    rewrite app_assoc. by apply take_app_length'.
Qed.

Lemma absorbed_fill s m : absorbed s m → fill s = (length m mod 64)%nat.
Proof.
  intros (m0 & r & n & -> & Hm0 & Hr & _ & -> & _).
  rewrite length_app, Hm0, Nat.add_comm, Nat.mul_comm, Nat.Div0.mod_add.
  symmetry. by apply Nat.mod_small.
Qed.

Lemma absorbed_len s m : absorbed s m → len s = u64 (Z.of_nat (length m)).
Proof. by intros (m0 & r & n & -> & ? & ? & ? & ? & ? & ? & ?). Qed.

Lemma absorbed_full s m n :
  absorbed s m → length m = (64 * n)%nat → h s = foldl compress H0 (blocks m).
Proof.
  intros (m0 & r & n0 & -> & Hm0 & Hr & -> & _) Hl.
  assert (r = []) as -> by (destruct r; [done|]; revert Hl; rewrite length_app, Hm0; simpl; simpl in Hr; lia).
  by rewrite app_nil_r.
Qed.

(** ** [finish] *)
Lemma pad_zeros_absorbed k : ∀ fuel s m,
  absorbed s m → (k <= fuel)%nat → ((length m + k) mod 64 = 56)%nat → (k < 64)%nat →
  ∃ s', pad_zeros fuel s = Some s' ∧ absorbed s' (m ++ replicate k 0).
Proof.
  induction k as [|k IH]; intros fuel s m Hs Hf Hm Hk.
  - exists s. rewrite app_nil_r. split; [|done].
    rewrite Nat.add_0_r in Hm. pose proof (absorbed_fill _ _ Hs) as E. rewrite Hm in E.
    destruct fuel; cbn [pad_zeros]; by rewrite E.
  - destruct fuel as [|fuel]; [lia|]. cbn [pad_zeros].
    rewrite (absorbed_fill _ _ Hs).
    destruct (Nat.eqb_spec (length m mod 64) 56) as [E|E].
    { exfalso. rewrite Nat.Div0.add_mod, E in Hm. rewrite (Nat.mod_small (S k)) in Hm by lia.
      destruct (decide (56 + S k < 64))%nat as [?|?].
      - rewrite Nat.mod_small in Hm; lia.
      - replace (56 + S k)%nat with (S k - 8 + 1 * 64)%nat in Hm by lia.
        rewrite Nat.Div0.mod_add, Nat.mod_small in Hm; lia. }
    destruct (update_absorbed s m [0] Hs) as (s1 & -> & Hs1). cbn [mbind option_bind].
    destruct (IH fuel s1 (m ++ [0])) as (s2 & HE & Hs2);
      [done|lia|rewrite length_app; simpl length; by rewrite <- Nat.add_assoc|lia|].
    exists s2. rewrite HE. split; [done|]. by rewrite <- app_assoc in Hs2.
Qed.

Lemma length_pad m : ∃ n, length (pad m) = (64 * n)%nat.
Proof.
  unfold pad. set (r := (length m mod 64)%nat).
  assert (Hr : (r < 64)%nat) by (apply Nat.mod_upper_bound; lia).
  pose proof (Nat.div_mod_eq (length m) 64) as E. fold r in E.
  rewrite length_app. cbn [length]. rewrite length_app, length_replicate, length_be_bytes.
  destruct (decide (r < 56)%nat) as [H|H].
  - exists (length m / 64 + 1)%nat. replace (119 - r)%nat with (55 - r + 1 * 64)%nat by lia.
    rewrite Nat.Div0.mod_add, Nat.mod_small; lia.
  - exists (length m / 64 + 2)%nat. rewrite Nat.mod_small; lia.
Qed.

Lemma pad_reaches_56 m : ((length (m ++ [128%Z]) + (119 - length m mod 64) mod 64) mod 64 = 56)%nat.
Proof.
  rewrite length_app. simpl length. set (r := (length m mod 64)%nat).
  assert (Hr : (r < 64)%nat) by (apply Nat.mod_upper_bound; lia).
  pose proof (Nat.div_mod_eq (length m) 64) as E. fold r in E. rewrite E.
  destruct (decide (r < 56)%nat) as [H|H].
  - replace (119 - r)%nat with (55 - r + 1 * 64)%nat by lia.
    rewrite Nat.Div0.mod_add, (Nat.mod_small (55 - r)) by lia.
    replace (64 * (length m / 64) + r + 1 + (55 - r))%nat with (56 + length m / 64 * 64)%nat by lia.
    rewrite Nat.Div0.mod_add. by apply Nat.mod_small; lia.
  - rewrite (Nat.mod_small (119 - r)) by lia.
    replace (64 * (length m / 64) + r + 1 + (119 - r))%nat
      with (56 + (length m / 64 + 1) * 64)%nat by lia.
    rewrite Nat.Div0.mod_add. by apply Nat.mod_small; lia.
Qed.

Lemma finish_chained s m : absorbed s m → finish s = Some (chained m).
Proof.
  intros Hs. unfold finish.
  destruct (update_absorbed s m [128] Hs) as (s1 & -> & Hs1). cbn [mbind option_bind].
  pose proof (Nat.mod_upper_bound (119 - length m mod 64) 64 ltac:(lia)) as Hz.
  destruct (pad_zeros_absorbed _ 64 s1 _ Hs1 (Nat.lt_le_incl _ _ Hz) (pad_reaches_56 m) Hz)
    as (s2 & -> & Hs2). cbn [mbind option_bind].
  destruct (update_absorbed s2 _ (be_bytes 8 (u64 (len s * 8))) Hs2) as (s3 & -> & Hs3).
  cbn [mbind option_bind]. f_equal. unfold chained.
  destruct (length_pad m) as [n Hn].
  rewrite (absorbed_full s3 (pad m) n); [done| |done].
  replace (pad m) with
    (((m ++ [128]) ++ replicate ((119 - length m mod 64) mod 64) 0)
       ++ be_bytes 8 (u64 (len s * 8))); [done|].
  unfold pad. rewrite <- !app_assoc. simpl. do 3 f_equal.
  rewrite (absorbed_len _ _ Hs). unfold u64. rewrite wrap_mul_l.
  rewrite <- (be_bytes_wrap 8 (8 * _)). f_equal. unfold wrap. by rewrite Z.mul_comm.
Qed.

(** ** The code computes what the standard says

    Each piece of the compression function is the piece of [Fips] it stands
    for; [compress] is [Fips.intermediate] on every 64-byte block. *)
Lemma K_fips : K = Fips.K.
Proof. vm_compute. reflexivity. Qed.
Lemma H0_fips : H0 = Fips.H0.
Proof. vm_compute. reflexivity. Qed.

Lemma rotr32_fips n x : 0 <= n <= 32 → rotr32 x n = Fips.ROTR n x.
Proof.
  intros. unfold rotr32, Fips.ROTR, u32, wrap. by rewrite Z.shiftr_div_pow2, Z.shiftl_mul_pow2 by lia.
Qed.

Lemma shiftr_fips n x : 0 <= n → Z.shiftr x n = Fips.SHR n x.
Proof. intros. unfold Fips.SHR. by rewrite Z.shiftr_div_pow2. Qed.

Lemma not32_fips x : not32 x = Fips.Not x.
Proof. done. Qed.

Lemma u32_add_fips x y : u32 (x + y) = Fips.add x y.
Proof. done. Qed.

Lemma word_fips blk t :
  length blk = 64%nat → (t < 16)%nat →
  of_be_bytes (slice blk (4 * t) (4 * t + 4)) = Fips.M blk t.
Proof.
  intros Hl Ht. unfold Fips.M, slice.
  assert (∃ a b c d, take 4 (drop (4 * t) blk) = [a; b; c; d]) as (a & b & c & d & E).
  { assert (length (take 4 (drop (4 * t) blk)) = 4%nat) as Hn by len.
    destruct (take 4 _) as [|a [|b [|c [|d [|]]]]]; simpl in Hn; try lia. eauto. }
  replace (4 * t + 4 - 4 * t)%nat with 4%nat by lia. rewrite E.
  assert (∀ i, (i < 4)%nat → nth (4 * t + i) blk 0 = nth i [a; b; c; d] 0) as Hi.
  { intros i Hi. rewrite <- E, !nth_lookup, lookup_take_lt, lookup_drop by lia. done. }
  rewrite <- (Nat.add_0_r (4 * t)) at 1. rewrite !Hi by lia. cbn. lia.
Qed.

Lemma sched_word_fips w t : sched_word w t = Fips.next_word w t.
Proof.
  unfold sched_word, Fips.next_word, Fips.sigma0, Fips.sigma1, word.
  rewrite !rotr32_fips, !shiftr_fips by lia.
  unfold Fips.add, u32, wrap. rewrite <- Zplus_mod, Zplus_mod_idemp_l, <- Z.add_assoc, Zplus_mod_idemp_l.
  f_equal. lia.
Qed.

(** ** The schedule *)
Lemma fold_insert_lookup {A} (f : list A → nat → A) (d : A) a n w :
  (a + n <= length w)%nat →
  (∀ w1 w2 i, length w1 = length w2 → (a <= i)%nat →
     (∀ j, (j < i)%nat → nth j w1 d = nth j w2 d) → f w1 i = f w2 i) →
  let w' := foldl (λ w i, <[i := f w i]> w) w (seq a n) in
  length w' = length w ∧
  (∀ t, (t < a)%nat → nth t w' d = nth t w d) ∧
  (∀ t, (a <= t < a + n)%nat → nth t w' d = f w' t).
Proof.
  intros Hl Hf. induction n as [|n IH]; intros w'; [subst w'; simpl; repeat split; intros; lia|].
  subst w'. rewrite seq_S, foldl_snoc.
  set (w1 := foldl _ w (seq a n)) in *. destruct IH as (L1 & Hlow & Hrec); [lia|].
  set (w' := <[_ := _]> w1).
  assert (Hne : ∀ t, t ≠ (a + n)%nat → nth t w' d = nth t w1 d).
  { intros t Ht. rewrite !nth_lookup. unfold w'. by rewrite list_lookup_insert_ne. }
  assert (Hl' : length w' = length w1) by (unfold w'; len).
  split; [lia|]. split; [intros t Ht; rewrite Hne by lia; auto|].
  intros t Ht. destruct (decide (t = a + n)%nat) as [->|Hn].
  - rewrite nth_lookup. unfold w' at 1. rewrite list_lookup_insert_eq by lia. simpl.
    apply Hf; [lia|lia|]. intros j Hj. symmetry. apply Hne. lia.
  - rewrite Hne, Hrec by lia. apply Hf; [lia|lia|]. intros j Hj. symmetry. apply Hne. lia.
Qed.

Lemma load_words_spec blk :
  length (load_words blk) = 64%nat ∧
  ∀ t, (t < 16)%nat → word (load_words blk) t = of_be_bytes (slice blk (4 * t) (4 * t + 4)).
Proof.
  destruct (fold_insert_lookup (λ _ i, of_be_bytes (slice blk (4 * i) (4 * i + 4))) 0 0 16
    (replicate 64 0)) as (H1 & _ & H3); [simpl; lia|done|].
  split; [exact H1|]. intros t Ht. apply H3. lia.
Qed.

Lemma schedule_is_schedule blk : is_schedule blk (schedule blk).
Proof.
  destruct (load_words_spec blk) as [L1 Hlow].
  assert (length (schedule blk) = length (load_words blk) ∧
    (∀ t, (t < 16)%nat → word (schedule blk) t = word (load_words blk) t) ∧
    (∀ t, (16 <= t < 64)%nat → word (schedule blk) t = sched_word (schedule blk) t))
    as (L2 & H2 & H3).
  { apply (fold_insert_lookup sched_word 0 16 48 (load_words blk)); [lia|].
    intros w1 w2 i _ Hi H. unfold sched_word, word. rewrite !(H (i - _)%nat) by lia. done. }
  generalize dependent (schedule blk). intros w L2 H2 H3.
  split; [by rewrite <- L1|]. split.
  - intros t Ht. rewrite <- Hlow by done. by apply H2.
  - intros t Ht. by rewrite H3, sched_word_fips by lia.
Qed.

Lemma extend_snoc n w : Fips.extend (S n) w = Fips.extend n w ++ [Fips.next_word (Fips.extend n w) (length w + n)].
Proof.
  revert w. induction n as [|n IH]; intros w.
  - simpl. by rewrite Nat.add_0_r.
  - change (Fips.extend (S (S n)) w) with (Fips.extend (S n) (w ++ [Fips.next_word w (length w)])).
    rewrite IH. cbn [Fips.extend]. rewrite length_app. simpl length. do 3 f_equal. lia.
Qed.

Lemma extend_spec n w : (16 <= length w)%nat →
  length (Fips.extend n w) = (length w + n)%nat ∧
  (∀ t, (t < length w)%nat → nth t (Fips.extend n w) 0 = nth t w 0) ∧
  (∀ t, (length w <= t < length w + n)%nat →
     nth t (Fips.extend n w) 0 = Fips.next_word (Fips.extend n w) t).
Proof.
  intros Hw. induction n as [|n (L & Hlow & Hrec)]; [simpl; repeat split; intros; lia|].
  rewrite extend_snoc. set (w1 := Fips.extend n w) in *.
  assert (Hold : ∀ z t, (t < length w + n)%nat → nth t (w1 ++ [z]) 0 = nth t w1 0)
    by (intros; apply app_nth1; lia).
  split; [rewrite length_app, L; simpl; lia|].
  split; [intros t Ht; rewrite Hold by lia; auto|].
  intros t Ht. set (z := Fips.next_word w1 (length w + n)).
  assert (Fips.next_word (w1 ++ [z]) t = Fips.next_word w1 t) as ->
    by (unfold Fips.next_word; by rewrite !Hold by lia).
  destruct (decide (t < length w + n)%nat) as [H|H]; [rewrite Hold by lia; apply Hrec; lia|].
  rewrite app_nth2 by lia. replace (t - length w1)%nat with 0%nat by lia.
  unfold z. by replace t with (length w + n)%nat by lia.
Qed.

Lemma W_spec blk :
  length (Fips.W blk) = 64%nat ∧
  (∀ t, (t < 16)%nat → nth t (Fips.W blk) 0 = Fips.M blk t) ∧
  (∀ t, (16 <= t < 64)%nat → nth t (Fips.W blk) 0 = Fips.next_word (Fips.W blk) t).
Proof.
  assert (∀ t, (t < 16)%nat → nth t (map (Fips.M blk) (seq 0 16)) 0 = Fips.M blk t) as Hlow.
  { intros t Ht. rewrite (nth_indep _ 0 (Fips.M blk 0)) by (rewrite length_map, length_seq; lia).
    by rewrite map_nth, seq_nth by lia. }
  assert (length (map (Fips.M blk) (seq 0 16)) = 16%nat) as L by (by rewrite length_map).
  unfold Fips.W. generalize dependent (map (Fips.M blk) (seq 0 16)). intros w Hlow L.
  destruct (extend_spec 48 w) as (L2 & Hold & Hrec); [lia|].
  revert L2 Hold Hrec. generalize (Fips.extend 48 w). intros w' L2 Hold Hrec.
  split; [lia|]. split; intros t Ht; [rewrite Hold by lia; auto|apply Hrec; lia].
Qed.

Lemma schedule_fips blk : length blk = 64%nat → schedule blk = Fips.W blk.
Proof.
  intros Hb. destruct (schedule_is_schedule blk) as (L & Hlow & Hrec).
  destruct (W_spec blk) as (L2 & Hlow2 & Hrec2).
  generalize dependent (schedule blk). generalize dependent (Fips.W blk).
  intros w2 L2 Hlow2 Hrec2 w1 L Hlow Hrec.
  assert (∀ t, (t < 64)%nat → word w1 t = nth t w2 0) as H.
  { intros t. induction (lt_wf t) as [t _ IH]. intros Ht.
    destruct (decide (t < 16)%nat) as [H|H].
    - by rewrite Hlow2, Hlow, word_fips by done.
    - rewrite Hrec2, Hrec by lia. unfold Fips.next_word. by rewrite <- !IH by lia. }
  apply (nth_ext _ _ 0 0); [lia|]. intros t Ht. apply H. lia.
Qed.

Definition fips_vars (v : vars) : Fips.working :=
  Fips.Working (va v) (vb v) (vc v) (vd v) (ve v) (vf v) (vg v) (vh v).

Lemma round_fips w v i :
  fips_vars (round w v i) = Fips.round (fips_vars v) (nth i Fips.K 0, nth i w 0).
Proof.
  unfold round, fips_vars, Fips.round, Fips.Sigma0, Fips.Sigma1, Fips.Ch, Fips.Maj.
  cbn [va vb vc vd ve vf vg vh fst snd]. rewrite !rotr32_fips by lia.
  rewrite <- K_fips, not32_fips, !u32_add_fips. done.
Qed.

Lemma rounds_fips w n : ∀ v k, length w = (k + n)%nat → length Fips.K = (k + n)%nat →
  fips_vars (foldl (round w) v (seq k n))
  = fold_left Fips.round (combine (drop k Fips.K) (drop k w)) (fips_vars v).
Proof.
  induction n as [|n IH]; intros v k Hw HK.
  - by rewrite drop_ge by lia.
  - assert (∀ l : list Z, length l = (k + S n)%nat → drop k l = nth k l 0 :: drop (S k) l) as Hd.
    { intros l Hl. destruct (lookup_lt_is_Some_2 l k) as [x Hx]; [lia|].
      rewrite nth_lookup, Hx. by apply drop_S. }
    rewrite (Hd w), (Hd Fips.K) by done. cbn [seq foldl combine fold_left].
    rewrite <- round_fips. apply IH; lia.
Qed.

Lemma compress_fips hs blk :
  length hs = 8%nat → length blk = 64%nat → compress hs blk = Fips.intermediate hs blk.
Proof.
  intros Hh Hb. unfold compress, Fips.intermediate. rewrite schedule_fips by done.
  pose proof (rounds_fips (Fips.W blk) 64 (vars_of hs) 0) as E.
  rewrite !drop_0 in E. change (fips_vars (vars_of hs)) with (Fips.start hs) in E.
  rewrite <- E; [|by rewrite <- schedule_fips, (proj1 (schedule_is_schedule blk))|done].
  set (v := foldl _ _ _). clearbody v. clear E.
  destruct hs as [|x0 [|x1 [|x2 [|x3 [|x4 [|x5 [|x6 [|x7 [|]]]]]]]]]; simpl in Hh; try lia.
  unfold vars_list, fips_vars. cbn [zip_with nth]. unfold Fips.add, u32, wrap.
  by rewrite !(Z.add_comm _ (va v)), !(Z.add_comm _ (vb v)), !(Z.add_comm _ (vc v)),
    !(Z.add_comm _ (vd v)), !(Z.add_comm _ (ve v)), !(Z.add_comm _ (vf v)),
    !(Z.add_comm _ (vg v)), !(Z.add_comm _ (vh v)).
Qed.

Lemma length_compress hs blk : length hs = 8%nat → length (compress hs blk) = 8%nat.
Proof. intros H. unfold compress. rewrite length_zip_with, H. done. Qed.

Lemma length_foldl_compress bs : ∀ hs, length hs = 8%nat → length (foldl compress hs bs) = 8%nat.
Proof. induction bs as [|b bs IH]; intros hs H; [done|]. apply IH. by apply length_compress. Qed.

(** Chaining, for any two compression functions that agree on whole blocks
    and chaining values of eight words. *)
Lemma chain_agrees (f g : list Z → bytes → list Z) n :
  (∀ hs b, length hs = 8%nat → length b = 64%nat → f hs b = g hs b ∧ length (f hs b) = 8%nat) →
  ∀ m hs, length hs = 8%nat → length m = (64 * n)%nat →
  foldl f hs (blocks m) = fold_left g (Fips.parse n m) hs.
Proof.
  intros Hfg. induction n as [|n IH]; intros m hs Hh Hm; [by rewrite blocks_short by lia|].
  destruct (Hfg hs (take 64 m)) as [E L]; [done|len|].
  rewrite <- (take_drop 64 m) at 1. rewrite blocks_cons by len.
  cbn [foldl Fips.parse fold_left]. rewrite <- E. apply IH; [done|len].
Qed.

Lemma chain_fips n m : length m = (64 * n)%nat →
  foldl compress H0 (blocks m) = fold_left Fips.intermediate (Fips.parse n m) H0.
Proof.
  intros Hm. apply chain_agrees; [|done|done]. intros hs b Hh Hb.
  split; [by apply compress_fips|by apply length_compress].
Qed.

Lemma be_bytes_4_fips x : be_bytes 4 x = Fips.word_bytes x.
Proof.
  unfold Fips.word_bytes. cbn. unfold u8, wrap. rewrite !Z.div_div by lia. done.
Qed.

Lemma pad_fips m : pad m = Fips.pad m.
Proof.
  unfold pad, Fips.pad. do 2 f_equal. f_equal.
  - f_equal. apply Nat2Z.inj.
    rewrite Z2Nat.id, Nat2Z.inj_mod by (apply Z.mod_pos_bound; lia).
    rewrite Nat2Z.inj_sub, Nat2Z.inj_mod by (pose proof (Nat.mod_upper_bound (length m) 64); lia).
    rewrite Zminus_mod_idemp_r.
    replace (Z.of_nat 119 - Z.of_nat (length m)) with (55 - Z.of_nat (length m) + 1 * 64) by lia.
    apply (Z_mod_plus_full (55 - Z.of_nat (length m)) 1 64).
  - cbn. unfold u8, wrap. rewrite !Z.div_div by lia. done.
Qed.

Lemma chained_fips m : chained m = Fips.sha256 m.
Proof.
  unfold chained, Fips.sha256, Fips.parse_blocks. destruct (length_pad m) as [n Hn].
  rewrite <- pad_fips, Hn, (Nat.mul_comm 64), Nat.div_mul by lia.
  rewrite (chain_fips n), H0_fips, flat_map_concat_map by done.
  f_equal. apply map_ext. apply be_bytes_4_fips.
Qed.

Lemma finish_absorbed s m : absorbed s m → finish s = Some (Fips.sha256 m).
Proof. rewrite <- chained_fips. apply finish_chained. Qed.

(** ** Hexadecimal digests *)
Lemma hex_cons b l :
  hex (b :: l) = nth (Z.to_nat (Z.shiftr b 4)) LUT 0%N :: nth (Z.to_nat (Z.land b 15)) LUT 0%N :: hex l.
Proof. done. Qed.

Lemma hex_byte_inj a b :
  byte_ok a → byte_ok b →
  nth (Z.to_nat (Z.shiftr a 4)) LUT 0%N = nth (Z.to_nat (Z.shiftr b 4)) LUT 0%N →
  nth (Z.to_nat (Z.land a 15)) LUT 0%N = nth (Z.to_nat (Z.land b 15)) LUT 0%N → a = b.
Proof.
  intros Ha Hb.
  assert (Hinj : ∀ i j, (i < 16)%nat → (j < 16)%nat → nth i LUT 0%N = nth j LUT 0%N → i = j).
  { assert (HN : NoDup LUT) by (apply (bool_decide_unpack _); vm_compute; done).
    intros i j Hi Hj. rewrite !nth_lookup.
    destruct (lookup_lt_is_Some_2 LUT i Hi) as [x Ex].
    destruct (lookup_lt_is_Some_2 LUT j Hj) as [y Ey].
    rewrite Ex, Ey. simpl. intros ->. by eapply NoDup_lookup. }
  change 15 with (Z.ones 4). rewrite !Z.land_ones, !Z.shiftr_div_pow2 by lia.
  change (2 ^ 4) with 16. unfold byte_ok in *. intros H1 H2.
  pose proof (Z.mod_pos_bound a 16 ltac:(lia)). pose proof (Z.mod_pos_bound b 16 ltac:(lia)).
  assert (0 <= a / 16 < 16) by (Z.to_euclidean_division_equations; lia).
  assert (0 <= b / 16 < 16) by (Z.to_euclidean_division_equations; lia).
  apply Hinj in H1; [|lia..]. apply Hinj in H2; [|lia..].
  rewrite (Z.div_mod a 16), (Z.div_mod b 16) by lia. lia.
Qed.

(** Equal hexadecimal digests come from equal bytes. *)
Lemma hex_inj l k : bytes_ok l → bytes_ok k → hex l = hex k → l = k.
Proof.
  intros Hl. revert k. induction Hl as [|a l Ha _ IH]; intros [|b k] Hk; rewrite ?hex_cons;
    [done|intros [=]|intros [=]|].
  apply Forall_cons in Hk as [Hb Hk]. intros [= H1 H2 H3]. f_equal; [by apply hex_byte_inj|auto].
Qed.

Lemma length_hex l : length (hex l) = (2 * length l)%nat.
Proof. induction l as [|b l IH]; [done|]. rewrite hex_cons. simpl. rewrite IH. lia. Qed.

(** ** Properties *)

(** Feeds the chunks one after the other, as ipkg and sysupgrade do. *)
Definition update_all (s : Sha256) (chunks : list bytes) : option Sha256 :=
  foldl (λ s c, s ← s; update s c) (Some s) chunks.

Lemma update_all_absorbed chunks : ∀ s m,
  absorbed s m → ∃ s', update_all s chunks = Some s' ∧ absorbed s' (m ++ concat chunks).
Proof.
  induction chunks as [|c l IH]; intros s m Hs.
  - exists s. by rewrite app_nil_r.
  - destruct (update_absorbed s m c Hs) as (s1 & E & Hs1).
    destruct (IH s1 _ Hs1) as (s2 & E2 & Hs2). exists s2. split.
    + unfold update_all. cbn [foldl mbind option_bind]. by rewrite E.
    + by rewrite <- app_assoc in Hs2.
Qed.

(** C4. The streaming hash is the SHA-256 of FIPS 180-4 as [Fips] writes it
    independently of the code: whatever the sizes of the pieces given to
    [update], [finish] terminates and returns the standard's digest of their
    concatenation, for messages of every length (the bit length is taken
    modulo 2^64, beyond which the standard defines nothing). *)
Theorem streaming_is_fips chunks :
  (s ← update_all new chunks; finish s) = Some (Fips.sha256 (concat chunks)).
Proof.
  destruct (update_all_absorbed chunks new [] new_absorbed) as (s & -> & Hs).
  by apply finish_absorbed.
Qed.

Lemma digest_fips m : digest m = Some (Fips.sha256 m).
Proof.
  unfold digest. destruct (update_absorbed new [] m new_absorbed) as (s & -> & Hs).
  by apply finish_absorbed.
Qed.

Lemma digest_bytes_fips m : digest_bytes m = Fips.sha256 m.
Proof. unfold digest_bytes. by rewrite digest_fips. Qed.

(** The vectors of the source's test module. *)
Example vector_empty :
  hex <$> digest [] = Some (lit "e3b0c44298fc1c149afbf4c8996fb92427ae41e4649b934ca495991b7852b855").
Proof. vm_compute. reflexivity. Qed.
Example vector_abc :
  hex <$> digest (97 :: 98 :: 99 :: [])
  = Some (lit "ba7816bf8f01cfea414140de5dae2223b00361a396177a9cb410ff61f20015ad").
Proof. vm_compute. reflexivity. Qed.
Example vector_two_blocks :
  hex <$> digest (map Z.of_N (lit "abcdbcdecdefdefgefghfghighijhijkijkljklmklmnlmnomnopnopq"))
  = Some (lit "248d6a61d20638b8e5c026930c3e6039a33ce45964ff2167f6ecedd419db06c1").
Proof. vm_compute. reflexivity. Qed.

Lemma sha256_ok m : length (Fips.sha256 m) = 32%nat ∧ bytes_ok (Fips.sha256 m).
Proof.
  rewrite <- chained_fips. unfold chained. pose proof (length_foldl_compress (blocks (pad m)) H0 eq_refl) as H.
  revert H. generalize (foldl compress H0 (blocks (pad m))). intros l Hl.
  assert (∀ l, length (concat (map (be_bytes 4) l)) = (4 * length l)%nat ∧
               bytes_ok (concat (map (be_bytes 4) l))) as Hgen.
  { clear. induction l as [|x l [IH1 IH2]]; [split; [done|constructor]|].
    cbn [map concat]. rewrite length_app, length_be_bytes, IH1. split; [simpl length; lia|].
    apply Forall_app. split; [apply be_bytes_ok|done]. }
  destruct (Hgen l) as [-> ?]. by rewrite Hl.
Qed.

End Sha.
