(* ===== verification/Util.v ===== *)
(** * Base64 decoding (util.rs)

    [b64_decode] as the loop of the source: a 32-bit accumulator, a bit count
    and the output vector.  The specification is the RFC 4648 encoder. *)

From S2P Require Import Prelude Words RustStr Utf8.
Open Scope Z_scope.

Module Util.

(** [val]: the value of an alphabet byte. *)
Definition val (c : byte) : option Z :=
  if (65 <=? c) && (c <=? 90) then Some (c - 65)
  else if (97 <=? c) && (c <=? 122) then Some (c - 97 + 26)
  else if (48 <=? c) && (c <=? 57) then Some (c - 48 + 52)
  else if c =? 43 then Some 62
  else if c =? 47 then Some 63
  else None.

Record b64_state := B64 { out : bytes; acc : Z; bits : Z }.

Definition skipped (c : byte) : bool := (c =? 61) || is_ascii_whitespace (Z.to_N c).

(** One iteration of the loop; [None] is the early return. *)
Definition b64_step (s : b64_state) (c : byte) : option b64_state :=
  if skipped c then Some s
  else
    v ← val c;
    let acc := Z.lor (u32 (Z.shiftl (acc s) 6)) v in
    let bits := bits s + 6 in
    if 8 <=? bits
    then Some (B64 (out s ++ [u8 (Z.shiftr acc (bits - 8))]) acc (bits - 8))
    else Some (B64 (out s) acc bits).

Definition b64_run (s : b64_state) (l : bytes) : option b64_state :=
  foldl (λ s c, s ← s; b64_step s c) (Some s) l.

Definition b64_decode (s : str) : option bytes :=
  out <$> b64_run (B64 [] 0 0) (Utf8.encode (trim s)).

(** ** Specification: RFC 4648, section 4 *)
Definition alphabet : str :=
  lit "ABCDEFGHIJKLMNOPQRSTUVWXYZabcdefghijklmnopqrstuvwxyz0123456789+/".
Definition enc (v : Z) : char := nth (Z.to_nat v) alphabet 0%N.

Fixpoint b64_encode (l : bytes) : str :=
  match l with
  | [] => []
  | [a] => [enc (a / 4); enc (a mod 4 * 16); chr "="; chr "="]
  | [a; b] => [enc (a / 4); enc (a mod 4 * 16 + b / 16); enc (b mod 16 * 4); chr "="]
  | a :: b :: c :: l =>
      [enc (a / 4); enc (a mod 4 * 16 + b / 16); enc (b mod 16 * 4 + c / 64); enc (c mod 64)]
        ++ b64_encode l
  end.

(** A byte the decoder accepts. *)
Definition accepted (c : byte) : bool := skipped c || match val c with Some _ => true | None => false end.

(** ** The loop *)
Lemma b64_run_app s l k : b64_run s (l ++ k) = s ← b64_run s l; b64_run s k.
Proof.
  unfold b64_run. rewrite foldl_app. destruct (foldl _ (Some s) l); [done|].
  simpl. induction k; [done|]. simpl. done.
Qed.

Lemma b64_run_cons s c l : b64_run s (c :: l) = s ← b64_step s c; b64_run s l.
Proof. apply (b64_run_app s [c] l). Qed.

Lemma push_sextet a v : 0 <= v < 64 → Z.lor (u32 (Z.shiftl a 6)) v = u32 (a * 64 + v).
Proof.
  intros Hv. rewrite Z.shiftl_mul_pow2 by lia. change (2 ^ 6) with 64.
  assert (E : u32 (a * 64 + v) = u32 (a * 64) + v).
  { unfold u32, wrap. Z.to_euclidean_division_equations. nia. }
  rewrite E, <- Z.add_nocarry_lor; [by rewrite <- E|].
  apply Z.bits_inj'. intros n Hn. rewrite Z.land_spec, Z.bits_0. unfold u32, wrap.
  destruct (Z.lt_ge_cases n 6) as [H|H].
  - rewrite Z.mod_pow2_bits_low by lia. change 64 with (2 ^ 6).
    by rewrite Z.mul_pow2_bits_low by lia.
  - destruct (Z.eq_dec v 0) as [->|]; [by rewrite Z.bits_0, andb_false_r|].
    rewrite (Z.bits_above_log2 v), andb_false_r; [done|lia|].
    apply Z.lt_le_trans with 6; [|lia]. apply Z.log2_lt_pow2; lia.
Qed.

Lemma enc_lookup v : 0 <= v < 64 →
  val (Z.of_N (enc v)) = Some v ∧ skipped (Z.of_N (enc v)) = false ∧
  Utf8.ascii (enc v) ∧ is_whitespace (enc v) = false.
Proof.
  intros Hv.
  assert (Forall (λ i, val (Z.of_N (enc (Z.of_nat i))) = Some (Z.of_nat i) ∧
    skipped (Z.of_N (enc (Z.of_nat i))) = false ∧
    (enc (Z.of_nat i) < 128)%N ∧ is_whitespace (enc (Z.of_nat i)) = false) (seq 0 64)) as H.
  { apply (bool_decide_unpack _). vm_compute. done. }
  rewrite Forall_forall in H.
  specialize (H (Z.to_nat v)). rewrite Z2Nat.id in H by lia.
  apply H, elem_of_seq. lia.
Qed.

Lemma b64_step_enc s v : 0 <= v < 64 → b64_step s (Z.of_N (enc v)) =
  (let a := u32 (acc s * 64 + v) in
   if 8 <=? bits s + 6 then Some (B64 (out s ++ [u8 (Z.shiftr a (bits s + 6 - 8))]) a (bits s + 6 - 8))
   else Some (B64 (out s) a (bits s + 6))).
Proof.
  intros Hv. destruct (enc_lookup v Hv) as (E & Es & _ & _).
  unfold b64_step. rewrite Es, E. cbn [mbind option_bind]. by rewrite push_sextet.
Qed.

(** Bits of a byte survive in the low half of the wrapped accumulator. *)
Lemma u8_shiftr_u32 x k : 0 <= k <= 24 → u8 (Z.shiftr (u32 x) k) = u8 (x / 2 ^ k).
Proof.
  intros Hk. unfold u8, u32, wrap. rewrite Z.shiftr_div_pow2 by lia.
  replace (2 ^ 32) with (2 ^ k * 2 ^ (32 - k)) by (rewrite <- Z.pow_add_r by lia; f_equal; lia).
  rewrite Z.rem_mul_r by lia. rewrite Z.add_comm, Z.mul_comm, Z.div_add_l by lia.
  rewrite (Z.div_small (x mod 2 ^ k)) by (apply Z.mod_pos_bound; lia). rewrite Z.add_0_r.
  replace (2 ^ (32 - k)) with (2 ^ 8 * 2 ^ (24 - k)) by (rewrite <- Z.pow_add_r by lia; f_equal; lia).
  rewrite Z.rem_mul_r by lia. rewrite Z.mul_comm, Z.mod_add by lia. by rewrite Z.mod_mod by lia.
Qed.

Lemma u32_push x y : u32 (u32 x * 64 + y) = u32 (x * 64 + y).
Proof. unfold u32, wrap. by rewrite <- Z.add_mod_idemp_l, Z.mul_mod_idemp_l, Z.add_mod_idemp_l by lia. Qed.

(** The four positions inside a group of four characters. *)
Lemma b64_phases o a v l :
  0 <= v < 64 →
  let a' := u32 (a * 64 + v) in
  b64_run (B64 o a 0) (Z.of_N (enc v) :: l) = b64_run (B64 o a' 6) l ∧
  b64_run (B64 o a 6) (Z.of_N (enc v) :: l) = b64_run (B64 (o ++ [u8 (Z.shiftr a' 4)]) a' 4) l ∧
  b64_run (B64 o a 4) (Z.of_N (enc v) :: l) = b64_run (B64 (o ++ [u8 (Z.shiftr a' 2)]) a' 2) l ∧
  b64_run (B64 o a 2) (Z.of_N (enc v) :: l) = b64_run (B64 (o ++ [u8 (Z.shiftr a' 0)]) a' 0) l.
Proof. intros Hv a'. rewrite !b64_run_cons, !b64_step_enc by done. done. Qed.

Lemma b64_pad s l : b64_run s (61 :: l) = b64_run s l.
Proof. done. Qed.

(** Reads one phase and goes on with the rest of the characters. *)
Ltac phase n :=
  let H := fresh in
  match goal with
  | |- context [b64_run (B64 ?o ?a _) (Z.of_N (enc ?v) :: ?l)] =>
      pose proof (b64_phases o a v l) as H;
      destruct H as (H0 & H6 & H4 & H2);
      [Z.to_euclidean_division_equations; lia|];
      first [rewrite H0|rewrite H6|rewrite H4|rewrite H2]; clear H0 H6 H4 H2
  end.

(** Closes [u8 (x / 2^k) = b] when the accumulator holds the bits of [b]. *)
Ltac byte_eq :=
  rewrite ?u32_push, u8_shiftr_u32 by lia;
  match goal with
  | |- context [2 ^ ?k] => let v := eval compute in (2 ^ k) in change (2 ^ k) with v
  end;
  unfold u8, wrap; change (2 ^ 8) with 256; Z.to_euclidean_division_equations; lia.

(** Between groups the state is the output; the accumulator is free. *)
Lemma b64_group o x a b c l :
  byte_ok a → byte_ok b → byte_ok c →
  ∃ x', b64_run (B64 o x 0) (map Z.of_N [enc (a / 4); enc (a mod 4 * 16 + b / 16);
                              enc (b mod 16 * 4 + c / 64); enc (c mod 64)] ++ l)
       = b64_run (B64 (o ++ [a; b; c]) x' 0) l.
Proof.
  unfold byte_ok. intros Ha Hb Hc. cbn [map app]. eexists. do 4 phase 0.
  rewrite <- !app_assoc. cbn [app]. f_equal. f_equal. repeat f_equal; byte_eq.
Qed.

Lemma b64_run_encode l o x :
  bytes_ok l → ∃ s, b64_run (B64 o x 0) (map Z.of_N (b64_encode l)) = Some s ∧ out s = o ++ l.
Proof.
  intros Hl. remember (length l) as n eqn:En. revert l o x Hl En.
  induction (lt_wf n) as [n _ IH]. intros l o x Hl ->.
  destruct l as [|a [|b [|c l]]].
  - eexists. by rewrite app_nil_r.
  - apply Forall_cons in Hl as [Ha _]. unfold byte_ok in Ha. cbn [b64_encode map].
    do 2 phase 0. rewrite !b64_pad. eexists. split; [done|]. cbn [out]. do 2 f_equal. byte_eq.
  - apply Forall_cons in Hl as [Ha Hl]. apply Forall_cons in Hl as [Hb _].
    unfold byte_ok in *. cbn [b64_encode map].
    do 3 phase 0. rewrite b64_pad. eexists. split; [done|]. cbn [out].
    rewrite <- app_assoc. cbn [app]. f_equal. f_equal; [|f_equal]; byte_eq.
  - apply Forall_cons in Hl as [Ha Hl]. apply Forall_cons in Hl as [Hb Hl].
    apply Forall_cons in Hl as [Hc Hl]. cbn [b64_encode]. rewrite map_app.
    destruct (b64_group o x a b c (map Z.of_N (b64_encode l)) Ha Hb Hc) as [x' ->].
    destruct (IH (length l) ltac:(simpl; lia) l (o ++ [a; b; c]) x' Hl eq_refl) as (s & -> & E).
    exists s. split; [done|]. by rewrite E, <- app_assoc.
Qed.

Lemma b64_encode_chars l :
  bytes_ok l → Forall (λ c, Utf8.ascii c ∧ is_whitespace c = false) (b64_encode l).
Proof.
  intros Hl. remember (length l) as n eqn:En. revert l Hl En.
  induction (lt_wf n) as [n _ IH]. intros l Hl ->.
  assert (Henc : ∀ v, 0 <= v < 64 → Utf8.ascii (enc v) ∧ is_whitespace (enc v) = false)
    by (intros v Hv; destruct (enc_lookup v Hv) as (? & ? & ? & ?); done).
  destruct l as [|a [|b [|c l]]]; cbn [b64_encode]; [constructor|..];
    repeat (apply Forall_cons in Hl as [?%id Hl]); unfold byte_ok in *;
    repeat first [apply Forall_app_2|apply Forall_cons_2|apply Forall_nil_2];
    try (apply Henc; Z.to_euclidean_division_equations; lia); try done.
  apply (IH (length l)); [simpl; lia|done..].
Qed.

Lemma b64_step_None s c : b64_step s c = None ↔ accepted c = false.
Proof.
  unfold b64_step, accepted. destruct (skipped c); [done|]. simpl.
  destruct (val c); [|done]. simpl. by case_step.
Qed.

Lemma b64_run_total s l : forallb accepted l = true ↔ is_Some (b64_run s l).
Proof.
  revert s. induction l as [|c l IH]; intros s; simpl.
  - split; [by eexists|done].
  - rewrite b64_run_cons. pose proof (b64_step_None s c) as H.
    destruct (b64_step s c) as [s'|] eqn:E; simpl.
    + destruct (accepted c); [apply IH|]. destruct H as [_ H]. by specialize (H eq_refl).
    + destruct H as [H _]. rewrite H by done. split; [done|by intros [? ?]].
Qed.

(** ** Properties *)

(** C5. Decoding inverts the RFC 4648 encoder, padded or not a multiple of
    three, with any white space around the text: a 32-byte key given in
    base64 is the key pushed to the kernel. *)
Theorem b64_decode_encode l a b :
  bytes_ok l → blank a = true → blank b = true →
  b64_decode (a ++ b64_encode l ++ b) = Some l.
Proof.
  intros Hl Ha Hb. unfold b64_decode.
  pose proof (b64_encode_chars l Hl) as Hc.
  rewrite trim_app_blank_l, trim_app_blank_r by done.
  rewrite not_blank_trimmed by (eapply Forall_impl; [exact Hc|by intros ? [_ ?]]).
  rewrite Utf8.encode_ascii by (eapply Forall_impl; [exact Hc|by intros ? [? _]]).
  destruct (b64_run_encode l [] 0 Hl) as (s & -> & E). simpl. by rewrite E.
Qed.

Lemma b64_decode_encode_witness :
  b64_decode (lit "  " ++ b64_encode [104; 101; 108; 108; 111] ++ [LF]) = Some [104; 101; 108; 108; 111].
Proof.
  apply b64_decode_encode; [|reflexivity|reflexivity].
  apply (bool_decide_unpack _). vm_compute. exact I.
Defined.

(** The decoder fails exactly on a byte outside the alphabet, the padding
    sign and ASCII white space; nothing else is rejected, wherever it stands. *)
Theorem b64_decode_fails_iff s :
  b64_decode s = None ↔ ∃ c, c ∈ Utf8.encode (trim s) ∧ accepted c = false.
Proof.
  unfold b64_decode. pose proof (b64_run_total (B64 [] 0 0) (Utf8.encode (trim s))) as H.
  destruct (b64_run _ _) as [st|]; simpl.
  - split; [done|]. intros (c & Hc & Hf). destruct H as [_ H].
    specialize (H (ltac:(by eexists))). rewrite forallb_forall in H.
    rewrite (H c) in Hf; [done|]. by apply list_elem_of_In.
  - split; [|done]. intros _. destruct (forallb accepted (Utf8.encode (trim s))) eqn:E.
    { destruct H as [H _]. by destruct (H eq_refl). }
    clear H. induction (Utf8.encode (trim s)) as [|c l IH]; [done|]. simpl in E.
    destruct (accepted c) eqn:Ec.
    + destruct (IH E) as (d & ? & ?). exists d. split; [by right|done].
    + exists c. split; [by left|done].
Qed.

(** Padding and partial groups are not checked: text that is not base64 is
    decoded. *)
Example b64_accepts_malformed :
  b64_decode (lit "=a=G=V=") = Some [104; 101] ∧ b64_decode (lit "A") = Some [].
Proof. split; vm_compute; reflexivity. Qed.

End Util.
