(* ===== verification/Wire.v ===== *)
(** * The netlink wire format

    A specification of linux/netlink.h, independent of the model of nl.rs and
    of the message builders: attributes and messages as trees, their bytes
    written out.  [Nl] proves its own encoding equal to this one; [Nft] and
    [Wg] state what the kernel is sent with it.  It models no source file. *)

From S2P Require Import Prelude RustStr Utf8.
Open Scope Z_scope.

Module Wire.

(** ** Bytes *)
Definition be4 (x : Z) : bytes :=
  [x / 256 / 256 / 256 mod 256; x / 256 / 256 mod 256; x / 256 mod 256; x mod 256].
Definition be2 (x : Z) : bytes := [x / 256 mod 256; x mod 256].
Definition le4 (x : Z) : bytes :=
  [x mod 256; x / 256 mod 256; x / 256 / 256 mod 256; x / 256 / 256 / 256 mod 256].
Definition le2 (x : Z) : bytes := [x mod 256; x / 256 mod 256].
Definition cstr (s : str) : bytes := Utf8.encode s ++ [0].

(** ** Netlink attributes and messages *)
Inductive attr : Type :=
| Attr (typ : Z) (payload : bytes)
| Nested (typ : Z) (children : list attr).

Definition pad4 (n : nat) : bytes := replicate ((4 - n mod 4) mod 4) 0.

(** A 16-bit length that counts its header and no padding, a 16-bit type with
    bit 15 set on containers, and the payload padded to four bytes. *)
Fixpoint wire (a : attr) : bytes :=
  match a with
  | Attr t p => le2 (4 + Z.of_nat (length p)) ++ le2 t ++ p ++ pad4 (length p)
  | Nested t l =>
      let p := concat (map wire l) in le2 (4 + Z.of_nat (length p)) ++ le2 (Z.lor t 0x8000) ++ p
  end.

(** Type, flags, the family's fixed header ([nfgenmsg], [genlmsghdr]) and the
    attributes. *)
Record msg := { typ : Z; flags : Z; fixed : bytes; attrs : list attr }.

Definition wire_msg (seq : Z) (m : msg) : bytes :=
  let body := fixed m ++ concat (map wire (attrs m)) in
  le4 (16 + Z.of_nat (length body)) ++ le2 (typ m) ++ le2 (flags m) ++ le4 seq ++ le4 0 ++ body.

(** Consecutive sequence numbers. *)
Fixpoint wire_msgs (seq : Z) (l : list msg) : bytes :=
  match l with
  | [] => []
  | m :: l => wire_msg seq m ++ wire_msgs (seq + 1) l
  end.

Lemma wire_msgs_app l k : ∀ q,
  wire_msgs q (l ++ k) = wire_msgs q l ++ wire_msgs (q + Z.of_nat (length l)) k.
Proof.
  induction l as [|m l IH]; intros q; cbn [wire_msgs app length]; [by rewrite Z.add_0_r|].
  rewrite IH, app_assoc. do 2 f_equal. lia.
Qed.

End Wire.
