(* ===== verification/Nl.v ===== *)
(** * Netlink messages (nl.rs)

    [NlBuf], the append-only builder that backpatches length fields, the
    attribute walker and the decoding of an acknowledgement.  The abstract
    specification is a tree of attributes ([nla]) with a pure encoder: a piece
    of builder code is characterised by the bytes it appends ([writes]). *)

From S2P Require Import Prelude Words RustStr Utf8 Wire.
Open Scope Z_scope.

Module Nl.

(** ** Constants *)
Definition NLMSG_ERROR : Z := 0x2.
Definition NLM_F_REQUEST : Z := 0x1.
Definition NLM_F_ACK : Z := 0x4.
Definition NLM_F_CREATE : Z := 0x400.
Definition NLM_F_EXCL : Z := 0x200.
Definition NLA_F_NESTED : Z := 0x8000.

Definition align4 (n : Z) : Z := Z.land (n + 3) (Z.lnot 3).

(** ** The builder *)
Abbreviation NlBuf := bytes.
(** [Scope]: the offset of an open header. *)
Abbreviation Scope := nat.

Definition empty : NlBuf := [].

(** The [while self.buf.len() % 4 != 0] loop; three rounds are enough. *)
Fixpoint pad_loop (fuel : nat) (b : NlBuf) : NlBuf :=
  if (length b mod 4 =? 0)%nat then b
  else match fuel with O => b | S fuel => pad_loop fuel (b ++ [0]) end.
Definition pad (b : NlBuf) : NlBuf := pad_loop 3 b.

Definition add_bytes (b : NlBuf) (l : bytes) : NlBuf := b ++ l.

Definition attr (b : NlBuf) (typ : Z) (payload : bytes) : NlBuf :=
  let len := u16 (4 + Z.of_nat (length payload)) in
  pad (b ++ le_bytes 2 len ++ le_bytes 2 typ ++ payload).

Definition attr_u16_ne (b : NlBuf) (typ v : Z) : NlBuf := attr b typ (le_bytes 2 v).
Definition attr_u32_be (b : NlBuf) (typ v : Z) : NlBuf := attr b typ (be_bytes 4 v).
Definition attr_u32_le (b : NlBuf) (typ v : Z) : NlBuf := attr b typ (le_bytes 4 v).

Definition attr_str (b : NlBuf) (typ : Z) (s : str) : NlBuf :=
  let s := Utf8.encode s in
  let len := u16 (4 + Z.of_nat (length s) + 1) in
  pad (b ++ le_bytes 2 len ++ le_bytes 2 typ ++ s ++ [0]).

Definition begin_nested (b : NlBuf) (typ : Z) : NlBuf * Scope :=
  (b ++ [0; 0] ++ le_bytes 2 (Z.lor typ NLA_F_NESTED), length b).

Definition end_nested (b : NlBuf) (scope : Scope) : NlBuf :=
  let len := u16 (Z.of_nat (length b - scope)) in
  pad (splice b scope (le_bytes 2 len)).

Definition begin_message (b : NlBuf) (msg_type flags seq : Z) : NlBuf * Scope :=
  (b ++ [0; 0; 0; 0] ++ le_bytes 2 msg_type ++ le_bytes 2 flags ++ le_bytes 4 seq ++ le_bytes 4 0,
   length b).

Definition end_message (b : NlBuf) (scope : Scope) : NlBuf :=
  let len := u32 (Z.of_nat (length b - scope)) in
  pad (splice b scope (le_bytes 4 len)).

(** A scope opened, filled by [f] and closed: the shape of every use of
    [begin_nested] and [begin_message] in the sources. *)
Definition nested (typ : Z) (f : NlBuf → NlBuf) (b : NlBuf) : NlBuf :=
  let '(b, s) := begin_nested b typ in end_nested (f b) s.
Definition in_message (msg_type flags seq : Z) (f : NlBuf → NlBuf) (b : NlBuf) : NlBuf :=
  let '(b, s) := begin_message b msg_type flags seq in end_message (f b) s.

(** ** The walker

    [for_each_attr] calls its closure once per attribute; the result is the
    sequence of calls, in order.  The loop's index is the length of the prefix
    already walked. *)
Fixpoint walk (fuel : nat) (body : bytes) : list (Z * bytes) :=
  match fuel with
  | O => []
  | S fuel =>
      if (length body <? 4)%nat then []
      else
        let len := u16_from_le (byte_at body 0) (byte_at body 1) in
        let typ := Z.land (u16_from_le (byte_at body 2) (byte_at body 3)) 0x3fff in
        if (len <? 4) || (Z.of_nat (length body) <? len) then []
        else (typ, slice body 4 (Z.to_nat len)) :: walk fuel (drop (Z.to_nat (align4 len)) body)
  end.
Definition for_each_attr (body : bytes) : list (Z * bytes) := walk (length body) body.

(** ** [recv_ack]: what a received datagram means.  [Err e] is the errno. *)
Definition i32_from_le (l : bytes) : Z :=
  let v := of_le_bytes l in if v <? 2 ^ 31 then v else v - 2 ^ 32.

Definition ack_of (datagram : bytes) : result unit Z :=
  let n := length datagram in
  let buf := datagram ++ replicate (4096 - n) 0 in
  if (n <? 16)%nat then Ok tt
  else
    let msg_type := u16_from_le (byte_at buf 4) (byte_at buf 5) in
    if msg_type =? NLMSG_ERROR then
      let err := i32_from_le (slice buf 16 20) in
      if err =? 0 then Ok tt else Err (- err)
    else Ok tt.

(** * Specification: attribute trees *)
Inductive nla : Type :=
| Leaf (typ : Z) (payload : bytes)
| Nest (typ : Z) (children : list nla).

Definition padding (n : nat) : bytes := replicate ((4 - n mod 4) mod 4) 0.

Definition header (len : nat) (typ : Z) : bytes :=
  le_bytes 2 (u16 (4 + Z.of_nat len)) ++ le_bytes 2 typ.

Fixpoint enc (a : nla) : bytes :=
  match a with
  | Leaf typ payload => header (length payload) typ ++ payload ++ padding (length payload)
  | Nest typ children =>
      let body := concat (map enc children) in
      header (length body) (Z.lor typ NLA_F_NESTED) ++ body
  end.
Definition enc_all (l : list nla) : bytes := concat (map enc l).

Record message := Msg {
  msg_type : Z; msg_flags : Z; msg_seq : Z;
  msg_fixed : bytes;      (* nfgenmsg, genlmsghdr or ifinfomsg *)
  msg_attrs : list nla
}.

Definition enc_msg (m : message) : bytes :=
  let body := msg_fixed m ++ enc_all (msg_attrs m) in
  le_bytes 4 (u32 (16 + Z.of_nat (length body))) ++ le_bytes 2 (msg_type m) ++
  le_bytes 2 (msg_flags m) ++ le_bytes 4 (msg_seq m) ++ le_bytes 4 0 ++ body.

(** What the receiver sees of one attribute. *)
Definition nla_type (a : nla) : Z :=
  match a with Leaf t _ => t | Nest t _ => Z.lor t NLA_F_NESTED end.
Definition nla_payload (a : nla) : bytes :=
  match a with Leaf _ p => p | Nest _ l => enc_all l end.

(** The attribute's length fits its 16-bit field. *)
Definition nla_fits (a : nla) : Prop := Z.of_nat (length (nla_payload a)) + 4 < 2 ^ 16.
#[global] Instance nla_fits_dec a : Decision (nla_fits a).
Proof. unfold nla_fits. apply _. Defined.

Definition aligned (b : bytes) : Prop := (length b mod 4 = 0)%nat.

(** On an aligned buffer, [f] appends exactly [w]. *)
Definition writes (f : NlBuf → NlBuf) (w : bytes) : Prop :=
  aligned w ∧ ∀ b, aligned b → f b = b ++ w.

(** * Lemmas *)

(** ** Alignment *)
Lemma pad_spec b : pad b = b ++ padding (length b).
Proof.
  unfold pad, padding. pose proof (Nat.mod_upper_bound (length b) 4 ltac:(lia)) as Hm.
  pose proof (Nat.div_mod_eq (length b) 4) as Hd.
  assert (Hs : ∀ k, (length (b ++ replicate k 0%Z) mod 4 = (length b mod 4 + k) mod 4)%nat).
  { intros k. rewrite length_app, length_replicate. by rewrite Nat.Div0.add_mod_idemp_l. }
  pose proof (Hs 1%nat) as H1. pose proof (Hs 2%nat) as H2. pose proof (Hs 3%nat) as H3.
  change (replicate 2 0) with ([0] ++ [0]) in H2. rewrite app_assoc in H2.
  change (replicate 3 0) with ([0] ++ [0] ++ [0]) in H3. rewrite !app_assoc in H3.
  change (replicate 1 0) with [0] in H1.
  cbn [pad_loop]. rewrite H1, H2, H3. clear - Hm.
  destruct (length b mod 4)%nat as [|[|[|[|n]]]]; [| | | |lia]; cbn;
    rewrite <- ?app_assoc; by rewrite ?app_nil_r.
Qed.

Lemma length_padding n : ((n + length (padding n)) mod 4 = 0)%nat.
Proof.
  unfold padding. rewrite length_replicate.
  pose proof (Nat.mod_upper_bound n 4 ltac:(lia)) as Hm.
  rewrite Nat.Div0.add_mod_idemp_r, <- Nat.Div0.add_mod_idemp_l.
  destruct (n mod 4)%nat as [|[|[|[|k]]]]; [done..|lia].
Qed.

Lemma padding_aligned b w : aligned b → padding (length (b ++ w)) = padding (length w).
Proof.
  unfold aligned, padding. intros H. rewrite length_app.
  by rewrite <- Nat.Div0.add_mod_idemp_l, H, Nat.add_0_l.
Qed.

Lemma pad_aligned b : aligned b → pad b = b.
Proof. intros H. rewrite pad_spec. unfold padding. by rewrite H, app_nil_r. Qed.

Lemma aligned_app a b : aligned a → aligned b → aligned (a ++ b).
Proof.
  unfold aligned. rewrite length_app. intros Ha Hb.
  by rewrite <- Nat.Div0.add_mod_idemp_l, Ha, Nat.add_0_l.
Qed.

Lemma length_header n t : length (header n t) = 4%nat.
Proof. unfold header. by rewrite length_app, !length_le_bytes. Qed.

Lemma header_aligned n t : aligned (header n t).
Proof. unfold aligned. by rewrite length_header. Qed.

Lemma padded_aligned p : aligned (p ++ padding (length p)).
Proof. unfold aligned. rewrite length_app. apply length_padding. Qed.

#[local] Hint Resolve aligned_app header_aligned padded_aligned : lwrt.

(** Induction that reaches the children. *)
Lemma nla_nested_ind (P : nla → Prop) :
  (∀ t p, P (Leaf t p)) → (∀ t l, Forall P l → P (Nest t l)) → ∀ a, P a.
Proof.
  intros HL HN. fix IH 1. intros [t p|t l]; [apply HL|]. apply HN.
  induction l as [|a l IHl]; constructor; [apply IH|apply IHl].
Qed.

Lemma enc_all_cons a l : enc_all (a :: l) = enc a ++ enc_all l.
Proof. done. Qed.
Lemma enc_all_app l k : enc_all (l ++ k) = enc_all l ++ enc_all k.
Proof. unfold enc_all. by rewrite map_app, concat_app. Qed.

Lemma enc_aligned a : aligned (enc a).
Proof.
  induction a as [t p|t l IH] using nla_nested_ind; cbn [enc]; [auto with lwrt|].
  apply aligned_app; [auto with lwrt|]. induction IH; [done|]. by apply aligned_app.
Qed.
Lemma enc_all_aligned l : aligned (enc_all l).
Proof. induction l; [done|]. apply aligned_app; [apply enc_aligned|done]. Qed.
#[local] Hint Resolve enc_aligned enc_all_aligned : lwrt.

(** ** Each builder call appends the encoding of its tree *)
Lemma writes_nil : writes id [].
Proof. split; [done|]. intros b _. by rewrite app_nil_r. Qed.

Lemma writes_app f g v w : writes f v → writes g w → writes (λ b, g (f b)) (v ++ w).
Proof.
  intros [Hv Hf] [Hw Hg]. split; [auto with lwrt|]. intros b Hb.
  rewrite Hf by done. rewrite Hg by auto with lwrt. by rewrite app_assoc.
Qed.

Lemma writes_bytes l : aligned l → writes (λ b, add_bytes b l) l.
Proof. done. Qed.

Lemma writes_attr typ p : writes (λ b, attr b typ p) (enc (Leaf typ p)).
Proof.
  split; [auto with lwrt|]. intros b Hb. unfold attr. rewrite pad_spec.
  rewrite padding_aligned by done. cbn [enc]. unfold header. rewrite <- !app_assoc. do 4 f_equal.
  rewrite !length_app, !length_le_bytes. unfold padding. f_equal. f_equal.
  replace (2 + (2 + length p))%nat with (length p + 1 * 4)%nat by lia.
  by rewrite Nat.Div0.mod_add.
Qed.

Lemma writes_attr_str typ s :
  writes (λ b, attr_str b typ s) (enc (Leaf typ (Utf8.encode s ++ [0]))).
Proof.
  destruct (writes_attr typ (Utf8.encode s ++ [0])) as [Ha Hw]. split; [done|].
  intros b Hb. rewrite <- Hw by done. unfold attr_str, attr. do 4 f_equal.
  f_equal. rewrite length_app. simpl length. lia.
Qed.

(** A backpatched scope. *)
Lemma backpatch b h0 h1 rest (len : bytes) :
  length h0 = length len →
  splice (b ++ h0 ++ h1 ++ rest) (length b) len = b ++ len ++ h1 ++ rest.
Proof. intros H. by apply splice_mid. Qed.

Lemma writes_nested_raw typ f w :
  writes f w → writes (nested typ f) (header (length w) (Z.lor typ NLA_F_NESTED) ++ w).
Proof.
  intros [Hw Hf]. split; [auto with lwrt|]. intros b Hb. unfold nested, begin_nested, end_nested.
  set (h1 := le_bytes 2 (Z.lor typ NLA_F_NESTED)).
  assert (Hh : length h1 = 2%nat) by apply length_le_bytes.
  rewrite Hf by (apply aligned_app; [done|]; unfold aligned; by rewrite length_app, Hh).
  rewrite <- !app_assoc, backpatch by (by rewrite length_le_bytes).
  assert (E : (length (b ++ [0%Z; 0%Z] ++ h1 ++ w) - length b)%nat = (4 + length w)%nat).
  { rewrite !length_app, Hh. simpl length. lia. }
  rewrite E, Nat2Z.inj_add. change (Z.of_nat 4) with 4.
  unfold header. rewrite <- (app_assoc _ h1 w).
  apply pad_aligned, aligned_app; [done|]. rewrite app_assoc. apply aligned_app; [|done].
  unfold aligned. by rewrite length_app, Hh, length_le_bytes.
Qed.

Lemma writes_nested typ f l :
  writes f (enc_all l) → writes (nested typ f) (enc (Nest typ l)).
Proof. apply writes_nested_raw. Qed.

(** A nested scope with raw bytes inside is one flagged attribute. *)
Lemma writes_nested_bytes typ p :
  writes (nested typ (λ b, add_bytes b p)) (enc (Leaf (Z.lor typ NLA_F_NESTED) p)).
Proof.
  destruct (writes_attr (Z.lor typ NLA_F_NESTED) p) as [Ha Hw]. split; [done|].
  intros b Hb. rewrite <- Hw by done. unfold nested, begin_nested, end_nested, add_bytes, attr.
  set (h1 := le_bytes 2 (Z.lor typ NLA_F_NESTED)).
  assert (Hh : length h1 = 2%nat) by apply length_le_bytes.
  rewrite <- !app_assoc, backpatch by (by rewrite length_le_bytes).
  do 5 f_equal. f_equal. rewrite !length_app, Hh. simpl length. lia.
Qed.

Lemma writes_message t fl seq f fixed l :
  aligned fixed → writes f (fixed ++ enc_all l) →
  writes (in_message t fl seq f) (enc_msg (Msg t fl seq fixed l)).
Proof.
  intros Hx [Hw Hf]. unfold enc_msg. cbn [msg_type msg_flags msg_seq msg_fixed msg_attrs].
  set (h1 := le_bytes 2 t ++ le_bytes 2 fl ++ le_bytes 4 seq ++ le_bytes 4 0).
  set (w := fixed ++ enc_all l) in *.
  assert (Hh : length h1 = 12%nat) by (unfold h1; rewrite !length_app, !length_le_bytes; done).
  assert (Hlen : aligned (le_bytes 4 (u32 (16 + Z.of_nat (length w))) ++ h1 ++ w)).
  { rewrite app_assoc. apply aligned_app; [|done]. unfold aligned.
    by rewrite length_app, Hh, length_le_bytes. }
  assert (Eh : ∀ k, le_bytes 2 t ++ le_bytes 2 fl ++ le_bytes 4 seq ++ le_bytes 4 0 ++ k = h1 ++ k)
    by (intros k; unfold h1; by rewrite <- !app_assoc).
  rewrite Eh. split; [done|]. intros b Hb. unfold in_message, begin_message, end_message.
  fold h1. rewrite Hf by (apply aligned_app; [done|]; unfold aligned; by rewrite length_app, Hh).
  rewrite <- !app_assoc, backpatch by (by rewrite length_le_bytes).
  assert (E : (length (b ++ [0%Z; 0%Z; 0%Z; 0%Z] ++ h1 ++ w) - length b)%nat = (16 + length w)%nat).
  { rewrite !length_app, Hh. simpl length. lia. }
  rewrite E, Nat2Z.inj_add. change (Z.of_nat 16) with 16.
  apply pad_aligned, aligned_app; done.
Qed.

(** ** The walker reads the tree back *)
Lemma align4_spec n : 0 <= n → align4 n = n + (4 - n mod 4) mod 4.
Proof.
  intros Hn. unfold align4. change (Z.lnot 3) with (Z.lnot (Z.ones 2)).
  rewrite <- Z.ldiff_land, Z.ldiff_ones_r by lia.
  rewrite Z.shiftl_mul_pow2, Z.shiftr_div_pow2 by lia. change (2 ^ 2) with 4.
  Z.to_euclidean_division_equations. nia.
Qed.

Lemma enc_shape a :
  ∃ p, enc a = header (length (nla_payload a)) (nla_type a) ++ nla_payload a ++ p ∧
       p = padding (length (nla_payload a)).
Proof.
  eexists. split; [|done]. destruct a as [t p|t l]; cbn [enc nla_payload nla_type]; [done|].
  fold (enc_all l). unfold padding. by rewrite (enc_all_aligned l), app_nil_r.
Qed.

Lemma u16_le x : 0 <= x < 2 ^ 16 → u16_from_le (byte_at (le_bytes 2 x) 0) (byte_at (le_bytes 2 x) 1) = x.
Proof.
  intros H. unfold u16_from_le, byte_at. cbn [le_bytes nth].
  rewrite <- (of_le_le_bytes_small 2 x) at 3 by (simpl; lia). done.
Qed.

Lemma walk_enc fuel a k :
  nla_fits a → 0 <= nla_type a < 2 ^ 16 →
  walk (S fuel) (enc a ++ k) =
    (Z.land (nla_type a) 0x3fff, nla_payload a) :: walk fuel k.
Proof.
  intros Hfit Ht. destruct (enc_shape a) as (p & -> & Hp).
  set (n := length (nla_payload a)) in *. unfold nla_fits in Hfit. fold n in Hfit.
  assert (Hu : u16 (4 + Z.of_nat n) = 4 + Z.of_nat n) by (apply wrap_small; unfold in_u; lia).
  unfold header. rewrite Hu. rewrite <- !app_assoc.
  assert (Hlp : length (le_bytes 2 (4 + Z.of_nat n) ++ le_bytes 2 (nla_type a) ++
      nla_payload a ++ p ++ k) = (4 + n + length p + length k)%nat).
  { rewrite !length_app, !length_le_bytes. fold n. lia. }
  set (body := le_bytes 2 (4 + Z.of_nat n) ++ _) in *.
  cbn [walk]. rewrite Hlp.
  destruct (Nat.ltb_spec (4 + n + length p + length k) 4); [lia|].
  assert (u16_from_le (byte_at body 0) (byte_at body 1) = 4 + Z.of_nat n) as ->.
  { rewrite <- (u16_le (4 + Z.of_nat n)) at 1 by lia. done. }
  assert (u16_from_le (byte_at body 2) (byte_at body 3) = nla_type a) as ->.
  { rewrite <- (u16_le (nla_type a)) at 1 by lia. done. }
  destruct (Z.ltb_spec (4 + Z.of_nat n) 4); [lia|].
  destruct (Z.ltb_spec (Z.of_nat (4 + n + length p + length k)) (4 + Z.of_nat n)); [lia|]. simpl orb.
  cbn iota. f_equal.
  - f_equal. unfold body. rewrite app_assoc.
    rewrite slice_app_r by (rewrite length_app, !length_le_bytes; simpl; lia).
    rewrite length_app, !length_le_bytes.
    replace (Z.to_nat (4 + Z.of_nat n) - (2 + 2))%nat with n by lia.
    replace (4 - (2 + 2))%nat with 0%nat by lia.
    rewrite slice_app_l by lia. by apply slice_full.
  - f_equal. rewrite align4_spec by lia.
    assert (Hpl : Z.of_nat (length p) = (4 - (4 + Z.of_nat n) mod 4) mod 4).
    { rewrite Hp. unfold padding. rewrite length_replicate.
      rewrite Nat2Z.inj_mod, Nat2Z.inj_sub, Nat2Z.inj_mod
        by (pose proof (Nat.mod_upper_bound n 4 ltac:(lia)); lia).
      change (Z.of_nat 4) with 4. f_equal. f_equal.
      replace (4 + Z.of_nat n) with (Z.of_nat n + 1 * 4) by lia. by rewrite Z.mod_add. }
    rewrite <- Hpl. unfold body. rewrite !app_assoc.
    apply drop_app_length'. rewrite !length_app, !length_le_bytes. fold n. lia.
Qed.

(** The attributes a receiver can tell apart: lengths that fit the 16-bit
    field and 16-bit types. *)
Definition nla_ok (a : nla) : Prop := nla_fits a ∧ 0 <= nla_type a < 2 ^ 16.
#[global] Instance nla_ok_dec a : Decision (nla_ok a).
Proof. unfold nla_ok. apply _. Defined.

Lemma length_enc a : (4 <= length (enc a))%nat.
Proof. destruct a; cbn [enc]; rewrite length_app, length_header; lia. Qed.

Lemma for_each_attr_reads l :
  Forall nla_ok l →
  for_each_attr (enc_all l) = map (λ a, (Z.land (nla_type a) 0x3fff, nla_payload a)) l.
Proof.
  unfold for_each_attr. intros H.
  assert (Hg : ∀ fuel, (length (enc_all l) <= fuel)%nat →
    walk fuel (enc_all l) = map (λ a, (Z.land (nla_type a) 0x3fff, nla_payload a)) l).
  { induction H as [|a l [Hfit Ht] _ IH]; intros fuel Hf.
    - by destruct fuel.
    - rewrite enc_all_cons, length_app in Hf. pose proof (length_enc a).
      destruct fuel as [|fuel]; [lia|]. rewrite enc_all_cons, walk_enc by (done || lia).
      cbn [map]. f_equal. apply IH. lia. }
  by apply Hg.
Qed.

(** C6. Whatever sequence of attributes is built, nested or not, the walker
    yields exactly these, in order, with their payloads and their types
    without the flag bits, and stops at the end of the buffer. *)
Theorem for_each_attr_enc l :
  Forall nla_ok l →
  for_each_attr (enc_all l) = map (λ a, (Z.land (nla_type a) 0x3fff, nla_payload a)) l.
Proof. apply for_each_attr_reads. Qed.

Lemma for_each_attr_enc_witness :
  for_each_attr (enc_all [Leaf 1 [0xaa]; Nest 2 [Leaf 3 [1; 2; 3]]])
  = [(1, [0xaa]); (2, [7; 0; 3; 0; 1; 2; 3; 0])].
Proof.
  rewrite (for_each_attr_enc [Leaf 1 [0xaa]; Nest 2 [Leaf 3 [1; 2; 3]]]); [reflexivity|].
  apply (bool_decide_unpack _). vm_compute. exact I.
Defined.

(** ** Acknowledgements *)

(** An acknowledgement is an error exactly when the datagram is an
    NLMSG_ERROR whose error field is not zero, and then the errno is its
    opposite; shorter datagrams and other messages count as success. *)
Theorem ack_of_spec d e :
  ack_of d = Err e ↔
    (16 <= length d)%nat ∧ u16_from_le (byte_at d 4) (byte_at d 5) = NLMSG_ERROR ∧
    e ≠ 0 ∧ e = - i32_from_le (slice (d ++ replicate (4096 - length d) 0) 16 20).
Proof.
  unfold ack_of. destruct (Nat.ltb_spec (length d) 16) as [Hn|Hn].
  { split; [done|]. intros (? & _). lia. }
  assert (∀ i, (i < 16)%nat → byte_at (d ++ replicate (4096 - length d) 0) i = byte_at d i) as Hb.
  { intros i Hi. unfold byte_at. rewrite app_nth1; [done|lia]. }
  rewrite !Hb by lia.
  destruct (Z.eqb_spec (u16_from_le (byte_at d 4) (byte_at d 5)) NLMSG_ERROR) as [E|E].
  - set (v := i32_from_le _). destruct (Z.eqb_spec v 0) as [Hv|Hv].
    + split; [done|]. intros (_ & _ & He & ->). lia.
    + split; [intros [= <-]; repeat split; [done..|lia]|]. by intros (_ & _ & _ & ->).
  - split; [done|]. by intros (_ & ? & _).
Qed.

(** ** The encoding is the wire format of [Wire] *)
Fixpoint nla_of (a : Wire.attr) : nla :=
  match a with
  | Wire.Attr t p => Leaf t p
  | Wire.Nested t l => Nest t (map nla_of l)
  end.

Lemma le_bytes_fits n x : le_bytes n (wrap (8 * Z.of_nat n) x) = le_bytes n x.
Proof. unfold wrap. rewrite Z.pow_mul_r by lia. apply le_bytes_wrap. Qed.
Lemma le2_u16 x : le_bytes 2 (u16 x) = Wire.le2 x.
Proof. apply (le_bytes_fits 2). Qed.
Lemma le4_u32 x : le_bytes 4 (u32 x) = Wire.le4 x.
Proof. apply (le_bytes_fits 4). Qed.

Lemma enc_nla_of : ∀ a, enc (nla_of a) = Wire.wire a.
Proof.
  fix IH 1. intros [t p|t l]; cbn [nla_of enc Wire.wire]; unfold header; rewrite le2_u16, <- app_assoc.
  - done.
  - replace (concat (map enc (map nla_of l))) with (concat (map Wire.wire l)); [done|].
    induction l as [|a l IHl]; [done|]. cbn [map concat]. by rewrite IH, IHl.
Qed.

Lemma enc_msg_wire q m :
  enc_msg (Msg (Wire.typ m) (Wire.flags m) q (Wire.fixed m) (map nla_of (Wire.attrs m))) = Wire.wire_msg q m.
Proof.
  unfold enc_msg, Wire.wire_msg. cbn [msg_type msg_flags msg_seq msg_fixed msg_attrs].
  rewrite le4_u32. unfold enc_all. rewrite map_map, (map_ext _ _ enc_nla_of). done.
Qed.

End Nl.
