(* ===== verification/Sock.v ===== *)
(** * Sockets and descriptors

    The system calls through which netlink (nl.rs, wg.rs, fw.rs) and the
    interface ioctls (net.rs) reach the kernel, as one event type, with the
    account of the descriptors a run opens and closes. *)

From S2P Require Import Prelude Words RustStr IO.
Open Scope Z_scope.

Module Sock.

(** [struct sockaddr] and the fields of [struct rtentry] that are not zero. *)
Record sockaddr := SockAddr { sa_family : Z; sa_data : bytes }.
Record rtentry := RtEntry {
  rt_dst : sockaddr; rt_gateway : sockaddr; rt_genmask : sockaddr; rt_flags : Z }.

(** [AF_INET] datagrams or raw netlink of a protocol. *)
Inductive family := Inet | Netlink (protocol : Z).

(** The interface requests, by their libc names. *)
Inductive request := SIOCSIFADDR | SIOCSIFNETMASK | SIOCGIFFLAGS | SIOCSIFFLAGS | SIOCGIFHWADDR.
#[global] Instance request_eq_dec : EqDecision request.
Proof. solve_decision. Defined.

(** A failed call answers its errno.  A successful [ioctl] answers what the
    kernel leaves in the 32-byte structure, a successful [recv] the datagram
    cut to the size of the buffer. *)
Inductive ev : Set → Type :=
| Socket (f : family) : ev (result Z Z)
| Bind (fd : Z) (addr : bytes) : ev (result unit Z)
| SendTo (fd : Z) (data addr : bytes) : ev (result unit Z)
| Recv (fd : Z) (size : nat) : ev (result bytes Z)
| Ioctl (fd : Z) (req : request) (arg : bytes) : ev (result bytes Z)
| AddRoute (fd : Z) (rt : rtentry) : ev (result unit Z)       (* SIOCADDRT *)
| Close (fd : Z) : ev unit
| ReadConfig : ev (option str)
| WriteProc (path text : str) : ev unit.                      (* its result is ignored *)

Definition EEXIST : Z := 17.

(** ** Descriptors

    [balance fd] counts how often [fd] is opened less how often it is closed. *)
Definition one (fd fd' : Z) : Z := if decide (fd = fd') then 1 else 0.

Definition delta (fd : Z) (c : call ev) : Z :=
  match c with
  | Call e x =>
      match e in ev X return X → Z with
      | Socket _ => λ r, match r with Ok fd' => one fd fd' | Err _ => 0 end
      | Close fd' => λ _, - one fd fd'
      | _ => λ _, 0
      end x
  end.
Definition balance (fd : Z) (t : list (call ev)) : Z := foldr (λ c n, delta fd c + n) 0 t.

Lemma balance_nil fd : balance fd [] = 0.
Proof. done. Qed.
Lemma balance_cons fd c t : balance fd (c :: t) = delta fd c + balance fd t.
Proof. done. Qed.
Lemma balance_app fd t u : balance fd (t ++ u) = balance fd t + balance fd u.
Proof. induction t as [|c t IH]; simpl; lia. Qed.

(** A call that failed on a descriptor and makes the code return at once:
    [fatal] tells which. *)
Definition failed_on (fatal : call ev → option Z) (fd : Z) (t : list (call ev)) : Z :=
  foldr (λ c n, match fatal c with Some fd' => one fd fd' | None => 0 end + n) 0 t.
Lemma failed_on_cons fatal fd c t :
  failed_on fatal fd (c :: t) =
    match fatal c with Some fd' => one fd fd' | None => 0 end + failed_on fatal fd t.
Proof. done. Qed.
Lemma failed_on_app fatal fd t u :
  failed_on fatal fd (t ++ u) = failed_on fatal fd t + failed_on fatal fd u.
Proof. unfold failed_on. induction t as [|c t IH]; cbn [app foldr]; lia. Qed.

End Sock.
