(* ===== verification/NlSock.v ===== *)
(** * Netlink sockets (the second half of nl.rs)

    Opening, sending, receiving and closing over the events of [Sock]; the
    meaning of a received acknowledgement is [Nl.ack_of]. *)

From S2P Require Import Prelude Words RustStr IO Nl Sock.
Import Nl Sock.
Open Scope Z_scope.

Module NlSock.

Definition AF_NETLINK : Z := 16.
(** [struct sockaddr_nl]: the kernel, port 0. *)
Definition sockaddr_nl : bytes := le_bytes 2 AF_NETLINK ++ replicate 10 0.

Definition open (protocol : Z) : io ev (result Z Z) :=
  perform r := Socket (Netlink protocol) in
  match r with
  | Err e => Ret (Err e)
  | Ok fd =>
      perform r := Bind fd sockaddr_nl in
      match r with
      | Err e => perform u := Close fd in Ret (Err e)
      | Ok _ => Ret (Ok fd)
      end
  end.

Definition send (fd : Z) (data : bytes) : io ev (result unit Z) :=
  perform r := SendTo fd data sockaddr_nl in Ret r.

Definition ACK_SIZE : nat := Z.to_nat 4096.
Definition MSG_SIZE : nat := Z.to_nat 8192.

Definition recv_ack (fd : Z) : io ev (result unit Z) :=
  perform r := Recv fd ACK_SIZE in
  Ret (let? d := r in ack_of (take ACK_SIZE d)).

Definition recv_msg (fd : Z) : io ev (result bytes Z) :=
  perform r := Recv fd MSG_SIZE in
  Ret (let? d := r in Ok (take MSG_SIZE d)).

Definition close (fd : Z) : io ev unit := perform u := Close fd in Ret tt.

(** ** What a trace sends and receives *)
Definition sent (c : call ev) : option bytes :=
  match c with
  | Call e x =>
      match e in ev X return X → option bytes with
      | SendTo _ data _ => λ r, match r with Ok _ => Some data | Err _ => None end
      | _ => λ _, None
      end x
  end.
Definition received (c : call ev) : option (result bytes Z) :=
  match c with
  | Call e x =>
      match e in ev X return X → option (result bytes Z) with
      | Recv _ n => λ r, Some (let? d := r in Ok (take n d))
      | _ => λ _, None
      end x
  end.

Lemma received_recv fd k r t :
  omap received (Call (Recv fd k) r :: t) = (let? d := r in Ok (take k d)) :: omap received t.
Proof. done. Qed.
Lemma sent_recv fd k r t : omap sent (Call (Recv fd k) r :: t) = omap sent t.
Proof. done. Qed.

Lemma open_success p t fd :
  runs (open p) t (Ok fd) → t = [Call (Socket (Netlink p)) (Ok fd); Call (Bind fd sockaddr_nl) (Ok tt)].
Proof.
  unfold open. intros H. run_inv H. destruct x as [fd'|e]; [|by run_inv H].
  run_inv H. destruct x as [[]|e]; [by run_inv H|]. run_inv H. by run_inv H.
Qed.

Lemma open_quiet p t r : runs (open p) t r → omap sent t = [] ∧ omap received t = [].
Proof.
  unfold open. intros H. run_inv H. destruct x as [fd|e]; [|by run_inv H].
  run_inv H. destruct x as [[]|e]; [by run_inv H|]. run_inv H. by run_inv H.
Qed.

(** ** Descriptors

    The calls after whose failure the code returns without closing the
    descriptor: a failed send, a failed [recv_msg], and every interface request
    but the last one of [up] and the one for the hardware address. *)
Definition fatal (c : call ev) : option Z :=
  match c with
  | Call e x =>
      match e in ev X return X → option Z with
      | SendTo fd _ _ => λ r, match r with Err _ => Some fd | Ok _ => None end
      | Recv fd n => λ r, match r with
          | Err _ => if (n =? MSG_SIZE)%nat then Some fd else None
          | Ok _ => None end
      | Ioctl fd req _ => λ r, match r with
          | Err _ => if decide (req = SIOCSIFFLAGS ∨ req = SIOCGIFHWADDR) then None else Some fd
          | Ok _ => None end
      | _ => λ _, None
      end x
  end.
(** Descriptors still open, beyond the ones lost to such a failure. *)
Definition surplus (fd : Z) (t : list (call ev)) : Z := balance fd t - failed_on fatal fd t.

Lemma surplus_nil fd : surplus fd [] = 0.
Proof. done. Qed.
Lemma surplus_app fd t u : surplus fd (t ++ u) = surplus fd t + surplus fd u.
Proof. unfold surplus. rewrite balance_app, failed_on_app. lia. Qed.
Lemma surplus_cons fd c t :
  surplus fd (c :: t) =
    delta fd c - match fatal c with Some fd' => one fd fd' | None => 0 end + surplus fd t.
Proof. unfold surplus. rewrite balance_cons, failed_on_cons. lia. Qed.

Lemma sizes_differ : (ACK_SIZE =? MSG_SIZE)%nat = false.
Proof. vm_compute. reflexivity. Qed.

(** Closes a goal on the surplus of a trace given call by call. *)
Ltac settle :=
  rewrite ?surplus_cons, ?surplus_app, ?surplus_cons, ?surplus_nil; cbn [delta fatal];
  rewrite ?sizes_differ, ?Nat.eqb_refl; repeat (case_decide || case_match);
  simplify_eq; try naive_solver; lia.

Lemma open_surplus fd p t r :
  runs (open p) t r → surplus fd t = match r with Ok fd' => one fd fd' | Err _ => 0 end.
Proof.
  unfold open. intros H. run_inv H. destruct x as [fd'|e]; [|run_inv H; done].
  run_inv H. destruct x as [[]|e]; [|run_inv H; destruct x]; run_inv H;
    settle.
Qed.
End NlSock.
