(* ===== verification/Net.v ===== *)
(** * Interface configuration (net.rs)

    The [ifreq] and [rtentry] structures and the programs that send them.  The
    abstract specification is a table of interfaces ([iface]): [configure] and
    [up] are characterised by what a run does to the table. *)

From S2P Require Import Prelude Words RustStr Utf8 Num IO Nl Sock NlSock.
Import Sock NlSock.
Open Scope Z_scope.

Module Net.

Definition IFNAMSIZ : nat := 16.
(** Linux ABI values of the libc names. *)
Definition AF_INET : Z := 2.
Definition IFF_UP : Z := 0x1.
Definition IFF_RUNNING : Z := 0x40.
Definition RTF_UP : Z := 0x1.
Definition RTF_GATEWAY : Z := 0x2.

Definition ctl_socket : io ev (result Z Z) := perform r := Socket Inet in Ret r.

Definition name_buf (ifname : str) : bytes :=
  let b := Utf8.encode ifname in
  let n := Nat.min (length b) (IFNAMSIZ - 1) in
  splice (replicate IFNAMSIZ 0) 0 (take n b).

Definition put_sockaddr_in (out : bytes) (addr : Z) : bytes :=
  splice (splice out 0 (le_bytes 2 AF_INET)) 4 (Ipv4.octets addr).

(** [[0u8; 32]] with the name in front. *)
Definition ifreq (name : bytes) : bytes := splice (replicate 32 0) 0 name.
Definition ifreq_addr (name : bytes) (addr : Z) : bytes :=
  let req := ifreq name in take IFNAMSIZ req ++ put_sockaddr_in (drop IFNAMSIZ req) addr.

(** The kernel writes into the caller's 32 bytes. *)
Definition ioctl_ifreq (fd : Z) (req : request) (arg : bytes) : io ev (result bytes Z) :=
  perform r := Ioctl fd req arg in
  Ret (match r with Ok b => Ok (take 32 (b ++ replicate 32 0)) | Err e => Err e end).

Definition unit_result {A E} (r : result A E) : result unit E :=
  match r with Ok _ => Ok tt | Err e => Err e end.

Definition i16_from_le (l : bytes) : Z :=
  let v := of_le_bytes l in if v <? 2 ^ 15 then v else v - 2 ^ 16.

Definition up (ifname : str) : io ev (result unit Z) :=
  await r := ctl_socket in
  match r with
  | Err e => Ret (Err e)
  | Ok fd =>
      let name := name_buf ifname in
      await r := ioctl_ifreq fd SIOCGIFFLAGS (ifreq name) in
      match r with
      | Err e => Ret (Err e)
      | Ok req =>
          let flags := i16_from_le (slice req IFNAMSIZ (IFNAMSIZ + 2)) in
          let flags := Z.lor flags (Z.lor IFF_UP IFF_RUNNING) in
          let req := splice req IFNAMSIZ (le_bytes 2 flags) in
          await res := ioctl_ifreq fd SIOCSIFFLAGS req in
          perform u := Close fd in
          Ret (unit_result res)
      end
  end.

Definition configure (ifname : str) (addr netmask : Z) : io ev (result unit Z) :=
  await r := ctl_socket in
  match r with
  | Err e => Ret (Err e)
  | Ok fd =>
      let name := name_buf ifname in
      await r := ioctl_ifreq fd SIOCSIFADDR (ifreq_addr name addr) in
      match r with
      | Err e => Ret (Err e)
      | Ok _ =>
          await r := ioctl_ifreq fd SIOCSIFNETMASK (ifreq_addr name netmask) in
          match r with
          | Err e => Ret (Err e)
          | Ok _ =>
              await r := up ifname in
              perform u := Close fd in
              Ret r
          end
      end
  end.

Definition zero_sockaddr : sockaddr := SockAddr 0 (replicate 14 0).

Definition set_rt_addr (sa : sockaddr) (addr : Z) : sockaddr :=
  let oct := Ipv4.octets addr in
  let data := sa_data sa in
  SockAddr AF_INET
    (<[5%nat := byte_at oct 3]> (<[4%nat := byte_at oct 2]>
       (<[3%nat := byte_at oct 1]> (<[2%nat := byte_at oct 0]> data)))).

Definition default_route (gateway : Z) : io ev (result unit Z) :=
  await r := ctl_socket in
  match r with
  | Err e => Ret (Err e)
  | Ok fd =>
      let rt := RtEntry
        (set_rt_addr zero_sockaddr Ipv4.UNSPECIFIED)
        (set_rt_addr zero_sockaddr gateway)
        (set_rt_addr zero_sockaddr Ipv4.UNSPECIFIED)
        (Z.lor RTF_UP RTF_GATEWAY) in
      perform r := AddRoute fd rt in
      let res := match r with
        | Err e => if e =? EEXIST then Ok tt else Err e
        | Ok _ => Ok tt
        end in
      perform u := Close fd in
      Ret res
  end.

(** The error is the text of the [InvalidInput] value. *)
Definition parse_v4 (s : str) : result Z str :=
  match Ipv4.parse s with
  | Some ip => Ok ip
  | None => Err (lit "bad IPv4: " ++ s)
  end.

(** * Specification

    The interfaces of the kernel, by name.  Setting an address resets the mask
    to the one of its class ([class_mask], any function). *)
Record iface := Iface { if_addr : bytes; if_mask : bytes; if_flags : Z }.
#[global] Instance iface_eq_dec : EqDecision iface.
Proof. solve_decision. Defined.

Section Kernel.
Context (class_mask : bytes → bytes).
Implicit Types (T : gmap bytes iface) (t : list (call ev)).

(** What the kernel reads from an [ifreq]. *)
Definition req_name (arg : bytes) : bytes := take_while (λ b, negb (b =? 0)) (take IFNAMSIZ arg).
Definition req_addr (arg : bytes) : bytes := slice arg 20 24.
Definition req_flags (arg : bytes) : Z := of_le_bytes (slice arg 16 18).

Definition serve (T : gmap bytes iface) (req : request) (arg : bytes) : gmap bytes iface :=
  match req with
  | SIOCSIFADDR => alter (λ i, Iface (req_addr arg) (class_mask (req_addr arg)) (if_flags i)) (req_name arg) T
  | SIOCSIFNETMASK => alter (λ i, Iface (if_addr i) (req_addr arg) (if_flags i)) (req_name arg) T
  | SIOCSIFFLAGS => alter (λ i, Iface (if_addr i) (if_mask i) (req_flags arg)) (req_name arg) T
  | SIOCGIFFLAGS | SIOCGIFHWADDR => T
  end.
Definition kernel_step (T : gmap bytes iface) (c : call ev) : gmap bytes iface :=
  match c with
  | Call e x =>
      match e in ev X return X → gmap bytes iface with
      | Ioctl _ req arg => λ r, match r with Ok _ => serve T req arg | Err _ => T end
      | _ => λ _, T
      end x
  end.
Definition table_after T t : gmap bytes iface := foldl kernel_step T t.

(** Only interfaces that exist are served, and the flags read are the ones of
    the table. *)
Definition answer_ok T (c : call ev) : Prop :=
  match c with
  | Call e x =>
      match e in ev X return X → Prop with
      | Ioctl _ req arg => λ r, match r with
          | Ok b => ∃ i, T !! req_name arg = Some i ∧
              (req = SIOCGIFFLAGS → in_u 16 (if_flags i) ∧ b = splice arg 16 (le_bytes 2 (if_flags i)))
          | Err _ => True end
      | _ => λ _, True
      end x
  end.
Fixpoint kernel_ok T t : Prop :=
  match t with
  | [] => True
  | c :: t => answer_ok T c ∧ kernel_ok (kernel_step T c) t
  end.
End Kernel.

(** The names the kernel gives: fifteen bytes at most, none of them zero. *)
Definition ifname_ok (s : str) : Prop :=
  (length (Utf8.encode s) <= 15)%nat ∧ Forall (λ b, b ≠ 0) (Utf8.encode s).
#[global] Instance ifname_ok_dec s : Decision (ifname_ok s).
Proof. unfold ifname_ok. apply _. Defined.

(** * Lemmas *)

Lemma name_buf_shape s :
  ifname_ok s → name_buf s = Utf8.encode s ++ replicate (16 - length (Utf8.encode s)) 0.
Proof.
  intros [Hl _]. unfold name_buf, splice, IFNAMSIZ. rewrite take_0, app_nil_l.
  rewrite firstn_all2 by lia. by rewrite drop_replicate.
Qed.

(** However long the name is, sixteen bytes are sent and the last one is zero. *)
Lemma name_buf_terminated s : length (name_buf s) = 16%nat ∧ last (name_buf s) = Some 0.
Proof.
  unfold name_buf, splice, IFNAMSIZ. rewrite take_0, app_nil_l. cbn [Nat.add].
  set (b := Utf8.encode s). set (k := take (Nat.min (length b) (16 - 1)) b).
  assert (Hk : (length k <= 15)%nat) by (unfold k; rewrite length_take; lia).
  split.
  - rewrite length_app, length_drop, length_replicate. lia.
  - rewrite drop_replicate. replace (16 - length k)%nat with (S (15 - length k)) by lia.
    rewrite replicate_S_end, app_assoc. apply last_snoc.
Qed.

Lemma ifreq_shape name : length name = 16%nat → ifreq name = name ++ replicate 16 0.
Proof. intros H. unfold ifreq, splice. by rewrite take_0, H. Qed.

Lemma ifreq_addr_shape name addr :
  length name = 16%nat → ifreq_addr name addr = name ++ [AF_INET; 0; 0; 0] ++ Ipv4.octets addr ++ replicate 8 0.
Proof.
  intros H. unfold ifreq_addr. rewrite ifreq_shape by done. unfold IFNAMSIZ.
  rewrite take_app_length', drop_app_length' by done. f_equal.
Qed.

Lemma req_name_buf s k : ifname_ok s → req_name (name_buf s ++ k) = Utf8.encode s.
Proof.
  intros Hs. destruct (name_buf_terminated s) as [Hl _]. unfold req_name, IFNAMSIZ.
  rewrite take_app_length' by done. rewrite name_buf_shape by done. destruct Hs as [Hn Hz].
  replace (16 - length (Utf8.encode s))%nat with (S (15 - length (Utf8.encode s))) by lia.
  cbn [replicate]. apply take_while_app_stop; [|done].
  apply forallb_forall. intros b Hb. rewrite Forall_forall in Hz.
  specialize (Hz b (proj2 (list_elem_of_In _ _) Hb)). by destruct (Z.eqb_spec b 0).
Qed.

Lemma slice_field (name a b c : bytes) i j :
  (i = length name + length a)%nat → (j = i + length b)%nat → slice (name ++ a ++ b ++ c) i j = b.
Proof.
  intros -> ->. rewrite slice_app_r by lia. rewrite slice_app_r by lia.
  rewrite slice_app_l by lia. unfold slice.
  replace (length name + length a - length name - length a)%nat with 0%nat by lia.
  rewrite drop_0. apply take_ge. lia.
Qed.

Lemma slice_second (name b c : bytes) i j :
  i = length name → (j = i + length b)%nat → slice (name ++ b ++ c) i j = b.
Proof. intros -> ->. apply (slice_field name []); simpl; lia. Qed.

(** ** Words *)
Lemma wrap_lor w a b : 0 <= w → wrap w (Z.lor a b) = Z.lor (wrap w a) (wrap w b).
Proof.
  intros Hw. unfold wrap. rewrite <- !Z.land_ones by done. apply Z.bits_inj'. intros n Hn.
  rewrite !Z.land_spec, !Z.lor_spec, !Z.land_spec. by destruct (Z.testbit (Z.ones w) n), (Z.testbit a n), (Z.testbit b n).
Qed.

(** Reading the flags as an [i16] and writing the bytes back keeps every bit. *)
Lemma flags_or f :
  in_u 16 f →
  of_le_bytes (le_bytes 2 (Z.lor (i16_from_le (le_bytes 2 f)) (Z.lor IFF_UP IFF_RUNNING))) =
  Z.lor f (Z.lor IFF_UP IFF_RUNNING).
Proof.
  intros Hf. rewrite of_le_le_bytes. change (256 ^ Z.of_nat 2) with (2 ^ 16).
  change (?a mod 2 ^ 16) with (wrap 16 a). rewrite wrap_lor by lia.
  change (wrap 16 (Z.lor IFF_UP IFF_RUNNING)) with (Z.lor IFF_UP IFF_RUNNING). f_equal.
  unfold i16_from_le. rewrite of_le_le_bytes_small by done. unfold wrap, in_u in *.
  case_match; [by apply Z.mod_small|]. rewrite <- (Z_mod_plus_full (f - 2 ^ 16) 1 (2 ^ 16)).
  rewrite Z.mod_small; lia.
Qed.

(** ** Successful runs *)
Definition filled (b : bytes) : bytes := take 32 (b ++ replicate 32 0).
Definition raised (b : bytes) : bytes :=
  splice (filled b) 16
    (le_bytes 2 (Z.lor (i16_from_le (slice (filled b) 16 18)) (Z.lor IFF_UP IFF_RUNNING))).

Lemma up_success ifname t :
  runs (up ifname) t (Ok tt) →
  ∃ fd b b', t = [Call (Socket Inet) (Ok fd);
    Call (Ioctl fd SIOCGIFFLAGS (ifreq (name_buf ifname))) (Ok b);
    Call (Ioctl fd SIOCSIFFLAGS (raised b)) (Ok b'); Call (Close fd) tt].
Proof.
  unfold up, ctl_socket, ioctl_ifreq. cbn [io_bind]. intros H.
  run_inv H. destruct x as [fd|e]; cbn [io_bind] in H; [|by run_inv H].
  run_inv H. destruct x as [b|e]; cbn [io_bind] in H; [|by run_inv H].
  run_inv H. destruct x as [b'|e]; cbn [io_bind unit_result] in H; run_inv H; run_inv H.
  destruct x. by exists fd, b, b'.
Qed.

Lemma configure_success ifname addr mask t :
  runs (configure ifname addr mask) t (Ok tt) →
  ∃ fd b b' u, t = Call (Socket Inet) (Ok fd) ::
    Call (Ioctl fd SIOCSIFADDR (ifreq_addr (name_buf ifname) addr)) (Ok b) ::
    Call (Ioctl fd SIOCSIFNETMASK (ifreq_addr (name_buf ifname) mask)) (Ok b') ::
    u ++ [Call (Close fd) tt] ∧ runs (up ifname) u (Ok tt).
Proof.
  unfold configure, ctl_socket, ioctl_ifreq. cbn [io_bind]. intros H.
  run_inv H. destruct x as [fd|e]; cbn [io_bind] in H; [|by run_inv H].
  run_inv H. destruct x as [b|e]; cbn [io_bind] in H; [|by run_inv H].
  run_inv H. destruct x as [b'|e]; cbn [io_bind] in H; [|by run_inv H].
  run_inv H. run_inv H. run_inv H. destruct x. eexists fd, b, b', _. split; [reflexivity|eassumption].
Qed.

Lemma flags_shape name f :
  length name = 16%nat → splice (ifreq name) 16 (le_bytes 2 f) = name ++ le_bytes 2 f ++ replicate 14 0.
Proof.
  intros H. rewrite ifreq_shape by done. unfold splice. rewrite take_app_length' by done. f_equal. f_equal.
  rewrite drop_app, drop_ge, drop_replicate, length_le_bytes, H by (rewrite length_le_bytes; lia). done.
Qed.

Lemma raised_shape name f :
  length name = 16%nat → in_u 16 f →
  raised (name ++ le_bytes 2 f ++ replicate 14 0) =
    name ++ le_bytes 2 (Z.lor (i16_from_le (le_bytes 2 f)) (Z.lor IFF_UP IFF_RUNNING)) ++ replicate 14 0.
Proof.
  intros H Hf. unfold raised, filled.
  assert (Hl : length (name ++ le_bytes 2 f ++ replicate 14 0) = 32%nat).
  { rewrite !length_app, length_le_bytes, length_replicate. lia. }
  rewrite take_app_length' by done.
  rewrite slice_second by (rewrite ?length_le_bytes; simpl; lia).
  rewrite <- H. apply splice_mid. by rewrite !length_le_bytes.
Qed.

(** ** The effect on the table *)
Section Effects.
Context (class_mask : bytes → bytes).
Implicit Types (T : gmap bytes iface) (t u : list (call ev)).

Lemma answers_ok_app T t u :
  kernel_ok class_mask T (t ++ u) ↔ kernel_ok class_mask T t ∧ kernel_ok class_mask (table_after class_mask T t) u.
Proof.
  revert T. induction t as [|c t IH]; intros T; cbn [app kernel_ok]; [simpl; tauto|].
  rewrite IH. simpl. tauto.
Qed.

Lemma up_effect T ifname t :
  ifname_ok ifname → runs (up ifname) t (Ok tt) → kernel_ok class_mask T t →
  ∃ i, T !! Utf8.encode ifname = Some i ∧
    table_after class_mask T t =
      <[Utf8.encode ifname := Iface (if_addr i) (if_mask i) (Z.lor (if_flags i) (Z.lor IFF_UP IFF_RUNNING))]> T.
Proof.
  intros Hn H HK. destruct (up_success _ _ H) as (fd & b & b' & ->). clear H.
  destruct (name_buf_terminated ifname) as [Hl _].
  cbn [kernel_ok answer_ok kernel_step serve] in HK.
  destruct HK as (_ & (i & Hi & Hb) & _). destruct (Hb eq_refl) as [Hf ->]. clear Hb.
  rewrite ifreq_shape, req_name_buf in Hi by done. exists i. split; [done|].
  cbn [table_after foldl kernel_step serve]. rewrite flags_shape, raised_shape by done.
  rewrite req_name_buf by done. unfold req_flags.
  rewrite slice_second by (rewrite ?length_le_bytes; simpl; lia).
  rewrite flags_or by done. apply map_eq. intros k. rewrite lookup_alter, lookup_insert.
  case_decide; by simplify_map_eq.
Qed.

Lemma set_effect T ifname addr (i : iface) req :
  ifname_ok ifname → T !! Utf8.encode ifname = Some i → req = SIOCSIFADDR ∨ req = SIOCSIFNETMASK →
  serve class_mask T req (ifreq_addr (name_buf ifname) addr) =
    <[Utf8.encode ifname :=
        match req with
        | SIOCSIFADDR => Iface (Ipv4.octets addr) (class_mask (Ipv4.octets addr)) (if_flags i)
        | _ => Iface (if_addr i) (Ipv4.octets addr) (if_flags i)
        end]> T.
Proof.
  intros Hn Hi Hr. destruct (name_buf_terminated ifname) as [Hl _].
  rewrite ifreq_addr_shape by done.
  assert (Ha : req_addr (name_buf ifname ++ [AF_INET; 0; 0; 0] ++ Ipv4.octets addr ++ replicate 8 0) = Ipv4.octets addr).
  { apply slice_field; [rewrite Hl; done|]. unfold Ipv4.octets. by rewrite length_be_bytes. }
  apply map_eq. intros k. destruct Hr as [-> | ->]; cbn [serve];
    rewrite req_name_buf, Ha, lookup_alter, lookup_insert by done; case_decide; by simplify_map_eq.
Qed.
End Effects.

(** ** Descriptors *)
Lemma up_surplus fd ifname t r : runs (up ifname) t r → surplus fd t = 0.
Proof.
  unfold up, ctl_socket, ioctl_ifreq. cbn [io_bind]. intros H.
  run_inv H. destruct x as [fd'|e]; cbn [io_bind] in H; [|run_inv H; settle].
  run_inv H. destruct x as [b|e]; cbn [io_bind] in H; [|run_inv H; settle].
  run_inv H. cbn [io_bind] in H. run_inv H. run_inv H. destruct x; settle.
Qed.

Lemma configure_surplus fd ifname addr mask t r : runs (configure ifname addr mask) t r → surplus fd t = 0.
Proof.
  unfold configure, ctl_socket, ioctl_ifreq. cbn [io_bind]. intros H.
  run_inv H. destruct x as [fd'|e]; cbn [io_bind] in H; [|run_inv H; settle].
  run_inv H. destruct x as [b|e]; cbn [io_bind] in H; [|run_inv H; settle].
  run_inv H. destruct x as [b'|e]; cbn [io_bind] in H; [|run_inv H; settle].
  run_inv H. apply (up_surplus fd) in H0. run_inv H. run_inv H. settle.
Qed.

Lemma default_route_surplus fd gateway t r : runs (default_route gateway) t r → surplus fd t = 0.
Proof.
  unfold default_route, ctl_socket. cbn [io_bind]. intros H.
  run_inv H. destruct x as [fd'|e]; cbn [io_bind] in H; [|run_inv H; settle].
  run_inv H. run_inv H. run_inv H. settle.
Qed.

(** ** What the programs ask the kernel *)

(** Calls other than netlink messages and routes. *)
Definition plain (c : call ev) : Prop :=
  match c with Call e _ => match e with Socket _ | Ioctl _ _ _ | Close _ => True | _ => False end end.

(** The routes a trace asks for. *)
Definition route_asked (c : call ev) : option rtentry :=
  match c with
  | Call e x => match e in ev X return X → option rtentry with AddRoute _ rt => λ _, Some rt | _ => λ _, None end x
  end.

Lemma plain_asks t : Forall plain t → omap sent t = [] ∧ omap route_asked t = [].
Proof.
  induction 1 as [|[X e x] t Hc _ [IH1 IH2]]; [done|].
  destruct e; try done; cbn [omap list_omap sent route_asked]; by rewrite ?IH1, ?IH2.
Qed.

Lemma up_plain ifname t r : runs (up ifname) t r → Forall plain t.
Proof.
  unfold up, ctl_socket, ioctl_ifreq. cbn [io_bind]. intros H.
  run_inv H. destruct x as [fd'|e]; cbn [io_bind] in H; [|run_inv H; by repeat constructor].
  run_inv H. destruct x as [b|e]; cbn [io_bind] in H; [|run_inv H; by repeat constructor].
  run_inv H. cbn [io_bind] in H. run_inv H. run_inv H. by repeat constructor.
Qed.
Lemma configure_plain ifname addr mask t r : runs (configure ifname addr mask) t r → Forall plain t.
Proof.
  unfold configure, ctl_socket, ioctl_ifreq. cbn [io_bind]. intros H.
  run_inv H. destruct x as [fd'|e]; cbn [io_bind] in H; [|run_inv H; by repeat constructor].
  run_inv H. destruct x as [b|e]; cbn [io_bind] in H; [|run_inv H; by repeat constructor].
  run_inv H. destruct x as [b'|e]; cbn [io_bind] in H; [|run_inv H; by repeat constructor].
  run_inv H. apply up_plain in H0. run_inv H. run_inv H. do 3 (constructor; [done|]).
  apply Forall_app. split; [done|]. by repeat constructor.
Qed.

(** Whatever its result, [up] changes at most the flags of its interface. *)
Lemma up_effect_any class_mask T ifname t r :
  ifname_ok ifname → runs (up ifname) t r → kernel_ok class_mask T t →
  table_after class_mask T t = T ∨ ∃ i, T !! Utf8.encode ifname = Some i ∧
    table_after class_mask T t =
      <[Utf8.encode ifname := Iface (if_addr i) (if_mask i) (Z.lor (if_flags i) (Z.lor IFF_UP IFF_RUNNING))]> T.
Proof.
  intros Hn H HK. destruct r as [[]|e]; [right; by eapply up_effect|]. left.
  unfold up, ctl_socket, ioctl_ifreq in H. cbn [io_bind] in H.
  run_inv H. destruct x as [fd'|e']; cbn [io_bind] in H; [|by run_inv H].
  run_inv H. destruct x as [b|e']; cbn [io_bind] in H; [|by run_inv H].
  run_inv H. destruct x as [b'|e']; cbn [io_bind unit_result] in H; run_inv H; by run_inv H.
Qed.

(** ** Whole configurations and routes *)
Lemma configure_effect class_mask T ifname addr mask t :
  ifname_ok ifname →
  runs (configure ifname addr mask) t (Ok tt) →
  kernel_ok class_mask T t →
  ∃ i, T !! Utf8.encode ifname = Some i ∧
    table_after class_mask T t =
      <[Utf8.encode ifname :=
          Iface (Ipv4.octets addr) (Ipv4.octets mask) (Z.lor (if_flags i) (Z.lor IFF_UP IFF_RUNNING))]> T.
Proof.
  intros Hn H HK. destruct (configure_success _ _ _ _ H) as (fd & b & b' & u & -> & Hu). clear H.
  destruct (name_buf_terminated ifname) as [Hl _].
  cbn [kernel_ok answer_ok kernel_step] in HK. destruct HK as (_ & (i & Hi & _) & _ & HK).
  rewrite ifreq_addr_shape, req_name_buf in Hi by done. exists i. split; [done|].
  apply answers_ok_app in HK as [HK _].
  assert (Hs : ∀ T2, table_after class_mask T2 (Call (Socket Inet) (Ok fd) ::
    Call (Ioctl fd SIOCSIFADDR (ifreq_addr (name_buf ifname) addr)) (Ok b) ::
    Call (Ioctl fd SIOCSIFNETMASK (ifreq_addr (name_buf ifname) mask)) (Ok b') ::
    u ++ [Call (Close fd) tt]) = table_after class_mask (serve class_mask (serve class_mask T2 SIOCSIFADDR
      (ifreq_addr (name_buf ifname) addr)) SIOCSIFNETMASK (ifreq_addr (name_buf ifname) mask)) u).
  { intros T2. unfold table_after. cbn [foldl kernel_step]. by rewrite foldl_app. }
  rewrite Hs. clear Hs. rewrite (set_effect _ T _ addr i SIOCSIFADDR) in * by auto.
  set (T1 := <[_ := _]> T) in *.
  assert (H1 : T1 !! Utf8.encode ifname = Some (Iface (Ipv4.octets addr) (class_mask (Ipv4.octets addr)) (if_flags i)))
    by apply lookup_insert_eq.
  rewrite (set_effect _ T1 _ mask _ SIOCSIFNETMASK Hn H1) in * by auto.
  destruct (up_effect _ _ _ _ Hn Hu HK) as (j & Hj & ->). unfold T1 in *.
  rewrite lookup_insert_eq in Hj. injection Hj as <-. cbn [if_addr if_mask if_flags].
  by rewrite !insert_insert_eq.
Qed.

Definition in_sockaddr (addr : Z) : sockaddr := SockAddr AF_INET ([0; 0] ++ Ipv4.octets addr ++ replicate 8 0).
(** The default route: any destination, through the gateway, up. *)
Definition default_rt (gateway : Z) : rtentry := RtEntry (in_sockaddr 0) (in_sockaddr gateway) (in_sockaddr 0) 3.

Lemma set_rt_addr_spec addr : set_rt_addr zero_sockaddr addr = in_sockaddr addr.
Proof. reflexivity. Qed.

Lemma default_route_runs class_mask gateway t r :
  runs (default_route gateway) t r →
  (∀ T, table_after class_mask T t = T) ∧
  (omap route_asked t = [default_rt gateway] ∨ r ≠ Ok tt ∧ omap route_asked t = []).
Proof.
  unfold default_route, ctl_socket. cbn [io_bind]. intros H.
  run_inv H. destruct x as [fd|e]; cbn [io_bind] in H; [|run_inv H; split; [done|by right]].
  run_inv H. run_inv H. run_inv H. split; [done|]. left.
  cbn [omap list_omap route_asked]. by rewrite !set_rt_addr_spec.
Qed.

(** * Theorems *)

(** C32. When [configure] succeeds, the named interface, which exists, has the
    address and the mask asked for, is up and running with its other flags
    kept, and no other interface is changed: the mask is set after the address,
    which resets it. *)
Theorem configure_configures class_mask T ifname addr mask t :
  ifname_ok ifname →
  runs (configure ifname addr mask) t (Ok tt) →
  kernel_ok class_mask T t →
  ∃ i, T !! Utf8.encode ifname = Some i ∧
    table_after class_mask T t =
      <[Utf8.encode ifname :=
          Iface (Ipv4.octets addr) (Ipv4.octets mask) (Z.lor (if_flags i) (Z.lor IFF_UP IFF_RUNNING))]> T.
Proof. apply configure_effect. Qed.

(** ** A run on an interface that is down *)
Definition demo_mask : bytes → bytes := λ _, [255; 0; 0; 0].
Definition demo_table_of (name : str) : gmap bytes iface :=
  {[ Utf8.encode name := Iface [0; 0; 0; 0] [0; 0; 0; 0] 0x1002 ]}.
Definition demo_trace_of (name : str) (addr mask : Z) : list (call ev) :=
  let n := name_buf name in
  let a := ifreq_addr n addr in
  let m := ifreq_addr n mask in
  let g := ifreq n in
  let b := splice g 16 (le_bytes 2 0x1002) in
  [Call (Socket Inet) (Ok 3); Call (Ioctl 3 SIOCSIFADDR a) (Ok a);
   Call (Ioctl 3 SIOCSIFNETMASK m) (Ok m); Call (Socket Inet) (Ok 4);
   Call (Ioctl 4 SIOCGIFFLAGS g) (Ok b); Call (Ioctl 4 SIOCSIFFLAGS (raised b)) (Ok (raised b));
   Call (Close 4) tt; Call (Close 3) tt].
Definition demo_table : gmap bytes iface := demo_table_of (lit "lan0").
Definition demo_trace : list (call ev) := demo_trace_of (lit "lan0") (Ipv4.new 10 0 0 1) (Ipv4.new 255 255 255 0).

(** Evaluates the answers of such a run against its table. *)
Ltac demo_kernel :=
  cbn [kernel_ok answer_ok];
  split; [exact I|]; split; [eexists; split; [vm_compute; reflexivity|discriminate]|];
  split; [eexists; split; [vm_compute; reflexivity|discriminate]|]; split; [exact I|];
  split; [eexists; split; [vm_compute; reflexivity|];
    intros _; split; [split; vm_compute; congruence|vm_compute; reflexivity]|];
  split; [eexists; split; [vm_compute; reflexivity|discriminate]|]; done.

Lemma demo_kernel_ok : kernel_ok demo_mask demo_table demo_trace.
Proof. unfold demo_table, demo_trace, demo_trace_of. cbv zeta. demo_kernel. Qed.

Lemma configure_configures_witness :
  table_after demo_mask demo_table demo_trace =
    {[ Utf8.encode (lit "lan0") := Iface [10; 0; 0; 1] [255; 255; 255; 0] 0x1043 ]}.
Proof.
  destruct (configure_configures demo_mask demo_table (lit "lan0") (Ipv4.new 10 0 0 1)
    (Ipv4.new 255 255 255 0) demo_trace) as (i & Hi & ->).
  - apply (bool_decide_unpack _). vm_compute. exact I.
  - unfold demo_trace, demo_trace_of. cbv zeta. play.
  - apply demo_kernel_ok.
  - unfold demo_table, demo_table_of in Hi. rewrite lookup_singleton_eq in Hi. injection Hi as <-. reflexivity.
Defined.

End Net.
