(* ===== verification/Nft.v ===== *)
(** * The kernel's side of nf_tables

    The specification [Fw.v] is proved against; it models no source file.
    Rules are written the way the header comment of fw.rs writes them (tests
    and an action), and translated to netlink messages with the numbers of
    linux/netfilter/nf_tables.h as literals and the wire format of [Wire]:
    nothing here is shared with the model of fw.rs or nl.rs.

    Five numbers and byte orders differ between that header and what fw.rs
    sends, so the translation takes them as a record of [conventions]: [uapi]
    are the kernel's (for a little-endian machine, as the router is), [sent]
    those of fw.rs. *)

From S2P Require Import Prelude RustStr Wire.
Import Wire.
Open Scope Z_scope.

Module Nft.

(** ** Rules *)
Inductive test : Type :=
| CtEstablishedOrRelated
| InputInterface (name : str)
| Protocol (p : Z)
| DestinationAddress (ip : Z)
| DestinationPort (port : Z).
Inductive action : Type :=
| Accept
| DnatTo (ip port : Z)
| Masquerade.

Inductive command : Type :=
| BeginBatch
| Table (name : str)
| BaseChain (name kind : str) (hook priority policy : Z)
| Rule (chain : str) (tests : list test) (act : action)
| EndBatch.

(** What is not the same in fw.rs and in nf_tables.h: the key of
    [meta iifname], the two attributes of a payload load, the type of an
    attribute that holds raw data, and the byte order of a 32-bit number in a
    register. *)
Record conventions := {
  iifname : Z; payload_dreg : Z; payload_base : Z; data_value : Z; word : Z → bytes
}.
Definition uapi : conventions :=
  {| iifname := 6; payload_dreg := 1; payload_base := 2; data_value := 1; word := le4 |}.
Definition sent : conventions :=
  {| iifname := 11; payload_dreg := 2; payload_base := 1; data_value := 0x8001; word := be4 |}.

Section Translation.
Context (c : conventions).

Definition expression (name : str) (data : list attr) : attr :=
  Nested 1 [Attr 1 (cstr name); Nested 2 data].

(** [cmp] of register 1: operators 0 (equal) and 1 (different). *)
Definition compare (op : Z) (v : bytes) : attr :=
  expression (lit "cmp") [Attr 1 (be4 1); Attr 2 (be4 op); Nested 3 [Attr (data_value c) v]].
Definition meta (key : Z) : attr := expression (lit "meta") [Attr 2 (be4 key); Attr 1 (be4 1)].
Definition payload (base offset len : Z) : attr :=
  expression (lit "payload")
    [Attr (payload_dreg c) (be4 1); Attr (payload_base c) (be4 base); Attr 3 (be4 offset);
     Attr 4 (be4 len)].
Definition load (reg : Z) (v : bytes) : attr :=
  expression (lit "immediate") [Attr 1 (be4 reg); Nested 2 [Attr (data_value c) v]].

(** Established is bit 1 of the conntrack state, related bit 2; the network
    header is base 1 with the destination address at 16, the transport header
    base 2 with the destination port at 2. *)
Definition test_exprs (t : test) : list attr :=
  match t with
  | CtEstablishedOrRelated =>
      [expression (lit "ct") [Attr 2 (be4 0); Attr 1 (be4 1)];
       expression (lit "bitwise") [Attr 1 (be4 1); Attr 2 (be4 1); Attr 3 (be4 4);
         Nested 4 [Attr (data_value c) (word c (2 + 4))];
         Nested 5 [Attr (data_value c) (word c 0)]];
       compare 1 (word c 0)]
  | InputInterface name => [meta (iifname c); compare 0 (cstr name)]
  | Protocol p => [meta 16; compare 0 [p]]
  | DestinationAddress ip => [payload 1 16 4; compare 0 (be4 ip)]
  | DestinationPort p => [payload 2 2 2; compare 0 (be2 p)]
  end.

Definition action_exprs (a : action) : list attr :=
  match a with
  | Accept => [expression (lit "immediate") [Attr 1 (be4 0); Nested 2 [Nested 2 [Attr 1 (be4 1)]]]]
  | DnatTo ip port =>
      [load 1 (be4 ip); load 2 (be2 port);
       expression (lit "nat") [Attr 1 (be4 1); Attr 2 (be4 2); Attr 3 (be4 1); Attr 5 (be4 2)]]
  | Masquerade => [expression (lit "masq") []]
  end.

(** Subsystem 10; request 1, acknowledge 4, create 0x400; family inet is 1. *)
Definition command_msg (k : command) : msg :=
  match k with
  | BeginBatch => {| typ := 0x10; flags := 1; fixed := [0; 0; 0; 10]; attrs := [] |}
  | EndBatch => {| typ := 0x11; flags := 1; fixed := [0; 0; 0; 10]; attrs := [] |}
  | Table name =>
      {| typ := 0xa00; flags := 0x405; fixed := [1; 0; 0; 0]; attrs := [Attr 1 (cstr name)] |}
  | BaseChain name kind hook priority policy =>
      {| typ := 0xa03; flags := 0x405; fixed := [1; 0; 0; 0];
         attrs := [Attr 1 (cstr (lit "lwrt")); Attr 3 (cstr name);
                   Nested 4 [Attr 1 (be4 hook); Attr 2 (be4 priority)];
                   Attr 7 (cstr kind); Attr 5 (be4 policy)] |}
  | Rule chain tests act =>
      {| typ := 0xa06; flags := 0x405; fixed := [1; 0; 0; 0];
         attrs := [Attr 1 (cstr (lit "lwrt")); Attr 2 (cstr chain);
                   Nested 4 (concat (map test_exprs tests) ++ action_exprs act)] |}
  end.

Definition encode (l : list command) : bytes := wire_msgs 1 (map command_msg l).
End Translation.

(** ** The ruleset the header comment of fw.rs documents

    Hooks: prerouting 0, input 1, forward 2, postrouting 4; verdicts: drop 0,
    accept 1; ICMP is protocol 1.  A port forward is protocol, external port,
    address and port. *)
Record redirect := { r_proto : Z; r_port : Z; r_ip : Z; r_to : Z }.

Definition base_rules (lan : str) : list command :=
  [BeginBatch; Table (lit "lwrt");
   BaseChain (lit "input") (lit "filter") 1 0 0;
   BaseChain (lit "forward") (lit "filter") 2 0 0;
   BaseChain (lit "prerouting") (lit "nat") 0 (-100) 1;
   BaseChain (lit "postrouting") (lit "nat") 4 100 1;
   Rule (lit "input") [CtEstablishedOrRelated] Accept;
   Rule (lit "input") [InputInterface (lit "lo")] Accept;
   Rule (lit "input") [InputInterface lan] Accept;
   Rule (lit "input") [Protocol 1] Accept;
   Rule (lit "forward") [CtEstablishedOrRelated] Accept;
   Rule (lit "forward") [InputInterface lan] Accept].

Definition documented (lan : str) (masq : bool) (l : list redirect) : list command :=
  base_rules lan
  ++ map (λ r, Rule (lit "forward")
       [Protocol (r_proto r); DestinationAddress (r_ip r); DestinationPort (r_to r)] Accept) l
  ++ map (λ r, Rule (lit "prerouting")
       [Protocol (r_proto r); DestinationPort (r_port r)] (DnatTo (r_ip r) (r_to r))) l
  ++ (if masq then [Rule (lit "postrouting") [] Masquerade] else [])
  ++ [EndBatch].

(** ** Lemmas *)
(** The batches of the two conventions differ before the LAN is mentioned:
    in the first rule. *)
Lemma conventions_differ lan masq l :
  encode sent (documented lan masq l) ≠ encode uapi (documented lan masq l).
Proof.
  unfold encode, documented.
  change (base_rules lan) with (take 7 (base_rules []) ++ drop 7 (base_rules lan)).
  rewrite <- !app_assoc, !(map_app _ (take 7 _)), !wire_msgs_app. intros E.
  apply app_inj_1 in E as [E _]; [|vm_compute; reflexivity]. vm_compute in E. discriminate E.
Qed.

End Nft.
