(* ===== verification/Fw.v ===== *)
(** * The firewall ruleset (fw.rs)

    The nf_tables batch pushed to the kernel.  The detailed model is the
    builder code of the source over [NlBuf]; above it is the list of commands of
    a ruleset ([command]), each with its netlink message, and the specification
    is the documented ruleset in the independent encoding of [Nft]. *)

From S2P Require Import Prelude Words RustStr Utf8 Num Wire Nl Nft.
Open Scope Z_scope.

Module Fw.
Import Nl.

(** ** Constants *)
Definition NFNL_SUBSYS_NFTABLES : Z := 10.
Definition NFNL_MSG_BATCH_BEGIN : Z := 16.
Definition NFNL_MSG_BATCH_END : Z := 17.
Definition NFT_MSG_NEWTABLE : Z := 0.
Definition NFT_MSG_NEWCHAIN : Z := 3.
Definition NFT_MSG_NEWRULE : Z := 6.
Definition NFPROTO_INET : Z := 1.
Definition NFPROTO_IPV4 : Z := 2.
Definition NF_INET_PRE_ROUTING : Z := 0.
Definition NF_INET_LOCAL_IN : Z := 1.
Definition NF_INET_FORWARD : Z := 2.
Definition NF_INET_POST_ROUTING : Z := 4.
Definition NF_DROP : Z := 0.
Definition NF_ACCEPT : Z := 1.
Definition NFTA_TABLE_NAME : Z := 1.
Definition NFTA_CHAIN_TABLE : Z := 1.
Definition NFTA_CHAIN_NAME : Z := 3.
Definition NFTA_CHAIN_HOOK : Z := 4.
Definition NFTA_CHAIN_POLICY : Z := 5.
Definition NFTA_CHAIN_TYPE : Z := 7.
Definition NFTA_HOOK_HOOKNUM : Z := 1.
Definition NFTA_HOOK_PRIORITY : Z := 2.
Definition NFTA_RULE_TABLE : Z := 1.
Definition NFTA_RULE_CHAIN : Z := 2.
Definition NFTA_RULE_EXPRESSIONS : Z := 4.
Definition NFTA_LIST_ELEM : Z := 1.
Definition NFTA_EXPR_NAME : Z := 1.
Definition NFTA_EXPR_DATA : Z := 2.
Definition NFTA_DATA_VALUE : Z := 1.
Definition NFTA_DATA_VERDICT : Z := 2.
Definition NFTA_VERDICT_CODE : Z := 1.
Definition NFTA_CT_DREG : Z := 1.
Definition NFTA_CT_KEY : Z := 2.
Definition NFT_CT_STATE : Z := 0.
Definition NFTA_BITWISE_SREG : Z := 1.
Definition NFTA_BITWISE_DREG : Z := 2.
Definition NFTA_BITWISE_LEN : Z := 3.
Definition NFTA_BITWISE_MASK : Z := 4.
Definition NFTA_BITWISE_XOR : Z := 5.
Definition NFTA_CMP_SREG : Z := 1.
Definition NFTA_CMP_OP : Z := 2.
Definition NFTA_CMP_DATA : Z := 3.
Definition NFT_CMP_EQ : Z := 0.
Definition NFT_CMP_NEQ : Z := 1.
Definition NFTA_META_DREG : Z := 1.
Definition NFTA_META_KEY : Z := 2.
Definition NFT_META_IIFNAME : Z := 11.
Definition NFT_META_L4PROTO : Z := 16.
Definition NFTA_PAYLOAD_DREG : Z := 2.
Definition NFTA_PAYLOAD_BASE : Z := 1.
Definition NFTA_PAYLOAD_OFFSET : Z := 3.
Definition NFTA_PAYLOAD_LEN : Z := 4.
Definition NFT_PAYLOAD_NETWORK_HEADER : Z := 1.
Definition NFT_PAYLOAD_TRANSPORT_HEADER : Z := 2.
Definition NFTA_IMMEDIATE_DREG : Z := 1.
Definition NFTA_IMMEDIATE_DATA : Z := 2.
Definition NFTA_NAT_TYPE : Z := 1.
Definition NFTA_NAT_FAMILY : Z := 2.
Definition NFTA_NAT_REG_ADDR_MIN : Z := 3.
Definition NFTA_NAT_REG_PROTO_MIN : Z := 5.
Definition NFT_NAT_DNAT : Z := 1.
Definition NFT_REG_VERDICT : Z := 0.
Definition NFT_REG_1 : Z := 1.
Definition NFT_REG_2 : Z := 2.
Definition CT_ESTABLISHED : Z := 2.
Definition CT_RELATED : Z := 4.
Definition IPPROTO_TCP : Z := 6.
Definition IPPROTO_UDP : Z := 17.
Definition IPPROTO_ICMP : Z := 1.
Definition TABLE : str := lit "lwrt".

(** ** Port forwards *)
Record Forward := mkForward { proto : Z; dport : Z; dest_ip : Z; dest_port : Z }.
#[global] Instance Forward_eq_dec : EqDecision Forward.
Proof. solve_decision. Defined.

Definition parse_forward (spec : str) : option Forward :=
  match split_char (chr ":") (trim spec) with
  | [] => None
  | p :: it =>
      let p := to_ascii_lowercase (trim p) in
      proto ← (if bool_decide (p = lit "tcp") then Some IPPROTO_TCP
               else if bool_decide (p = lit "udp") then Some IPPROTO_UDP else None);
      match it with
      | [] => None
      | s :: it =>
          dport ← parse_uint 16 (trim s);
          match it with
          | [] => None
          | s :: it =>
              dest_ip ← Ipv4.parse (trim s);
              match it with
              | [] => None
              | s :: it =>
                  dest_port ← parse_uint 16 (trim s);
                  match it with
                  | [] => Some (mkForward proto dport dest_ip dest_port)
                  | _ :: _ => None
                  end
              end
          end
      end
  end.

Definition parse_forwards (spec : str) : list Forward :=
  omap parse_forward (filter (λ s, is_nonempty s) (trim <$> split_char (chr ",") spec)).

(** ** Building blocks *)
Definition nft_type (msg : Z) : Z := Z.lor (u16 (Z.shiftl NFNL_SUBSYS_NFTABLES 8)) msg.

Definition nfgenmsg (b : NlBuf) (family res_id : Z) : NlBuf :=
  add_bytes (add_bytes b [family; 0]) (be_bytes 2 res_id).

Definition value_data (b : NlBuf) (l : bytes) : NlBuf :=
  nested NFTA_DATA_VALUE (λ b, add_bytes b l) b.

Definition expr (b : NlBuf) (name : str) (build_data : NlBuf → NlBuf) : NlBuf :=
  nested NFTA_LIST_ELEM (λ b,
    nested NFTA_EXPR_DATA build_data (attr_str b NFTA_EXPR_NAME name)) b.

Definition verdict_expr (b : NlBuf) (code : Z) : NlBuf :=
  expr b (lit "immediate") (λ b,
    let b := attr_u32_be b NFTA_IMMEDIATE_DREG NFT_REG_VERDICT in
    nested NFTA_IMMEDIATE_DATA (λ b,
      nested NFTA_DATA_VERDICT (λ b, attr_u32_be b NFTA_VERDICT_CODE code) b) b).

Definition immediate_value (b : NlBuf) (reg : Z) (l : bytes) : NlBuf :=
  expr b (lit "immediate") (λ b,
    let b := attr_u32_be b NFTA_IMMEDIATE_DREG reg in
    nested NFTA_IMMEDIATE_DATA (λ b, value_data b l) b).

Definition meta_load (b : NlBuf) (key reg : Z) : NlBuf :=
  expr b (lit "meta") (λ b,
    let b := attr_u32_be b NFTA_META_KEY key in
    attr_u32_be b NFTA_META_DREG reg).

Definition payload_load (b : NlBuf) (base offset len reg : Z) : NlBuf :=
  expr b (lit "payload") (λ b,
    let b := attr_u32_be b NFTA_PAYLOAD_DREG reg in
    let b := attr_u32_be b NFTA_PAYLOAD_BASE base in
    let b := attr_u32_be b NFTA_PAYLOAD_OFFSET offset in
    attr_u32_be b NFTA_PAYLOAD_LEN len).

Definition cmp (b : NlBuf) (reg op : Z) (l : bytes) : NlBuf :=
  expr b (lit "cmp") (λ b,
    let b := attr_u32_be b NFTA_CMP_SREG reg in
    let b := attr_u32_be b NFTA_CMP_OP op in
    nested NFTA_CMP_DATA (λ b, value_data b l) b).

Definition ct_state_match (b : NlBuf) : NlBuf :=
  let b := expr b (lit "ct") (λ b,
    let b := attr_u32_be b NFTA_CT_KEY NFT_CT_STATE in
    attr_u32_be b NFTA_CT_DREG NFT_REG_1) in
  let b := expr b (lit "bitwise") (λ b,
    let b := attr_u32_be b NFTA_BITWISE_SREG NFT_REG_1 in
    let b := attr_u32_be b NFTA_BITWISE_DREG NFT_REG_1 in
    let b := attr_u32_be b NFTA_BITWISE_LEN 4 in
    let b := nested NFTA_BITWISE_MASK
               (λ b, value_data b (be_bytes 4 (Z.lor CT_ESTABLISHED CT_RELATED))) b in
    nested NFTA_BITWISE_XOR (λ b, value_data b (be_bytes 4 0)) b) in
  cmp b NFT_REG_1 NFT_CMP_NEQ (be_bytes 4 0).

(** ** Messages of the batch; the state is the buffer and the sequence number *)
Definition batch : Type := NlBuf * Z.
Definition REQ_CREATE_ACK : Z := Z.lor (Z.lor NLM_F_REQUEST NLM_F_CREATE) NLM_F_ACK.

Definition new_base_chain (s : batch) (name chain_type : str) (hook priority policy : Z) : batch :=
  let '(b, seq) := s in
  (in_message (nft_type NFT_MSG_NEWCHAIN) REQ_CREATE_ACK seq (λ b,
     let b := nfgenmsg b NFPROTO_INET 0 in
     let b := attr_str b NFTA_CHAIN_TABLE TABLE in
     let b := attr_str b NFTA_CHAIN_NAME name in
     let b := nested NFTA_CHAIN_HOOK (λ b,
                let b := attr_u32_be b NFTA_HOOK_HOOKNUM hook in
                attr_u32_be b NFTA_HOOK_PRIORITY priority) b in
     let b := attr_str b NFTA_CHAIN_TYPE chain_type in
     attr_u32_be b NFTA_CHAIN_POLICY policy) b, u32 (seq + 1)).

Definition new_rule (s : batch) (chain : str) (build_exprs : NlBuf → NlBuf) : batch :=
  let '(b, seq) := s in
  (in_message (nft_type NFT_MSG_NEWRULE) REQ_CREATE_ACK seq (λ b,
     let b := nfgenmsg b NFPROTO_INET 0 in
     let b := attr_str b NFTA_RULE_TABLE TABLE in
     let b := attr_str b NFTA_RULE_CHAIN chain in
     nested NFTA_RULE_EXPRESSIONS build_exprs b) b, u32 (seq + 1)).

Definition rule_ct_accept (s : batch) (chain : str) : batch :=
  new_rule s chain (λ b, verdict_expr (ct_state_match b) NF_ACCEPT).

Definition rule_iif_accept (s : batch) (chain ifname : str) : batch :=
  let name := Utf8.encode ifname ++ [0] in
  new_rule s chain (λ b,
    let b := meta_load b NFT_META_IIFNAME NFT_REG_1 in
    let b := cmp b NFT_REG_1 NFT_CMP_EQ name in
    verdict_expr b NF_ACCEPT).

Definition rule_l4proto_accept (s : batch) (chain : str) (proto : Z) : batch :=
  new_rule s chain (λ b,
    let b := meta_load b NFT_META_L4PROTO NFT_REG_1 in
    let b := cmp b NFT_REG_1 NFT_CMP_EQ [proto] in
    verdict_expr b NF_ACCEPT).

Definition rule_dnat (s : batch) (fwd : Forward) : batch :=
  new_rule s (lit "prerouting") (λ b,
    let b := meta_load b NFT_META_L4PROTO NFT_REG_1 in
    let b := cmp b NFT_REG_1 NFT_CMP_EQ [proto fwd] in
    let b := payload_load b NFT_PAYLOAD_TRANSPORT_HEADER 2 2 NFT_REG_1 in
    let b := cmp b NFT_REG_1 NFT_CMP_EQ (be_bytes 2 (dport fwd)) in
    let b := immediate_value b NFT_REG_1 (Ipv4.octets (dest_ip fwd)) in
    let b := immediate_value b NFT_REG_2 (be_bytes 2 (dest_port fwd)) in
    expr b (lit "nat") (λ b,
      let b := attr_u32_be b NFTA_NAT_TYPE NFT_NAT_DNAT in
      let b := attr_u32_be b NFTA_NAT_FAMILY NFPROTO_IPV4 in
      let b := attr_u32_be b NFTA_NAT_REG_ADDR_MIN NFT_REG_1 in
      attr_u32_be b NFTA_NAT_REG_PROTO_MIN NFT_REG_2)).

Definition rule_forward_to_dest (s : batch) (fwd : Forward) : batch :=
  new_rule s (lit "forward") (λ b,
    let b := meta_load b NFT_META_L4PROTO NFT_REG_1 in
    let b := cmp b NFT_REG_1 NFT_CMP_EQ [proto fwd] in
    let b := payload_load b NFT_PAYLOAD_NETWORK_HEADER 16 4 NFT_REG_1 in
    let b := cmp b NFT_REG_1 NFT_CMP_EQ (Ipv4.octets (dest_ip fwd)) in
    let b := payload_load b NFT_PAYLOAD_TRANSPORT_HEADER 2 2 NFT_REG_1 in
    let b := cmp b NFT_REG_1 NFT_CMP_EQ (be_bytes 2 (dest_port fwd)) in
    verdict_expr b NF_ACCEPT).

Definition dstnat_prio : Z := u32 (-100).

Definition build_ruleset (lan : str) (masq : bool) (forwards : list Forward) : NlBuf :=
  let seq := 1 in
  let b := empty in
  let b := in_message NFNL_MSG_BATCH_BEGIN NLM_F_REQUEST seq
             (λ b, nfgenmsg b 0 NFNL_SUBSYS_NFTABLES) b in
  let seq := u32 (seq + 1) in
  let b := in_message (nft_type NFT_MSG_NEWTABLE) REQ_CREATE_ACK seq (λ b,
             let b := nfgenmsg b NFPROTO_INET 0 in
             attr_str b NFTA_TABLE_NAME TABLE) b in
  let seq := u32 (seq + 1) in
  let s := (b, seq) in
  let s := new_base_chain s (lit "input") (lit "filter") NF_INET_LOCAL_IN 0 NF_DROP in
  let s := new_base_chain s (lit "forward") (lit "filter") NF_INET_FORWARD 0 NF_DROP in
  let s := new_base_chain s (lit "prerouting") (lit "nat") NF_INET_PRE_ROUTING dstnat_prio NF_ACCEPT in
  let s := new_base_chain s (lit "postrouting") (lit "nat") NF_INET_POST_ROUTING 100 NF_ACCEPT in
  let s := rule_ct_accept s (lit "input") in
  let s := rule_iif_accept s (lit "input") (lit "lo") in
  let s := rule_iif_accept s (lit "input") lan in
  let s := rule_l4proto_accept s (lit "input") IPPROTO_ICMP in
  let s := rule_ct_accept s (lit "forward") in
  let s := rule_iif_accept s (lit "forward") lan in
  let s := foldl rule_forward_to_dest s forwards in
  let s := foldl rule_dnat s forwards in
  let s := if masq then new_rule s (lit "postrouting") (λ b, expr b (lit "masq") (λ b, b)) else s in
  let '(b, seq) := s in
  in_message NFNL_MSG_BATCH_END NLM_F_REQUEST seq (λ b, nfgenmsg b 0 NFNL_SUBSYS_NFTABLES) b.

(** ** Draining the acknowledgements ([program])

    [recvs] is what the socket delivers, in order: a datagram or the errno of a
    failed [recv].  The socket blocks when nothing is queued: [Waiting]. *)
Inductive drained : Type :=
| Finished (r : result unit Z)
| Waiting.
Definition EAGAIN : Z := 11.

Fixpoint drain (rounds : nat) (recvs : list (result bytes Z)) : drained :=
  match rounds with
  | O => Finished (Ok tt)
  | S rounds =>
      match recvs with
      | [] => Waiting
      | r :: recvs =>
          match (let? d := r in ack_of d) with
          | Ok tt => drain rounds recvs
          | Err e => if e =? EAGAIN then Finished (Ok tt) else Finished (Err e)
          end
      end
  end.
Definition program_recv : list (result bytes Z) → drained := drain 32.

(** ** [count_msgs], the message walker of the source's tests: tables, chains
    and rules of a batch; [None] is a failed assertion. *)
Fixpoint count_loop (fuel : nat) (buf : bytes) (tables chains rules : nat) : option (nat * nat * nat) :=
  if (length buf <? 16)%nat then
    if bool_decide (buf = []) then Some (tables, chains, rules) else None
  else match fuel with
  | O => None
  | S fuel =>
      let len := of_le_bytes (slice buf 0 4) in
      let ty := u16_from_le (byte_at buf 4) (byte_at buf 5) in
      if negb ((16 <=? len) && (len <=? Z.of_nat (length buf))) then None
      else
        let next := drop (Z.to_nat (align4 len)) buf in
        if Z.shiftr ty 8 =? NFNL_SUBSYS_NFTABLES then
          let sub := Z.land ty 0xff in
          if sub =? NFT_MSG_NEWTABLE then count_loop fuel next (S tables) chains rules
          else if sub =? NFT_MSG_NEWCHAIN then count_loop fuel next tables (S chains) rules
          else if sub =? NFT_MSG_NEWRULE then count_loop fuel next tables chains (S rules)
          else count_loop fuel next tables chains rules
        else count_loop fuel next tables chains rules
  end.
Definition count_msgs (buf : bytes) : option (nat * nat * nat) := count_loop (length buf) buf 0 0 0.

(** * Specification: the ruleset as commands *)
Inductive nexpr : Type :=
| Meta (key reg : Z)
| Ct (key reg : Z)
| Bitwise (sreg dreg len : Z) (mask xor : bytes)
| Cmp (reg op : Z) (v : bytes)
| Payload (base offset len reg : Z)
| Immediate (reg : Z) (v : bytes)
| Verdict (code : Z)
| Nat (typ family reg_addr reg_port : Z)
| Masq.

Inductive command : Type :=
| BatchBegin
| NewTable (name : str)
| NewChain (name chain_type : str) (hook priority policy : Z)
| NewRule (chain : str) (exprs : list nexpr)
| BatchEnd.

Definition be32 (typ v : Z) : nla := Leaf typ (be_bytes 4 v).
Definition cstring (typ : Z) (s : str) : nla := Leaf typ (Utf8.encode s ++ [0]).
Definition value (v : bytes) : nla := Leaf (Z.lor NFTA_DATA_VALUE NLA_F_NESTED) v.
Definition named (name : str) (data : list nla) : nla :=
  Nest NFTA_LIST_ELEM [cstring NFTA_EXPR_NAME name; Nest NFTA_EXPR_DATA data].

Definition nexpr_nla (e : nexpr) : nla :=
  match e with
  | Meta key reg => named (lit "meta") [be32 NFTA_META_KEY key; be32 NFTA_META_DREG reg]
  | Ct key reg => named (lit "ct") [be32 NFTA_CT_KEY key; be32 NFTA_CT_DREG reg]
  | Bitwise sreg dreg len mask xor =>
      named (lit "bitwise") [be32 NFTA_BITWISE_SREG sreg; be32 NFTA_BITWISE_DREG dreg;
        be32 NFTA_BITWISE_LEN len; Nest NFTA_BITWISE_MASK [value mask];
        Nest NFTA_BITWISE_XOR [value xor]]
  | Cmp reg op v =>
      named (lit "cmp") [be32 NFTA_CMP_SREG reg; be32 NFTA_CMP_OP op; Nest NFTA_CMP_DATA [value v]]
  | Payload base offset len reg =>
      named (lit "payload") [be32 NFTA_PAYLOAD_DREG reg; be32 NFTA_PAYLOAD_BASE base;
        be32 NFTA_PAYLOAD_OFFSET offset; be32 NFTA_PAYLOAD_LEN len]
  | Immediate reg v =>
      named (lit "immediate") [be32 NFTA_IMMEDIATE_DREG reg; Nest NFTA_IMMEDIATE_DATA [value v]]
  | Verdict code =>
      named (lit "immediate") [be32 NFTA_IMMEDIATE_DREG NFT_REG_VERDICT;
        Nest NFTA_IMMEDIATE_DATA [Nest NFTA_DATA_VERDICT [be32 NFTA_VERDICT_CODE code]]]
  | Nat typ family ra rp =>
      named (lit "nat") [be32 NFTA_NAT_TYPE typ; be32 NFTA_NAT_FAMILY family;
        be32 NFTA_NAT_REG_ADDR_MIN ra; be32 NFTA_NAT_REG_PROTO_MIN rp]
  | Masq => named (lit "masq") []
  end.

Definition nfgen (family res_id : Z) : bytes := [family; 0] ++ be_bytes 2 res_id.

Definition command_msg (seq : Z) (c : command) : message :=
  match c with
  | BatchBegin => Msg NFNL_MSG_BATCH_BEGIN NLM_F_REQUEST seq (nfgen 0 NFNL_SUBSYS_NFTABLES) []
  | BatchEnd => Msg NFNL_MSG_BATCH_END NLM_F_REQUEST seq (nfgen 0 NFNL_SUBSYS_NFTABLES) []
  | NewTable name =>
      Msg (nft_type NFT_MSG_NEWTABLE) REQ_CREATE_ACK seq (nfgen NFPROTO_INET 0)
        [cstring NFTA_TABLE_NAME name]
  | NewChain name ty hook prio policy =>
      Msg (nft_type NFT_MSG_NEWCHAIN) REQ_CREATE_ACK seq (nfgen NFPROTO_INET 0)
        [cstring NFTA_CHAIN_TABLE TABLE; cstring NFTA_CHAIN_NAME name;
         Nest NFTA_CHAIN_HOOK [be32 NFTA_HOOK_HOOKNUM hook; be32 NFTA_HOOK_PRIORITY prio];
         cstring NFTA_CHAIN_TYPE ty; be32 NFTA_CHAIN_POLICY policy]
  | NewRule chain exprs =>
      Msg (nft_type NFT_MSG_NEWRULE) REQ_CREATE_ACK seq (nfgen NFPROTO_INET 0)
        [cstring NFTA_RULE_TABLE TABLE; cstring NFTA_RULE_CHAIN chain;
         Nest NFTA_RULE_EXPRESSIONS (map nexpr_nla exprs)]
  end.

(** The header comment of fw.rs as commands. *)
Definition ct_match : list nexpr :=
  [Ct NFT_CT_STATE NFT_REG_1;
   Bitwise NFT_REG_1 NFT_REG_1 4 (be_bytes 4 (Z.lor CT_ESTABLISHED CT_RELATED)) (be_bytes 4 0);
   Cmp NFT_REG_1 NFT_CMP_NEQ (be_bytes 4 0)].
Definition accept_established (chain : str) : command := NewRule chain (ct_match ++ [Verdict NF_ACCEPT]).
Definition accept_from (chain ifname : str) : command :=
  NewRule chain [Meta NFT_META_IIFNAME NFT_REG_1;
                 Cmp NFT_REG_1 NFT_CMP_EQ (Utf8.encode ifname ++ [0]); Verdict NF_ACCEPT].
Definition accept_proto (chain : str) (p : Z) : command :=
  NewRule chain [Meta NFT_META_L4PROTO NFT_REG_1; Cmp NFT_REG_1 NFT_CMP_EQ [p]; Verdict NF_ACCEPT].
Definition accept_forwarded (f : Forward) : command :=
  NewRule (lit "forward")
    [Meta NFT_META_L4PROTO NFT_REG_1; Cmp NFT_REG_1 NFT_CMP_EQ [proto f];
     Payload NFT_PAYLOAD_NETWORK_HEADER 16 4 NFT_REG_1;
     Cmp NFT_REG_1 NFT_CMP_EQ (Ipv4.octets (dest_ip f));
     Payload NFT_PAYLOAD_TRANSPORT_HEADER 2 2 NFT_REG_1;
     Cmp NFT_REG_1 NFT_CMP_EQ (be_bytes 2 (dest_port f)); Verdict NF_ACCEPT].
Definition dnat (f : Forward) : command :=
  NewRule (lit "prerouting")
    [Meta NFT_META_L4PROTO NFT_REG_1; Cmp NFT_REG_1 NFT_CMP_EQ [proto f];
     Payload NFT_PAYLOAD_TRANSPORT_HEADER 2 2 NFT_REG_1;
     Cmp NFT_REG_1 NFT_CMP_EQ (be_bytes 2 (dport f));
     Immediate NFT_REG_1 (Ipv4.octets (dest_ip f)); Immediate NFT_REG_2 (be_bytes 2 (dest_port f));
     Nat NFT_NAT_DNAT NFPROTO_IPV4 NFT_REG_1 NFT_REG_2].

Definition ruleset (lan : str) (masq : bool) (forwards : list Forward) : list command :=
  [BatchBegin; NewTable TABLE;
   NewChain (lit "input") (lit "filter") NF_INET_LOCAL_IN 0 NF_DROP;
   NewChain (lit "forward") (lit "filter") NF_INET_FORWARD 0 NF_DROP;
   NewChain (lit "prerouting") (lit "nat") NF_INET_PRE_ROUTING (2 ^ 32 - 100) NF_ACCEPT;
   NewChain (lit "postrouting") (lit "nat") NF_INET_POST_ROUTING 100 NF_ACCEPT;
   accept_established (lit "input"); accept_from (lit "input") (lit "lo");
   accept_from (lit "input") lan; accept_proto (lit "input") IPPROTO_ICMP;
   accept_established (lit "forward"); accept_from (lit "forward") lan]
  ++ map accept_forwarded forwards ++ map dnat forwards
  ++ (if masq then [NewRule (lit "postrouting") [Masq]] else [])
  ++ [BatchEnd].

(** The wire form of commands numbered from [seq]. *)
Fixpoint enc_commands (seq : Z) (l : list command) : bytes :=
  match l with
  | [] => []
  | c :: l => enc_msg (command_msg seq c) ++ enc_commands (u32 (seq + 1)) l
  end.

(** * Lemmas *)

(** ** The builder code against attribute trees *)
Definition builds (f : NlBuf → NlBuf) (l : list nla) : Prop := writes f (enc_all l).

Lemma builds_id : builds (λ b, b) [].
Proof. apply writes_nil. Qed.

Lemma builds_then f g w l : builds f l → writes g w → enc_all [] = [] →
  writes (λ b, g (f b)) (enc_all l ++ w).
Proof. intros Hf Hg _. by apply writes_app. Qed.

Lemma builds_snoc f g l a : builds f l → writes g (enc a) → builds (λ b, g (f b)) (l ++ [a]).
Proof.
  intros Hf Hg. unfold builds. rewrite enc_all_app.
  replace (enc_all [a]) with (enc a) by (unfold enc_all; simpl; by rewrite app_nil_r).
  by apply writes_app.
Qed.

Lemma builds_u32_be f l t v : builds f l → builds (λ b, attr_u32_be (f b) t v) (l ++ [be32 t v]).
Proof. intros H. apply (builds_snoc f (λ b, attr_u32_be b t v)); [done|apply writes_attr]. Qed.

Lemma builds_str f l t s : builds f l → builds (λ b, attr_str (f b) t s) (l ++ [cstring t s]).
Proof. intros H. apply (builds_snoc f (λ b, attr_str b t s)); [done|apply writes_attr_str]. Qed.

Lemma builds_nested f l g k t :
  builds g k → builds f l → builds (λ b, nested t g (f b)) (l ++ [Nest t k]).
Proof. intros Hg H. apply (builds_snoc f (nested t g)); [done|by apply writes_nested]. Qed.

Lemma builds_value f l v : builds f l → builds (λ b, value_data (f b) v) (l ++ [value v]).
Proof. intros H. apply (builds_snoc f (λ b, value_data b v)); [done|apply writes_nested_bytes]. Qed.

Lemma builds_expr f l g k name :
  builds g k → builds f l → builds (λ b, expr (f b) name g) (l ++ [named name k]).
Proof.
  intros Hg H. unfold expr, named.
  apply (builds_nested f l _ [cstring NFTA_EXPR_NAME name; Nest NFTA_EXPR_DATA k]); [|done].
  apply (builds_nested _ [cstring NFTA_EXPR_NAME name]); [done|].
  apply (builds_str (λ b, b) []), builds_id.
Qed.

Lemma builds_eq f l l' : builds f l → l = l' → builds f l'.
Proof. by intros ? <-. Qed.

(** Reads builder code from its last call to its first. *)
Ltac build :=
  lazymatch goal with
  | |- builds (λ b, b) _ => apply builds_id
  | |- builds (λ b, attr_u32_be _ _ _) _ => eapply builds_u32_be; build
  | |- builds (λ b, attr_str _ _ _) _ => eapply builds_str; build
  | |- builds (λ b, value_data _ _) _ => eapply builds_value; build
  | |- builds (λ b, nested _ _ _) _ => eapply builds_nested; build
  | |- builds (λ b, expr _ _ _) _ => eapply builds_expr; build
  | |- builds ?f _ => progress cbv beta zeta; build
  end.
Ltac builds_tac := eapply builds_eq; [build|reflexivity].

(** ** Each expression of the source *)
Section Expressions.
Context (f : NlBuf → NlBuf) (l : list nla) (Hf : builds f l).

Lemma builds_verdict c : builds (λ b, verdict_expr (f b) c) (l ++ [nexpr_nla (Verdict c)]).
Proof. unfold verdict_expr. eapply (builds_expr f l); [builds_tac|done]. Qed.
Lemma builds_immediate r v : builds (λ b, immediate_value (f b) r v) (l ++ [nexpr_nla (Immediate r v)]).
Proof. unfold immediate_value. eapply (builds_expr f l); [builds_tac|done]. Qed.
Lemma builds_meta k r : builds (λ b, meta_load (f b) k r) (l ++ [nexpr_nla (Meta k r)]).
Proof. unfold meta_load. eapply (builds_expr f l); [builds_tac|done]. Qed.
Lemma builds_payload a o n r :
  builds (λ b, payload_load (f b) a o n r) (l ++ [nexpr_nla (Payload a o n r)]).
Proof. unfold payload_load. eapply (builds_expr f l); [builds_tac|done]. Qed.
Lemma builds_cmp r o v : builds (λ b, cmp (f b) r o v) (l ++ [nexpr_nla (Cmp r o v)]).
Proof. unfold cmp. eapply (builds_expr f l); [builds_tac|done]. Qed.
End Expressions.

Lemma builds_ct_match f l :
  builds f l → builds (λ b, ct_state_match (f b)) (l ++ map nexpr_nla ct_match).
Proof.
  intros Hf. unfold ct_state_match.
  eapply builds_eq; [eapply builds_cmp, builds_expr; [|eapply (builds_expr f l); [|done]]; build|].
  by rewrite <- !app_assoc.
Qed.

(** ** Messages *)

(** The batch writer [s ↦ s'] appends the commands [l] and numbers them. *)
Definition emits (s s' : batch) (l : list command) : Prop :=
  aligned (fst s) → fst s' = fst s ++ enc_commands (snd s) l ∧ aligned (fst s') ∧
  snd s' = foldl (λ q _, u32 (q + 1)) (snd s) l.

Lemma enc_commands_app q l k :
  enc_commands q (l ++ k) = enc_commands q l ++ enc_commands (foldl (λ q _, u32 (q + 1)) q l) k.
Proof. revert q. induction l as [|c l IH]; intros q; simpl; [done|]. by rewrite IH, app_assoc. Qed.

Lemma emits_nil s : emits s s [].
Proof. intros H. simpl. by rewrite app_nil_r. Qed.

Lemma emits_app s s1 s2 l k : emits s s1 l → emits s1 s2 k → emits s s2 (l ++ k).
Proof.
  intros H1 H2 Ha. destruct (H1 Ha) as (E1 & A1 & Q1). destruct (H2 A1) as (E2 & A2 & Q2).
  split; [|split; [done|]].
  - by rewrite E2, E1, Q1, enc_commands_app, app_assoc.
  - by rewrite Q2, Q1, foldl_app.
Qed.

Lemma emits_foldl {A} (step : batch → A → batch) (c : A → command) :
  (∀ s a, emits s (step s a) [c a]) →
  ∀ l s, emits s (foldl step s l) (map c l).
Proof.
  intros Hs l. induction l as [|a l IH]; intros s; [apply emits_nil|].
  apply (emits_app s (step s a) _ [c a]); [apply Hs|apply IH].
Qed.

Lemma nfgen_aligned fam r : aligned (nfgen fam r).
Proof. done. Qed.

(** One message of the batch. *)
Lemma emits_message b q c t fl fam r f l :
  command_msg q c = Msg t fl q (nfgen fam r) l →
  builds f l →
  emits (b, q) (in_message t fl q (λ b, f (nfgenmsg b fam r)) b, u32 (q + 1)) [c].
Proof.
  intros Ec Hf Ha. cbn [fst snd] in *.
  assert (Hw : writes (in_message t fl q (λ b, f (nfgenmsg b fam r)))
                      (enc_msg (Msg t fl q (nfgen fam r) l))).
  { apply writes_message; [apply nfgen_aligned|]. apply (writes_app (λ b, nfgenmsg b fam r)); [|done].
    split; [apply nfgen_aligned|]. intros b' _. unfold nfgenmsg, add_bytes, nfgen. by rewrite app_assoc. }
  destruct Hw as [Hal Hw]. rewrite Hw by done. cbn [enc_commands]. rewrite Ec, app_nil_r.
  split; [done|]. split; [by apply aligned_app|done].
Qed.

Lemma emits_chain s name ty hook prio policy :
  emits s (new_base_chain s name ty hook prio policy) [NewChain name ty hook prio policy].
Proof.
  destruct s as [b q]. unfold new_base_chain.
  apply (emits_message b q (NewChain name ty hook prio policy) _ _ _ _ (λ b,
    attr_u32_be (attr_str (nested NFTA_CHAIN_HOOK
      (λ b, attr_u32_be (attr_u32_be b NFTA_HOOK_HOOKNUM hook) NFTA_HOOK_PRIORITY prio)
      (attr_str (attr_str b NFTA_CHAIN_TABLE TABLE) NFTA_CHAIN_NAME name))
      NFTA_CHAIN_TYPE ty) NFTA_CHAIN_POLICY policy) _ eq_refl). builds_tac.
Qed.

Lemma emits_rule s chain f exprs :
  builds f (map nexpr_nla exprs) → emits s (new_rule s chain f) [NewRule chain exprs].
Proof.
  intros Hf. destruct s as [b q]. unfold new_rule.
  apply (emits_message b q (NewRule chain exprs) _ _ _ _ (λ b,
    nested NFTA_RULE_EXPRESSIONS f
      (attr_str (attr_str b NFTA_RULE_TABLE TABLE) NFTA_RULE_CHAIN chain)) _ eq_refl).
  eapply builds_eq; [eapply builds_nested; [exact Hf|build]|done].
Qed.

Ltac exprs :=
  lazymatch goal with
  | |- builds (λ b, b) _ => apply builds_id
  | |- builds (λ b, verdict_expr _ _) _ => eapply builds_verdict; exprs
  | |- builds (λ b, meta_load _ _ _) _ => eapply builds_meta; exprs
  | |- builds (λ b, cmp _ _ _ _) _ => eapply builds_cmp; exprs
  | |- builds (λ b, payload_load _ _ _ _ _) _ => eapply builds_payload; exprs
  | |- builds (λ b, immediate_value _ _ _) _ => eapply builds_immediate; exprs
  | |- builds ct_state_match _ => apply (builds_ct_match (λ b, b) []), builds_id
  | |- builds (λ b, expr _ _ _) _ => eapply builds_expr; [build|exprs]
  end.
Ltac rule := apply emits_rule; cbv beta zeta; eapply builds_eq; [exprs|reflexivity].

Lemma emits_ct_accept s chain : emits s (rule_ct_accept s chain) [accept_established chain].
Proof. rule. Qed.
Lemma emits_iif_accept s chain i : emits s (rule_iif_accept s chain i) [accept_from chain i].
Proof. rule. Qed.
Lemma emits_l4proto_accept s chain p : emits s (rule_l4proto_accept s chain p) [accept_proto chain p].
Proof. rule. Qed.
Lemma emits_dnat s f : emits s (rule_dnat s f) [dnat f].
Proof. rule. Qed.
Lemma emits_forward s f : emits s (rule_forward_to_dest s f) [accept_forwarded f].
Proof. rule. Qed.
Lemma emits_masq s (m : bool) :
  emits s (if m then new_rule s (lit "postrouting") (λ b, expr b (lit "masq") (λ b, b)) else s)
    (if m then [NewRule (lit "postrouting") [Masq]] else []).
Proof. destruct m; [rule|apply emits_nil]. Qed.

(** The prologue of the batch and its end. *)
Lemma emits_begin :
  emits (empty, 1)
    (in_message (nft_type NFT_MSG_NEWTABLE) REQ_CREATE_ACK (u32 (1 + 1)) (λ b,
       let b := nfgenmsg b NFPROTO_INET 0 in attr_str b NFTA_TABLE_NAME TABLE)
      (in_message NFNL_MSG_BATCH_BEGIN NLM_F_REQUEST 1
         (λ b, nfgenmsg b 0 NFNL_SUBSYS_NFTABLES) empty), u32 (u32 (1 + 1) + 1))
    [BatchBegin; NewTable TABLE].
Proof.
  apply (emits_app _ (in_message NFNL_MSG_BATCH_BEGIN NLM_F_REQUEST 1
     (λ b, nfgenmsg b 0 NFNL_SUBSYS_NFTABLES) empty, u32 (1 + 1)) _ [BatchBegin] [NewTable TABLE]).
  - apply (emits_message empty 1 BatchBegin _ _ _ _ (λ b, b) []); [done|apply builds_id].
  - apply (emits_message _ _ (NewTable TABLE) _ _ _ _
      (λ b, attr_str b NFTA_TABLE_NAME TABLE) _ eq_refl). builds_tac.
Qed.

Lemma emits_end s l :
  emits (empty, 1) s l →
  (let '(b, seq) := s in
   in_message NFNL_MSG_BATCH_END NLM_F_REQUEST seq (λ b, nfgenmsg b 0 NFNL_SUBSYS_NFTABLES) b)
  = enc_commands 1 (l ++ [BatchEnd]).
Proof.
  intros H. destruct s as [b q].
  assert (He : emits (b, q) (in_message NFNL_MSG_BATCH_END NLM_F_REQUEST q
     (λ b, nfgenmsg b 0 NFNL_SUBSYS_NFTABLES) b, u32 (q + 1)) [BatchEnd]).
  { apply (emits_message b q BatchEnd _ _ _ _ (λ b, b) []); [done|apply builds_id]. }
  destruct (emits_app _ _ _ _ _ H He) as (E & _); [done|]. exact E.
Qed.

Lemma build_ruleset_eq lan masq forwards :
  build_ruleset lan masq forwards = enc_commands 1 (ruleset lan masq forwards).
Proof.
  unfold build_ruleset. cbv zeta. erewrite emits_end.
  2: { eapply emits_app; [|apply emits_masq].
       eapply emits_app; [|apply (emits_foldl rule_dnat dnat emits_dnat)].
       eapply emits_app; [|apply (emits_foldl rule_forward_to_dest accept_forwarded emits_forward)].
       eapply emits_app; [|apply emits_iif_accept].
       eapply emits_app; [|apply emits_ct_accept].
       eapply emits_app; [|apply emits_l4proto_accept].
       do 2 (eapply emits_app; [|apply emits_iif_accept]).
       eapply emits_app; [|apply emits_ct_accept].
       do 4 (eapply emits_app; [|apply emits_chain]). apply emits_begin. }
  f_equal. unfold ruleset. by rewrite <- !app_assoc.
Qed.

(** ** The commands against the independent specification [Nft] *)

(** The code's command is the message of the specification. *)
Definition same_msg (c : command) (m : Wire.msg) : Prop :=
  ∀ q, command_msg q c
       = Msg (Wire.typ m) (Wire.flags m) q (Wire.fixed m) (map nla_of (Wire.attrs m)).

Lemma enc_commands_wire l k : Forall2 same_msg l k →
  ∀ q, enc_commands (u32 q) l = Wire.wire_msgs q k.
Proof.
  intros H. induction H as [|c m l k Hc _ IH]; intros q; [done|].
  cbn [enc_commands Wire.wire_msgs]. assert (u32 (u32 q + 1) = u32 (q + 1)) as -> by apply wrap_add_l.
  rewrite IH. f_equal. rewrite Hc, enc_msg_wire. unfold Wire.wire_msg.
  change (Wire.le4 (u32 q)) with (le_bytes 4 (u32 q)). by rewrite le4_u32.
Qed.

Definition redirect_of (f : Forward) : Nft.redirect :=
  {| Nft.r_proto := proto f; Nft.r_port := dport f; Nft.r_ip := dest_ip f; Nft.r_to := dest_port f |}.

Lemma ruleset_documented lan masq forwards :
  Forall2 same_msg (ruleset lan masq forwards)
    (map (Nft.command_msg Nft.sent) (Nft.documented lan masq (map redirect_of forwards))).
Proof.
  unfold ruleset, Nft.documented. rewrite !map_app, !map_map.
  assert (∀ g k, (∀ f, same_msg (g f) (k f)) → Forall2 same_msg (map g forwards) (map k forwards))
    as Hmap by (intros g k H; induction forwards; simpl; constructor; auto).
  apply Forall2_app; [repeat (constructor; [intros q; reflexivity|]); constructor|].
  apply Forall2_app; [apply Hmap; intros f q; reflexivity|].
  apply Forall2_app; [apply Hmap; intros f q; reflexivity|].
  apply Forall2_app; [destruct masq|]; repeat (constructor; [intros q; reflexivity|]); constructor.
Qed.

Lemma build_ruleset_sent lan masq forwards :
  build_ruleset lan masq forwards
  = Nft.encode Nft.sent (Nft.documented lan masq (map redirect_of forwards)).
Proof.
  rewrite build_ruleset_eq. apply (enc_commands_wire _ _ (ruleset_documented lan masq forwards) 1).
Qed.

(** C7. The batch built by the source is the ruleset its header comment
    documents, in the independent encoding of [Nft]: batch markers, the table,
    the four base chains with hooks, priorities and policies, the established,
    loopback, LAN and ICMP rules, one accept and one DNAT rule per port forward,
    and the masquerade rule when enabled, message by message and in order, with
    consecutive sequence numbers and every length right -- for every LAN name,
    masquerade flag and list of forwards.  Its numbers are those of
    linux/netfilter/nf_tables.h except for the five conventions in [Nft.sent]
    (the key of iifname, the two attributes of a payload load, a flag on
    raw data, the byte order of the connection-tracking mask), and for that
    reason it is never the batch that encodes this ruleset for the kernel. *)
Theorem build_ruleset_correct lan masq forwards :
  let rules := Nft.documented lan masq (map redirect_of forwards) in
  build_ruleset lan masq forwards = Nft.encode Nft.sent rules ∧
  build_ruleset lan masq forwards ≠ Nft.encode Nft.uapi rules.
Proof.
  cbv zeta. rewrite build_ruleset_sent. split; [done|apply Nft.conventions_differ].
Qed.

(** ** The forward list of the configuration *)
Definition proto_name (p : Z) : str := if p =? IPPROTO_TCP then lit "tcp" else lit "udp".
Definition show_forward (f : Forward) : str :=
  join (lit ":") [proto_name (proto f); dec (dport f); Ipv4.show (dest_ip f); dec (dest_port f)].

Definition forward_ok (f : Forward) : Prop :=
  (proto f = IPPROTO_TCP ∨ proto f = IPPROTO_UDP) ∧ in_u 16 (dport f) ∧
  Ipv4.ip_ok (dest_ip f) ∧ in_u 16 (dest_port f).
#[global] Instance forward_ok_dec f : Decision (forward_ok f).
Proof. unfold forward_ok, in_u, Ipv4.ip_ok. apply _. Defined.

(** A digit, a letter or a dot: no separator and no white space. *)
Definition plain (c : char) : bool :=
  negb (is_whitespace c) && negb (c =? chr ":")%N && negb (c =? chr ",")%N.

Lemma plain_trim s : forallb plain s = true → trim s = s.
Proof.
  intros H. apply trimmed_trim. split; intros x k ->; rewrite ?forallb_app in H; simpl in H.
  - apply andb_prop in H as [H _]. unfold plain in H. by destruct (is_whitespace x).
  - apply andb_prop in H as [_ H]. apply andb_prop in H as [H _]. unfold plain in H.
    by destruct (is_whitespace x).
Qed.

Lemma plain_no_char c s : plain c = false → forallb plain s = true → no_char c s.
Proof.
  intros Hc H. unfold no_char. apply Forall_forall. intros x Hx ->.
  rewrite forallb_forall in H. rewrite (H c) in Hc; [done|]. by apply list_elem_of_In.
Qed.

Lemma digits_plain s : Forall (λ c, is_ascii_digit c = true) s → forallb plain s = true.
Proof.
  intros H. apply forallb_forall. intros c Hc. rewrite Forall_forall in H.
  apply list_elem_of_In, H in Hc. unfold is_ascii_digit in Hc.
  apply andb_prop in Hc as [H1%N.leb_le H2%N.leb_le].
  assert (∀ i, (i < 10)%nat → plain (48 + N.of_nat i) = true) as Hd.
  { intros i Hi. do 10 (destruct i as [|i]; [done|]). lia. }
  replace c with (48 + N.of_nat (N.to_nat (c - 48)))%N by lia. apply Hd. lia.
Qed.

Lemma dec_plain w x : 0 <= x < 2 ^ w → forallb plain (dec x) = true.
Proof. intros H. apply digits_plain, (dec_spec w x H). Qed.

Lemma show_ip_plain ip : forallb plain (Ipv4.show ip) = true.
Proof.
  unfold Ipv4.show. pose proof (Ipv4.octets_ok ip) as Ho.
  assert (∀ l, bytes_ok l → forallb plain (join (lit ".") (map dec l)) = true) as Hg; [|by apply Hg].
  clear. intros l Hl. induction Hl as [|a l Ha Hl IH]; [done|].
  assert (Hd : forallb plain (dec a) = true) by (apply (dec_plain 8), Ha).
  destruct l as [|b l]; [done|]. cbn [map join] in *. rewrite !forallb_app, Hd. simpl. exact IH.
Qed.

Lemma proto_name_plain p : forallb plain (proto_name p) = true.
Proof. unfold proto_name. by case_match. Qed.

Lemma parse_forward_show f a b :
  forward_ok f → blank a = true → blank b = true →
  parse_forward (a ++ show_forward f ++ b) = Some f.
Proof.
  intros (Hp & Hd & Hi & Hq) Ha Hb. unfold parse_forward, show_forward.
  pose proof (proto_name_plain (proto f)) as P1. pose proof (dec_plain 16 _ Hd) as P2.
  pose proof (show_ip_plain (dest_ip f)) as P3. pose proof (dec_plain 16 _ Hq) as P4.
  rewrite trim_app_blank_l, trim_app_blank_r by done.
  rewrite trimmed_trim.
  2: { split; intros x k E.
       - revert E. unfold proto_name. case_match; by intros [= <- _].
       - destruct (dec_spec 16 _ Hq) as (_ & Hf & Hne).
         destruct (dec (dest_port f)) as [|y s _] using rev_ind; [done|].
         cbn [join] in E. rewrite !app_assoc in E. apply app_inj_tail in E as [_ <-].
         rewrite forallb_app in P4. apply andb_prop in P4 as [_ P4]. simpl in P4.
         unfold plain in P4. by destruct (is_whitespace y). }
  change (lit ":") with [chr ":"].
  rewrite split_char_join; [|done|repeat constructor; apply plain_no_char; done].
  rewrite !plain_trim by done. rewrite !parse_uint_dec, Ipv4.parse_show by done.
  destruct f as [p d i q]. cbn [proto dport dest_ip dest_port] in *.
  destruct Hp as [-> | ->]; done.
Qed.

(** A configuration list written in the documented form, with spaces
    around its entries, is parsed into exactly its forwards, in order;
    entries that are not of that form are skipped without affecting the
    others. *)
Theorem parse_forwards_spec (entries : list (str * option Forward)) :
  entries ≠ [] →
  Forall (λ '(text, f), no_char (chr ",") text ∧
    match f with
    | Some f => forward_ok f ∧ ∃ a b, blank a = true ∧ blank b = true ∧ text = a ++ show_forward f ++ b
    | None => parse_forward (trim text) = None
    end) entries →
  parse_forwards (join (lit ",") (map fst entries)) = omap snd entries.
Proof.
  intros Hne H. unfold parse_forwards. change (lit ",") with [chr ","].
  rewrite split_char_join; [|by destruct entries|].
  2: { apply Forall_map. eapply Forall_impl; [exact H|]. by intros [t f] [? _]. }
  clear Hne. induction H as [|[text f] l [_ Hf] _ IH]; [done|].
  cbn [map fst fmap list_fmap]. rewrite filter_cons.
  destruct f as [f|].
  - destruct Hf as (Hok & a & b & Ha & Hb & ->).
    assert (E : parse_forward (trim (a ++ show_forward f ++ b)) = Some f).
    { pose proof (parse_forward_show f a b Hok Ha Hb) as E. unfold parse_forward in *.
      by rewrite trim_idemp. }
    case_decide as Hd.
    + cbn [omap list_omap]. rewrite E. cbn [snd]. by rewrite IH.
    + destruct (trim (a ++ show_forward f ++ b)); [done|by destruct Hd].
  - case_decide; cbn [omap list_omap]; rewrite ?Hf; cbn [snd]; apply IH.
Qed.

(** ** Shape of the batch *)
Definition small_msg (m : message) : Prop :=
  Z.of_nat (length (msg_fixed m ++ enc_all (msg_attrs m))) + 16 < 2 ^ 32 ∧
  aligned (msg_fixed m) ∧ in_u 16 (msg_type m).

Lemma length_enc_msg m : length (enc_msg m) = (16 + length (msg_fixed m ++ enc_all (msg_attrs m)))%nat.
Proof. unfold enc_msg. rewrite !length_app, !length_le_bytes. lia. Qed.

Lemma enc_msg_header m k :
  small_msg m →
  of_le_bytes (slice (enc_msg m ++ k) 0 4) = Z.of_nat (length (enc_msg m)) ∧
  u16_from_le (byte_at (enc_msg m ++ k) 4) (byte_at (enc_msg m ++ k) 5) = msg_type m ∧
  align4 (Z.of_nat (length (enc_msg m))) = Z.of_nat (length (enc_msg m)).
Proof.
  intros (Hl & Ha & Ht). rewrite length_enc_msg.
  set (body := msg_fixed m ++ enc_all (msg_attrs m)) in *.
  assert (Hb : aligned body) by (apply aligned_app; [done|apply enc_all_aligned]).
  unfold enc_msg. fold body.
  replace (u32 (16 + Z.of_nat (length body))) with (Z.of_nat (16 + length body))
    by (unfold u32; rewrite wrap_small; unfold in_u; lia).
  rewrite <- !app_assoc. repeat split.
  - rewrite slice_app_l by (rewrite ?length_le_bytes; lia).
    rewrite slice_full by apply length_le_bytes. apply of_le_le_bytes_small. simpl Z.pow. lia.
  - by apply (u16_le (msg_type m)).
  - rewrite align4_spec by lia. unfold aligned in Hb.
    assert (Z.of_nat (16 + length body) mod 4 = 0) as ->; [|change ((4 - 0) mod 4) with 0; lia].
    change 4 with (Z.of_nat 4). rewrite <- Nat2Z.inj_mod.
    replace (16 + length body)%nat with (length body + 4 * 4)%nat by lia.
    by rewrite Nat.Div0.mod_add, Hb.
Qed.

(** The three counters of [count_msgs] for one command. *)
Definition weight (c : command) : nat * nat * nat :=
  match c with
  | NewTable _ => (1, 0, 0) | NewChain _ _ _ _ _ => (0, 1, 0) | NewRule _ _ => (0, 0, 1)
  | _ => (0, 0, 0)
  end%nat.
Definition total (l : list command) : nat * nat * nat :=
  foldr (λ c '(x, y, z), let '(a, b, d) := weight c in (a + x, b + y, d + z)%nat) (0, 0, 0)%nat l.

(** Equal counters. *)
Ltac same_triple :=
  match goal with |- Some (?a, ?b, ?c) = Some (?d, ?e, ?g) =>
    replace d with a by lia; replace e with b by lia; replace g with c by lia; done end.

Lemma count_commands l : ∀ fuel q x y z,
  Forall (λ c, ∀ q, small_msg (command_msg q c)) l →
  (length (enc_commands q l) <= fuel)%nat →
  count_loop fuel (enc_commands q l) x y z =
    let '(a, b, c) := total l in Some (x + a, y + b, z + c)%nat.
Proof.
  induction l as [|c l IH]; intros fuel q x y z Hs Hf.
  - destruct fuel; simpl; by rewrite !Nat.add_0_r.
  - apply Forall_cons in Hs as [Hc Hs]. specialize (Hc q). cbn [enc_commands] in *.
    pose proof (length_enc_msg (command_msg q c)) as Hlen.
    destruct (enc_msg_header _ (enc_commands (u32 (q + 1)) l) Hc) as (E1 & E2 & E3).
    rewrite length_app in Hf. destruct fuel as [|fuel]; [lia|].
    cbn [count_loop]. rewrite length_app.
    destruct (Nat.ltb_spec (length (enc_msg (command_msg q c)) + length (enc_commands (u32 (q + 1)) l)) 16); [lia|].
    rewrite E1, E2, E3, Nat2Z.id, drop_app_length.
    destruct (Z.leb_spec 16 (Z.of_nat (length (enc_msg (command_msg q c))))); [|lia].
    destruct (Z.leb_spec (Z.of_nat (length (enc_msg (command_msg q c))))
      (Z.of_nat (length (enc_msg (command_msg q c)) + length (enc_commands (u32 (q + 1)) l)))); [|lia].
    cbn [andb negb total foldr]. fold (total l).
    destruct c; cbn [command_msg msg_type weight];
      repeat match goal with |- context [if ?e then _ else _] =>
        let v := eval vm_compute in e in change e with v; cbn iota end;
      rewrite IH by (done || lia); destruct (total l) as [[? ?] ?]; same_triple.
Qed.

(** An upper bound of the encoded size that computes on open terms. *)
Fixpoint size_bound (a : nla) : nat :=
  match a with
  | Leaf _ p => 7 + length p
  | Nest _ l => 4 + sum_list_with size_bound l
  end.

Lemma length_enc_bound a : (length (enc a) <= size_bound a)%nat.
Proof.
  induction a as [t p|t l IH] using nla_nested_ind; cbn [enc size_bound]; rewrite !length_app, length_header.
  - unfold padding. rewrite length_replicate.
    pose proof (Nat.mod_upper_bound (4 - length p mod 4) 4 ltac:(lia)). lia.
  - apply Nat.add_le_mono_l. induction IH; simpl; [lia|]. rewrite length_app. lia.
Qed.

Lemma length_enc_all_bound l : (length (enc_all l) <= sum_list_with size_bound l)%nat.
Proof. induction l as [|a l IH]; [simpl; lia|]. rewrite enc_all_cons, length_app. simpl.
  pose proof (length_enc_bound a). lia. Qed.

Lemma small_by_bound m :
  Z.of_nat (length (msg_fixed m) + sum_list_with size_bound (msg_attrs m)) + 16 < 2 ^ 32 →
  aligned (msg_fixed m) → in_u 16 (msg_type m) → small_msg m.
Proof.
  intros Hb Ha Ht. split; [|done]. rewrite length_app.
  pose proof (length_enc_all_bound (msg_attrs m)). lia.
Qed.

Lemma small_ruleset lan masq forwards :
  Z.of_nat (length (Utf8.encode lan)) < 2 ^ 31 →
  Forall (λ c, ∀ q, small_msg (command_msg q c)) (ruleset lan masq forwards).
Proof.
  intros Hlan. unfold ruleset.
  repeat first [apply Forall_app_2|apply Forall_cons_2|apply Forall_nil_2
    |apply Forall_map, Forall_true; intros f; unfold compose]; try (destruct masq);
    repeat first [apply Forall_cons_2|apply Forall_nil_2];
    intros q; (apply small_by_bound; [|done|done]);
    cbn -[Z.add Z.lt Z.pow Z.of_nat]; rewrite ?length_app; cbn [length]; lia.
Qed.

(** For every LAN name, masquerade flag and list of forwards the messages
    of the batch tile the buffer exactly, each length field being the distance
    to the next message, and there are one table, four chains and 6 + 2n rules
    (one more with masquerading), as the source's walker counts them. *)
Theorem count_msgs_ruleset lan masq forwards :
  Z.of_nat (length (Utf8.encode lan)) < 2 ^ 31 →
  count_msgs (build_ruleset lan masq forwards)
  = Some (1, 4, 6 + 2 * length forwards + (if masq then 1 else 0))%nat.
Proof.
  intros Hlan. rewrite build_ruleset_eq. unfold count_msgs.
  rewrite count_commands by (by apply small_ruleset || done).
  assert (Ht : ∀ l k, total (l ++ k) = let '(x, y, z) := total k in
    let '(a, b, c) := total l in (a + x, b + y, c + z)%nat).
  { induction l as [|c l IH]; intros k; simpl.
    - by destruct (total k) as [[? ?] ?].
    - rewrite IH. destruct (total k) as [[? ?] ?], (total l) as [[? ?] ?], (weight c) as [[? ?] ?].
      by rewrite !Nat.add_assoc. }
  assert (Hr : ∀ (g : Forward → command) l, (∀ f, weight (g f) = (0, 0, 1)%nat) →
    total (map g l) = (0, 0, length l)%nat).
  { intros g l Hg. induction l as [|f l IH]; [done|]. simpl. by rewrite IH, Hg. }
  unfold ruleset. rewrite !Ht, !Hr by done.
  destruct masq; cbn -[Nat.mul]; same_triple.
Qed.

Lemma count_msgs_ruleset_witness :
  count_msgs (build_ruleset (lit "br-lan") true [mkForward 6 8080 (Ipv4.new 192 168 1 10) 80])
  = Some (1, 4, 9)%nat.
Proof. apply (count_msgs_ruleset (lit "br-lan") true [mkForward 6 8080 (Ipv4.new 192 168 1 10) 80]). vm_compute. reflexivity. Defined.

Lemma parse_forwards_spec_witness :
  parse_forwards (lit "tcp:8080:192.168.1.10:80, garbage, udp:53:1.2.3.4:53 ")
  = [mkForward 6 8080 (Ipv4.new 192 168 1 10) 80; mkForward 17 53 (Ipv4.new 1 2 3 4) 53].
Proof.
  refine (parse_forwards_spec [(lit "tcp:8080:192.168.1.10:80", Some (mkForward 6 8080 (Ipv4.new 192 168 1 10) 80));
    (lit " garbage", None); (lit " udp:53:1.2.3.4:53 ", Some (mkForward 17 53 (Ipv4.new 1 2 3 4) 53))] _ _);
    [done|].
  repeat apply Forall_cons_2; [| | |apply Forall_nil_2]; (split; [apply (bool_decide_unpack _); vm_compute; exact I|]).
  - split; [apply (bool_decide_unpack _); vm_compute; exact I|]. exists [], []. repeat split.
  - reflexivity.
  - split; [apply (bool_decide_unpack _); vm_compute; exact I|]. exists (lit " "), (lit " "). repeat split.
Defined.

(** ** Draining *)
Definition wants_ack (c : command) : bool := negb (Z.land (msg_flags (command_msg 0 c)) NLM_F_ACK =? 0).
Definition acks_wanted (l : list command) : nat :=
  sum_list_with (λ c, if wants_ack c then 1 else 0)%nat l.

Lemma drain_acks n acks :
  Forall (λ d, ack_of d = Ok tt) acks →
  drain n (map Ok acks) = if (n <=? length acks)%nat then Finished (Ok tt) else Waiting.
Proof.
  intros H. revert n. induction H as [|d l Hd _ IH]; intros [|n]; try done.
  simpl. rewrite Hd. apply IH.
Qed.

Lemma acks_wanted_app l k : acks_wanted (l ++ k) = (acks_wanted l + acks_wanted k)%nat.
Proof. apply sum_list_with_app. Qed.

Lemma acks_wanted_map (g : Forward → command) l :
  (∀ f, wants_ack (g f) = true) → acks_wanted (map g l) = length l.
Proof. intros Hg. unfold acks_wanted. induction l as [|f l IH]; [done|]. simpl. by rewrite IH, Hg. Qed.

Lemma acks_wanted_ruleset lan masq forwards :
  acks_wanted (ruleset lan masq forwards) = (11 + 2 * length forwards + if masq then 1 else 0)%nat.
Proof.
  unfold ruleset. rewrite !acks_wanted_app, !acks_wanted_map by done.
  destruct masq; repeat match goal with |- context [acks_wanted ?l] =>
    let v := eval vm_compute in (acks_wanted l) in change (acks_wanted l) with v end; lia.
Qed.

(** The kernel acknowledges each message that asks for it once; the
    ruleset asks for 11 + 2n acknowledgements (one more with masquerading) but
    the drain loop waits for 32.  With nine forwards or fewer the last [recv]
    therefore blocks for ever although every command succeeded. *)
Theorem program_blocks lan masq forwards acks :
  length acks = acks_wanted (ruleset lan masq forwards) →
  Forall (λ d, ack_of d = Ok tt) acks →
  (length forwards <= 9)%nat →
  program_recv (map Ok acks) = Waiting.
Proof.
  intros Hlen Ha Hn. unfold program_recv. rewrite drain_acks by done.
  rewrite acks_wanted_ruleset in Hlen.
  destruct (Nat.leb_spec 32 (length acks)) as [H|]; [|done]. destruct masq; lia.
Qed.

Lemma program_blocks_witness :
  program_recv (map Ok (replicate 12 (le_bytes 4 36 ++ le_bytes 2 2 ++ replicate 30 0))) = Waiting.
Proof.
  apply (program_blocks (lit "br-lan") true []); [reflexivity|..|simpl; lia].
  apply (bool_decide_unpack _). vm_compute. exact I.
Defined.

End Fw.
