(* ===== verification/FwRun.v ===== *)
(** * The firewall applet (fw.rs: run, enable_forwarding, program)

    The configuration, the [/proc] switches and the netlink exchange around the
    ruleset that [Fw.build_ruleset] builds. *)

From S2P Require Import Prelude Words RustStr IO Utf8 Config Nl Fw Sock NlSock.
Import Nl Fw Sock NlSock.
Open Scope Z_scope.

Module FwRun.

Definition NETLINK_NETFILTER : Z := 12.

Definition enable_forwarding : io ev unit :=
  perform u := WriteProc (lit "/proc/sys/net/ipv4/ip_forward") (lit "1" ++ [LF]) in
  perform v := WriteProc (lit "/proc/sys/net/ipv4/conf/all/rp_filter") (lit "1" ++ [LF]) in
  Ret tt.

(** The [for _ in 0..32] loop. *)
Fixpoint ack_loop (rounds : nat) (fd : Z) : io ev (result unit Z) :=
  match rounds with
  | O => Ret (Ok tt)
  | S rounds =>
      await r := recv_ack fd in
      match r with
      | Ok _ => ack_loop rounds fd
      | Err e => Ret (if e =? EAGAIN then Ok tt else Err e)
      end
  end.

Definition program (buf : NlBuf) : io ev (result unit Z) :=
  await r := NlSock.open NETLINK_NETFILTER in
  match r with
  | Err e => Ret (Err e)
  | Ok fd =>
      await r := send fd buf in
      match r with
      | Err e => Ret (Err e)
      | Ok _ =>
          await result := ack_loop 32 fd in
          await u := close fd in
          Ret result
      end
  end.

(** [fw flush] only prints that it is not implemented and goes on. *)
Definition run (args : list str) : io ev Z :=
  perform text := ReadConfig in
  let cfg := Config.load text in
  await u := enable_forwarding in
  let lan := Config.get_or cfg (lit "lan") (lit "ifname") (lit "br-lan") in
  let masq := bool_decide (Config.get_or cfg (lit "firewall") (lit "masq") (lit "1") = lit "1") in
  let forwards := parse_forwards (Config.get_or cfg (lit "firewall") (lit "forward") []) in
  let buf := build_ruleset lan masq forwards in
  await r := program buf in
  Ret (match r with Ok _ => 0 | Err _ => 1 end).

(** ** The ruleset of a configuration *)
Definition lan_of (text : option str) : str :=
  Config.get_or (Config.load text) (lit "lan") (lit "ifname") (lit "br-lan").
Definition masq_of (text : option str) : bool :=
  bool_decide (Config.get_or (Config.load text) (lit "firewall") (lit "masq") (lit "1") = lit "1").
Definition forwards_of (text : option str) : list Forward :=
  parse_forwards (Config.get_or (Config.load text) (lit "firewall") (lit "forward") []).
Definition ruleset_of (text : option str) : list command :=
  ruleset (lan_of text) (masq_of text) (forwards_of text).

(** ** The other end of the socket

    A kernel that acknowledges each message of a batch once when its
    NLM_F_ACK flag is set, walking the headers of the bytes it was sent, and a
    blocking socket: [recv] delivers a queued acknowledgement, or fails with an
    errno other than EAGAIN. *)
Fixpoint acks_in (fuel : nat) (buf : bytes) : nat :=
  match fuel with
  | O => 0
  | S fuel =>
      if (length buf <? 16)%nat then 0
      else
        let len := of_le_bytes (slice buf 0 4) in
        let wants := negb (Z.land (u16_from_le (byte_at buf 6) (byte_at buf 7)) NLM_F_ACK =? 0) in
        ((if wants then 1 else 0) + acks_in fuel (drop (Z.to_nat (align4 len)) buf))%nat
  end.
Definition acks_requested (buf : bytes) : nat := acks_in (length buf) buf.

(** The acknowledgements queued after a call, with [q] before it; [None] when
    such a kernel does not answer so. *)
Definition queue_step (q : nat) (c : call ev) : option nat :=
  match c with
  | Call e x =>
      match e in ev X return X → option nat with
      | SendTo _ data _ => λ r, Some match r with Ok _ => (q + acks_requested data)%nat | Err _ => q end
      | Recv _ n => λ r,
          match r with
          | Ok d => match q with
                    | O => None
                    | S q => if bool_decide (ack_of (take n d) = Err EAGAIN) then None else Some q
                    end
          | Err e => if e =? EAGAIN then None else Some q
          end
      | _ => λ _, Some q
      end x
  end.
Fixpoint queue_after (q : nat) (t : list (call ev)) : option nat :=
  match t with [] => Some q | c :: t => q ← queue_step q c; queue_after q t end.
(** The answers of a trace are those of the kernel. *)
Definition kernel_acks (t : list (call ev)) : Prop := is_Some (queue_after 0 t).

(** The call did not fail, and what was received is no error. *)
Definition accepts (c : call ev) : Prop :=
  match c with
  | Call e x =>
      match e in ev X return X → Prop with
      | Recv _ n => λ r, ∃ d, r = Ok d ∧ ack_of (take n d) = Ok tt
      | Socket _ => λ r, ∃ a, r = Ok a
      | Bind _ _ => λ r, ∃ a, r = Ok a
      | SendTo _ _ _ => λ r, ∃ a, r = Ok a
      | _ => λ _, True
      end x
  end.

(** An acknowledgement with no error. *)
Definition demo_ack : bytes := le_bytes 4 36 ++ le_bytes 2 NLMSG_ERROR ++ replicate 30 0.

Definition config_read (c : call ev) : option (option str) :=
  match c with
  | Call e x => match e in ev X return X → option (option str) with ReadConfig => λ r, Some r | _ => λ _, None end x
  end.

(** * Lemmas *)

Lemma enc_msg_flags m k :
  in_u 16 (msg_flags m) → u16_from_le (byte_at (enc_msg m ++ k) 6) (byte_at (enc_msg m ++ k) 7) = msg_flags m.
Proof. intros H. unfold enc_msg. apply (u16_le (msg_flags m)). exact H. Qed.

Lemma acks_in_commands l : ∀ fuel q,
  Forall (λ c, ∀ q, small_msg (command_msg q c)) l → (length (enc_commands q l) <= fuel)%nat →
  acks_in fuel (enc_commands q l) = acks_wanted l.
Proof.
  induction l as [|c l IH]; intros fuel q Hs Hf; [by destruct fuel|].
  apply Forall_cons in Hs as [Hc Hs]. specialize (Hc q). cbn [enc_commands] in *.
  pose proof (length_enc_msg (command_msg q c)) as Hlen.
  destruct (enc_msg_header _ (enc_commands (u32 (q + 1)) l) Hc) as (E1 & _ & E3).
  rewrite length_app in Hf. destruct fuel as [|fuel]; [lia|]. cbn [acks_in]. rewrite length_app.
  destruct (Nat.ltb_spec (length (enc_msg (command_msg q c)) + length (enc_commands (u32 (q + 1)) l)) 16); [lia|].
  rewrite E1, E3, Nat2Z.id, drop_app_length, enc_msg_flags by (by destruct c).
  rewrite IH by (done || lia). unfold acks_wanted. cbn [sum_list_with]. f_equal. by destruct c.
Qed.

Lemma queue_after_app t u q : queue_after q (t ++ u) = q ← queue_after q t; queue_after q u.
Proof.
  revert q. induction t as [|c t IH]; intros q; [done|]. cbn [app queue_after].
  destruct (queue_step q c); [apply IH|done].
Qed.

Lemma drain_cons n r l :
  drain (S n) (r :: l) =
    match (let? d := r in ack_of d) with
    | Ok _ => drain n l
    | Err e => Finished (if e =? EAGAIN then Ok tt else Err e)
    end.
Proof. cbn [drain]. destruct (let? d := r in ack_of d) as [[]|e]; [done|]. by destruct (e =? EAGAIN). Qed.

(** The loop over events decides what [Fw.drain] decides over the datagrams. *)
Lemma ack_loop_drains n fd t r :
  runs (ack_loop n fd) t r → drain n (omap received t) = Finished r ∧ omap sent t = [].
Proof.
  revert t. induction n as [|n IH]; intros t H.
  - cbn [ack_loop] in H. by run_inv H.
  - cbn [ack_loop] in H. unfold recv_ack in H. generalize dependent ACK_SIZE. intros k H.
    cbn [io_bind] in H. run_inv H. rewrite received_recv, sent_recv, drain_cons.
    destruct x as [d|e]; cbn [result_bind] in H |- *; [|by run_inv H].
    destruct (ack_of (take k d)) as [[]|e]; [by apply IH|by run_inv H].
Qed.

Lemma program_runs buf t :
  runs (program buf) t (Ok tt) → omap sent t = [buf] ∧ drain 32 (omap received t) = Finished (Ok tt).
Proof.
  unfold program. generalize 32%nat. intros n H. run_inv H. destruct a as [fd|e]; [|by run_inv H].
  apply open_success in H0 as ->. unfold send in H. cbn [io_bind] in H. run_inv H.
  destruct x as [[]|e]; [|by run_inv H]. run_inv H. unfold close in H. cbn [io_bind] in H.
  run_inv H. run_inv H. apply ack_loop_drains in H0 as [H1 H2].
  cbn [app omap list_omap sent received]. rewrite !omap_app, H2. cbn [omap list_omap sent received app].
  by rewrite app_nil_r.
Qed.

Lemma ack_loop_takes n fd : ∀ t q,
  runs (ack_loop n fd) t (Ok tt) → is_Some (queue_after q t) → (n <= q)%nat.
Proof.
  induction n as [|n IH]; intros t q H Hq; [lia|].
  cbn [ack_loop] in H. unfold recv_ack in H. generalize dependent ACK_SIZE. intros k H.
  cbn [io_bind] in H. run_inv H. cbn [queue_after queue_step] in Hq.
  destruct x as [d|e]; cbn [result_bind] in H.
  - destruct q as [|q]; [by destruct Hq|]. case_bool_decide as Ea; [by destruct Hq|].
    destruct (ack_of (take k d)) as [[]|e].
    + apply le_n_S. by eapply IH.
    + destruct (Z.eqb_spec e EAGAIN) as [E1|He]; [by destruct Ea; rewrite E1|]. by run_inv H.
  - destruct (e =? EAGAIN); [by destruct Hq|]. by run_inv H.
Qed.

Lemma ack_loop_succeeds n fd : ∀ q, (n <= q)%nat →
  ∃ t, runs (ack_loop n fd) t (Ok tt) ∧ is_Some (queue_after q t) ∧ Forall accepts t.
Proof.
  induction n as [|n IH]; intros q Hq; [by exists []|]. destruct q as [|q]; [lia|].
  destruct (IH q) as (t & Hr & Ht & Hf); [lia|]. exists (Call (Recv fd ACK_SIZE) (Ok demo_ack) :: t).
  assert (Ha : ack_of (take ACK_SIZE demo_ack) = Ok tt) by (vm_compute; reflexivity).
  cbn [ack_loop]. unfold recv_ack. generalize dependent ACK_SIZE. intros k Ha. split.
  - cbn [io_bind]. apply runs_vis. cbn [result_bind]. by rewrite Ha.
  - cbn [queue_after queue_step]. rewrite Ha. split; [done|]. constructor; [by exists demo_ack|done].
Qed.

Lemma open_queue p t r q : runs (open p) t r → queue_after q t = Some q.
Proof.
  unfold open. intros H. run_inv H. destruct x as [fd|e]; [|by run_inv H].
  run_inv H. destruct x as [[]|e]; [by run_inv H|]. run_inv H. by run_inv H.
Qed.

Lemma program_takes buf t :
  runs (program buf) t (Ok tt) → is_Some (queue_after 0 t) → (32 <= acks_requested buf)%nat.
Proof.
  unfold program. generalize 32%nat. intros n H Hq. run_inv H. rewrite queue_after_app in Hq.
  rewrite (open_queue _ _ _ _ H0) in Hq. destruct a as [fd|e]; [|by run_inv H].
  unfold send in H. cbn [io_bind] in H. run_inv H. cbn [queue_after queue_step mbind option_bind] in Hq.
  destruct x as [[]|e]; [|by run_inv H]. run_inv H. unfold close in H. cbn [io_bind] in H.
  run_inv H. run_inv H. rewrite queue_after_app in Hq.
  eapply ack_loop_takes; [exact H1|]. simpl in Hq. by destruct (queue_after _ t1).
Qed.

Lemma program_succeeds buf :
  (32 <= acks_requested buf)%nat →
  ∃ t, runs (program buf) t (Ok tt) ∧ is_Some (queue_after 0 t) ∧ Forall accepts t.
Proof.
  unfold program. generalize 32%nat. intros n Hn.
  destruct (ack_loop_succeeds n 3 (acks_requested buf) Hn) as (t & Hr & Ht & Hf).
  exists ([Call (Socket (Netlink NETLINK_NETFILTER)) (Ok 3); Call (Bind 3 sockaddr_nl) (Ok tt)] ++
    Call (SendTo 3 buf sockaddr_nl) (Ok tt) :: t ++ [Call (Close 3) tt]). split.
  - eapply runs_bind; [do 2 apply runs_vis; done|]. cbn beta iota. unfold send. cbn [io_bind].
    apply runs_vis. cbn beta iota. eapply runs_bind; [exact Hr|]. by apply runs_vis.
  - cbn [app queue_after queue_step mbind option_bind]. rewrite queue_after_app.
    rewrite Nat.add_0_l. split; [by destruct (queue_after _ t); [|destruct Ht]|].
    do 3 (constructor; [cbn; eauto|]). apply Forall_app. split; [done|]. by repeat constructor.
Qed.

Lemma ack_loop_accepts n fd : ∀ t r, runs (ack_loop n fd) t r → Forall accepts t → r = Ok tt.
Proof.
  induction n as [|n IH]; intros t r H Hf; cbn [ack_loop] in H; [by run_inv H|].
  unfold recv_ack in H. generalize dependent ACK_SIZE. intros k H. cbn [io_bind] in H. run_inv H.
  apply Forall_cons in Hf as [(d & -> & Ha) Hf]. cbn [result_bind] in H. rewrite Ha in H. by eapply IH.
Qed.

Lemma program_accepts buf t r : runs (program buf) t r → Forall accepts t → r = Ok tt.
Proof.
  unfold program. generalize 32%nat. intros n H Hf. run_inv H. apply Forall_app in Hf as [Ho Hf].
  unfold open in H0. run_inv H0. apply Forall_cons in Ho as [[fd ->] Ho]. cbn beta iota in H0.
  run_inv H0. apply Forall_cons in Ho as [[[] ->] Ho]. cbn beta iota in H0. run_inv H0.
  unfold send in H. cbn [io_bind] in H. run_inv H. apply Forall_cons in Hf as [[[] ->] Hf]. cbn beta iota in H.
  run_inv H. apply Forall_app in Hf as [Hl _]. apply ack_loop_accepts in H0; [|done].
  unfold close in H. cbn [io_bind] in H. run_inv H. by run_inv H.
Qed.

Lemma enable_forwarding_runs t u :
  runs enable_forwarding t u →
  t = [Call (WriteProc (lit "/proc/sys/net/ipv4/ip_forward") (lit "1" ++ [LF])) tt;
       Call (WriteProc (lit "/proc/sys/net/ipv4/conf/all/rp_filter") (lit "1" ++ [LF])) tt].
Proof.
  unfold enable_forwarding. intros H. run_inv H. run_inv H. run_inv H. destruct x, x0. done.
Qed.

(** The run after the configuration has been read. *)
Lemma run_from args text u r :
  runs (run args) (Call ReadConfig text :: u) r ↔
  ∃ v o, u = Call (WriteProc (lit "/proc/sys/net/ipv4/ip_forward") (lit "1" ++ [LF])) tt ::
      Call (WriteProc (lit "/proc/sys/net/ipv4/conf/all/rp_filter") (lit "1" ++ [LF])) tt :: v ∧
    runs (program (enc_commands 1 (ruleset_of text))) v o ∧
    r = match o with Ok _ => 0 | Err _ => 1 end.
Proof.
  unfold run, ruleset_of, lan_of, masq_of, forwards_of. setoid_rewrite <-build_ruleset_eq. split.
  - intros H. apply runs_vis_inv in H as (x & t & E1 & H). cbv zeta beta in H.
    pose proof (f_equal (λ t, head t ≫= config_read) E1) as E2. cbn in E2. injection E2 as <-.
    apply (f_equal tail) in E1. cbn in E1. subst t.
    run_inv H. apply enable_forwarding_runs in H0 as ->. run_inv H. run_inv H. rewrite app_nil_r. eauto.
  - intros (v & o & -> & Hr & ->). apply runs_vis. cbv zeta beta.
    do 2 apply runs_vis. cbn beta iota. rewrite <-(app_nil_r v). eapply runs_bind; [exact Hr|done].
Qed.

(** The acknowledgements a stored configuration brings about. *)
Definition acks_of (text : option str) : nat :=
  (11 + 2 * length (forwards_of text) + if masq_of text then 1 else 0)%nat.

Lemma acks_of_batch text :
  Z.of_nat (length (Utf8.encode (lan_of text))) < 2 ^ 31 →
  acks_requested (enc_commands 1 (ruleset_of text)) = acks_of text.
Proof.
  intros H. unfold acks_requested. rewrite acks_in_commands by (by apply small_ruleset || done).
  apply acks_wanted_ruleset.
Qed.

(** A run that ends well, and any run when nothing fails, took 32
    acknowledgements. *)
Lemma returns_with_32 args text u r :
  Z.of_nat (length (Utf8.encode (lan_of text))) < 2 ^ 31 →
  runs (run args) (Call ReadConfig text :: u) r → kernel_acks (Call ReadConfig text :: u) →
  r = 0 ∨ Forall accepts u → (32 <= acks_of text)%nat.
Proof.
  intros Hlan H Hq Hr. rewrite <-acks_of_batch by done. apply run_from in H as (v & o & -> & H & ->).
  assert (o = Ok tt) as ->.
  { destruct Hr as [Hr|Hr]; [by destruct o as [[]|]|]. apply Forall_cons in Hr as [_ [_ Hr]%Forall_cons].
    by eapply program_accepts. }
  unfold kernel_acks in Hq. cbn [queue_after queue_step mbind option_bind] in Hq. by eapply program_takes.
Qed.

(** * Theorems *)

(** When the applet reports success, it has switched forwarding on first and
    then sent the kernel one batch, the encoding of the ruleset of the stored
    configuration, and no acknowledgement it read was an error. *)
Theorem run_loads args t :
  runs (run args) t 0 →
  ∃ text u, t = Call ReadConfig text ::
      Call (WriteProc (lit "/proc/sys/net/ipv4/ip_forward") (lit "1" ++ [LF])) tt ::
      Call (WriteProc (lit "/proc/sys/net/ipv4/conf/all/rp_filter") (lit "1" ++ [LF])) tt :: u ∧
    omap sent u = [enc_commands 1 (ruleset_of text)] ∧
    program_recv (omap received u) = Finished (Ok tt).
Proof.
  intros H. pose proof H as H'. unfold run in H'. run_inv H'. clear H'.
  apply run_from in H as (v & [[]|e] & -> & H & E1); [|done]. apply program_runs in H as [H1 H2]. eauto.
Qed.
(** C8. Against a kernel that acknowledges every flagged message once, on the
    blocking socket the source opens, the applet ends exactly when the stored
    configuration asks for at least 32 acknowledgements, that is for ten port
    forwards or more (eleven without masquerading).  With fewer no run reports
    success, and when the kernel accepts every command no run ends at all: the
    loop waits for acknowledgements that never come. *)
Theorem ends_with_32_acks args text :
  Z.of_nat (length (Utf8.encode (lan_of text))) < 2 ^ 31 →
  ((∃ u, runs (run args) (Call ReadConfig text :: u) 0 ∧ kernel_acks (Call ReadConfig text :: u)) ↔
   (32 <= 11 + 2 * length (forwards_of text) + if masq_of text then 1 else 0)%nat) ∧
  ((∃ u r, runs (run args) (Call ReadConfig text :: u) r ∧ kernel_acks (Call ReadConfig text :: u) ∧
     Forall accepts u) ↔
   (32 <= 11 + 2 * length (forwards_of text) + if masq_of text then 1 else 0)%nat).
Proof.
  intros Hlan. fold (acks_of text).
  assert (Hdo : (32 <= acks_of text)%nat → ∃ u, runs (run args) (Call ReadConfig text :: u) 0 ∧
    kernel_acks (Call ReadConfig text :: u) ∧ Forall accepts u).
  { rewrite <-acks_of_batch by done. intros (v & Hr & Hq & Hf)%program_succeeds. eexists. split.
    - apply run_from. exists v, (Ok tt). split; [reflexivity|split; [exact Hr|reflexivity]].
    - unfold kernel_acks. cbn [queue_after queue_step mbind option_bind]. split; [done|].
      do 2 (constructor; [exact I|]). exact Hf. }
  split; split.
  - intros (u & Hr & Hq). eapply returns_with_32; [done..|]. by left.
  - intros (u & Hr & Hq & _)%Hdo. by exists u.
  - intros (u & r & Hr & Hq & Hf). eapply returns_with_32; [done..|]. by right.
  - intros (u & Hr & Hq & Hf)%Hdo. by exists u, 0.
Qed.

(** The default configuration has no forwards: the applet never ends. *)
Lemma default_config_asks_for_12 : acks_of None = 12%nat.
Proof. vm_compute. reflexivity. Qed.

Lemma ends_with_32_acks_witness :
  (¬ ∃ u, runs (run []) (Call ReadConfig None :: u) 0 ∧ kernel_acks (Call ReadConfig None :: u)) ∧
  (¬ ∃ u r, runs (run []) (Call ReadConfig None :: u) r ∧ kernel_acks (Call ReadConfig None :: u) ∧ Forall accepts u).
Proof.
  destruct (ends_with_32_acks [] None) as [H1 H2]; [vm_compute; reflexivity|].
  fold (acks_of None) in H1, H2. rewrite default_config_asks_for_12 in H1, H2.
  split; intros H; [apply H1 in H|apply H2 in H]; lia.
Defined.

(** ** A run on the default configuration *)
Definition demo_trace : list (call ev) :=
  [Call ReadConfig None;
   Call (WriteProc (lit "/proc/sys/net/ipv4/ip_forward") (lit "1" ++ [LF])) tt;
   Call (WriteProc (lit "/proc/sys/net/ipv4/conf/all/rp_filter") (lit "1" ++ [LF])) tt;
   Call (Socket (Netlink NETLINK_NETFILTER)) (Ok 3); Call (Bind 3 sockaddr_nl) (Ok tt);
   Call (SendTo 3 (build_ruleset (lit "br-lan") true []) sockaddr_nl) (Ok tt)]
  ++ replicate 32 (Call (Recv 3 ACK_SIZE) (Ok demo_ack)) ++ [Call (Close 3) tt].

Lemma demo_load_runs : runs (run []) demo_trace 0.
Proof.
  unfold run, demo_trace. cbn [app]. apply runs_vis. cbv zeta beta.
  set (cfg := Config.load None).
  replace (Config.get_or cfg (lit "lan") (lit "ifname") (lit "br-lan")) with (lit "br-lan") by (vm_compute; reflexivity).
  replace (bool_decide (Config.get_or cfg (lit "firewall") (lit "masq") (lit "1") = lit "1")) with true by (vm_compute; reflexivity).
  replace (parse_forwards (Config.get_or cfg (lit "firewall") (lit "forward") [])) with (@nil Forward) by (vm_compute; reflexivity).
  generalize (build_ruleset (lit "br-lan") true []). intros buf. clear cfg. play.
Qed.

Lemma run_loads_witness :
  ∃ u, demo_trace = take 3 demo_trace ++ u ∧ omap sent u = [enc_commands 1 (ruleset_of None)].
Proof.
  destruct (run_loads [] demo_trace demo_load_runs) as (text & u & E & Hs & _).
  assert (None = text) as <-.
  { apply (f_equal (λ t, head t ≫= config_read)) in E. cbn in E. by injection E. }
  exists u. split; [exact E|exact Hs].
Defined.
End FwRun.
