(* ===== verification/Wg.v ===== *)
(** * WireGuard front end (wg.rs)

    The netlink messages that create the link, look the generic-netlink family
    up and configure the device, and the applet around them.  The specification
    says which sections of the configuration describe a peer and which message
    of linux/wireguard.h they make, in the wire format of [Wire]. *)

From S2P Require Import Prelude Words RustStr Utf8 Num IO Config Util Wire Nl Sock NlSock Net.
Import Nl Sock NlSock.
Open Scope Z_scope.

Module Wg.

(** ** Constants *)
Definition NETLINK_ROUTE : Z := 0.
Definition NETLINK_GENERIC : Z := 16.
Definition GENL_ID_CTRL : Z := 16.
Definition RTM_NEWLINK : Z := 16.
Definition IFLA_IFNAME : Z := 3.
Definition IFLA_LINKINFO : Z := 18.
Definition IFLA_INFO_KIND : Z := 1.
Definition CTRL_CMD_GETFAMILY : Z := 3.
Definition CTRL_ATTR_FAMILY_ID : Z := 1.
Definition CTRL_ATTR_FAMILY_NAME : Z := 2.
Definition WG_CMD_SET_DEVICE : Z := 1.
Definition WGDEVICE_A_IFNAME : Z := 2.
Definition WGDEVICE_A_PRIVATE_KEY : Z := 3.
Definition WGDEVICE_A_FLAGS : Z := 5.
Definition WGDEVICE_A_LISTEN_PORT : Z := 6.
Definition WGDEVICE_A_PEERS : Z := 8.
Definition WGDEVICE_F_REPLACE_PEERS : Z := 1.
Definition WGPEER_A_PUBLIC_KEY : Z := 1.
Definition WGPEER_A_ENDPOINT : Z := 4.
Definition WGPEER_A_PERSISTENT_KEEPALIVE_INTERVAL : Z := 5.
Definition WGPEER_A_ALLOWEDIPS : Z := 9.
Definition WGALLOWEDIP_A_FAMILY : Z := 1.
Definition WGALLOWEDIP_A_IPADDR : Z := 2.
Definition WGALLOWEDIP_A_CIDR_MASK : Z := 3.

(** The [io::Error]s of this file: an errno, or [NotFound] with its text. *)
Inductive error := Os (errno : Z) | NotFound (text : str).
Definition os {A} (r : result A Z) : result A error :=
  match r with Ok a => Ok a | Err e => Err (Os e) end.

(** ** Parsing *)
Definition split_cidr (s : str) : str * str :=
  match split_once (chr "/") s with
  | Some (a, m) => (a, m)
  | None => (s, lit "32")
  end.

Definition sockaddr_in (ep : str) : option bytes :=
  '(host, port) ← rsplit_once (chr ":") ep;
  addr ← Ipv4.parse host;
  port ← parse_uint 16 port;
  Some (le_bytes 2 Net.AF_INET ++ be_bytes 2 port ++ Ipv4.octets addr ++ replicate 8 0).

(** ** Messages *)
Definition genlmsghdr (b : NlBuf) (cmd version : Z) : NlBuf := add_bytes b [cmd; version; 0; 0].

Definition allowedip (b : NlBuf) (idx : Z) (cidr : str) : NlBuf :=
  let '(ip, mask) := split_cidr cidr in
  match Ipv4.parse ip with
  | None => b
  | Some addr =>
      let mask := default 32 (parse_uint 8 mask) in
      nested idx (λ b,
        let b := attr_u16_ne b WGALLOWEDIP_A_FAMILY Net.AF_INET in
        let b := attr b WGALLOWEDIP_A_IPADDR (Ipv4.octets addr) in
        attr b WGALLOWEDIP_A_CIDR_MASK [mask]) b
  end.

(** The [for (idx, cidr) in aips.split(',').enumerate()] loop. *)
Fixpoint allowedips (b : NlBuf) (idx : nat) (l : list str) : NlBuf :=
  match l with
  | [] => b
  | cidr :: l => allowedips (allowedip b (u16 (Z.of_nat idx)) (trim cidr)) (S idx) l
  end.

Definition link_message (ifname : str) : NlBuf :=
  in_message RTM_NEWLINK (Z.lor (Z.lor (Z.lor NLM_F_REQUEST NLM_F_CREATE) NLM_F_EXCL) NLM_F_ACK) 1 (λ b,
    let b := add_bytes b (replicate 16 0) in
    let b := attr_str b IFLA_IFNAME ifname in
    nested IFLA_LINKINFO (λ b, attr_str b IFLA_INFO_KIND (lit "wireguard")) b) empty.

Definition family_message (name : str) : NlBuf :=
  in_message GENL_ID_CTRL (Z.lor NLM_F_REQUEST NLM_F_ACK) 1 (λ b,
    let b := genlmsghdr b CTRL_CMD_GETFAMILY 1 in
    attr_str b CTRL_ATTR_FAMILY_NAME name) empty.

(** Strings order by their UTF-8 bytes, which is the order of their characters;
    a [BTreeMap] is iterated in the order of its keys. *)
Fixpoint str_leb (a b : str) : bool :=
  match a, b with
  | [], _ => true
  | _, [] => false
  | x :: a, y :: b => if N.eqb x y then str_leb a b else N.ltb x y
  end.
Definition key_le {A} (p q : str * A) : Prop := str_leb p.1 q.1 = true.
#[global] Instance key_le_dec {A} : RelDecision (@key_le A).
Proof. intros p q. unfold key_le. apply _. Defined.
Definition in_key_order {A} (m : gmap str A) : list (str * A) := merge_sort key_le (map_to_list m).

(** The public key that makes a section a peer. *)
Definition peer_key (name : str) (sect : gmap str str) : option bytes :=
  if starts_with (lit "peer") name then
    k ← sect !! lit "public_key" ≫= Util.b64_decode;
    if (length k =? 32)%nat then Some k else None
  else None.

(** The three [if let] statements on a peer's options. *)
Definition peer_keepalive (sect : gmap str str) (b : NlBuf) : NlBuf :=
  match sect !! lit "keepalive" ≫= parse_uint 16 with
  | Some ka => attr_u16_ne b WGPEER_A_PERSISTENT_KEEPALIVE_INTERVAL ka
  | None => b
  end.
Definition peer_endpoint (sect : gmap str str) (b : NlBuf) : NlBuf :=
  match sect !! lit "endpoint" ≫= sockaddr_in with
  | Some sa => attr b WGPEER_A_ENDPOINT sa
  | None => b
  end.
Definition peer_allowed (sect : gmap str str) (b : NlBuf) : NlBuf :=
  match sect !! lit "allowed_ips" with
  | Some aips => nested WGPEER_A_ALLOWEDIPS (λ b, allowedips b 0 (split_char (chr ",") aips)) b
  | None => b
  end.

Definition peer_attrs (b : NlBuf) (pubk : bytes) (sect : gmap str str) : NlBuf :=
  let b := attr b WGPEER_A_PUBLIC_KEY pubk in
  let b := peer_keepalive sect b in
  let b := peer_endpoint sect b in
  peer_allowed sect b.

(** The loop's variables: the buffer, [peers_scope] and [peer_idx]. *)
Definition peer_step (st : NlBuf * option Scope * Z) (entry : str * gmap str str) : NlBuf * option Scope * Z :=
  let '(b, peers_scope, peer_idx) := st in
  let '(name, sect) := entry in
  match peer_key name sect with
  | None => st
  | Some pubk =>
      let '(b, scope) := match peers_scope with
        | Some s => (b, s)
        | None => begin_nested b WGDEVICE_A_PEERS end in
      let b := nested peer_idx (λ b, peer_attrs b pubk sect) b in
      (b, Some scope, u16 (peer_idx + 1))
  end.

Definition device_message (family : Z) (ifname : str) (privk : bytes) (port : Z) (cfg : Config.Config) : NlBuf :=
  in_message family (Z.lor NLM_F_REQUEST NLM_F_ACK) 1 (λ b,
    let b := genlmsghdr b WG_CMD_SET_DEVICE 1 in
    let b := attr_str b WGDEVICE_A_IFNAME ifname in
    let b := attr_u32_le b WGDEVICE_A_FLAGS WGDEVICE_F_REPLACE_PEERS in
    let b := attr b WGDEVICE_A_PRIVATE_KEY privk in
    let b := attr_u16_ne b WGDEVICE_A_LISTEN_PORT port in
    let '(b, peers_scope, _) := foldl peer_step (b, None, 0) (in_key_order (Config.sections cfg)) in
    match peers_scope with
    | Some scope => end_nested b scope
    | None => b
    end) empty.

(** ** Exchanges *)
Definition ensure_link (ifname : str) : io ev (result unit Z) :=
  await r := NlSock.open NETLINK_ROUTE in
  match r with
  | Err e => Ret (Err e)
  | Ok fd =>
      await r := send fd (link_message ifname) in
      match r with
      | Err e => Ret (Err e)
      | Ok _ =>
          await res := recv_ack fd in
          await u := close fd in
          Ret (match res with
               | Err e => if e =? EEXIST then Ok tt else Err e
               | Ok _ => Ok tt
               end)
      end
  end.

(** The closure over the attributes keeps the last family id. *)
Definition family_attr (id : Z) (a : Z * bytes) : Z :=
  if (a.1 =? CTRL_ATTR_FAMILY_ID) && (2 <=? length a.2)%nat
  then u16_from_le (byte_at a.2 0) (byte_at a.2 1) else id.

Definition family_of (reply : bytes) : result Z error :=
  if (length reply <? 20)%nat then Err (NotFound (lit "wg: short genl reply"))
  else
    let id := foldl family_attr 0 (for_each_attr (drop 20 reply)) in
    if id =? 0 then Err (NotFound (lit "wg: kernel module not loaded?")) else Ok id.

Definition genl_family_id (name : str) : io ev (result Z error) :=
  await r := NlSock.open NETLINK_GENERIC in
  match r with
  | Err e => Ret (Err (Os e))
  | Ok fd =>
      await r := send fd (family_message name) in
      match r with
      | Err e => Ret (Err (Os e))
      | Ok _ =>
          await r := recv_msg fd in
          match r with
          | Err e => Ret (Err (Os e))
          | Ok reply => await u := close fd in Ret (family_of reply)
          end
      end
  end.

Definition set_device (ifname : str) (privk : bytes) (port : Z) (cfg : Config.Config) : io ev (result unit error) :=
  await r := genl_family_id (lit "wireguard") in
  match r with
  | Err e => Ret (Err e)
  | Ok family =>
      await r := NlSock.open NETLINK_GENERIC in
      match r with
      | Err e => Ret (Err (Os e))
      | Ok fd =>
          await r := send fd (device_message family ifname privk port cfg) in
          match r with
          | Err e => Ret (Err (Os e))
          | Ok _ =>
              await res := recv_ack fd in
              await u := close fd in
              Ret (os res)
          end
      end
  end.

(** ** The applet *)
Definition private_key (cfg : Config.Config) : option bytes :=
  k ← Config.get cfg (lit "wireguard") (lit "private_key") ≫= Util.b64_decode;
  if (length k =? 32)%nat then Some k else None.
Definition listen_port (cfg : Config.Config) : Z :=
  default 51820 (parse_uint 16 (Config.get_or cfg (lit "wireguard") (lit "listen_port") (lit "51820"))).

(** The prefix length of the address is read and dropped. *)
Definition address_tunnel (ifname : str) (cfg : Config.Config) : io ev unit :=
  match Config.get cfg (lit "wireguard") (lit "address") with
  | Some addr =>
      let '(ip, _) := split_cidr addr in
      match Net.parse_v4 ip with
      | Ok ip => await r := Net.configure ifname ip (Ipv4.new 255 255 255 0) in Ret tt
      | Err _ => Ret tt
      end
  | None => Ret tt
  end.

Definition up (cfg : Config.Config) : io ev Z :=
  if negb (bool_decide (Config.get_or cfg (lit "wireguard") (lit "enabled") (lit "0") = lit "1")) then Ret 0
  else
    let ifname := lit "wg0" in
    await r := ensure_link ifname in
    match private_key cfg with
    | None => Ret 1
    | Some privk =>
        let port := listen_port cfg in
        await r := set_device ifname privk port cfg in
        match r with
        | Err _ => Ret 1
        | Ok _ =>
            await u := address_tunnel ifname cfg in
            await r := Net.up ifname in
            Ret 0
        end
    end.

Definition run (args : list str) : io ev Z :=
  perform text := ReadConfig in
  let cfg := Config.load text in
  match args with
  | a :: _ => if bool_decide (a = lit "down") then Ret 0 else up cfg
  | [] => up cfg
  end.

(** * Specification: the configuration of the device

    Independent of the builders above: the peers a configuration describes, and
    the message of linux/wireguard.h for them, with the numbers of that header
    as literals, in the wire format of [Wire]. *)
Record wgpeer := WgPeer {
  wp_key : bytes;
  wp_keepalive : option Z;
  wp_endpoint : option (Z * Z);                  (* address, port *)
  wp_allowed : option (list (option (Z * Z)))    (* address and prefix length; [None]: malformed *)
}.

Definition host_port (s : str) : option (Z * Z) :=
  match rsplit_once (chr ":") s with
  | Some (host, port) =>
      match Ipv4.parse host, parse_uint 16 port with Some a, Some p => Some (a, p) | _, _ => None end
  | None => None
  end.
(** Without a prefix length, or with one that is no 8-bit number, a host route. *)
Definition prefix (s : str) : option (Z * Z) :=
  match split_once (chr "/") (trim s) with
  | Some (ip, m) => a ← Ipv4.parse ip; Some (a, match parse_uint 8 m with Some m => m | None => 32 end)
  | None => a ← Ipv4.parse (trim s); Some (a, 32)
  end.

(** The section describes the peer: its name begins with peer and its public
    key is the Base64 of 32 bytes. *)
Record describes (name : str) (sect : gmap str str) (p : wgpeer) : Prop := {
  d_name : ∃ rest, name = lit "peer" ++ rest;
  d_key : ∃ t, sect !! lit "public_key" = Some t ∧ Util.b64_decode t = Some (wp_key p);
  d_key_length : length (wp_key p) = 32%nat;
  d_keepalive : wp_keepalive p = sect !! lit "keepalive" ≫= parse_uint 16;
  d_endpoint : wp_endpoint p = sect !! lit "endpoint" ≫= host_port;
  d_allowed : wp_allowed p = (λ t, map prefix (split_char (chr ",") t)) <$> sect !! lit "allowed_ips"
}.

(** The peers of a list of sections, in its order. *)
Inductive peers_in : list (str * gmap str str) → list wgpeer → Prop :=
| peers_none : peers_in [] []
| peers_one name sect p l ps :
    describes name sect p → peers_in l ps → peers_in ((name, sect) :: l) (p :: ps)
| peers_skip name sect l ps :
    (∀ p, ¬ describes name sect p) → peers_in l ps → peers_in ((name, sect) :: l) ps.

(** Lexicographic order of characters. *)
Inductive lex_le : str → str → Prop :=
| lex_nil b : lex_le [] b
| lex_less x y a b : (x < y)%N → lex_le (x :: a) (y :: b)
| lex_same x a b : lex_le a b → lex_le (x :: a) (x :: b).

Section UapiMessage.
Import Wire.

(** AF_INET is 2, in host order; ports and addresses are in network order. *)
Definition allowed_attrs (l : list (option (Z * Z))) : list attr :=
  concat (imap (λ i e,
    match e with
    | Some (ip, len) =>
        [Nested (Z.of_nat i mod 2 ^ 16) [Attr 1 (le2 2); Attr 2 (be4 ip); Attr 3 [len]]]
    | None => []
    end) l).
Definition peer_attr (i : nat) (p : wgpeer) : attr :=
  Nested (Z.of_nat i mod 2 ^ 16)
    ([Attr 1 (wp_key p)]
     ++ match wp_keepalive p with Some s => [Attr 5 (le2 s)] | None => [] end
     ++ match wp_endpoint p with
        | Some (ip, port) => [Attr 4 (le2 2 ++ be2 port ++ be4 ip ++ [0; 0; 0; 0; 0; 0; 0; 0])]
        | None => []
        end
     ++ match wp_allowed p with Some l => [Nested 9 (allowed_attrs l)] | None => [] end).

(** WG_CMD_SET_DEVICE is 1, of version 1; flags: request and acknowledge;
    device flag 1 replaces all peers. *)
Definition set_device_msg (family : Z) (ifname : str) (privk : bytes) (port : Z) (ps : list wgpeer) : msg :=
  {| typ := family; flags := 5; fixed := [1; 1; 0; 0];
     attrs := [Attr 2 (cstr ifname); Attr 5 (le4 1); Attr 3 privk; Attr 6 (le2 port)]
       ++ match ps with [] => [] | _ => [Nested 8 (imap peer_attr ps)] end |}.
End UapiMessage.

(** ** The attribute tree of the device, in terms of the code's own parsing *)

Definition cidr_entry (s : str) : option (Z * Z) :=
  let '(ip, mask) := split_cidr (trim s) in
  addr ← Ipv4.parse ip;
  Some (addr, default 32 (parse_uint 8 mask)).

(** Entries keep the index of their place in the list; malformed ones are left
    out. *)
Fixpoint allowed_nlas (idx : nat) (l : list str) : list nla :=
  match l with
  | [] => []
  | s :: l =>
      match cidr_entry s with
      | Some (addr, mask) =>
          [Nest (u16 (Z.of_nat idx))
             [Leaf WGALLOWEDIP_A_FAMILY (le_bytes 2 Net.AF_INET);
              Leaf WGALLOWEDIP_A_IPADDR (Ipv4.octets addr);
              Leaf WGALLOWEDIP_A_CIDR_MASK [mask]]]
      | None => []
      end ++ allowed_nlas (S idx) l
  end.

Definition opt_nla {A} (f : A → nla) (o : option A) : list nla :=
  match o with Some a => [f a] | None => [] end.

Definition peer_children (pubk : bytes) (sect : gmap str str) : list nla :=
  [Leaf WGPEER_A_PUBLIC_KEY pubk]
  ++ opt_nla (λ ka, Leaf WGPEER_A_PERSISTENT_KEEPALIVE_INTERVAL (le_bytes 2 ka))
       (sect !! lit "keepalive" ≫= parse_uint 16)
  ++ opt_nla (Leaf WGPEER_A_ENDPOINT) (sect !! lit "endpoint" ≫= sockaddr_in)
  ++ opt_nla (λ aips, Nest WGPEER_A_ALLOWEDIPS (allowed_nlas 0 (split_char (chr ",") aips)))
       (sect !! lit "allowed_ips").

Definition peer_of (entry : str * gmap str str) : option (bytes * gmap str str) :=
  (λ k, (k, entry.2)) <$> peer_key entry.1 entry.2.
(** The peers of a configuration, in the order of their section names. *)
Definition peers_of (cfg : Config.Config) : list (bytes * gmap str str) :=
  omap peer_of (in_key_order (Config.sections cfg)).

Fixpoint peer_nlas (idx : nat) (ps : list (bytes * gmap str str)) : list nla :=
  match ps with
  | [] => []
  | (pubk, sect) :: ps => Nest (u16 (Z.of_nat idx)) (peer_children pubk sect) :: peer_nlas (S idx) ps
  end.

Definition device (family : Z) (ifname : str) (privk : bytes) (port : Z)
    (ps : list (bytes * gmap str str)) : message :=
  Msg family (Z.lor NLM_F_REQUEST NLM_F_ACK) 1 [WG_CMD_SET_DEVICE; 1; 0; 0]
    ([Leaf WGDEVICE_A_IFNAME (Utf8.encode ifname ++ [0]);
      Leaf WGDEVICE_A_FLAGS (le_bytes 4 WGDEVICE_F_REPLACE_PEERS);
      Leaf WGDEVICE_A_PRIVATE_KEY privk;
      Leaf WGDEVICE_A_LISTEN_PORT (le_bytes 2 port)]
     ++ match ps with [] => [] | _ => [Nest WGDEVICE_A_PEERS (peer_nlas 0 ps)] end).

Definition link (ifname : str) : message :=
  Msg RTM_NEWLINK (Z.lor (Z.lor (Z.lor NLM_F_REQUEST NLM_F_CREATE) NLM_F_EXCL) NLM_F_ACK) 1 (replicate 16 0)
    [Leaf IFLA_IFNAME (Utf8.encode ifname ++ [0]);
     Nest IFLA_LINKINFO [Leaf IFLA_INFO_KIND (Utf8.encode (lit "wireguard") ++ [0])]].

Definition get_family (name : str) : message :=
  Msg GENL_ID_CTRL (Z.lor NLM_F_REQUEST NLM_F_ACK) 1 [CTRL_CMD_GETFAMILY; 1; 0; 0]
    [Leaf CTRL_ATTR_FAMILY_NAME (Utf8.encode name ++ [0])].

(** * Lemmas *)

(** ** Builders append the tree's encoding *)
#[local] Hint Resolve writes_attr writes_attr_str writes_nested writes_nil : wg.

Lemma writes_leaves f a : writes f (enc a) → writes f (enc_all [a]).
Proof. unfold enc_all. cbn [map concat]. by rewrite app_nil_r. Qed.

Lemma writes_snoc f g l k : writes f (enc_all l) → writes g (enc_all k) → writes (λ b, g (f b)) (enc_all (l ++ k)).
Proof. rewrite enc_all_app. apply writes_app. Qed.

Lemma writes_opt {A} (f : NlBuf → A → NlBuf) (g : A → nla) (o : option A) :
  (∀ a, writes (λ b, f b a) (enc (g a))) →
  writes (λ b, match o with Some a => f b a | None => b end) (enc_all (opt_nla g o)).
Proof. intros H. destruct o as [a|]; [apply writes_leaves, H|apply writes_nil]. Qed.

Lemma allowedip_writes idx s :
  writes (λ b, allowedip b (u16 (Z.of_nat idx)) (trim s))
    (enc_all match cidr_entry s with
      | Some (addr, mask) =>
          [Nest (u16 (Z.of_nat idx))
             [Leaf WGALLOWEDIP_A_FAMILY (le_bytes 2 Net.AF_INET);
              Leaf WGALLOWEDIP_A_IPADDR (Ipv4.octets addr);
              Leaf WGALLOWEDIP_A_CIDR_MASK [mask]]]
      | None => []
      end).
Proof.
  unfold allowedip, cidr_entry. destruct (split_cidr (trim s)) as [ip mask].
  destruct (Ipv4.parse ip) as [addr|]; cbn [mbind option_bind]; [|apply writes_nil].
  apply writes_leaves, writes_nested.
  apply (writes_snoc (λ b, attr (attr_u16_ne b _ _) _ _) (λ b, attr b _ _) [_; _] [_]);
    [apply (writes_snoc (λ b, attr_u16_ne b _ _) (λ b, attr b _ _) [_] [_])|]; apply writes_leaves, writes_attr.
Qed.

Lemma allowedips_writes l idx : writes (λ b, allowedips b idx l) (enc_all (allowed_nlas idx l)).
Proof.
  revert idx. induction l as [|s l IH]; intros idx; cbn [allowedips allowed_nlas]; [apply writes_nil|].
  rewrite enc_all_app. apply (writes_app _ (λ b, allowedips b (S idx) l)); [apply allowedip_writes|apply IH].
Qed.

Lemma peer_attrs_writes pubk sect : writes (λ b, peer_attrs b pubk sect) (enc_all (peer_children pubk sect)).
Proof.
  unfold peer_attrs, peer_children. rewrite !app_assoc.
  apply (writes_snoc (λ b, peer_endpoint sect (peer_keepalive sect (attr b _ _))) (peer_allowed sect)).
  - apply (writes_snoc (λ b, peer_keepalive sect (attr b _ _)) (peer_endpoint sect)).
    + apply (writes_snoc (λ b, attr b _ _) (peer_keepalive sect)).
      * apply writes_leaves, writes_attr.
      * apply (writes_opt (λ b ka, attr_u16_ne b WGPEER_A_PERSISTENT_KEEPALIVE_INTERVAL ka)).
        intros ka. apply writes_attr.
    + apply (writes_opt (λ b sa, attr b WGPEER_A_ENDPOINT sa)). intros sa. apply writes_attr.
  - apply (writes_opt (λ b aips, nested WGPEER_A_ALLOWEDIPS (λ b, allowedips b 0 (split_char (chr ",") aips)) b)
      (λ aips, Nest WGPEER_A_ALLOWEDIPS (allowed_nlas 0 (split_char (chr ",") aips)))).
    intros aips. apply writes_nested, allowedips_writes.
Qed.

(** ** The loop over the peers *)
Lemma peer_of_eq name sect : peer_of (name, sect) = (λ k, (k, sect)) <$> peer_key name sect.
Proof. done. Qed.

Lemma peers_in_scope l b s n :
  aligned b →
  foldl peer_step (b, Some s, u16 (Z.of_nat n)) l =
    (b ++ enc_all (peer_nlas n (omap peer_of l)), Some s, u16 (Z.of_nat (n + length (omap peer_of l)))).
Proof.
  revert b n. induction l as [|[name sect] l IH]; intros b n Hb.
  - cbn. by rewrite app_nil_r, Nat.add_0_r.
  - cbn [foldl peer_step omap list_omap]. rewrite peer_of_eq.
    destruct (peer_key name sect) as [k|]; [|by apply IH]. cbn [fmap option_fmap option_map].
    destruct (writes_nested (u16 (Z.of_nat n)) _ _ (peer_attrs_writes k sect)) as [Ha Hw].
    rewrite Hw by done. unfold u16 at 2. rewrite wrap_add_l.
    change (Z.of_nat n + 1) with (Z.of_nat n + Z.of_nat 1). rewrite <- Nat2Z.inj_add, Nat.add_1_r.
    fold (u16 (Z.of_nat (S n))). rewrite IH by (by apply aligned_app). cbn [peer_nlas length].
    rewrite enc_all_cons, app_assoc. do 2 f_equal. f_equal. lia.
Qed.

(** The scope of the list is opened by the first peer and closed after the
    loop: one nested attribute, or nothing without a peer. *)
Lemma peers_writes l :
  writes (λ b, let '(b, peers_scope, _) := foldl peer_step (b, None, 0) l in
      match peers_scope with Some scope => end_nested b scope | None => b end)
    (enc_all match omap peer_of l with
      | [] => []
      | _ => [Nest WGDEVICE_A_PEERS (peer_nlas 0 (omap peer_of l))]
      end).
Proof.
  induction l as [|[name sect] l IH]; [apply writes_nil|].
  cbn [foldl peer_step omap list_omap]. rewrite peer_of_eq.
  destruct (peer_key name sect) as [k|] eqn:E; [|apply IH]. cbn [fmap option_fmap option_map].
  set (ps := peer_nlas 0 _). apply writes_leaves.
  destruct (writes_nested WGDEVICE_A_PEERS (λ b, add_bytes b (enc_all ps)) ps (writes_bytes _ (enc_all_aligned _))) as [Ha Hw].
  split; [done|]. intros b Hb. rewrite <- Hw by done. unfold nested at 2, begin_nested. cbn [snd].
  set (h := [0; 0] ++ _). assert (Hh : aligned (b ++ h)) by (by apply aligned_app).
  destruct (writes_nested 0 _ _ (peer_attrs_writes k sect)) as [Hk1 Hk2]. rewrite Hk2 by done.
  change (u16 (0 + 1)) with (u16 (Z.of_nat 1)). rewrite peers_in_scope by (by apply aligned_app).
  unfold ps. cbn [peer_nlas]. change (u16 (Z.of_nat 0)) with 0. unfold add_bytes.
  by rewrite enc_all_cons, !app_assoc.
Qed.

Lemma message_built t fl seq f fixed l :
  aligned fixed → writes f (fixed ++ enc_all l) → in_message t fl seq f empty = enc_msg (Msg t fl seq fixed l).
Proof. intros Hf Hw. exact (proj2 (writes_message t fl seq f fixed l Hf Hw) [] eq_refl). Qed.

Lemma device_writes family ifname privk port cfg :
  device_message family ifname privk port cfg = enc_msg (device family ifname privk port (peers_of cfg)).
Proof.
  apply message_built; [done|].
  set (loop := λ b, let '(b, peers_scope, _) := foldl peer_step (b, None, 0) (in_key_order (Config.sections cfg)) in
    match peers_scope with Some scope => end_nested b scope | None => b end).
  apply (writes_app (λ b, genlmsghdr b WG_CMD_SET_DEVICE 1)
    (λ b, loop (attr_u16_ne (attr (attr_u32_le (attr_str b _ _) _ _) _ _) _ _))); [by apply writes_bytes|].
  apply (writes_snoc (λ b, attr_u16_ne (attr (attr_u32_le (attr_str b _ _) _ _) _ _) _ _) loop [_; _; _; _]); [|apply peers_writes].
  apply (writes_snoc (λ b, attr (attr_u32_le (attr_str b _ _) _ _) _ _) (λ b, attr_u16_ne b _ _) [_; _; _] [_]);
    [|apply writes_leaves, writes_attr].
  apply (writes_snoc (λ b, attr_u32_le (attr_str b _ _) _ _) (λ b, attr b _ _) [_; _] [_]);
    [|apply writes_leaves, writes_attr].
  apply (writes_snoc (λ b, attr_str b _ _) (λ b, attr_u32_le b _ _) [_] [_]);
    apply writes_leaves; [apply writes_attr_str|apply writes_attr].
Qed.

Lemma link_writes ifname : link_message ifname = enc_msg (link ifname).
Proof.
  unfold link_message, link. apply message_built; [done|].
  apply (writes_app (λ b, add_bytes b _) (λ b, nested _ _ (attr_str b _ _))); [by apply writes_bytes|].
  apply (writes_snoc (λ b, attr_str b _ _) (nested _ _) [_] [_]); apply writes_leaves;
    [apply writes_attr_str|apply writes_nested, writes_leaves, writes_attr_str].
Qed.

Lemma family_writes name : family_message name = enc_msg (get_family name).
Proof.
  apply (message_built _ _ _ (λ b, attr_str (genlmsghdr b CTRL_CMD_GETFAMILY 1) CTRL_ATTR_FAMILY_NAME name)
    [CTRL_CMD_GETFAMILY; 1; 0; 0]); [done|].
  apply (writes_app (λ b, genlmsghdr b _ _) (λ b, attr_str b _ _)); [by apply writes_bytes|].
  apply writes_leaves, writes_attr_str.
Qed.

(** ** Runs *)
Lemma ensure_link_runs ifname t r :
  runs (ensure_link ifname) t r →
  (omap sent t = [] ∨ omap sent t = [enc_msg (link ifname)]) ∧ ∀ fd, surplus fd t = 0.
Proof.
  unfold ensure_link. intros H. run_inv H.
  destruct (open_quiet _ _ _ H0) as [Hs _]. pose proof (λ fd, open_surplus fd _ _ _ H0) as Hf. clear H0.
  destruct a as [fd'|e]; [|run_inv H; rewrite app_nil_r; by split; [left|]].
  unfold send, recv_ack, close in H. cbn [io_bind] in H. run_inv H.
  rewrite omap_app, Hs. destruct x as [[]|e]; cbn [io_bind] in H.
  - run_inv H. run_inv H. run_inv H. split; [right; by rewrite <- link_writes|].
    intros fd. rewrite surplus_app, Hf. settle.
  - run_inv H. split; [by left|]. intros fd. rewrite surplus_app, Hf. settle.
Qed.

Lemma genl_family_runs name t r :
  runs (genl_family_id name) t r →
  (∀ fd, surplus fd t = 0) ∧
  ∀ fam, r = Ok fam → omap sent t = [enc_msg (get_family name)] ∧
    ∃ reply, omap received t = [Ok reply] ∧ family_of reply = Ok fam.
Proof.
  unfold genl_family_id. intros H. run_inv H.
  destruct (open_quiet _ _ _ H0) as [Hs Hr]. pose proof (λ fd, open_surplus fd _ _ _ H0) as Hf. clear H0.
  destruct a as [fd'|e]; [|run_inv H; rewrite app_nil_r; by split].
  unfold send, recv_msg, close in H. cbn [io_bind] in H. run_inv H.
  rewrite !omap_app, Hs, Hr, <- family_writes. destruct x as [[]|e]; cbn [io_bind] in H;
    [|run_inv H; split; [intros fd; rewrite surplus_app, Hf; settle|done]].
  run_inv H. destruct x as [d|e]; cbn [io_bind result_bind] in H;
    [|run_inv H; split; [intros fd; rewrite surplus_app, Hf; settle|done]].
  run_inv H. run_inv H. split; [intros fd; rewrite surplus_app, Hf; settle|].
  intros fam E. split; [done|]. by exists (take MSG_SIZE d).
Qed.

Lemma set_device_runs ifname privk port cfg t r :
  runs (set_device ifname privk port cfg) t r →
  (∀ fd, surplus fd t = 0) ∧
  (r = Ok tt → ∃ fam reply ack,
    omap sent t = [enc_msg (get_family (lit "wireguard")); enc_msg (device fam ifname privk port (peers_of cfg))] ∧
    omap received t = [Ok reply; Ok ack] ∧ family_of reply = Ok fam ∧ ack_of ack = Ok tt).
Proof.
  unfold set_device. intros H. run_inv H. apply genl_family_runs in H0 as [Hf0 Ho].
  destruct a as [fam|e]; [|run_inv H; rewrite app_nil_r; by split].
  destruct (Ho fam eq_refl) as (Hs0 & reply & Hr0 & Hfam). clear Ho.
  run_inv H. destruct (open_quiet _ _ _ H0) as [Hs Hr]. pose proof (λ fd, open_surplus fd _ _ _ H0) as Hf. clear H0.
  assert (Hsum : ∀ fd u, surplus fd (t0 ++ t ++ u) = surplus fd t + surplus fd u)
    by (intros fd u; rewrite !surplus_app, Hf0; lia).
  destruct a as [fd'|e]; [|run_inv H; split; [intros fd; rewrite Hsum, Hf; settle|done]].
  unfold send, recv_ack, close in H. cbn [io_bind] in H. run_inv H.
  destruct x as [[]|e]; cbn [io_bind] in H; [|run_inv H; split; [intros fd; rewrite Hsum, Hf; settle|done]].
  run_inv H. run_inv H. run_inv H. split; [intros fd; rewrite Hsum, Hf; settle|].
  intros E. rewrite !omap_app, Hs0, Hr0, Hs, Hr. clear Hsum Hf. revert E.
  destruct x as [d|e]; [|done]. cbn [app omap list_omap sent received result_bind].
  generalize (take ACK_SIZE d). intros ack E. exists fam, reply, ack. rewrite <- device_writes. do 3 (split; [done|]).
  by destruct (ack_of ack) as [[]|e].
Qed.

Lemma address_tunnel_runs ifname cfg t u :
  runs (address_tunnel ifname cfg) t u → omap sent t = [] ∧ ∀ fd, surplus fd t = 0.
Proof.
  unfold address_tunnel. destruct (Config.get _ _ _) as [addr|]; [|intros H; by run_inv H].
  destruct (split_cidr addr) as [ip m]. destruct (Net.parse_v4 ip) as [a|]; [|intros H; by run_inv H].
  intros H. run_inv H. run_inv H. rewrite app_nil_r. split; [by eapply Net.plain_asks, Net.configure_plain|].
  intros fd. by eapply Net.configure_surplus.
Qed.

Lemma applet_surplus cfg t r fd : runs (up cfg) t r → surplus fd t = 0.
Proof.
  unfold up. destruct (negb _); intros H; [by run_inv H|]. run_inv H.
  apply ensure_link_runs in H0 as [_ Hl].
  destruct (private_key cfg) as [privk|]; [|run_inv H; by rewrite app_nil_r].
  run_inv H. apply set_device_runs in H0 as [Hd _].
  destruct a0 as [u|e]; [|run_inv H; rewrite !surplus_app, Hl, Hd; done].
  run_inv H. apply address_tunnel_runs in H0 as [_ Ha]. run_inv H. apply (Net.up_surplus fd) in H0. run_inv H.
  rewrite !surplus_app, Hl, Hd, Ha, H0. done.
Qed.

(** ** Order of the sections *)
Lemma str_leb_total a b : str_leb a b = true ∨ str_leb b a = true.
Proof.
  revert b. induction a as [|x a IH]; intros [|y b]; cbn [str_leb]; [by left..|by right|].
  destruct (N.eqb_spec x y) as [->|H].
  - rewrite N.eqb_refl. apply IH.
  - rewrite (proj2 (N.eqb_neq y x)) by done. rewrite !N.ltb_lt. lia.
Qed.

Lemma str_leb_trans a b c : str_leb a b = true → str_leb b c = true → str_leb a c = true.
Proof.
  revert b c. induction a as [|x a IH]; intros [|y b] [|z c]; cbn [str_leb]; try done.
  destruct (N.eqb_spec x y) as [->|H1], (N.eqb_spec y z) as [->|H2]; intros Hab Hbc.
  - by eapply IH.
  - done.
  - by rewrite (proj2 (N.eqb_neq x z)).
  - apply N.ltb_lt in Hab, Hbc. rewrite (proj2 (N.eqb_neq x z)) by lia. apply N.ltb_lt. lia.
Qed.

#[local] Instance key_le_total {A} : Total (@key_le A).
Proof. intros p q. apply str_leb_total. Qed.
#[local] Instance key_le_trans {A} : Transitive (@key_le A).
Proof. intros p q r. apply str_leb_trans. Qed.

Lemma in_key_order_sorted {A} (m : gmap str A) :
  in_key_order m ≡ₚ map_to_list m ∧ StronglySorted key_le (in_key_order m).
Proof. split; [apply merge_sort_Permutation|apply StronglySorted_merge_sort; apply _]. Qed.

Lemma family_attrs_other id l :
  Forall (λ a, Z.land (nla_type a) 0x3fff ≠ CTRL_ATTR_FAMILY_ID) l →
  foldl family_attr id (map (λ a, (Z.land (nla_type a) 0x3fff, nla_payload a)) l) = id.
Proof.
  intros H. revert id. induction H as [|a l Ha _ IH]; intros id; cbn [map foldl]; [done|].
  rewrite IH. unfold family_attr. cbn [fst snd]. by rewrite (proj2 (Z.eqb_neq _ _)).
Qed.

(** * Theorems *)

(** ** The tree is the message of the specification *)
Lemma lex_le_iff a b : str_leb a b = true ↔ lex_le a b.
Proof.
  split.
  - revert b. induction a as [|x a IH]; intros [|y b]; cbn [str_leb]; try done; try (by constructor).
    destruct (N.eqb_spec x y) as [->|H]; intros E; [by apply lex_same, IH|].
    apply lex_less. by apply N.ltb_lt.
  - induction 1 as [b|x y a b H|x a b _ IH]; cbn [str_leb]; [done| |by rewrite N.eqb_refl].
    rewrite (proj2 (N.eqb_neq x y)) by lia. by apply N.ltb_lt.
Qed.

Lemma starts_with_peer name : starts_with (lit "peer") name = true ↔ ∃ rest, name = lit "peer" ++ rest.
Proof.
  unfold starts_with. split.
  - destruct (strip_prefix _ name) as [r|] eqn:E; [|done]. intros _. exists r. by apply strip_prefix_Some.
  - intros [r ->]. by rewrite strip_prefix_app.
Qed.

(** The options of a section, as the specification reads them. *)
Definition peer_from (k : bytes) (sect : gmap str str) : wgpeer :=
  WgPeer k (sect !! lit "keepalive" ≫= parse_uint 16) (sect !! lit "endpoint" ≫= host_port)
    ((λ t, map prefix (split_char (chr ",") t)) <$> sect !! lit "allowed_ips").

Lemma peer_key_describes name sect k :
  peer_key name sect = Some k ↔ describes name sect (peer_from k sect).
Proof.
  unfold peer_key. split.
  - destruct (starts_with _ _) eqn:Hn; [|done]. destruct (sect !! lit "public_key") as [t|] eqn:Ht; [|done].
    cbn [mbind option_bind]. destruct (Util.b64_decode t) as [k'|] eqn:Hk; [|done]. cbn [mbind option_bind].
    destruct (Nat.eqb_spec (length k') 32); [|done]. intros [= ->].
    split; try done; [by apply starts_with_peer|by exists t].
  - intros [Hn (t & Ht & Hk) Hl _ _ _]. rewrite (proj2 (starts_with_peer name)) by done.
    rewrite Ht. cbn [mbind option_bind]. rewrite Hk. cbn [mbind option_bind wp_key peer_from] in *. by rewrite Hl.
Qed.

Lemma describes_from name sect p : describes name sect p → p = peer_from (wp_key p) sect.
Proof. intros [_ _ _ H1 H2 H3]. destruct p. cbn in *. by subst. Qed.

Lemma peers_in_omap l : peers_in l (map (λ '(k, sect), peer_from k sect) (omap peer_of l)).
Proof.
  induction l as [|[name sect] l IH]; [constructor|]. cbn [omap list_omap]. rewrite peer_of_eq.
  destruct (peer_key name sect) as [k|] eqn:E; cbn [fmap option_fmap option_map map].
  - constructor; [by apply peer_key_describes|done].
  - apply peers_skip; [|done]. intros p Hp. pose proof (describes_from _ _ _ Hp) as Ep. rewrite Ep in Hp.
    apply peer_key_describes in Hp. congruence.
Qed.

Lemma allowed_attrs_eq l idx :
  allowed_nlas idx l = map nla_of (concat (imap (λ i e,
    match e with
    | Some (ip, len) =>
        [Wire.Nested (Z.of_nat (idx + i) mod 2 ^ 16)
          [Wire.Attr 1 (Wire.le2 2); Wire.Attr 2 (Wire.be4 ip); Wire.Attr 3 [len]]]
    | None => []
    end) (map prefix l))).
Proof.
  revert idx. induction l as [|s l IH]; intros idx; [done|]. cbn [allowed_nlas map].
  rewrite imap_cons. cbn [concat]. rewrite map_app. f_equal.
  - unfold cidr_entry, split_cidr, prefix. rewrite Nat.add_0_r.
    destruct (split_once (chr "/") (trim s)) as [[ip m]|]; (destruct (Ipv4.parse _) as [a|]; [|done]); [|done].
    by destruct (parse_uint 8 m).
  - rewrite (IH (S idx)). do 2 f_equal. apply imap_ext. intros i x _. unfold compose.
    by rewrite Nat.add_succ_r.
Qed.

Lemma peer_children_eq i k sect :
  Nest (u16 (Z.of_nat i)) (peer_children k sect) = nla_of (peer_attr i (peer_from k sect)).
Proof.
  unfold peer_children, peer_attr, peer_from. cbn [wp_key wp_keepalive wp_endpoint wp_allowed nla_of].
  rewrite !map_app. do 2 f_equal. f_equal; [by destruct (sect !! lit "keepalive" ≫= parse_uint 16)|].
  f_equal.
  - destruct (sect !! lit "endpoint") as [e|]; [|done]. cbn [mbind option_bind].
    unfold sockaddr_in, host_port. destruct (rsplit_once _ e) as [[h p]|]; [|done]. cbn [mbind option_bind].
    destruct (Ipv4.parse h) as [a|]; [|done]. cbn [mbind option_bind]. by destruct (parse_uint 16 p).
  - destruct (sect !! lit "allowed_ips") as [l|]; [|done]. cbn [opt_nla fmap option_fmap option_map map nla_of].
    do 2 f_equal. apply (allowed_attrs_eq _ 0).
Qed.

Lemma peer_nlas_eq ps idx :
  peer_nlas idx ps = map nla_of (imap (λ i p, peer_attr (idx + i) p) (map (λ '(k, sect), peer_from k sect) ps)).
Proof.
  revert idx. induction ps as [|[k sect] ps IH]; intros idx; [done|]. cbn [peer_nlas map].
  rewrite imap_cons. cbn [map]. rewrite Nat.add_0_r, <- peer_children_eq. f_equal.
  rewrite (IH (S idx)). f_equal. apply imap_ext. intros i x _. unfold compose. by rewrite Nat.add_succ_r.
Qed.

Lemma device_uapi family ifname privk port ps :
  enc_msg (device family ifname privk port ps)
  = Wire.wire_msg 1 (set_device_msg family ifname privk port (map (λ '(k, sect), peer_from k sect) ps)).
Proof.
  rewrite <- enc_msg_wire. f_equal. unfold device, set_device_msg.
  cbn [Wire.typ Wire.flags Wire.fixed Wire.attrs]. rewrite map_app. f_equal. f_equal.
  destruct ps as [|p ps]; [done|]. rewrite (peer_nlas_eq (p :: ps) 0). done.
Qed.

(** C33. The device message is the one linux/wireguard.h asks for: with the
    sections of the configuration in the lexicographic order of their names,
    it sets the private key, the port and the flag that replaces all peers, and
    has one indexed attribute for each section that describes a peer -- its
    name begins with peer and its public key is the Base64 of exactly 32 bytes
    -- with the key, the keep-alive interval, the endpoint and the allowed
    addresses that parse, and none for any other section; without a peer the
    list is absent.  Peers, attribute numbers and wire format are those of the
    specification; the Base64 decoder and the number and address parsers are
    those verified elsewhere. *)
Theorem device_message_correct family ifname privk port cfg :
  ∃ l ps,
    l ≡ₚ map_to_list (Config.sections cfg) ∧ StronglySorted (λ p q, lex_le p.1 q.1) l ∧
    peers_in l ps ∧
    device_message family ifname privk port cfg
    = Wire.wire_msg 1 (set_device_msg family ifname privk port ps).
Proof.
  exists (in_key_order (Config.sections cfg)). eexists.
  destruct (in_key_order_sorted (Config.sections cfg)) as [Hp Hs]. split; [done|]. split.
  - clear Hp. induction Hs as [|p l _ IH Hp']; constructor; [by apply IH|].
    eapply Forall_impl; [exact Hp'|]. intros q. apply lex_le_iff.
  - split; [apply peers_in_omap|]. rewrite device_writes. apply device_uapi.
Qed.

(** The family lookup reads the reply of the kernel: whatever the attributes
    of the reply are, if one of them is the family id and no other has its type,
    the answer is that id. *)
Theorem family_of_reply hdr attrs k id :
  length hdr = 20%nat →
  Forall nla_ok (attrs ++ Leaf CTRL_ATTR_FAMILY_ID (le_bytes 2 id) :: k) →
  Forall (λ a, Z.land (nla_type a) 0x3fff ≠ CTRL_ATTR_FAMILY_ID) (attrs ++ k) →
  0 < id < 2 ^ 16 →
  family_of (hdr ++ enc_all (attrs ++ Leaf CTRL_ATTR_FAMILY_ID (le_bytes 2 id) :: k)) = Ok id.
Proof.
  intros Hh Hok Hne Hid. unfold family_of. rewrite length_app, Hh. cbn [Nat.add Nat.ltb Nat.leb].
  rewrite drop_app_length' by done. rewrite for_each_attr_reads by done.
  apply Forall_app in Hne as [Hn1 Hn2]. rewrite map_app, foldl_app. cbn [map foldl].
  rewrite (family_attrs_other _ k) by done. rewrite (family_attrs_other _ attrs) by done.
  unfold family_attr. cbn [fst snd nla_type nla_payload]. change (Z.land CTRL_ATTR_FAMILY_ID 16383) with 1.
  rewrite length_le_bytes, u16_le by lia. change ((1 =? CTRL_ATTR_FAMILY_ID) && (2 <=? 2)%nat) with true. cbv iota.
  by destruct (Z.eqb_spec id 0); [lia|].
Qed.

(** When [wg up] reports success and the tunnel is enabled, the private key
    of the configuration is valid, and what went to the kernel is the request
    for the link (at most once), the lookup of the family and the device message
    for exactly the family the kernel answered; the kernel acknowledged it. *)
Theorem up_configures cfg t :
  runs (up cfg) t 0 →
  Config.get_or cfg (lit "wireguard") (lit "enabled") (lit "0") = lit "1" →
  ∃ pre privk fam reply,
    private_key cfg = Some privk ∧
    omap sent t = pre ++ [enc_msg (get_family (lit "wireguard"));
      enc_msg (device fam (lit "wg0") privk (listen_port cfg) (peers_of cfg))] ∧
    (pre = [] ∨ pre = [enc_msg (link (lit "wg0"))]) ∧
    Ok reply ∈ omap received t ∧ family_of reply = Ok fam.
Proof.
  intros H He. unfold up in H. rewrite He, bool_decide_true in H by done. cbn [negb] in H.
  run_inv H. apply ensure_link_runs in H0 as [Hl _].
  destruct (private_key cfg) as [privk|]; [|by run_inv H]. run_inv H.
  apply set_device_runs in H0 as [_ Hd]. destruct a0 as [[]|e]; [|by run_inv H].
  destruct (Hd eq_refl) as (fam & reply & ack & Hs & Hr & Hfam & _).
  run_inv H. apply address_tunnel_runs in H0 as [H0 _]. run_inv H. apply Net.up_plain, Net.plain_asks in H1 as [H1 _]. run_inv H.
  exists (omap sent t0), privk, fam, reply. rewrite !omap_app, H0, H1, Hs. split; [done|].
  split; [done|]. split; [done|]. split; [|done]. rewrite Hr. set_solver.
Qed.

(** C34. Descriptors: in every run of the applet, whatever the kernel answers,
    each descriptor it opens is closed, except that one is lost for every failed
    send, failed receipt of the family reply, and failed interface request other
    than the final one of [up]. *)
Theorem descriptors_accounted args t r fd :
  runs (run args) t r → balance fd t = failed_on fatal fd t.
Proof.
  intros H. enough (surplus fd t = 0) by (unfold surplus in *; lia). unfold run in H. run_inv H.
  rewrite surplus_cons. cbn [delta fatal]. enough (surplus fd t0 = 0) by lia.
  destruct args as [|a l]; [by eapply applet_surplus|]. case_bool_decide; [by run_inv H|by eapply applet_surplus].
Qed.

(** ** Concrete runs *)
Lemma family_of_reply_witness :
  family_of (replicate 20 0 ++
    enc_all [Leaf 2 [119; 103; 0]; Leaf CTRL_ATTR_FAMILY_ID (le_bytes 2 0x1f); Leaf 3 [1; 0; 0; 0]]) = Ok 0x1f.
Proof.
  apply (family_of_reply (replicate 20 0) [Leaf 2 [119; 103; 0]] [Leaf 3 [1; 0; 0; 0]]);
    [done|apply (bool_decide_unpack _); vm_compute; exact I..|lia].
Defined.

Definition demo_key : bytes := map Z.of_nat (seq 1 32).
Definition demo_peer : gmap str str :=
  {[ lit "public_key" := Util.b64_encode demo_key; lit "endpoint" := lit "192.0.2.7:51820";
     lit "allowed_ips" := lit "10.7.0.2/32, bad, 192.168.9.0/24"; lit "keepalive" := lit "25" ]}.
Definition demo_cfg : Config.Config :=
  Config.mk_config {[ lit "wireguard" := {[ lit "enabled" := lit "1";
      lit "private_key" := Util.b64_encode demo_key; lit "listen_port" := lit "port" ]};
    lit "peer2" := demo_peer; lit "peer10" := <[lit "keepalive" := lit "70000"]> demo_peer;
    lit "peerless" := ∅ ]}.

(** Sections in key order: [peer10] before [peer2]; the entry that is no address
    leaves its index unused, a keep-alive above 16 bits is dropped. *)
Example demo_peers :
  peer_nlas 0 (peers_of demo_cfg) =
    let addrs := Nest 9
      [Nest 0 [Leaf 1 [2; 0]; Leaf 2 [10; 7; 0; 2]; Leaf 3 [32]];
       Nest 2 [Leaf 1 [2; 0]; Leaf 2 [192; 168; 9; 0]; Leaf 3 [24]]] in
    let ep := Leaf 4 [2; 0; 202; 108; 192; 0; 2; 7; 0; 0; 0; 0; 0; 0; 0; 0] in
    [Nest 0 [Leaf 1 demo_key; ep; addrs]; Nest 1 [Leaf 1 demo_key; Leaf 5 [25; 0]; ep; addrs]].
Proof. vm_compute. reflexivity. Qed.

Definition demo_reply : bytes := replicate 20 0 ++ enc_all [Leaf CTRL_ATTR_FAMILY_ID (le_bytes 2 0x1f)].
Definition demo_ack : bytes := le_bytes 4 36 ++ le_bytes 2 NLMSG_ERROR ++ replicate 30 0.
Definition demo_device : bytes := device_message 0x1f (lit "wg0") demo_key 51820 demo_cfg.
Definition demo_trace : list (call ev) :=
  [Call (Socket (Netlink 0)) (Ok 3); Call (Bind 3 sockaddr_nl) (Ok tt);
   Call (SendTo 3 (link_message (lit "wg0")) sockaddr_nl) (Ok tt);
   Call (Recv 3 ACK_SIZE) (Err 11); Call (Close 3) tt;
   Call (Socket (Netlink 16)) (Ok 3); Call (Bind 3 sockaddr_nl) (Ok tt);
   Call (SendTo 3 (family_message (lit "wireguard")) sockaddr_nl) (Ok tt);
   Call (Recv 3 MSG_SIZE) (Ok demo_reply); Call (Close 3) tt;
   Call (Socket (Netlink 16)) (Ok 3); Call (Bind 3 sockaddr_nl) (Ok tt);
   Call (SendTo 3 demo_device sockaddr_nl) (Ok tt);
   Call (Recv 3 ACK_SIZE) (Ok demo_ack); Call (Close 3) tt;
   Call (Socket Inet) (Err 24)].

Lemma demo_tunnel_runs : runs (up demo_cfg) demo_trace 0.
Proof.
  unfold up.
  replace (bool_decide (Config.get_or demo_cfg (lit "wireguard") (lit "enabled") (lit "0") = lit "1"))
    with true by (vm_compute; reflexivity).
  replace (private_key demo_cfg) with (Some demo_key) by (vm_compute; reflexivity).
  replace (listen_port demo_cfg) with 51820 by (vm_compute; reflexivity).
  replace (address_tunnel (lit "wg0") demo_cfg) with (@Ret ev unit tt) by (vm_compute; reflexivity).
  unfold set_device, demo_trace. do 9 play_step. cbn [io_bind result_bind].
  replace (family_of (take MSG_SIZE demo_reply)) with (@Ok Z error 0x1f) by (vm_compute; reflexivity).
  do 3 play_step. cbn [io_bind]. unfold demo_device.
  generalize (device_message 0x1f (lit "wg0") demo_key 51820 demo_cfg). intros d. play.
Qed.

Lemma up_configures_witness :
  ∃ pre, omap sent demo_trace = pre ++
    [enc_msg (get_family (lit "wireguard"));
     enc_msg (device 0x1f (lit "wg0") demo_key 51820 (peers_of demo_cfg))].
Proof.
  destruct (up_configures demo_cfg demo_trace demo_tunnel_runs) as (pre & key & fam & reply & Hk & Hs & _ & Hr & Hf);
    [vm_compute; reflexivity|].
  assert (key = demo_key) as -> by (apply (inj Some); rewrite <- Hk; vm_compute; reflexivity).
  assert (Hp : listen_port demo_cfg = 51820) by (vm_compute; reflexivity).
  assert (fam = 0x1f) as ->.
  { clear - Hr Hf. assert (Hq : omap received demo_trace = [Err 11; Ok demo_reply; Ok demo_ack]) by (vm_compute; reflexivity).
    rewrite Hq in Hr. apply elem_of_cons in Hr as [[=]|Hr]. apply elem_of_cons in Hr as [[= ->]|Hr].
    - assert (family_of demo_reply = Ok 0x1f) as E by (vm_compute; reflexivity). rewrite E in Hf. by injection Hf.
    - apply list_elem_of_singleton in Hr. injection Hr as ->.
      assert (family_of demo_ack = Err (NotFound (lit "wg: kernel module not loaded?"))) as E by (vm_compute; reflexivity).
      rewrite E in Hf. discriminate Hf. }
  exists pre. rewrite Hp in Hs. exact Hs.
Defined.

(** The socket whose send fails is lost. *)
Lemma descriptors_accounted_witness :
  let t := [Call ReadConfig (Some (unlines [lit "[wireguard]"; lit "enabled=1"]));
    Call (Socket (Netlink 0)) (Ok 3); Call (Bind 3 sockaddr_nl) (Ok tt);
    Call (SendTo 3 (link_message (lit "wg0")) sockaddr_nl) (Err 105)] in
  balance 3 t = 1 ∧ balance 3 t = failed_on fatal 3 t.
Proof.
  split; [reflexivity|]. apply (descriptors_accounted [] _ 1). unfold run. apply runs_vis. cbv zeta beta iota.
  set (cfg := Config.load _). unfold up.
  replace (bool_decide (Config.get_or cfg (lit "wireguard") (lit "enabled") (lit "0") = lit "1"))
    with true by (vm_compute; reflexivity).
  replace (private_key cfg) with (@None bytes) by (vm_compute; reflexivity). cbv beta iota zeta delta [negb].
  unfold ensure_link. generalize (link_message (lit "wg0")). intros m. play.
Defined.

End Wg.
