(* ===== verification/Dhcp.v ===== *)
(** * DHCP (dhcp.rs)

    The packet codec shared by server and client, the address pool, the
    server's request handler as a function on the pool, and the client's two
    waiting loops over what the socket delivers.  The abstract view of the pool
    is an injective assignment of addresses of a range to hardware addresses
    ([pool_inv]). *)

From S2P Require Import Prelude Words RustStr Utf8 Num.
Open Scope Z_scope.

Module Dhcp.

(** ** Constants *)
Definition MAGIC : bytes := [99; 130; 83; 99].
Definition OP_REQUEST : Z := 1.
Definition OP_REPLY : Z := 2.
Definition OPT_SUBNET : Z := 1.
Definition OPT_ROUTER : Z := 3.
Definition OPT_DNS : Z := 6.
Definition OPT_LEASE : Z := 51.
Definition OPT_MSGTYPE : Z := 53.
Definition OPT_SERVERID : Z := 54.
Definition OPT_REQIP : Z := 50.
Definition OPT_END : Z := 255.
Definition DISCOVER : Z := 1.
Definition OFFER : Z := 2.
Definition REQUEST : Z := 3.
Definition ACK : Z := 5.
Definition NAK : Z := 6.

(** ** Packets *)
Record Packet := mkPacket {
  op : Z; xid : bytes; chaddr : bytes; yiaddr : Z; msg_type : Z;
  req_ip : option Z; hostname : option str
}.

(** The walker over the bytes from offset 240 on. *)
Fixpoint options_from (fuel : nat) (l : bytes) : list (Z * bytes) :=
  match fuel, l with
  | O, _ | _, [] => []
  | S fuel, code :: l =>
      if code =? OPT_END then []
      else if code =? 0 then options_from fuel l
      else match l with
           | [] => []
           | n :: l => (code, take (Z.to_nat n) l) :: options_from fuel (drop (Z.to_nat n) l)
           end
  end.
Definition options (buf : bytes) : list (Z * bytes) := options_from (length buf) (drop 240 buf).

Definition ipv4 (val : bytes) : option Z :=
  if (4 <=? length val)%nat then Some (Ipv4.of_octets (take 4 val)) else None.

Definition parse_option (p : Packet) (o : Z * bytes) : Packet :=
  let '(code, val) := o in
  if code =? OPT_MSGTYPE then
    mkPacket (op p) (xid p) (chaddr p) (yiaddr p) (default 0 (head val)) (req_ip p) (hostname p)
  else if code =? OPT_REQIP then
    mkPacket (op p) (xid p) (chaddr p) (yiaddr p) (msg_type p) (ipv4 val) (hostname p)
  else if code =? 12 then
    mkPacket (op p) (xid p) (chaddr p) (yiaddr p) (msg_type p) (req_ip p) (Utf8.from_utf8 val)
  else p.

Definition parse (buf : bytes) : option Packet :=
  if (length buf <? 240)%nat || negb (bool_decide (slice buf 236 240 = MAGIC)) then None
  else
    let p := mkPacket (byte_at buf 0) (slice buf 4 8) (slice buf 28 34)
               (Ipv4.new (byte_at buf 16) (byte_at buf 17) (byte_at buf 18) (byte_at buf 19))
               0 None None in
    Some (foldl parse_option p (options buf)).

(** The [opt] closure of [build_reply]. *)
Definition opt (code : Z) (val : bytes) (b : bytes) : bytes :=
  b ++ [code; u8 (Z.of_nat (length val))] ++ val.

Definition build_reply (req : Packet) (msg_type yiaddr server mask dns lease : Z) : bytes :=
  let b := replicate 240 0 in
  let b := <[0%nat := OP_REPLY]> b in
  let b := <[1%nat := 1]> b in
  let b := <[2%nat := 6]> b in
  let b := splice b 4 (xid req) in
  let b := splice b 16 (Ipv4.octets yiaddr) in
  let b := splice b 20 (Ipv4.octets server) in
  let b := splice b 28 (chaddr req) in
  let b := splice b 236 MAGIC in
  let b := opt OPT_MSGTYPE [msg_type] b in
  let b := opt OPT_SERVERID (Ipv4.octets server) b in
  let b := opt OPT_LEASE (be_bytes 4 lease) b in
  let b := opt OPT_SUBNET (Ipv4.octets mask) b in
  let b := opt OPT_ROUTER (Ipv4.octets server) b in
  let b := opt OPT_DNS (Ipv4.octets dns) b in
  b ++ [OPT_END].

Definition build_client (xid mac : bytes) (msg_type : Z) (req_ip server : option Z) : bytes :=
  let b := replicate 240 0 in
  let b := <[0%nat := OP_REQUEST]> b in
  let b := <[1%nat := 1]> b in
  let b := <[2%nat := 6]> b in
  let b := splice b 4 xid in
  let b := <[10%nat := 0x80]> b in
  let b := splice b 28 mac in
  let b := splice b 236 MAGIC in
  let b := b ++ [OPT_MSGTYPE; 1; msg_type] in
  let b := match req_ip with Some ip => b ++ [OPT_REQIP; 4] ++ Ipv4.octets ip | None => b end in
  let b := match server with Some s => b ++ [OPT_SERVERID; 4] ++ Ipv4.octets s | None => b end in
  b ++ [55; 3] ++ [OPT_SUBNET; OPT_ROUTER; OPT_DNS] ++ [OPT_END].

(** State of the option loop of [parse_ack]: seen an ACK, mask, router, DNS. *)
Definition ack_option (s : bool * Z * option Z * option Z) (o : Z * bytes) : bool * Z * option Z * option Z :=
  let '(is_ack, mask, gw, dns) := s in
  let '(code, val) := o in
  if (code =? OPT_MSGTYPE) && bool_decide (head val = Some ACK) then (true, mask, gw, dns)
  else if code =? OPT_SUBNET then (is_ack, default mask (ipv4 val), gw, dns)
  else if code =? OPT_ROUTER then
    (is_ack, mask, match ipv4 val with Some a => Some a | None => gw end, dns)
  else if code =? OPT_DNS then
    (is_ack, mask, gw, match ipv4 val with Some a => Some a | None => dns end)
  else s.

Definition parse_ack (buf xid : bytes) : option (Z * option Z * option Z) :=
  if (length buf <? 240)%nat || negb (bool_decide (slice buf 236 240 = MAGIC))
     || negb (bool_decide (slice buf 4 8 = xid)) || negb (byte_at buf 0 =? OP_REPLY) then None
  else
    let '(is_ack, mask, gw, dns) :=
      foldl ack_option (false, Ipv4.new 255 255 255 0, None, None) (options buf) in
    if is_ack then Some (mask, gw, dns) else None.

(** ** The address pool *)
Record Pool := mkPool {
  start : Z; count : Z; mask : Z; server : Z; lease : Z;
  by_mac : gmap bytes Z;
  used : gset Z;
  names : gmap Z str
}.

Definition assign (p : Pool) (mac : bytes) (v : Z) : Pool :=
  mkPool (start p) (count p) (mask p) (server p) (lease p)
    (<[mac := v]> (by_mac p)) ({[v]} ∪ used p) (names p).

(** The [for off in 0..self.count] loop, from [off] with [n] rounds left. *)
Fixpoint first_free (n : nat) (off : Z) (p : Pool) : option Z :=
  match n with
  | O => None
  | S n =>
      let v := u32 (start p + off) in
      if bool_decide (v ∈ used p) then first_free n (off + 1) p else Some v
  end.

Definition requested_free (p : Pool) (v : Z) : bool :=
  (start p <=? v) && (v <? u32 (start p + count p)) && bool_decide (v ∉ used p).

Definition lease_for (p : Pool) (mac : bytes) (requested : option Z) : option Z * Pool :=
  match by_mac p !! mac with
  | Some ip => (Some ip, p)
  | None =>
      let scan :=
        match first_free (Z.to_nat (count p)) 0 p with
        | Some v => (Some v, assign p mac v)
        | None => (None, p)
        end in
      match requested with
      | Some v => if requested_free p v then (Some v, assign p mac v) else scan
      | None => scan
      end
  end.

Definition add_name (p : Pool) (ip : Z) (h : option str) : Pool :=
  match h with
  | None => p
  | Some h => mkPool (start p) (count p) (mask p) (server p) (lease p) (by_mac p) (used p)
                (<[ip := h]> (names p))
  end.

(** Iteration order of a [BTreeMap<[u8; 6], _>]. *)
Fixpoint lex_le (a b : bytes) : bool :=
  match a, b with
  | [], _ => true
  | _ :: _, [] => false
  | x :: a, y :: b => (x <? y) || ((x =? y) && lex_le a b)
  end.

Definition mac_order (a b : bytes * Z) : Prop := lex_le a.1 b.1 = true.
#[global] Instance mac_order_dec : RelDecision mac_order.
Proof. intros a b. unfold mac_order. apply _. Defined.

Definition mac_show (mac : bytes) : str := join (lit ":") (map hex2 mac).

(** The text [persist] writes to the lease file. *)
Definition lease_line (now : Z) (p : Pool) (e : bytes * Z) : str :=
  let '(mac, ip) := e in
  dec (u64 (now + lease p)) ++ lit " " ++ mac_show mac ++ lit " " ++ Ipv4.show ip ++ lit " "
    ++ default (lit "*") (names p !! ip) ++ [LF].
Definition persist_text (now : Z) (p : Pool) : str :=
  concat (map (lease_line now p)
    (merge_sort mac_order (map_to_list (by_mac p)))).

(** ** The server's handler: the body of its receive loop *)
Inductive effect : Type :=
| Send (reply : bytes)       (* broadcast to port 68 *)
| Persist (text : str).      (* rewrite LEASES_PATH *)

Definition reply_to (p : Pool) (req : Packet) (ty ip lease : Z) : bytes :=
  build_reply req ty ip (server p) (mask p) (server p) lease.

Definition handle (now : Z) (p : Pool) (buf : bytes) : Pool * list effect :=
  match parse buf with
  | Some req =>
      if op req =? OP_REQUEST then
        if msg_type req =? DISCOVER then
          match lease_for p (chaddr req) (req_ip req) with
          | (Some ip, p) =>
              let p := add_name p ip (hostname req) in
              (p, [Send (reply_to p req OFFER ip (lease p))])
          | (None, p) => (p, [])
          end
        else if msg_type req =? REQUEST then
          let granted :=
            match by_mac p !! chaddr req with
            | Some v => (Some v, p)
            | None => lease_for p (chaddr req) (req_ip req)
            end in
          match granted with
          | (Some ip, p) =>
              let p := add_name p ip (hostname req) in
              (p, [Send (reply_to p req ACK ip (lease p)); Persist (persist_text now p)])
          | (None, p) => (p, [Send (reply_to p req NAK Ipv4.UNSPECIFIED 0)])
          end
        else (p, [])
      else (p, [])
  | None => (p, [])
  end.

(** Datagrams handled one after the other, each with the time it arrives. *)
Fixpoint serve (p : Pool) (inputs : list (Z * bytes)) : Pool * list effect :=
  match inputs with
  | [] => (p, [])
  | (now, buf) :: inputs =>
      let '(p, out) := handle now p buf in
      let '(p, rest) := serve p inputs in (p, out ++ rest)
  end.

Definition new_pool (start count mask server lease : Z) : Pool :=
  mkPool start count mask server lease ∅ ∅ ∅.

(** ** The client's waiting loops.  [recvs] is what the socket delivers: a
    datagram, or [None] for a receive timeout. *)
Inductive wait (A : Type) : Type :=
| Got (a : A) (rest : list (option bytes))
| TimedOut
| Blocked.
Arguments Got {A} a rest.
Arguments TimedOut {A}.
Arguments Blocked {A}.

Fixpoint await_offer (id : bytes) (recvs : list (option bytes)) : wait Packet :=
  match recvs with
  | [] => Blocked
  | None :: _ => TimedOut
  | Some buf :: recvs =>
      match parse buf with
      | Some p =>
          if (op p =? OP_REPLY) && (msg_type p =? OFFER) && bool_decide (xid p = id)
          then Got p recvs else await_offer id recvs
      | None => await_offer id recvs
      end
  end.

Fixpoint await_ack (id : bytes) (recvs : list (option bytes)) : wait (Z * option Z * option Z) :=
  match recvs with
  | [] => Blocked
  | None :: _ => TimedOut
  | Some buf :: recvs =>
      match parse_ack buf id with
      | Some r => Got r recvs
      | None => await_ack id recvs
      end
  end.

Inductive client_result : Type :=
| NoOffer | NoAck | Waiting
| Bound (addr mask : Z) (gw dns : option Z).

(** The exchange of [client]: the packets sent and the outcome. *)
Definition client_exchange (id mac : bytes) (recvs : list (option bytes)) : list bytes * client_result :=
  let disc := build_client id mac DISCOVER None None in
  match await_offer id recvs with
  | TimedOut => ([disc], NoOffer)
  | Blocked => ([disc], Waiting)
  | Got offer recvs =>
      let req := build_client id mac REQUEST (Some (yiaddr offer)) (Some (yiaddr offer)) in
      match await_ack id recvs with
      | TimedOut => ([disc; req], NoAck)
      | Blocked => ([disc; req], Waiting)
      | Got (mask, gw, dns) _ => ([disc; req], Bound (yiaddr offer) mask gw dns)
      end
  end.

(** * Lemmas *)

(** ** The codec *)
Lemma length4 {A} (l : list A) : length l = 4%nat → ∃ a b c d, l = [a; b; c; d].
Proof. destruct l as [|a [|b [|c [|d [|e l]]]]]; try discriminate. by exists a, b, c, d. Qed.
Lemma length6 {A} (l : list A) : length l = 6%nat → ∃ a b c d e f, l = [a; b; c; d; e; f].
Proof.
  destruct l as [|a [|b [|c [|d [|e [|f [|g l]]]]]]]; try discriminate.
  by exists a, b, c, d, e, f.
Qed.

(** The fixed part of a packet: the header is read back whatever the options. *)
Lemma octets_explicit ip : ∃ a b c d, Ipv4.octets ip = [a; b; c; d] ∧ bytes_ok [a; b; c; d].
Proof.
  pose proof (Ipv4.octets_ok ip) as H. pose proof (length_be_bytes 4 ip) as Hl.
  unfold Ipv4.octets in *. destruct (be_bytes 4 ip) as [|a [|b [|c [|d [|e l]]]]]; try done.
  by exists a, b, c, d.
Qed.

Lemma ipv4_octets ip : Ipv4.ip_ok ip → ipv4 (Ipv4.octets ip) = Some ip.
Proof.
  intros H. unfold ipv4. rewrite take_ge, (Ipv4.of_octets_octets ip H) by
    (unfold Ipv4.octets; rewrite length_be_bytes; lia).
  unfold Ipv4.octets. by rewrite length_be_bytes.
Qed.

(** One well-formed option is read and the walk goes on after it. *)
Lemma options_tlv fuel code val l :
  code ≠ OPT_END → code ≠ 0 → (length val < 256)%nat →
  options_from (S fuel) (code :: Z.of_nat (length val) :: val ++ l) = (code, val) :: options_from fuel l.
Proof.
  intros He Hz Hl. cbn [options_from].
  destruct (Z.eqb_spec code OPT_END); [done|]. destruct (Z.eqb_spec code 0); [done|].
  by rewrite Nat2Z.id, take_app_length, drop_app_length.
Qed.

Lemma opt_app code val b l :
  (length val < 256)%nat → opt code val b ++ l = b ++ code :: Z.of_nat (length val) :: val ++ l.
Proof.
  intros H. unfold opt, u8. rewrite wrap_small by (unfold in_u; lia).
  by rewrite <- !app_assoc.
Qed.

Record request_ok (r : Packet) : Prop := {
  ro_xid : length (xid r) = 4%nat;
  ro_chaddr : length (chaddr r) = 6%nat
}.

(** The 240-byte header of a reply. *)
Definition reply_header (id ch : bytes) (yi sv : Z) : bytes :=
  [OP_REPLY; 1; 6; 0] ++ id ++ replicate 8 0 ++ Ipv4.octets yi ++ Ipv4.octets sv ++
  replicate 4 0 ++ ch ++ replicate 202 0 ++ MAGIC.
Definition reply_options (ty sv mk dn ls : Z) : list (Z * bytes) :=
  [(OPT_MSGTYPE, [ty]); (OPT_SERVERID, Ipv4.octets sv); (OPT_LEASE, be_bytes 4 ls);
   (OPT_SUBNET, Ipv4.octets mk); (OPT_ROUTER, Ipv4.octets sv); (OPT_DNS, Ipv4.octets dn)].
Definition tlvs (l : list (Z * bytes)) : bytes :=
  concat (map (λ '(c, v), c :: Z.of_nat (length v) :: v) l) ++ [OPT_END].

Lemma build_reply_shape req ty yi sv mk dn ls :
  request_ok req →
  build_reply req ty yi sv mk dn ls
  = reply_header (xid req) (chaddr req) yi sv ++ tlvs (reply_options ty sv mk dn ls).
Proof.
  intros [Hx Hc]. destruct req as [o x c y m ri h]. cbn [xid chaddr] in *.
  destruct (length4 _ Hx) as (x1 & x2 & x3 & x4 & ->).
  destruct (length6 _ Hc) as (c1 & c2 & c3 & c4 & c5 & c6 & ->).
  unfold build_reply, reply_header, reply_options, tlvs. cbn [xid chaddr].
  destruct (octets_explicit yi) as (y1 & y2 & y3 & y4 & -> & _).
  destruct (octets_explicit sv) as (s1 & s2 & s3 & s4 & -> & _).
  destruct (octets_explicit mk) as (m1 & m2 & m3 & m4 & -> & _).
  destruct (octets_explicit dn) as (d1 & d2 & d3 & d4 & -> & _).
  change (be_bytes 4 ls) with (Ipv4.octets ls).
  destruct (octets_explicit ls) as (l1 & l2 & l3 & l4 & -> & _).
  reflexivity.
Qed.

Lemma options_of_tlvs opts hdr :
  length hdr = 240%nat →
  Forall (λ '(c, v), c ≠ OPT_END ∧ c ≠ 0 ∧ (length v < 256)%nat) opts →
  options (hdr ++ tlvs opts) = opts.
Proof.
  intros Hh Ho. unfold options. rewrite drop_app_length' by done. rewrite length_app, Hh.
  assert (∀ fuel, (length opts < fuel)%nat → options_from fuel (tlvs opts) = opts) as Hg.
  { induction Ho as [|[c v] l (? & ? & ?) _ IH]; intros fuel Hf.
    - by destruct fuel.
    - destruct fuel as [|fuel]; [simpl in Hf; lia|]. unfold tlvs in *. cbn [map concat].
      cbn [app]. rewrite <- app_assoc, options_tlv by done.
      f_equal. apply IH. simpl in Hf. lia. }
  apply Hg. unfold tlvs. rewrite length_app.
  assert (length opts <= length (concat (map (λ '(c, v), c :: Z.of_nat (length v) :: v) opts)))%nat; [|lia].
  clear. induction opts as [|[c v] l IH]; simpl; [lia|]. rewrite length_app. lia.
Qed.

Lemma reply_options_ok ty sv mk dn ls :
  Forall (λ '(c, v), c ≠ OPT_END ∧ c ≠ 0 ∧ (length v < 256)%nat) (reply_options ty sv mk dn ls).
Proof.
  unfold reply_options, Ipv4.octets. repeat constructor; rewrite ?length_be_bytes; done || (simpl; lia).
Qed.
Definition client_header (id mac : bytes) : bytes :=
  [OP_REQUEST; 1; 6; 0] ++ id ++ [0; 0; 0x80; 0; 0; 0; 0; 0] ++ replicate 12 0 ++ mac ++
  replicate 202 0 ++ MAGIC.
Definition client_options (ty : Z) (ri sv : option Z) : list (Z * bytes) :=
  [(OPT_MSGTYPE, [ty])] ++ match ri with Some ip => [(OPT_REQIP, Ipv4.octets ip)] | None => [] end
  ++ match sv with Some s => [(OPT_SERVERID, Ipv4.octets s)] | None => [] end
  ++ [(55, [OPT_SUBNET; OPT_ROUTER; OPT_DNS])].

Lemma build_client_shape id mac ty ri sv :
  length id = 4%nat → length mac = 6%nat →
  build_client id mac ty ri sv = client_header id mac ++ tlvs (client_options ty ri sv).
Proof.
  intros Hx Hc. destruct (length4 _ Hx) as (x1 & x2 & x3 & x4 & ->).
  destruct (length6 _ Hc) as (c1 & c2 & c3 & c4 & c5 & c6 & ->).
  destruct ri as [ri|], sv as [sv|];
    unfold build_client, client_header, client_options, tlvs;
    try (destruct (octets_explicit ri) as (y1 & y2 & y3 & y4 & -> & _));
    try (destruct (octets_explicit sv) as (s1 & s2 & s3 & s4 & -> & _)); reflexivity.
Qed.

Lemma client_options_ok ty ri sv :
  Forall (λ '(c, v), c ≠ OPT_END ∧ c ≠ 0 ∧ (length v < 256)%nat) (client_options ty ri sv).
Proof.
  unfold client_options, Ipv4.octets. destruct ri, sv; simpl;
    repeat constructor; rewrite ?length_be_bytes; done || (simpl; lia).
Qed.

Lemma parse_client id mac ty ri sv :
  length id = 4%nat → length mac = 6%nat →
  parse (build_client id mac ty ri sv)
  = Some (mkPacket OP_REQUEST id mac 0 ty (ri ≫= λ ip, ipv4 (Ipv4.octets ip)) None).
Proof.
  intros Hx Hc. rewrite build_client_shape by done.
  assert (Hl : length (client_header id mac) = 240%nat).
  { unfold client_header. rewrite !length_app, !length_replicate. simpl. lia. }
  unfold parse. rewrite options_of_tlvs by (done || apply client_options_ok).
  rewrite length_app, Hl. simpl Nat.ltb.
  destruct (length4 _ Hx) as (x1 & x2 & x3 & x4 & ->).
  destruct (length6 _ Hc) as (c1 & c2 & c3 & c4 & c5 & c6 & ->).
  unfold client_options. destruct ri as [ri|], sv as [sv|]; reflexivity.
Qed.

Lemma parse_reply req ty yi sv mk dn ls :
  request_ok req → Ipv4.ip_ok yi →
  parse (build_reply req ty yi sv mk dn ls)
  = Some (mkPacket OP_REPLY (xid req) (chaddr req) yi ty None None).
Proof.
  intros Hr Hy. rewrite build_reply_shape by done.
  destruct req as [o x c y m ri h], Hr as [Hx Hc]. cbn [xid chaddr] in *.
  assert (Hl : length (reply_header x c yi sv) = 240%nat).
  { unfold reply_header, Ipv4.octets. rewrite !length_app, !length_replicate, !length_be_bytes. simpl. lia. }
  unfold parse. rewrite options_of_tlvs by (done || apply reply_options_ok).
  rewrite length_app, Hl. simpl Nat.ltb.
  destruct (length4 _ Hx) as (x1 & x2 & x3 & x4 & ->).
  destruct (length6 _ Hc) as (c1 & c2 & c3 & c4 & c5 & c6 & ->).
  unfold reply_header. pose proof (Ipv4.of_octets_octets yi Hy) as E.
  destruct (octets_explicit yi) as (y1 & y2 & y3 & y4 & Ey & _). rewrite Ey in *.
  destruct (octets_explicit sv) as (s1 & s2 & s3 & s4 & -> & _).
  rewrite <- E. reflexivity.
Qed.

Lemma parse_ack_reply req yi sv mk dn ls :
  request_ok req → Ipv4.ip_ok sv → Ipv4.ip_ok mk → Ipv4.ip_ok dn →
  parse_ack (build_reply req ACK yi sv mk dn ls) (xid req) = Some (mk, Some sv, Some dn).
Proof.
  intros Hr Hs Hm Hd. rewrite build_reply_shape by done.
  destruct req as [o x c y m ri h], Hr as [Hx Hc]. cbn [xid chaddr] in *.
  assert (Hl : length (reply_header x c yi sv) = 240%nat).
  { unfold reply_header, Ipv4.octets. rewrite !length_app, !length_replicate, !length_be_bytes. simpl. lia. }
  unfold parse_ack. rewrite options_of_tlvs by (done || apply reply_options_ok).
  rewrite length_app, Hl. simpl Nat.ltb.
  destruct (length4 _ Hx) as (x1 & x2 & x3 & x4 & ->).
  destruct (length6 _ Hc) as (c1 & c2 & c3 & c4 & c5 & c6 & ->).
  assert (∀ a b, foldl ack_option (false, a, b, None) (reply_options ACK sv mk dn ls)
    = (true, default a (ipv4 (Ipv4.octets mk)),
       match ipv4 (Ipv4.octets sv) with Some a => Some a | None => b end,
       match ipv4 (Ipv4.octets dn) with Some a => Some a | None => None end)) as -> by done.
  rewrite !ipv4_octets by done. unfold reply_header.
  destruct (octets_explicit yi) as (y1 & y2 & y3 & y4 & -> & _).
  destruct (octets_explicit sv) as (s1 & s2 & s3 & s4 & -> & _).
  assert (Hg : ∀ k, slice ([OP_REPLY; 1; 6; 0] ++ [x1; x2; x3; x4] ++ k) 4 8 = [x1; x2; x3; x4]) by done.
  rewrite <- !app_assoc, Hg. rewrite !bool_decide_eq_true_2 by done. reflexivity.
Qed.

(** ** The pool *)
Lemma first_free_Some n p : ∀ off v, first_free n off p = Some v →
  v ∉ used p ∧ ∃ i, off <= i < off + Z.of_nat n ∧ v = u32 (start p + i).
Proof.
  induction n as [|n IH]; intros off v; [done|]. cbn [first_free]. case_bool_decide as Hin.
  - intros H. apply IH in H as (? & i & ? & ?). split; [done|]. exists i. split; [lia|done].
  - intros [= <-]. split; [done|]. exists off. split; [lia|done].
Qed.

Lemma first_free_None n p : ∀ off, first_free n off p = None →
  ∀ i, off <= i < off + Z.of_nat n → u32 (start p + i) ∈ used p.
Proof.
  induction n as [|n IH]; intros off; [intros _ i ?; lia|]. cbn [first_free]. case_bool_decide as Hin; [|done].
  intros H i Hi. destruct (Z.eq_dec i off) as [->|]; [done|]. apply (IH (off + 1)); [done|lia].
Qed.

(** The addresses of the pool: the [count] numbers from [start], on 32 bits. *)
Definition in_pool (p : Pool) (v : Z) : Prop := ∃ i, 0 <= i < count p ∧ v = u32 (start p + i).

Record pool_inv (p : Pool) : Prop := {
  pi_start : in_u 32 (start p);
  pi_count : in_u 32 (count p);
  pi_used : ∀ v, v ∈ used p ↔ ∃ mac, by_mac p !! mac = Some v;
  pi_inj : ∀ m1 m2 v, by_mac p !! m1 = Some v → by_mac p !! m2 = Some v → m1 = m2;
  pi_range : ∀ mac v, by_mac p !! mac = Some v → in_pool p v
}.

(** The parts of a pool no request changes. *)
Definition same_config (p q : Pool) : Prop :=
  start q = start p ∧ count q = count p ∧ mask q = mask p ∧ server q = server p ∧ lease q = lease p.

Lemma in_pool_ip_ok p v : in_pool p v → Ipv4.ip_ok v.
Proof. intros (i & _ & ->). apply (wrap_bound 32). lia. Qed.

Lemma new_pool_inv s c m sv l : in_u 32 s → in_u 32 c → pool_inv (new_pool s c m sv l).
Proof.
  intros Hs Hc. split; cbn [new_pool start count used by_mac]; [exact Hs|exact Hc|..].
  - intros v. split; [set_solver|]. intros [mac H]. by rewrite lookup_empty in H.
  - intros m1 m2 v H. by rewrite lookup_empty in H.
  - intros mac v H. by rewrite lookup_empty in H.
Qed.

Lemma assign_inv p mac v :
  pool_inv p → by_mac p !! mac = None → v ∉ used p → in_pool p v → pool_inv (assign p mac v).
Proof.
  intros [Hs Hc Hu Hi Hr] Hm Hv Hp. split; cbn [assign start count used by_mac]; [exact Hs|exact Hc|..].
  - intros w. rewrite elem_of_union, elem_of_singleton, Hu. split.
    + intros [->|[m Hw]]; [exists mac; by rewrite lookup_insert_eq|].
      exists m. rewrite lookup_insert_ne; [done|]. intros ->. congruence.
    + intros [m Hw]. destruct (decide (mac = m)) as [->|Hne].
      * rewrite lookup_insert_eq in Hw. injection Hw as ->. by left.
      * rewrite lookup_insert_ne in Hw by done. right. by exists m.
  - intros m1 m2 w H1 H2. rewrite lookup_insert_Some in H1, H2.
    destruct H1 as [[<- <-]|[Hn1 H1]], H2 as [[<- E]|[Hn2 H2]]; try done.
    + exfalso. apply Hv, Hu. by exists m2.
    + subst w. exfalso. apply Hv, Hu. by exists m1.
    + by eapply Hi.
  - intros m w Hw. rewrite lookup_insert_Some in Hw. destruct Hw as [[_ <-]|[_ Hw]]; [done|].
    by eapply Hr.
Qed.

Lemma requested_in_pool p v :
  in_u 32 (start p) → in_u 32 (count p) → requested_free p v = true → v ∉ used p ∧ in_pool p v.
Proof.
  unfold requested_free, in_u. intros Hs Hc H.
  apply andb_prop in H as [H Hu]. apply andb_prop in H as [H1%Z.leb_le H2%Z.ltb_lt].
  apply bool_decide_eq_true in Hu. split; [done|]. revert H2. unfold u32, wrap.
  destruct (Z.lt_ge_cases (start p + count p) (2 ^ 32)).
  - rewrite Z.mod_small by lia. intros H2. exists (v - start p). split; [lia|].
    unfold u32, wrap. rewrite Z.mod_small; lia.
  - replace (start p + count p) with (start p + count p - 2 ^ 32 + 1 * 2 ^ 32) by lia.
    rewrite Z.mod_add, Z.mod_small by lia. lia.
Qed.

(** What [lease_for] does, on each of its branches. *)
Lemma lease_for_spec p mac r o p' :
  pool_inv p → lease_for p mac r = (o, p') →
  pool_inv p' ∧ same_config p p' ∧ names p' = names p ∧
  match o with
  | Some v => by_mac p' !! mac = Some v ∧ in_pool p v ∧
              (by_mac p !! mac = Some v ∧ p' = p ∨ by_mac p !! mac = None ∧ p' = assign p mac v)
  | None => p' = p ∧ by_mac p !! mac = None ∧ ∀ v, in_pool p v → v ∈ used p
  end.
Proof.
  intros Hp. pose proof Hp as [Hs Hc Hu Hi Hr]. unfold lease_for.
  destruct (by_mac p !! mac) as [v|] eqn:Em.
  { intros [= <- <-]. split; [done|]. repeat split; eauto. }
  assert (Hassign : ∀ v, v ∉ used p → in_pool p v →
    pool_inv (assign p mac v) ∧ same_config p (assign p mac v) ∧ names (assign p mac v) = names p ∧
    by_mac (assign p mac v) !! mac = Some v ∧ in_pool p v ∧
    (None = Some v ∧ assign p mac v = p ∨ None = None (A := Z) ∧ assign p mac v = assign p mac v)).
  { intros v Hv Hin. split; [by apply assign_inv|]. repeat split; try done.
    - cbn [assign by_mac]. by rewrite lookup_insert_eq.
    - by right. }
  assert (Hscan : ∀ o p', match first_free (Z.to_nat (count p)) 0 p with
      | Some v => (Some v, assign p mac v) | None => (None, p) end = (o, p') → pool_inv p' ∧ same_config p p' ∧ names p' = names p ∧
    match o with
    | Some v => by_mac p' !! mac = Some v ∧ in_pool p v ∧
                (None = Some v ∧ p' = p ∨ None = None (A := Z) ∧ p' = assign p mac v)
    | None => p' = p ∧ None = None (A := Z) ∧ ∀ v, in_pool p v → v ∈ used p
    end).
  { intros o' q. unfold in_u in Hc. destruct (first_free _ 0 p) as [v|] eqn:Ef; intros [= <- <-].
    - apply first_free_Some in Ef as (Hv & i & Hi' & ->). apply Hassign; [done|].
      exists i. split; [lia|done].
    - split; [done|]. repeat split; try done. intros v (i & Hi' & ->).
      eapply first_free_None; [exact Ef|lia]. }
  destruct r as [v|]; [|apply Hscan].
  destruct (requested_free p v) eqn:Er; [|apply Hscan].
  intros [= <- <-]. apply requested_in_pool in Er as [? ?]; [|done..]. by apply Hassign.
Qed.

(** ** The handler *)
Lemma parse_request_ok buf r : parse buf = Some r → request_ok r.
Proof.
  unfold parse. destruct (Nat.ltb_spec (length buf) 240) as [|Hl]; [done|]. simpl.
  case_match; [done|]. intros [= <-].
  set (p0 := mkPacket _ _ _ _ _ _ _).
  assert (H0 : request_ok p0) by (split; [apply (length_slice buf 4 8)|apply (length_slice buf 28 34)]; lia).
  clearbody p0. generalize dependent p0.
  induction (options buf) as [|[c v] l IH]; intros p0 H0; [done|]. simpl. apply IH.
  destruct H0. unfold parse_option. repeat case_match; by split.
Qed.

(** A pool later in time: same configuration, leases kept. *)
Record later (p q : Pool) : Prop := {
  la_inv : pool_inv q;
  la_config : same_config p q;
  la_keep : ∀ m v, by_mac p !! m = Some v → by_mac q !! m = Some v
}.

Lemma later_refl p : pool_inv p → later p p.
Proof. by split. Qed.
Lemma later_trans p q r : later p q → later q r → later p r.
Proof.
  intros [H1 H2 H3] [H4 H5 H6]. split; [done| |eauto].
  unfold same_config in *. destruct_and!. repeat split; congruence.
Qed.

Lemma lease_for_later p mac r o p' : pool_inv p → lease_for p mac r = (o, p') → later p p'.
Proof.
  intros Hp E. destruct (lease_for_spec _ _ _ _ _ Hp E) as (Hi & Hc & _ & Ho). split; [done..|].
  intros m v Hm. destruct o as [w|].
  - destruct Ho as (_ & _ & [[_ ->]|[Hn ->]]); [done|]. cbn [assign by_mac].
    rewrite lookup_insert_ne; [done|]. congruence.
  - by destruct Ho as (-> & _).
Qed.

Lemma add_name_later p q ip h : later p q → later p (add_name q ip h).
Proof.
  intros [[Hs Hc Hu Hi Hr] Hcf Hk]. destruct h as [h|]; [|by split].
  split; [by split|done|done].
Qed.

(** What one datagram does: nothing, a lease in the state and in the reply, or
    a refusal because every address of the pool is taken. *)
Inductive handled (p : Pool) (buf : bytes) : Pool → list effect → Prop :=
| H_ignored : handled p buf p []
| H_granted req ty v q out :
    parse buf = Some req → (ty = OFFER ∨ ty = ACK) → later p q →
    by_mac q !! chaddr req = Some v → in_pool p v →
    Forall (λ e, ∃ t, e = Persist t) out →
    handled p buf q (Send (reply_to q req ty v (lease q)) :: out)
| H_refused req out :
    parse buf = Some req → by_mac p !! chaddr req = None →
    (∀ v, in_pool p v → v ∈ used p) →
    (out = [] ∨ out = [Send (reply_to p req NAK 0 0)]) →
    handled p buf p out.

Lemma add_name_by_mac p ip h : by_mac (add_name p ip h) = by_mac p.
Proof. by destruct h. Qed.

Lemma handle_handled now p buf q out :
  pool_inv p → handle now p buf = (q, out) → handled p buf q out.
Proof.
  intros Hp. unfold handle. destruct (parse buf) as [req|] eqn:E; [|intros [= <- <-]; constructor].
  destruct (op req =? OP_REQUEST); [|intros [= <- <-]; constructor].
  destruct (msg_type req =? DISCOVER).
  { destruct (lease_for p (chaddr req) (req_ip req)) as [[v|] p'] eqn:El; intros [= <- <-];
      pose proof (lease_for_later _ _ _ _ _ Hp El) as Hl;
      apply lease_for_spec in El as (_ & _ & _ & Ho); [|exact Hp| |exact Hp].
    - destruct Ho as (Hm & Hin & _).
      apply (H_granted _ _ req OFFER v); rewrite ?add_name_by_mac; auto using add_name_later.
    - destruct Ho as (-> & Hn & Hall). by apply (H_refused _ _ req); [..|left]. }
  destruct (msg_type req =? REQUEST); [|intros [= <- <-]; constructor].
  destruct (by_mac p !! chaddr req) as [v|] eqn:Em.
  { intros [= <- <-]. apply (H_granted _ _ req ACK v); rewrite ?add_name_by_mac; auto.
    - by apply add_name_later, later_refl.
    - by eapply pi_range.
    - repeat constructor. by eexists. }
  destruct (lease_for p (chaddr req) (req_ip req)) as [[v|] p'] eqn:El; intros [= <- <-];
    pose proof (lease_for_later _ _ _ _ _ Hp El) as Hl;
    apply lease_for_spec in El as (_ & _ & _ & Ho); [|exact Hp| |exact Hp].
  - destruct Ho as (Hm & Hin & _).
    apply (H_granted _ _ req ACK v); rewrite ?add_name_by_mac; auto using add_name_later.
    repeat constructor. by eexists.
  - destruct Ho as (-> & Hn & Hall). by apply (H_refused _ _ req); [..|right].
Qed.

Lemma handled_later p buf q out : pool_inv p → handled p buf q out → later p q.
Proof. intros Hp []; auto using later_refl. Qed.

(** A reply that gives address [v] to hardware address [m], as the client's
    parser reads it. *)
Definition grants (out : list effect) (m : bytes) (v : Z) : Prop :=
  ∃ reply pk, Send reply ∈ out ∧ parse reply = Some pk ∧ chaddr pk = m ∧ yiaddr pk = v ∧
    (msg_type pk = OFFER ∨ msg_type pk = ACK).

Lemma grants_reply p req ty v l out :
  request_ok req → Ipv4.ip_ok v → ty = OFFER ∨ ty = ACK →
  grants (Send (reply_to p req ty v l) :: out) (chaddr req) v.
Proof.
  intros Hr Hv Hty. exists (reply_to p req ty v l), (mkPacket OP_REPLY (xid req) (chaddr req) v ty None None).
  split; [apply elem_of_cons; by left|]. split; [unfold reply_to; by apply parse_reply|done].
Qed.

Lemma grants_app a b m v : grants (a ++ b) m v ↔ grants a m v ∨ grants b m v.
Proof.
  unfold grants. setoid_rewrite elem_of_app. split.
  - intros (r & pk & [H|H] & ?); [left|right]; eauto.
  - intros [(r & pk & H & ?)|(r & pk & H & ?)]; exists r, pk; auto.
Qed.

Lemma handled_grants p buf q out m v :
  pool_inv p → handled p buf q out → grants out m v → by_mac q !! m = Some v ∧ in_pool p v.
Proof.
  intros Hp Hh (reply & pk & Hin & Hpk & <- & <- & Hty). destruct Hh as [|req ty w q out Hr Ht Hl Hm Hw Hout|req out Hr Hn Hall Ho].
  - by apply not_elem_of_nil in Hin.
  - apply elem_of_cons in Hin as [[= ->]|Hin].
    + unfold reply_to in Hpk. rewrite parse_reply in Hpk.
      * by injection Hpk as <-.
      * by eapply parse_request_ok.
      * by eapply in_pool_ip_ok.
    + rewrite Forall_forall in Hout. by destruct (Hout _ Hin).
  - destruct Ho as [-> | ->]; [by apply not_elem_of_nil in Hin|].
    apply list_elem_of_singleton in Hin as [= ->]. unfold reply_to in Hpk.
    rewrite parse_reply in Hpk; [|by eapply parse_request_ok|split; [lia|done]].
    injection Hpk as <-. cbn in Hty. by destruct Hty.
Qed.

Lemma in_pool_later p q v : later p q → in_pool p v ↔ in_pool q v.
Proof. intros [_ (E1 & E2 & _) _]. unfold in_pool. by rewrite E1, E2. Qed.

Lemma serve_grants inputs : ∀ p q out,
  pool_inv p → serve p inputs = (q, out) →
  later p q ∧ ∀ m v, grants out m v → by_mac q !! m = Some v ∧ in_pool p v.
Proof.
  induction inputs as [|[now buf] inputs IH]; intros p q out Hp; cbn [serve].
  { intros [= <- <-]. split; [by apply later_refl|].
    intros m v (r & pk & H & _). by apply not_elem_of_nil in H. }
  destruct (handle now p buf) as [p1 o1] eqn:E1. destruct (serve p1 inputs) as [p2 o2] eqn:E2.
  intros [= <- <-]. pose proof (handle_handled _ _ _ _ _ Hp E1) as Hh.
  pose proof (handled_later _ _ _ _ Hp Hh) as Hl.
  destruct (IH _ _ _ (la_inv _ _ Hl) E2) as [Hl2 Hg2]. split; [by eapply later_trans|].
  intros m v [Hg|Hg]%grants_app.
  - destruct (handled_grants _ _ _ _ _ _ Hp Hh Hg) as [Hm Hin]. split; [|done].
    by apply (la_keep _ _ Hl2).
  - destruct (Hg2 _ _ Hg) as [Hm Hin]. split; [done|]. by apply (in_pool_later _ _ _ Hl).
Qed.

(** * Properties *)

(** C10. No double lease: whatever datagrams the server receives since it
    started, all addresses it offers or acknowledges lie in the configured
    range, a hardware address is always given the same one, and two different
    hardware addresses are never given the same one. *)
Theorem serve_no_double_lease s c msk sv ls inputs p out m1 v1 m2 v2 :
  in_u 32 s → in_u 32 c →
  serve (new_pool s c msk sv ls) inputs = (p, out) →
  grants out m1 v1 → grants out m2 v2 →
  (m1 = m2 ↔ v1 = v2) ∧ ∃ i, 0 <= i < c ∧ v1 = u32 (s + i).
Proof.
  intros Hs Hc E H1 H2.
  destruct (serve_grants _ _ _ _ (new_pool_inv s c msk sv ls Hs Hc) E) as [Hl Hg].
  destruct (Hg _ _ H1) as [G1 R1]. destruct (Hg _ _ H2) as [G2 _]. split; [|exact R1].
  split; [intros ->; congruence|]. intros ->. by eapply (pi_inj _ (la_inv _ _ Hl)).
Qed.

Definition demo_discover (last : Z) : bytes := build_client [1; 2; 3; 4] [2; 0; 0; 0; 0; last] DISCOVER None None.
Definition demo_pool : Pool :=
  new_pool (Ipv4.new 192 168 1 100) 100 (Ipv4.new 255 255 255 0) (Ipv4.new 192 168 1 1) 43200.

Lemma serve_no_double_lease_witness :
  ([2; 0; 0; 0; 0; 1] = [2; 0; 0; 0; 0; 2] ↔ Ipv4.new 192 168 1 100 = Ipv4.new 192 168 1 101) ∧
  ∃ i, 0 <= i < 100 ∧ Ipv4.new 192 168 1 100 = u32 (Ipv4.new 192 168 1 100 + i).
Proof.
  apply (serve_no_double_lease (Ipv4.new 192 168 1 100) 100 (Ipv4.new 255 255 255 0)
    (Ipv4.new 192 168 1 1) 43200 [(0, demo_discover 1); (0, demo_discover 2)]
    (fst (serve demo_pool [(0, demo_discover 1); (0, demo_discover 2)]))
    (snd (serve demo_pool [(0, demo_discover 1); (0, demo_discover 2)]))).
  - split; [vm_compute; discriminate|reflexivity].
  - split; [lia|reflexivity].
  - vm_compute. reflexivity.
  - eexists _, _. split; [vm_compute; left|]. split; [vm_compute; reflexivity|].
    repeat split. by left.
  - eexists _, _. split; [vm_compute; right; left|]. split; [vm_compute; reflexivity|].
    repeat split. by left.
Defined.

(** C11. The handshake: in every reachable pool, if the discovery of a client
    is answered at all then the client takes the offer, its request is
    acknowledged with the same address, and the exchange of the client ends
    bound to that address of the pool with the server's mask, the server as
    router and as DNS. *)
Theorem handshake now p id mac :
  pool_inv p → Ipv4.ip_ok (server p) → Ipv4.ip_ok (mask p) →
  length id = 4%nat → length mac = 6%nat →
  (∃ v, in_pool p v ∧ v ∉ used p) →
  ∃ v p1 p2 offer ack text,
    in_pool p v ∧
    handle now p (build_client id mac DISCOVER None None) = (p1, [Send offer]) ∧
    handle now p1 (build_client id mac REQUEST (Some v) (Some v)) = (p2, [Send ack; Persist text]) ∧
    client_exchange id mac [Some offer; Some ack]
    = ([build_client id mac DISCOVER None None; build_client id mac REQUEST (Some v) (Some v)],
       Bound v (mask p) (Some (server p)) (Some (server p))).
Proof.
  intros Hp Hsv Hmk Hid Hmac (w & Hw & Hfree).
  unfold handle at 1. rewrite parse_client by done. cbn [op msg_type chaddr req_ip hostname mbind option_bind].
  change (OP_REQUEST =? OP_REQUEST) with true. change (DISCOVER =? DISCOVER) with true. cbv iota.
  destruct (lease_for p mac None) as [[v|] p1] eqn:El.
  2: { apply lease_for_spec in El as (_ & _ & _ & _ & _ & Hall); [|done]. by destruct Hfree; apply Hall. }
  apply lease_for_spec in El as (Hp1 & (Es & Ec & Em & Esv & El) & _ & Hm & Hin & _); [|done].
  cbn [add_name]. pose proof (in_pool_ip_ok _ _ Hin) as Hv.
  set (req := mkPacket OP_REQUEST id mac 0 DISCOVER None None).
  set (req2 := mkPacket OP_REQUEST id mac 0 REQUEST (Some v) None).
  assert (Hr1 : request_ok req) by by split. assert (Hr2 : request_ok req2) by by split.
  exists v, p1, p1, (reply_to p1 req OFFER v (lease p1)), (reply_to p1 req2 ACK v (lease p1)),
    (persist_text now p1).
  split; [done|]. split; [done|]. split.
  - unfold handle. rewrite parse_client by done. cbn [op msg_type chaddr req_ip hostname mbind option_bind].
    change (OP_REQUEST =? OP_REQUEST) with true. change (REQUEST =? DISCOVER) with false.
    change (REQUEST =? REQUEST) with true. cbv iota. rewrite Hm. by rewrite ipv4_octets.
  - unfold client_exchange. cbn [await_offer]. unfold reply_to. rewrite parse_reply by done.
    cbn [op msg_type xid yiaddr]. rewrite bool_decide_eq_true_2 by done.
    change ((OP_REPLY =? OP_REPLY) && (OFFER =? OFFER) && true) with true. cbv iota.
    cbn [await_ack yiaddr]. change id with (xid req2).
    rewrite parse_ack_reply by congruence. by rewrite Em, Esv.
Qed.

Lemma handshake_witness :
  ∃ v p1 p2 offer ack text,
    in_pool demo_pool v ∧
    handle 0 demo_pool (build_client [1; 2; 3; 4] [2; 0; 0; 0; 0; 1] DISCOVER None None) = (p1, [Send offer]) ∧
    handle 0 p1 (build_client [1; 2; 3; 4] [2; 0; 0; 0; 0; 1] REQUEST (Some v) (Some v)) = (p2, [Send ack; Persist text]) ∧
    client_exchange [1; 2; 3; 4] [2; 0; 0; 0; 0; 1] [Some offer; Some ack]
    = ([build_client [1; 2; 3; 4] [2; 0; 0; 0; 0; 1] DISCOVER None None;
        build_client [1; 2; 3; 4] [2; 0; 0; 0; 0; 1] REQUEST (Some v) (Some v)],
       Bound v (Ipv4.new 255 255 255 0) (Some (Ipv4.new 192 168 1 1)) (Some (Ipv4.new 192 168 1 1))).
Proof.
  apply (handshake 0 demo_pool); [| | |reflexivity|reflexivity|].
  - apply new_pool_inv; (split; [vm_compute; discriminate|reflexivity]).
  - split; [vm_compute; discriminate|reflexivity].
  - split; [vm_compute; discriminate|reflexivity].
  - exists (Ipv4.new 192 168 1 100). split; [|apply not_elem_of_empty].
    exists 0. split; [vm_compute; split; [discriminate|reflexivity]|reflexivity].
Defined.

(** C12. The server refuses a client (silence to a discovery, NAK to a request)
    only when every address of the pool is in use and the client holds none;
    it then leaves the pool as it is. *)
Theorem refused_only_when_full now p buf req q out :
  pool_inv p → parse buf = Some req → op req = OP_REQUEST →
  msg_type req = DISCOVER ∨ msg_type req = REQUEST →
  handle now p buf = (q, out) →
  ¬ (∃ v, grants out (chaddr req) v) →
  q = p ∧ by_mac p !! chaddr req = None ∧ ∀ i, 0 <= i < count p → u32 (start p + i) ∈ used p.
Proof.
  intros Hp Hreq Hop Hty E Hng. unfold handle in E. rewrite Hreq, Hop in E.
  change (OP_REQUEST =? OP_REQUEST) with true in E. cbv iota in E.
  assert (Hgr : ∀ p' ty v out', (ty = OFFER ∨ ty = ACK) → in_pool p v →
    grants (Send (reply_to p' req ty v (lease p')) :: out') (chaddr req) v).
  { intros p' ty v out' Ht Hv. apply grants_reply; [by eapply parse_request_ok|by eapply in_pool_ip_ok|done]. }
  assert (Hfull : ∀ p', lease_for p (chaddr req) (req_ip req) = (None, p') →
    p' = p ∧ by_mac p !! chaddr req = None ∧ ∀ i, 0 <= i < count p → u32 (start p + i) ∈ used p).
  { intros p' El. apply lease_for_spec in El as (_ & _ & _ & -> & Hn & Hall); [|done].
    repeat split; [done|]. intros i Hi. apply Hall. by exists i. }
  assert (Hsome : ∀ v p', lease_for p (chaddr req) (req_ip req) = (Some v, p') → in_pool p v).
  { intros v p' El. by apply lease_for_spec in El as (_ & _ & _ & _ & ? & _). }
  destruct Hty as [Hty|Hty]; rewrite Hty in E.
  - change (DISCOVER =? DISCOVER) with true in E. cbv iota in E.
    destruct (lease_for p _ _) as [[v|] p'] eqn:El; injection E as <- <-; [|by apply Hfull].
    destruct Hng. exists v. apply Hgr; [by left|by eapply Hsome].
  - change (REQUEST =? DISCOVER) with false in E. change (REQUEST =? REQUEST) with true in E. cbv iota in E.
    destruct (by_mac p !! chaddr req) as [v|] eqn:Em.
    { injection E as <- <-. destruct Hng. exists v. apply Hgr; [by right|]. by eapply pi_range. }
    destruct (lease_for p _ _) as [[v|] p'] eqn:El; injection E as <- <-; [|by apply Hfull].
    destruct Hng. exists v. apply Hgr; [by right|by eapply Hsome].
Qed.

Definition full_pool : Pool := fst (serve (new_pool 10 1 0 0 0) [(0, demo_discover 1)]).

Lemma refused_only_when_full_witness :
  full_pool = full_pool ∧ by_mac full_pool !! [2; 0; 0; 0; 0; 2] = None ∧
  ∀ i, 0 <= i < 1 → u32 (10 + i) ∈ used full_pool.
Proof.
  apply (refused_only_when_full 0 full_pool (demo_discover 2)
    (mkPacket 1 [1; 2; 3; 4] [2; 0; 0; 0; 0; 2] 0 1 None None) full_pool []).
  - destruct (serve_grants [(0, demo_discover 1)] (new_pool 10 1 0 0 0) full_pool
      (snd (serve (new_pool 10 1 0 0 0) [(0, demo_discover 1)]))) as [[H _ _] _]; [|vm_compute; reflexivity|exact H].
    apply new_pool_inv; (split; [lia|reflexivity]).
  - vm_compute. reflexivity.
  - reflexivity.
  - by left.
  - vm_compute. reflexivity.
  - intros (v & r & pk & H & _). by apply not_elem_of_nil in H.
Defined.

(** ** Observations *)

(** A truncated option is yielded with the bytes that are left. *)
Example truncated_option_is_yielded :
  options (replicate 240 0 ++ [OPT_REQIP; 4; 1; 2]) = [(OPT_REQIP, [1; 2])].
Proof. vm_compute. reflexivity. Qed.

(** A client that holds a lease and requests another address is acknowledged
    (with its old address) instead of being refused. *)
Example request_for_another_address_is_acked :
  let p := fst (handle 0 demo_pool (demo_discover 1)) in
  match snd (handle 0 p (build_client [1; 2; 3; 4] [2; 0; 0; 0; 0; 1] REQUEST (Some (Ipv4.new 10 0 0 1)) None)) with
  | Send r :: _ => parse r
  | _ => None
  end = Some (mkPacket OP_REPLY [1; 2; 3; 4] [2; 0; 0; 0; 0; 1] (Ipv4.new 192 168 1 100) ACK None None).
Proof. vm_compute. reflexivity. Qed.

(** The client's request names the offered address as server identifier. *)
Example client_server_identifier :
  let offer := build_reply (mkPacket 1 [1; 2; 3; 4] [2; 0; 0; 0; 0; 1] 0 1 None None) OFFER
    (Ipv4.new 192 168 1 100) (Ipv4.new 192 168 1 1) 0 0 0 in
  match fst (client_exchange [1; 2; 3; 4] [2; 0; 0; 0; 0; 1] [Some offer]) with
  | [_; request] => lookup 2%nat (options request)
  | _ => None
  end = Some (OPT_SERVERID, Ipv4.octets (Ipv4.new 192 168 1 100)).
Proof. vm_compute. reflexivity. Qed.

(** A host name with a line feed writes a line of its own into the lease file. *)
Example hostname_forges_lease_line :
  let name := lit "x" ++ [LF] ++ lit "9 aa 6.6.6.6 bank" in
  let p := add_name (snd (lease_for demo_pool [2; 0; 0; 0; 0; 1] None)) (Ipv4.new 192 168 1 100) (Some name) in
  lines (persist_text 0 p)
  = [lit "43200 02:00:00:00:00:01 192.168.1.100 x"; lit "9 aa 6.6.6.6 bank"].
Proof. vm_compute. reflexivity. Qed.

End Dhcp.
