(* ===== verification/DhcpRun.v ===== *)
(** * The DHCP applet (dhcp.rs: run, server, client)

    The programs around the codec, the pool and the waiting loops of [Dhcp]:
    configuration, sockets, the receive loops over events, and the interface
    that the client configures. *)

From S2P Require Import Prelude Words RustStr Utf8 Num IO Config Sock NlSock Net Dhcp.
Open Scope Z_scope.

Module DhcpRun.

(** Interface and route requests are the events of [Sock].  A datagram comes
    with the time of its arrival, which is the time [persist] reads. *)
Inductive ev : Set → Type :=
| Sys (X : Set) (e : Sock.ev X) : ev X
| ReadConfig : ev (option str)
| BindUdp (port : Z) : ev bool
| SetBroadcast : ev unit
| SetTimeout (secs : Z) : ev unit
| BindDevice (name : bytes) : ev bool              (* SO_BINDTODEVICE *)
| RecvFrom (size : nat) : ev (option (Z * bytes))
| SendTo (data : bytes) (port : Z) : ev bool       (* to 255.255.255.255 *)
| WriteLeases (text : str) : ev unit
| WriteDns (text : str) : ev unit                  (* /run/wan.dns *)
| Pid : ev Z
| Nanos : ev Z                                     (* since the epoch *)
| SleepHour : ev unit.

Definition sys {A} (m : io Sock.ev A) : io ev A := io_map Sys m.

Definition BUF : nat := 1024.

(** A C string has no interior NUL. *)
Definition bind_to_device (ifname : str) : io ev bool :=
  let b := Utf8.encode ifname in
  if existsb (Z.eqb 0) b then Ret false else perform r := BindDevice (b ++ [0]) in Ret r.

Definition clipped (r : option (Z * bytes)) : option (Z * bytes) := (λ d, (d.1, take BUF d.2)) <$> r.
Definition recv : io ev (option (Z * bytes)) :=
  perform r := RecvFrom BUF in
  Ret (clipped r).

(** ** Server *)
Fixpoint emit (out : list Dhcp.effect) : io ev unit :=
  match out with
  | [] => Ret tt
  | Dhcp.Send reply :: out => perform r := SendTo reply 68 in emit out
  | Dhcp.Persist text :: out => perform u := WriteLeases text in emit out
  end.

(** The receive loop for [n] datagrams or failures to receive. *)
Fixpoint server_loop (n : nat) (p : Dhcp.Pool) : io ev Dhcp.Pool :=
  match n with
  | O => Ret p
  | S n =>
      await r := recv in
      match r with
      | None => server_loop n p
      | Some (now, buf) =>
          let '(p, out) := Dhcp.handle now p buf in
          await u := emit out in
          server_loop n p
      end
  end.

Fixpoint sleep_loop (n : nat) : io ev unit :=
  match n with O => Ret tt | S n => perform u := SleepHour in sleep_loop n end.

(** [None] is still running, after [n] turns. *)
Definition server (n : nat) (cfg : Config.Config) : io ev (option Z) :=
  if negb (bool_decide (Config.get_or cfg (lit "dhcp") (lit "enabled") (lit "1") = lit "1")) then
    await u := sleep_loop n in Ret None
  else
    let lan_if := Config.get_or cfg (lit "lan") (lit "ifname") (lit "br-lan") in
    let addr sect key def := Net.parse_v4 (Config.get_or cfg sect key def) in
    match addr (lit "lan") (lit "ipaddr") (lit "192.168.1.1"),
          addr (lit "lan") (lit "netmask") (lit "255.255.255.0"),
          addr (lit "dhcp") (lit "start") (lit "192.168.1.100") with
    | Ok server_ip, Ok mask, Ok start =>
        let count := default 100 (parse_uint 32 (Config.get_or cfg (lit "dhcp") (lit "limit") (lit "100"))) in
        let lease := default 43200 (parse_uint 32 (Config.get_or cfg (lit "dhcp") (lit "leasetime") (lit "43200"))) in
        perform sock := BindUdp 67 in
        if negb sock then Ret (Some 1) else
        perform u := SetBroadcast in
        await b := bind_to_device lan_if in
        await p := server_loop n (Dhcp.new_pool start count mask server_ip lease) in
        Ret None
    | _, _, _ => Ret (Some 1)
    end.

(** ** Client *)
Definition rand_xid : io ev bytes :=
  perform t := Nanos in
  perform pid := Pid in
  let v := Z.lxor (u64 (pid * 2654435761)) (u64 t) in
  Ret (be_bytes 4 (u32 v)).

Definition if_mac (ifname : str) : io Sock.ev (option bytes) :=
  perform r := Sock.Socket Sock.Inet in
  match r with
  | Err _ => Ret None
  | Ok fd =>
      let b := Utf8.encode ifname in
      let n := Nat.min (length b) 15 in
      let req := splice (replicate 32 0) 0 (take n b) in
      await r := Net.ioctl_ifreq fd Sock.SIOCGIFHWADDR req in
      perform u := Sock.Close fd in
      Ret (match r with Err _ => None | Ok req => Some (slice req 18 24) end)
  end.

(** The waiting loops, for at most [fuel] receipts; the outer [None] is still
    waiting, the inner one a timeout. *)
Fixpoint wait_offer (fuel : nat) (xid : bytes) : io ev (option (option Dhcp.Packet)) :=
  match fuel with
  | O => Ret None
  | S fuel =>
      await r := recv in
      match r with
      | None => Ret (Some None)
      | Some (_, buf) =>
          match Dhcp.parse buf with
          | Some p =>
              if (Dhcp.op p =? Dhcp.OP_REPLY) && (Dhcp.msg_type p =? Dhcp.OFFER) && bool_decide (Dhcp.xid p = xid)
              then Ret (Some (Some p)) else wait_offer fuel xid
          | None => wait_offer fuel xid
          end
      end
  end.

Fixpoint wait_ack (fuel : nat) (xid : bytes) : io ev (option (option (Z * option Z * option Z))) :=
  match fuel with
  | O => Ret None
  | S fuel =>
      await r := recv in
      match r with
      | None => Ret (Some None)
      | Some (_, buf) =>
          match Dhcp.parse_ack buf xid with
          | Some a => Ret (Some (Some a))
          | None => wait_ack fuel xid
          end
      end
  end.

(** What the client does with its lease. *)
Definition bind_lease (wan_if : str) (addr mask : Z) (gw dns : option Z) : io ev Z :=
  await r := sys (Net.configure wan_if addr mask) in
  match r with
  | Err _ => Ret 1
  | Ok _ =>
      await u := (match gw with Some gw => await r := sys (Net.default_route gw) in Ret tt | None => Ret tt end) in
      match dns with
      | Some dns => perform v := WriteDns (Ipv4.show dns ++ [LF]) in Ret 0
      | None => Ret 0
      end
  end.

Definition exchange (fuel : nat) (wan_if : str) (xid mac : bytes) : io ev (option Z) :=
  perform sent := SendTo (Dhcp.build_client xid mac Dhcp.DISCOVER None None) 67 in
  if negb sent then Ret (Some 1) else
  await o := wait_offer fuel xid in
  match o with
  | None => Ret None
  | Some None => Ret (Some 1)
  | Some (Some offer) =>
      let yi := Dhcp.yiaddr offer in
      perform s := SendTo (Dhcp.build_client xid mac Dhcp.REQUEST (Some yi) (Some yi)) 67 in
      await a := wait_ack fuel xid in
      match a with
      | None => Ret None
      | Some None => Ret (Some 1)
      | Some (Some (mask, gw, dns)) => await code := bind_lease wan_if yi mask gw dns in Ret (Some code)
      end
  end.

Definition client (fuel : nat) (cfg : Config.Config) : io ev (option Z) :=
  let wan_if := Config.get_or cfg (lit "wan") (lit "ifname") (lit "eth0.2") in
  await u := sys (Net.up wan_if) in
  perform sock := BindUdp 68 in
  if negb sock then Ret (Some 1) else
  perform v := SetBroadcast in
  perform w := SetTimeout 5 in
  await b := bind_to_device wan_if in
  await xid := rand_xid in
  await m := sys (if_mac wan_if) in
  let mac := default [0x02; 0; 0; 0; 0; 1] m in
  exchange fuel wan_if xid mac.

Definition run (n : nat) (args : list str) : io ev (option Z) :=
  perform text := ReadConfig in
  let cfg := Config.load text in
  match args with
  | a :: _ => if bool_decide (a = lit "client") then client n cfg else server n cfg
  | [] => server n cfg
  end.

(** * Specification *)

(** What a trace receives, sends and stores. *)
Definition arrived (c : call ev) : option (option (Z * bytes)) :=
  match c with
  | Call e x =>
      match e in ev X return X → option (option (Z * bytes)) with
      | RecvFrom n => λ r, Some (clipped r)
      | _ => λ _, None
      end x
  end.
Definition emitted (c : call ev) : option Dhcp.effect :=
  match c with
  | Call e x =>
      match e in ev X return X → option Dhcp.effect with
      | SendTo data _ => λ _, Some (Dhcp.Send data)
      | WriteLeases text => λ _, Some (Dhcp.Persist text)
      | _ => λ _, None
      end x
  end.
Definition dns_stored (c : call ev) : option str :=
  match c with
  | Call e x => match e in ev X return X → option str with WriteDns text => λ _, Some text | _ => λ _, None end x
  end.
(** The part of a trace that goes to the kernel's interface table. *)
Definition syscall (c : call ev) : option (call Sock.ev) :=
  match c with
  | Call e x => match e in ev X return X → option (call Sock.ev) with Sys X e => λ x, Some (Call e x) | _ => λ _, None end x
  end.
Definition input (c : call ev) : option (Z * bytes) := mjoin (arrived c).
Definition datagrams (t : list (call ev)) : list (option bytes) := map (fmap snd) (omap arrived t).

(** * Lemmas *)

(** ** Lifted system calls *)
Lemma sys_runs {A} (m : io Sock.ev A) t a :
  runs (sys m) t a → ∃ u, runs m u a ∧ omap syscall t = u ∧
    omap arrived t = [] ∧ omap emitted t = [] ∧ omap dns_stored t = [].
Proof.
  intros H. apply runs_map in H as (u & -> & H). exists u. split; [done|]. clear H.
  induction u as [|[X e x] u (IH1 & IH2 & IH3 & IH4)]; [done|].
  cbn [map call_map omap list_omap syscall arrived emitted dns_stored]. by rewrite IH1, IH2, IH3, IH4.
Qed.

(** ** The server's loop is [Dhcp.serve] over what arrives *)
Lemma emit_runs out t u : runs (emit out) t u → omap emitted t = out ∧ omap input t = [].
Proof.
  revert t. induction out as [|[reply|text] out IH]; intros t H; cbn [emit] in H; run_inv H; [done|..];
    apply IH in H as [H1 H2]; cbn [omap list_omap emitted input arrived mjoin option_join]; by rewrite H1, H2.
Qed.

(** The receive loop implements the server: over any number of turns and any
    failures to receive, the replies and lease files it emits, in order, and the
    pool it reaches are those of [Dhcp.serve] on the datagrams that arrived. *)
Theorem server_loop_serves n p t p' :
  runs (server_loop n p) t p' → Dhcp.serve p (omap input t) = (p', omap emitted t).
Proof.
  revert p t. induction n as [|n IH]; intros p t H; cbn [server_loop] in H; [by run_inv H|].
  unfold recv in H. cbn [io_bind] in H. run_inv H.
  cbn [omap list_omap input arrived emitted mjoin option_join]. destruct (clipped x) as [[now buf]|]; [|by apply IH].
  cbn [Dhcp.serve]. destruct (Dhcp.handle now p buf) as [p1 out] eqn:E.
  run_inv H. apply emit_runs in H0 as [H1 H2]. apply IH in H.
  rewrite !omap_app, H1, H2. cbn [app]. by rewrite H.
Qed.

(** ** The client's loops *)
Lemma wait_offer_runs fuel xid t o :
  runs (wait_offer fuel xid) t o →
  omap emitted t = [] ∧ omap syscall t = [] ∧ omap dns_stored t = [] ∧
  ∀ p, o = Some (Some p) → ∀ rest, Dhcp.await_offer xid (datagrams t ++ rest) = Dhcp.Got p rest.
Proof.
  revert t. induction fuel as [|fuel IH]; intros t H; cbn [wait_offer] in H; [by run_inv H|].
  unfold recv in H. cbn [io_bind] in H. run_inv H. unfold datagrams.
  cbn [omap list_omap arrived emitted syscall dns_stored map app].
  destruct (clipped x) as [[now buf]|]; [|by run_inv H]. cbn [fmap option_fmap option_map snd Dhcp.await_offer].
  destruct (Dhcp.parse buf) as [p|]; [|by apply IH].
  destruct ((Dhcp.op p =? Dhcp.OP_REPLY) && (Dhcp.msg_type p =? Dhcp.OFFER) && bool_decide (Dhcp.xid p = xid));
    [|by apply IH].
  run_inv H. do 3 (split; [done|]). by intros q [= ->] rest.
Qed.

Lemma wait_ack_runs fuel xid t o :
  runs (wait_ack fuel xid) t o →
  omap emitted t = [] ∧ omap syscall t = [] ∧ omap dns_stored t = [] ∧
  ∀ a, o = Some (Some a) → ∀ rest, Dhcp.await_ack xid (datagrams t ++ rest) = Dhcp.Got a rest.
Proof.
  revert t. induction fuel as [|fuel IH]; intros t H; cbn [wait_ack] in H; [by run_inv H|].
  unfold recv in H. cbn [io_bind] in H. run_inv H. unfold datagrams.
  cbn [omap list_omap arrived emitted syscall dns_stored map app].
  destruct (clipped x) as [[now buf]|]; [|by run_inv H]. cbn [fmap option_fmap option_map snd Dhcp.await_ack].
  destruct (Dhcp.parse_ack buf xid) as [a|]; [|by apply IH].
  run_inv H. do 3 (split; [done|]). by intros q [= ->] rest.
Qed.

(** ** The lease is put on the interface *)
Section Binding.
Context (class_mask : bytes → bytes).

Definition raised (i : Net.iface) : Net.iface :=
  Net.Iface (Net.if_addr i) (Net.if_mask i) (Z.lor (Net.if_flags i) (Z.lor Net.IFF_UP Net.IFF_RUNNING)).
Definition leased (i : Net.iface) (addr mask : Z) : Net.iface :=
  Net.Iface (Ipv4.octets addr) (Ipv4.octets mask) (Z.lor (Net.if_flags i) (Z.lor Net.IFF_UP Net.IFF_RUNNING)).

Lemma route_effect T gw t u :
  runs (match gw with Some gw => await r := sys (Net.default_route gw) in Ret tt | None => Ret tt end) t u →
  Net.table_after class_mask T (omap syscall t) = T ∧
  omap arrived t = [] ∧ omap emitted t = [] ∧ omap dns_stored t = [].
Proof.
  destruct gw as [gw|]; intros H; [|by run_inv H]. run_inv H. run_inv H. rewrite app_nil_r.
  apply sys_runs in H0 as (v & Hv & -> & H1 & H2 & H3).
  split; [by eapply Net.default_route_runs|]. done.
Qed.

Lemma bind_lease_runs T wan addr mask gw dns t :
  Net.ifname_ok wan →
  runs (bind_lease wan addr mask gw dns) t 0 →
  Net.kernel_ok class_mask T (omap syscall t) →
  (∃ i, T !! Utf8.encode wan = Some i ∧
    Net.table_after class_mask T (omap syscall t) = <[Utf8.encode wan := leased i addr mask]> T) ∧
  omap arrived t = [] ∧ omap emitted t = [] ∧
  omap dns_stored t = match dns with Some d => [Ipv4.show d ++ [LF]] | None => [] end.
Proof.
  intros Hn H HK. unfold bind_lease in H. run_inv H. apply sys_runs in H0 as (v & Hv & Hs & H1 & H2 & H3).
  destruct a as [[]|e]; [|by run_inv H]. rewrite omap_app, Hs in HK.
  apply Net.answers_ok_app in HK as [HK _]. run_inv H.
  lazymatch type of H with runs _ ?u 0 => rename u into tl end.
  assert (Ht : omap syscall tl = [] ∧ omap arrived tl = [] ∧ omap emitted tl = [] ∧
    omap dns_stored tl = match dns with Some d => [Ipv4.show d ++ [LF]] | None => [] end).
  { destruct dns as [d|]; [|by run_inv H]. run_inv H. by run_inv H. }
  destruct Ht as (E1 & E2 & E3 & E4).
  destruct (Net.configure_effect class_mask T wan addr mask v Hn Hv HK) as (i & Hi & HT).
  split.
  - exists i. split; [done|]. unfold Net.table_after in *. rewrite !omap_app, Hs, E1, app_nil_r, foldl_app, HT.
    by eapply route_effect.
  - apply (route_effect T) in H0 as (_ & R1 & R2 & R3). rewrite !omap_app, H1, H2, H3, R1, R2, R3, E2, E3, E4. done.
Qed.

(** The exchange, from the first packet to the lease: what is sent is the
    exchange of [Dhcp], and its outcome is what is bound. *)
Lemma exchange_runs T fuel wan xid mac t :
  Net.ifname_ok wan →
  runs (exchange fuel wan xid mac) t (Some 0) →
  Net.kernel_ok class_mask T (omap syscall t) →
  ∃ addr mask gw dns i sent,
    Dhcp.client_exchange xid mac (datagrams t) = (sent, Dhcp.Bound addr mask gw dns) ∧
    omap emitted t = map Dhcp.Send sent ∧
    T !! Utf8.encode wan = Some i ∧
    Net.table_after class_mask T (omap syscall t) = <[Utf8.encode wan := leased i addr mask]> T ∧
    omap dns_stored t = match dns with Some d => [Ipv4.show d ++ [LF]] | None => [] end.
Proof.
  intros Hn H HK. unfold exchange in H. run_inv H. destruct x; cbn [negb] in H; [|by run_inv H].
  run_inv H. apply wait_offer_runs in H0 as (E1 & E2 & E3 & Ho).
  destruct a as [[offer|]|]; [|by run_inv H..]. run_inv H. run_inv H.
  apply wait_ack_runs in H0 as (A1 & A2 & A3 & Ha).
  destruct a as [[[[mask gw] dns]|]|]; [|by run_inv H..]. run_inv H.
  run_inv H. rewrite app_nil_r in *.
  cbn [omap list_omap syscall] in HK. rewrite omap_app, E2 in HK. cbn [omap list_omap syscall app] in HK.
  rewrite omap_app, A2 in HK. cbn [app] in HK.
  destruct (bind_lease_runs _ _ _ _ _ _ _ Hn H0 HK) as ((i & Hi & HT) & B1 & B2 & B3).
  exists (Dhcp.yiaddr offer), mask, gw, dns, i. eexists. split; [|split; [|split; [exact Hi|split]]].
  - unfold Dhcp.client_exchange, datagrams. cbn [omap list_omap arrived]. rewrite omap_app, map_app.
    fold (datagrams t). rewrite (Ho offer eq_refl). cbn [omap list_omap arrived]. rewrite omap_app, B1, app_nil_r.
    pose proof (Ha _ eq_refl []) as Ha'. rewrite app_nil_r in Ha'. unfold datagrams in Ha'. rewrite Ha'. reflexivity.
  - cbn [omap list_omap emitted]. rewrite omap_app, E1. cbn [app omap list_omap emitted].
    by rewrite omap_app, A1, B2.
  - cbn [omap list_omap syscall]. rewrite omap_app, E2. cbn [app omap list_omap syscall]. by rewrite omap_app, A2.
  - cbn [omap list_omap dns_stored]. rewrite omap_app, E3. cbn [app omap list_omap dns_stored].
    by rewrite omap_app, A3.
Qed.

Lemma if_mac_effect T ifname t r : runs (if_mac ifname) t r → Net.table_after class_mask T t = T.
Proof.
  unfold if_mac, Net.ioctl_ifreq. intros H. run_inv H. destruct x as [fd|e]; [|by run_inv H].
  cbn [io_bind] in H. run_inv H. run_inv H. run_inv H. by destruct x.
Qed.

Lemma bind_device_runs ifname t b :
  runs (bind_to_device ifname) t b →
  omap syscall t = [] ∧ omap arrived t = [] ∧ omap emitted t = [] ∧ omap dns_stored t = [].
Proof.
  unfold bind_to_device. destruct (existsb _ _); intros H; [by run_inv H|]. run_inv H. by run_inv H.
Qed.
End Binding.

(** * Theorems *)

(** C39. When the client reports success, its exchange on the wire is the one of
    [Dhcp.client_exchange] on the datagrams it received, with the lease it ended
    with: the WAN interface has that address and mask and is up, no other
    interface changed, and the name server of the lease, if any, is stored for
    the forwarder. *)
Theorem client_configures class_mask T n cfg t :
  let wan := Config.get_or cfg (lit "wan") (lit "ifname") (lit "eth0.2") in
  Net.ifname_ok wan →
  runs (client n cfg) t (Some 0) →
  Net.kernel_ok class_mask T (omap syscall t) →
  ∃ xid mac addr mask gw dns i sent,
    Dhcp.client_exchange xid mac (datagrams t) = (sent, Dhcp.Bound addr mask gw dns) ∧
    omap emitted t = map Dhcp.Send sent ∧
    T !! Utf8.encode wan = Some i ∧
    Net.table_after class_mask T (omap syscall t) = <[Utf8.encode wan := leased i addr mask]> T ∧
    omap dns_stored t = match dns with Some d => [Ipv4.show d ++ [LF]] | None => [] end.
Proof.
  intros wan Hn H HK. unfold client in H. fold wan in H. generalize dependent wan. intros wan Hn H.
  run_inv H. apply sys_runs in H0 as (u & Hu & Su & U1 & U2 & U3).
  run_inv H. destruct x; cbn [negb] in H; [|by run_inv H]. run_inv H. run_inv H.
  run_inv H. apply bind_device_runs in H0 as (S0 & B1 & B2 & B3).
  unfold rand_xid in H. cbn [io_bind] in H. run_inv H. run_inv H.
  run_inv H. apply sys_runs in H0 as (w & Hw & Sw & W1 & W2 & W3).
  lazymatch type of H with runs _ ?v _ => rename v into tl end.
  unfold datagrams.
  repeat (rewrite !omap_app in * || (cbn [omap list_omap syscall arrived emitted dns_stored app] in *)).
  rewrite U1, U2, U3, B1, B2, B3, W1, W2, W3, S0 in *. cbn [app] in *. rewrite Su, Sw in *.
  apply Net.answers_ok_app in HK as [HK1 HK]. apply Net.answers_ok_app in HK as [_ HK].
  rewrite (if_mac_effect _ _ _ _ _ Hw) in HK.
  destruct (exchange_runs _ _ _ _ _ _ _ Hn H HK) as (addr & mask & gw & dns & i & sent & E1 & E2 & Hi & HT & E3).
  assert (Hall : Net.table_after class_mask T (u ++ w ++ omap syscall tl) =
    <[Utf8.encode wan := leased i addr mask]> (Net.table_after class_mask T u)).
  { rewrite <- HT. unfold Net.table_after. rewrite !foldl_app.
    pose proof (if_mac_effect class_mask (Net.table_after class_mask T u) _ _ _ Hw) as Q.
    unfold Net.table_after in Q. by rewrite Q. }
  rewrite Hall. destruct (Net.up_effect_any class_mask T wan u _ Hn Hu HK1) as [Eu|(j & Hj & Eu)]; rewrite Eu in *.
  - by exists (be_bytes 4 (u32 (Z.lxor (u64 (x2 * 2654435761)) (u64 x1)))), (default [0x02; 0; 0; 0; 0; 1] a1),
      addr, mask, gw, dns, i, sent.
  - exists (be_bytes 4 (u32 (Z.lxor (u64 (x2 * 2654435761)) (u64 x1)))), (default [0x02; 0; 0; 0; 0; 1] a1),
      addr, mask, gw, dns, j, sent.
    do 3 (split; [done|]). split; [|done]. rewrite insert_insert_eq. f_equal.
    rewrite lookup_insert_eq in Hi. injection Hi as <-. unfold leased. cbn [Net.if_flags].
    by rewrite <- Z.lor_assoc, Z.lor_diag.
Qed.

(** ** A client served by the server of this file *)
Definition demo_id : bytes := Eval vm_compute in be_bytes 4 (u32 (Z.lxor (u64 (7 * 2654435761)) (u64 5))).
Definition demo_mac : bytes := [0x02; 0; 0; 0; 0; 1].
Definition demo_pool : Dhcp.Pool :=
  Dhcp.new_pool (Ipv4.new 10 0 0 50) 10 (Ipv4.new 255 255 255 0) (Ipv4.new 10 0 0 1) 600.
Definition first_reply (out : list Dhcp.effect) : bytes :=
  match out with Dhcp.Send r :: _ => r | _ => [] end.
Definition demo_ip : Z := Ipv4.new 10 0 0 50.
Definition demo_disc : bytes := Eval vm_compute in Dhcp.build_client demo_id demo_mac Dhcp.DISCOVER None None.
Definition demo_req : bytes :=
  Eval vm_compute in Dhcp.build_client demo_id demo_mac Dhcp.REQUEST (Some demo_ip) (Some demo_ip).
Definition demo_offer : bytes := Eval vm_compute in first_reply (Dhcp.handle 100 demo_pool demo_disc).2.
Definition demo_ack : bytes :=
  Eval vm_compute in first_reply (Dhcp.handle 101 (Dhcp.handle 100 demo_pool demo_disc).1 demo_req).2.

Definition demo_cfg : Config.Config := Config.mk_config ∅.
Definition demo_wan : str := lit "eth0.2".
Definition demo_lease : list (call ev) :=
  map (call_map Sys) (Net.demo_trace_of demo_wan demo_ip (Ipv4.new 255 255 255 0)).
Definition demo_trace : list (call ev) :=
  [Call (Sys _ (Sock.Socket Sock.Inet)) (Err 24);
   Call (BindUdp 68) true; Call SetBroadcast tt; Call (SetTimeout 5) tt;
   Call (BindDevice (Utf8.encode demo_wan ++ [0])) true; Call Nanos 5; Call Pid 7;
   Call (Sys _ (Sock.Socket Sock.Inet)) (Err 24);
   Call (SendTo demo_disc 67) true; Call (RecvFrom BUF) (Some (100, [1; 2; 3]));
   Call (RecvFrom BUF) (Some (101, demo_offer));
   Call (SendTo demo_req 67) false; Call (RecvFrom BUF) (Some (102, demo_ack))]
  ++ demo_lease ++
  [Call (Sys _ (Sock.Socket Sock.Inet)) (Err 24);
   Call (WriteDns (Ipv4.show (Ipv4.new 10 0 0 1) ++ [LF])) tt].

Lemma demo_client_runs : runs (client 5 demo_cfg) demo_trace (Some 0).
Proof.
  unfold client. replace (Config.get_or _ _ _ _) with demo_wan by (vm_compute; reflexivity).
  unfold demo_trace. cbn [app]. do 8 play_step. cbn [io_map io_bind default from_option].
  change (be_bytes 4 _) with demo_id. unfold demo_lease, Net.demo_trace_of. cbv zeta. play.
Qed.

Lemma client_configures_witness :
  ∃ addr mask i, Net.demo_table_of demo_wan !! Utf8.encode demo_wan = Some i ∧
    Net.table_after Net.demo_mask (Net.demo_table_of demo_wan) (omap syscall demo_trace) =
      <[Utf8.encode demo_wan := leased i addr mask]> (Net.demo_table_of demo_wan).
Proof.
  destruct (client_configures Net.demo_mask (Net.demo_table_of demo_wan) 5 demo_cfg demo_trace)
    as (xid & mac & addr & mask & gw & dns & i & sent & _ & _ & Hi & HT & _).
  - apply (bool_decide_unpack _). vm_compute. exact I.
  - apply demo_client_runs.
  - change (omap syscall demo_trace) with
      ([Call (Sock.Socket Sock.Inet) (Err 24); Call (Sock.Socket Sock.Inet) (Err 24)] ++
       Net.demo_trace_of demo_wan demo_ip (Ipv4.new 255 255 255 0) ++ [Call (Sock.Socket Sock.Inet) (Err 24)]).
    apply Net.answers_ok_app. split; [repeat split|]. apply Net.answers_ok_app. split; [|repeat split].
    cbn [Net.table_after foldl Net.kernel_step]. unfold Net.demo_table_of, Net.demo_trace_of. cbv zeta. Net.demo_kernel.
  - exists addr, mask, i. split; [exact Hi|exact HT].
Defined.

Definition demo_session : list (call ev) :=
  [Call (RecvFrom BUF) None; Call (RecvFrom BUF) (Some (100, demo_disc)); Call (SendTo demo_offer 68) true].
Lemma server_loop_serves_witness :
  Dhcp.serve demo_pool (omap input demo_session) =
    ((Dhcp.handle 100 demo_pool demo_disc).1, [Dhcp.Send demo_offer]).
Proof.
  apply (server_loop_serves 2 demo_pool demo_session (Dhcp.handle 100 demo_pool demo_disc).1).
  unfold demo_session. cbn [server_loop]. do 2 (apply runs_vis; cbn [io_bind clipped fmap option_fmap option_map fst snd]).
  replace (Dhcp.handle 100 demo_pool (take BUF demo_disc)) with
    ((Dhcp.handle 100 demo_pool demo_disc).1, [Dhcp.Send demo_offer]) by (vm_compute; reflexivity).
  apply runs_vis. split; reflexivity.
Defined.
End DhcpRun.
