(* ===== verification/Ipkg.v ===== *)
(** * The package manager (ipkg.rs)

    The index lookup, the HTTP client, the ustar extractor and the five
    commands, as programs over file and socket events.  Offsets are 32-bit
    [usize]; a slice out of range aborts the process. *)

From S2P Require Import Prelude Words RustStr Utf8 Num Fips Sha256 IO.
Open Scope Z_scope.

Module Ipkg.

(** ** Events *)
Inductive ev : Set → Type :=
| ReadToString (path : str) : ev (option str)      (* fs::read_to_string *)
| WriteFile (path : str) (data : bytes) : ev bool  (* fs::write *)
| CreateDirAll (path : str) : ev bool              (* fs::create_dir_all *)
| CreateFile (path : str) : ev bool                (* fs::File::create *)
| WriteAll (path : str) (data : bytes) : ev bool   (* write_all on that file *)
| RemoveFile (path : str) : ev bool                (* fs::remove_file *)
| Connect (addr : str) : ev bool                   (* TcpStream::connect *)
| SendAll (data : bytes) : ev bool                 (* write_all on the socket *)
| ReadToEnd : ev (option bytes).                   (* read_to_end *)

(** How a command ends: an exit code, or the process aborts on a panic, or the
    loop did not end within the fuel. *)
Inductive exit : Type := Exit (code : Z) | Abort | OutOfFuel.

Definition STATE : str := lit "/var/ipkg".
Definition index_path : str := STATE ++ lit "/Packages".
Definition list_path (name : str) : str := STATE ++ lit "/installed/" ++ name ++ lit ".list".
Definition control_path (name : str) : str := STATE ++ lit "/installed/" ++ name ++ lit ".control".

(** ** The index *)
Record Entry := mkEntry { filename : str; size : option Z; sha256 : option str }.

(** The variables of the stanza loop. *)
Record stanza := mkStanza {
  is_match : bool; s_filename : option str; s_size : option Z; s_sha256 : option str
}.

Definition stanza_line (name : str) (s : stanza) (line : str) : stanza :=
  match split_once (chr ":") line with
  | None => s
  | Some (key, val) =>
      let val := trim val in
      let key := trim key in
      if bool_decide (key = lit "Package") then
        mkStanza (bool_decide (val = name)) (s_filename s) (s_size s) (s_sha256 s)
      else if bool_decide (key = lit "Filename") then
        mkStanza (is_match s) (Some val) (s_size s) (s_sha256 s)
      else if bool_decide (key = lit "Size") then
        mkStanza (is_match s) (s_filename s) (parse_uint 32 val) (s_sha256 s)
      else if bool_decide (key = lit "SHA256sum") then
        mkStanza (is_match s) (s_filename s) (s_size s) (Some val)
      else s
  end.

Fixpoint find_in (stanzas : list str) (name : str) : option Entry :=
  match stanzas with
  | [] => None
  | st :: stanzas =>
      let s := foldl (stanza_line name) (mkStanza false None None None) (lines st) in
      if is_match s
      then Some (mkEntry (default (name ++ lit ".ipk") (s_filename s)) (s_size s) (s_sha256 s))
      else find_in stanzas name
  end.
Definition find_entry (index name : str) : option Entry := find_in (split_str [LF; LF] index) name.

(** ** HTTP *)
Definition CRLF : str := [CR; LF].
Definition CRLF_bytes : bytes := [13; 10; 13; 10].

(** [raw.windows(4).position(..)]: the bytes before and after the first match. *)
Fixpoint split_header (raw : bytes) : option (bytes * bytes) :=
  if bool_decide (take 4 raw = CRLF_bytes) then Some ([], drop 4 raw)
  else match raw with
       | [] => None
       | b :: raw => '(h, body) ← split_header raw; Some (b :: h, body)
       end.

(** [str::contains] *)
Fixpoint contains (pat s : str) : bool :=
  starts_with pat s || match s with [] => false | _ :: s => contains pat s end.

Definition status_ok (headers : str) : bool :=
  match lines headers with
  | l :: _ => contains (lit " 200") l
  | [] => false
  end.

Definition http_body (raw : bytes) : option bytes :=
  '(h, body) ← split_header raw;
  if status_ok (Utf8.lossy h) then Some body else None.

Definition http_request (path host : str) : str :=
  lit "GET " ++ path ++ lit " HTTP/1.0" ++ CRLF ++ lit "Host: " ++ host ++ CRLF ++
  lit "Connection: close" ++ CRLF ++ lit "User-Agent: ipkg" ++ CRLF ++ CRLF.

Definition http_get (url : str) : io ev (option bytes) :=
  match strip_prefix (lit "http://") url with
  | None => Ret None
  | Some rest =>
      let '(hostport, path) :=
        match split_once (chr "/") rest with
        | Some (h, p) => (h, chr "/" :: p)
        | None => (rest, lit "/")
        end in
      let host := default hostport (head (split_char (chr ":") hostport)) in
      let addr := if existsb (N.eqb (chr ":")) hostport then hostport else hostport ++ lit ":80" in
      perform c := Connect addr in
      if negb c then Ret None
      else
        perform w := SendAll (Utf8.encode (http_request path host)) in
        if negb w then Ret None
        else
          perform raw := ReadToEnd in
          Ret (match raw with Some raw => http_body raw | None => None end)
  end.

(** ** ustar *)

(** [trim_start_matches("./")] *)
Definition is_control (name : str) : bool :=
  bool_decide (trim_start_matches (lit "./") name = lit "control").

Definition cstr (b : bytes) : str := Utf8.lossy (take_while (λ c, negb (c =? 0)) b).

Definition octal (b : bytes) : Z :=
  let s := trim (cstr b) in
  default 0 (from_str_radix 8 32 (match s with [] => lit "0" | _ => s end)).

Definition align512 (n : Z) : Z := Z.land (usize (n + 511)) (not32 511).

Definition safe_component (c : str) : bool := negb (bool_decide (c = lit "..")) && is_nonempty c.

Definition sanitize (name : str) : str :=
  let trimmed := trim_start_matches (lit "/") (trim_start_matches (lit "./") name) in
  let safe := filter (λ c, safe_component c) (split_char (chr "/") trimmed) in
  chr "/" :: join (lit "/") safe.

(** [Path::parent] of an absolute path: trailing separators and [.] components
    are no components. *)
Definition ignored (c : str) : bool := bool_decide (c = []) || bool_decide (c = lit ".").
Definition parent (path : str) : option str :=
  match rdrop_while ignored (split_char (chr "/") path) with
  | [] => None
  | comps =>
      match rdrop_while ignored (take (length comps - 1) comps) with
      | [] => Some (lit "/")
      | up => Some (join (lit "/") up)
      end
  end.

Record Extracted := mkExtracted { control : option bytes; files : list str }.
Inductive extraction : Type :=
| ExOk (ex : Extracted)
| ExErr
| ExAbort       (* slice out of range *)
| ExFuel.

(** Creates the parent and writes the file; [false] is an early return of [?]. *)
Definition write_member (path : str) (data : bytes) : io ev bool :=
  match parent path with
  | Some dir =>
      perform _d := CreateDirAll dir in
      perform ok := CreateFile path in
      if (ok : bool) then perform ok := WriteAll path data in Ret ok else Ret false
  | None =>
      perform ok := CreateFile path in
      if (ok : bool) then perform ok := WriteAll path data in Ret ok else Ret false
  end.

Fixpoint extract_loop (fuel : nat) (data : bytes) (off : Z) (control : option bytes)
    (written : list str) : io ev extraction :=
  match fuel with
  | O => Ret ExFuel
  | S fuel =>
      let len := Z.of_nat (length data) in
      let off1 := usize (off + 512) in
      if len <? off1 then Ret (ExOk (mkExtracted control written))
      else if off1 <? off then Ret ExAbort
      else
        let hdr := slice data (Z.to_nat off) (Z.to_nat off1) in
        if forallb (Z.eqb 0) hdr then Ret (ExOk (mkExtracted control written))
        else
          let name := cstr (slice hdr 0 100) in
          let size := octal (slice hdr 124 136) in
          let typeflag := byte_at hdr 156 in
          let hi := Z.min (usize (off1 + size)) len in
          if hi <? off1 then Ret ExAbort
          else
            let file_data := slice data (Z.to_nat off1) (Z.to_nat hi) in
            let off2 := usize (off1 + align512 size) in
            if bool_decide (name = []) then extract_loop fuel data off2 control written
            else if is_control name then extract_loop fuel data off2 (Some file_data) written
            else
              let path := sanitize name in
              if typeflag =? 53 then
                perform _d := CreateDirAll path in
                extract_loop fuel data off2 control written
              else if (typeflag =? 48) || (typeflag =? 0) then
                await ok := write_member path file_data in
                if (ok : bool) then extract_loop fuel data off2 control (written ++ [name])
                else Ret ExErr
              else extract_loop fuel data off2 control written
  end.
Definition extract_ustar (fuel : nat) (data : bytes) : io ev extraction :=
  extract_loop fuel data 0 None [].

(** ** Commands *)
Definition update (repo : str) : io ev exit :=
  await body := http_get (repo ++ lit "/Packages") in
  match body with
  | Some body => perform _w := WriteFile index_path body in Ret (Exit 0)
  | None => Ret (Exit 1)
  end.

Definition list_index : io ev exit :=
  perform t := ReadToString index_path in
  match t with Some _ => Ret (Exit 0) | None => Ret (Exit 1) end.

(** The size and digest checks of [install]: [true] is go on. *)
Definition verified (entry : Entry) (blob : bytes) : bool :=
  match size entry with Some sz => Z.of_nat (length blob) =? sz | None => true end &&
  match sha256 entry with
  | Some want => eq_ignore_ascii_case (Sha.hex (Sha.digest_bytes blob)) want
  | None => false
  end.

Definition install (fuel : nat) (repo name : str) : io ev exit :=
  perform index := ReadToString index_path in
  match index with
  | None => Ret (Exit 1)
  | Some index =>
      match find_entry index name with
      | None => Ret (Exit 1)
      | Some entry =>
          await blob := http_get (repo ++ lit "/" ++ filename entry) in
          match blob with
          | None => Ret (Exit 1)
          | Some blob =>
              if verified entry blob then
                await r := extract_ustar fuel blob in
                match r with
                | ExOk ex =>
                    perform _w := WriteFile (list_path name) (Utf8.encode (join [LF] (files ex))) in
                    match control ex with
                    | Some ctrl => perform _w := WriteFile (control_path name) ctrl in Ret (Exit 0)
                    | None => Ret (Exit 0)
                    end
                | ExErr => Ret (Exit 1)
                | ExAbort => Ret Abort
                | ExFuel => Ret OutOfFuel
                end
              else Ret (Exit 1)
          end
      end
  end.

Fixpoint remove_files (l : list str) : io ev unit :=
  match l with
  | [] => Ret tt
  | f :: l =>
      if negb (bool_decide (f = [])) && negb (bool_decide (f = lit "./control"))
      then perform _r := RemoveFile f in remove_files l
      else remove_files l
  end.

Definition remove (name : str) : io ev exit :=
  perform m := ReadToString (list_path name) in
  match m with
  | None => Ret (Exit 1)
  | Some manifest =>
      await _u := remove_files (lines manifest) in
      perform _r := RemoveFile (list_path name) in
      Ret (Exit 0)
  end.

Definition run (fuel : nat) (repo : str) (args : list str) : io ev exit :=
  perform _d := CreateDirAll (STATE ++ lit "/installed") in
  match args with
  | a :: rest =>
      if bool_decide (a = lit "update") then update repo
      else if bool_decide (a = lit "list") then list_index
      else if bool_decide (a = lit "install") then
        match rest with name :: _ => install fuel repo name | [] => Ret (Exit 1) end
      else if bool_decide (a = lit "remove") then
        match rest with name :: _ => remove name | [] => Ret (Exit 1) end
      else Ret (Exit 1)
  | [] => Ret (Exit 1)
  end.

(** * Specification *)

(** ** A ustar archive *)
Record member := mkMember {
  m_name : str; m_type : byte; m_data : bytes;
  m_meta1 : bytes;   (* mode, uid, gid: 24 bytes *)
  m_meta2 : bytes;   (* mtime, checksum: 20 bytes *)
  m_rest : bytes     (* link name, magic, owners, prefix: 355 bytes *)
}.

(** [k] octal digits. *)
Fixpoint octal_digits (k : nat) (n : Z) : bytes :=
  match k with
  | O => []
  | S k => octal_digits k (n / 8) ++ [48 + n mod 8]
  end.

Definition header (m : member) : bytes :=
  let name := Utf8.encode (m_name m) in
  name ++ replicate (100 - length name) 0 ++ m_meta1 m ++
  octal_digits 11 (Z.of_nat (length (m_data m))) ++ [0] ++ m_meta2 m ++ [m_type m] ++ m_rest m.
Definition body (m : member) : bytes :=
  m_data m ++ replicate ((512 - length (m_data m) mod 512) mod 512) 0.
Definition archive (ms : list member) : bytes := concat (map (λ m, header m ++ body m) ms).

Record member_ok (m : member) : Prop := {
  mo_name : m_name m ≠ [];
  mo_chars : Forall (λ c, char_ok c ∧ c ≠ 0%N) (m_name m);
  mo_length : (length (Utf8.encode (m_name m)) <= 100)%nat;
  mo_meta1 : length (m_meta1 m) = 24%nat;
  mo_meta2 : length (m_meta2 m) = 20%nat;
  mo_rest : length (m_rest m) = 355%nat
}.

(** What the extractor has to do with the members, one after the other. *)
Fixpoint install_members (ms : list member) (control : option bytes) (written : list str) : io ev extraction :=
  match ms with
  | [] => Ret (ExOk (mkExtracted control written))
  | m :: ms =>
      if is_control (m_name m) then install_members ms (Some (m_data m)) written
      else if m_type m =? 53 then
        perform _d := CreateDirAll (sanitize (m_name m)) in install_members ms control written
      else if (m_type m =? 48) || (m_type m =? 0) then
        await ok := write_member (sanitize (m_name m)) (m_data m) in
        if (ok : bool) then install_members ms control (written ++ [m_name m]) else Ret ExErr
      else install_members ms control written
  end.

(** ** Confined paths: absolute, without a parent component *)
Definition confined (path : str) : Prop :=
  ∃ comps, path = chr "/" :: join (lit "/") comps ∧
    Forall (λ c, c ≠ [] ∧ c ≠ lit ".." ∧ no_char (chr "/") c) comps.

(** The path an event writes to, if any. *)
Definition written_path (c : call ev) : option str :=
  match c with
  | Call e _ => match e with
    | WriteFile p _ | CreateDirAll p | CreateFile p | WriteAll p _ => Some p
    | _ => None
    end
  end.

(** * Lemmas *)

(** ** Sanitised names *)
Lemma split_on_free p s : Forall (λ x, Forall (λ c, p c = false) x) (split_on p s).
Proof.
  induction s as [|c s IH]; simpl; [repeat constructor|].
  destruct (p c) eqn:E; [by constructor|].
  destruct (split_on p s); [repeat constructor; done|].
  apply Forall_cons in IH as [H1 H2]. repeat constructor; done.
Qed.

Lemma sanitize_confined_lemma name : confined (sanitize name).
Proof.
  unfold sanitize. eexists. split; [reflexivity|].
  set (s := trim_start_matches _ _). clearbody s.
  apply Forall_forall. intros c Hc. apply list_elem_of_filter in Hc as [Hs Hc].
  pose proof (split_on_free (N.eqb (chr "/")) s) as Hf. rewrite Forall_forall in Hf.
  unfold safe_component in Hs. apply Is_true_true in Hs. apply andb_prop in Hs as [H1 H2].
  repeat split.
  - by intros ->.
  - intros ->. by rewrite bool_decide_eq_true_2 in H1.
  - eapply Forall_impl; [apply Hf, Hc|]. intros x Hx ->. by rewrite N.eqb_refl in Hx.
Qed.

Lemma rdrop_while_prefix {A} (p : A → bool) l : ∃ k, l = rdrop_while p l ++ k.
Proof.
  unfold rdrop_while. destruct (drop_while_suffix p (reverse l)) as [k Hk].
  exists (reverse k). rewrite <- reverse_app, <- Hk. by rewrite reverse_involutive.
Qed.

Lemma parent_confined path dir : confined path → parent path = Some dir → confined dir.
Proof.
  intros (comps & -> & Hc). unfold parent.
  destruct comps as [|c comps].
  { simpl. intros H. vm_compute in H. done. }
  set (all := c :: comps) in *.
  assert (E : split_char (chr "/") (chr "/" :: join (lit "/") all) = [] :: all).
  { change (chr "/" :: join (lit "/") all) with (join [chr "/"] ([] :: all)).
    apply split_char_join; [done|]. constructor; [constructor|].
    eapply Forall_impl; [exact Hc|]. by intros x (_ & _ & ?). }
  rewrite E. destruct (rdrop_while_prefix ignored ([] :: all)) as [k Hk].
  destruct (rdrop_while ignored ([] :: all)) as [|d l]; [done|].
  assert (d = [] ∧ ∃ k, all = l ++ k) as [-> [k' Hk']].
  { simpl in Hk. injection Hk as -> Hk. split; [done|by exists k]. }
  simpl length. rewrite Nat.sub_succ, Nat.sub_0_r.
  destruct (rdrop_while_prefix ignored (take (length l) ([] :: l))) as [k2 Hk2].
  destruct (rdrop_while ignored (take _ _)) as [|d2 up] eqn:Eup.
  { intros [= <-]. by exists []. }
  intros [= <-]. destruct l as [|x l].
  { simpl in Hk2. done. }
  simpl in Hk2. injection Hk2 as <- Hk2.
  destruct up as [|u up].
  { apply (rdrop_while_last _ _ [] []) in Eup. done. }
  exists (u :: up). split; [done|].
  rewrite Hk' in Hc. apply Forall_app in Hc as [Hc _].
  rewrite <- (firstn_skipn (length l) (x :: l)) in Hc. apply Forall_app in Hc as [Hc _].
  change (firstn (length l) (x :: l)) with (take (length l) (x :: l)) in Hc.
  rewrite Hk2 in Hc. by apply Forall_app in Hc as [? _].
Qed.

(** ** What the events of a run may write *)
Definition writes_within (P : str → Prop) (t : list (call ev)) : Prop :=
  Forall (λ c, ∀ p, written_path c = Some p → P p) t.

Lemma writes_within_app P t u : writes_within P (t ++ u) ↔ writes_within P t ∧ writes_within P u.
Proof. apply Forall_app. Qed.
Lemma writes_within_cons P c t :
  (∀ p, written_path c = Some p → P p) → writes_within P t → writes_within P (c :: t).
Proof. by constructor. Qed.
Lemma writes_within_nil P : writes_within P [].
Proof. constructor. Qed.
Lemma writes_within_impl (P Q : str → Prop) t :
  (∀ p, P p → Q p) → writes_within P t → writes_within Q t.
Proof. intros H Ht. eapply Forall_impl; [exact Ht|]. intros c Hc p Hp. auto. Qed.

(** Steps through a run whose code is a cascade of events and tests. *)
Ltac open_run H :=
  repeat first [progress run_inv H
    |match type of H with runs (match ?x with _ => _ end) _ _ => destruct x eqn:? end].
Ltac no_writes :=
  repeat first [apply writes_within_cons; [by intros ? [=]|]|apply writes_within_nil].

Lemma http_get_writes url t r : runs (http_get url) t r → writes_within (λ _, False) t.
Proof. unfold http_get. intros H. open_run H; no_writes. Qed.

(** A body comes from a response that was read. *)
Lemma http_get_body url t b :
  runs (http_get url) t (Some b) → ∃ raw, Call ReadToEnd (Some raw) ∈ t ∧ http_body raw = Some b.
Proof.
  unfold http_get. intros H.
  destruct (strip_prefix _ url) as [rest|]; [|run_inv H].
  destruct (split_once _ rest) as [[h p]|];
    (run_inv H; destruct (negb x); [run_inv H|]; run_inv H; destruct (negb x0); [run_inv H|];
     run_inv H; apply runs_ret_inv in H as [-> H]; destruct x1 as [raw|]; [|done];
     exists raw; split; [set_solver|done]).
Qed.

Lemma write_member_writes path data t r :
  confined path → runs (write_member path data) t r → writes_within confined t.
Proof.
  unfold write_member. intros Hp H. destruct (parent path) as [dir|] eqn:Ed.
  - pose proof (parent_confined _ _ Hp Ed).
    open_run H; repeat first [apply writes_within_cons; [by intros ? [= <-]|]|apply writes_within_nil].
  - open_run H; repeat first [apply writes_within_cons; [by intros ? [= <-]|]|apply writes_within_nil].
Qed.

Lemma extract_loop_writes fuel : ∀ data off c w t r,
  runs (extract_loop fuel data off c w) t r → writes_within confined t.
Proof.
  induction fuel as [|fuel IH]; intros data off c w t r; cbn [extract_loop].
  { intros H. run_inv H. no_writes. }
  intros H.
  repeat match type of H with
  | runs (Ret _) _ _ => run_inv H; apply writes_within_nil
  | runs (extract_loop _ _ _ _ _) _ _ => by eapply IH
  | runs (Vis _ _) _ _ =>
      run_inv H; apply writes_within_cons; [intros ? [= <-]; apply sanitize_confined_lemma|]
  | runs (io_bind _ _) _ _ =>
      apply runs_bind_inv in H; destruct H as (t1 & t2 & ok & -> & H1 & H);
      apply writes_within_app; split;
      [eapply write_member_writes; [apply sanitize_confined_lemma|exact H1]|]
  | runs (if ?b then _ else _) _ _ => destruct b
  end.
Qed.

(** ** Reading a header back *)
Lemma length_octal_digits k n : length (octal_digits k n) = k.
Proof. revert n. induction k as [|k IH]; intros n; simpl; [done|]. rewrite length_app, IH. simpl. lia. Qed.

Lemma octal_digits_range k n : Forall (λ b, 48 <= b < 56) (octal_digits k n).
Proof.
  revert n. induction k as [|k IH]; intros n; simpl; [constructor|].
  apply Forall_app_2; [apply IH|]. pose proof (Z.mod_pos_bound n 8 ltac:(lia)). repeat constructor; lia.
Qed.

Lemma parse_octal_digits k : ∀ n, 0 <= n < 2 ^ 32 → n < 8 ^ Z.of_nat k →
  parse_digits 8 32 (map Z.to_N (octal_digits k n)) 0 = Some n.
Proof.
  induction k as [|k IH]; intros n Hn Hk.
  - simpl in *. f_equal. lia.
  - rewrite Nat2Z.inj_succ, Z.pow_succ_r in Hk by lia. cbn [octal_digits]. rewrite map_app, parse_digits_app.
    pose proof (Z.mod_pos_bound n 8 ltac:(lia)) as Hm. pose proof (Z.div_mod n 8 ltac:(lia)) as Hd.
    rewrite IH by lia. cbn [map mbind option_bind parse_digits].
    assert (digit_val 8 (Z.to_N (48 + n mod 8)) = Some (n mod 8)) as ->.
    { unfold digit_val. rewrite Z2N.id by lia.
      destruct (Z.leb_spec 48 (48 + n mod 8)); [|lia]. destruct (Z.leb_spec (48 + n mod 8) 57); [|lia].
      simpl. destruct (Z.ltb_spec (48 + n mod 8 - 48) 8); [|lia]. f_equal. lia. }
    destruct (Z.ltb_spec (n / 8 * 8 + n mod 8) (2 ^ 32)); [|lia]. f_equal. lia.
Qed.

Lemma octal_field n : 0 <= n < 2 ^ 31 → octal (octal_digits 11 n ++ [0]) = n.
Proof.
  intros Hn. unfold octal, cstr. pose proof (octal_digits_range 11 n) as Hr.
  rewrite take_while_app_stop; [|apply forallb_forall; intros b Hb|done].
  2: { rewrite Forall_forall in Hr. apply list_elem_of_In in Hb. apply Hr in Hb.
       destruct (Z.eqb_spec b 0); [lia|done]. }
  set (s := map Z.to_N (octal_digits 11 n)).
  assert (Es : octal_digits 11 n = Utf8.encode s).
  { unfold s. rewrite Utf8.encode_ascii.
    - rewrite map_map, <- (map_id (octal_digits 11 n)) at 1. apply map_ext_in. intros b Hb.
      rewrite Forall_forall in Hr. apply list_elem_of_In in Hb. apply Hr in Hb. lia.
    - apply Forall_map. eapply Forall_impl; [exact Hr|]. unfold Utf8.ascii, compose. lia. }
  assert (Hs : Forall (λ c, (48 <= c < 56)%N) s).
  { apply Forall_map. eapply Forall_impl; [exact Hr|]. unfold compose. simpl. lia. }
  assert (Hlen : length s = 11%nat) by (unfold s; by rewrite length_map, length_octal_digits).
  rewrite Es, Utf8.lossy_encode.
  2: { eapply Forall_impl; [exact Hs|]. unfold char_ok. simpl. lia. }
  assert (Hw : Forall (λ c, is_whitespace c = false) s).
  { eapply Forall_impl; [exact Hs|]. intros c Hc. simpl in Hc.
    assert (∀ i, (i < 8)%nat → is_whitespace (48 + N.of_nat i) = false) as Hd.
    { intros i Hi. do 8 (destruct i as [|i]; [done|]). lia. }
    replace c with (48 + N.of_nat (N.to_nat (c - 48)))%N by lia. apply Hd. lia. }
  rewrite trimmed_trim.
  2: { split; intros x k ->; [by apply Forall_cons in Hw as [? _]|].
       apply Forall_app in Hw as [_ Hw]. by apply Forall_cons in Hw as [? _]. }
  unfold from_str_radix.
  assert (Ep : parse_digits 8 32 s 0 = Some n) by (apply parse_octal_digits; simpl; lia).
  destruct s as [|c s']; [done|].
  assert ((c =? chr "+")%N = false) as ->; [|by rewrite Ep].
  apply Forall_cons in Hs as [Hc _]. apply N.eqb_neq. lia.
Qed.

Lemma encode_char_nonzero c : char_ok c → c ≠ 0%N → Forall (λ b, b ≠ 0) (Utf8.encode_char c).
Proof.
  unfold char_ok, Utf8.encode_char. intros Hc Hz.
  repeat case_step; repeat constructor; Z.to_euclidean_division_equations; lia.
Qed.

Lemma encode_nonzero s :
  Forall (λ c, char_ok c ∧ c ≠ 0%N) s → forallb (λ b, negb (b =? 0)) (Utf8.encode s) = true.
Proof.
  induction 1 as [|c s [Hc Hz] _ IH]; [done|]. rewrite Utf8.encode_cons, forallb_app, IH, andb_true_r.
  pose proof (encode_char_nonzero c Hc Hz) as H. apply forallb_forall. intros b Hb.
  rewrite Forall_forall in H. apply list_elem_of_In in Hb. apply H in Hb.
  by destruct (Z.eqb_spec b 0).
Qed.

Lemma cstr_field s n :
  Forall (λ c, char_ok c ∧ c ≠ 0%N) s → cstr (Utf8.encode s ++ replicate n 0) = s.
Proof.
  intros Hs. unfold cstr. pose proof (encode_nonzero s Hs) as Hz.
  assert (take_while (λ c, negb (c =? 0)) (Utf8.encode s ++ replicate n 0) = Utf8.encode s) as ->.
  { destruct n as [|n]; [rewrite app_nil_r; by apply take_while_id|]. by apply take_while_app_stop. }
  apply Utf8.lossy_encode. eapply Forall_impl; [exact Hs|]. by intros c [? _].
Qed.

Lemma length_tar_header m : member_ok m → length (header m) = 512%nat.
Proof.
  intros [_ _ Hl H1 H2 H3]. unfold header.
  rewrite !length_app, length_replicate, length_octal_digits, H1, H2, H3. simpl length. lia.
Qed.

Lemma header_fields m :
  member_ok m → Z.of_nat (length (m_data m)) < 2 ^ 31 →
  cstr (slice (header m) 0 100) = m_name m ∧
  octal (slice (header m) 124 136) = Z.of_nat (length (m_data m)) ∧
  byte_at (header m) 156 = m_type m ∧ forallb (Z.eqb 0) (header m) = false.
Proof.
  intros [Hne Hc Hl H1 H2 H3] Hd. unfold header.
  set (nm := Utf8.encode (m_name m)) in *.
  set (oct := octal_digits 11 _).
  assert (Ho : length oct = 11%nat) by apply length_octal_digits.
  repeat split.
  - rewrite app_assoc, slice_app_l by (rewrite ?length_app, ?length_replicate; lia).
    rewrite slice_full by (rewrite length_app, length_replicate; lia). by apply cstr_field.
  - replace (nm ++ replicate (100 - length nm) 0 ++ m_meta1 m ++ oct ++ [0] ++ m_meta2 m ++ [m_type m] ++ m_rest m)
      with ((nm ++ replicate (100 - length nm) 0 ++ m_meta1 m) ++ (oct ++ [0]) ++ m_meta2 m ++ [m_type m] ++ m_rest m)
      by (by rewrite <- !app_assoc).
    rewrite slice_app_r by (rewrite !length_app, length_replicate; lia).
    rewrite !length_app, length_replicate, H1, slice_app_l by (rewrite ?length_app, ?Ho; simpl; lia).
    replace (124 - (length nm + (100 - length nm + 24)))%nat with 0%nat by lia.
    rewrite slice_full by (rewrite length_app, Ho; simpl; lia). apply octal_field. lia.
  - replace (nm ++ replicate (100 - length nm) 0 ++ m_meta1 m ++ oct ++ [0] ++ m_meta2 m ++ [m_type m] ++ m_rest m)
      with ((nm ++ replicate (100 - length nm) 0 ++ m_meta1 m ++ oct ++ [0] ++ m_meta2 m) ++ [m_type m] ++ m_rest m)
      by (by rewrite <- !app_assoc).
    unfold byte_at. rewrite app_nth2 by (rewrite !length_app, length_replicate, H1, Ho, H2; simpl; lia).
    rewrite !length_app, length_replicate, H1, Ho, H2. simpl length.
    replace (156 - (length nm + (100 - length nm + (24 + (11 + (1 + 20))))))%nat with 0%nat by lia. done.
  - destruct (m_name m) as [|c s] eqn:En; [done|]. apply Forall_cons in Hc as [[Hc Hz] _].
    pose proof (encode_char_nonzero c Hc Hz) as H. pose proof (Utf8.encode_char_nonempty c) as Hn.
    unfold nm. rewrite Utf8.encode_cons. destruct (Utf8.encode_char c) as [|b l]; [done|].
    apply Forall_cons in H as [Hb _]. simpl.
    by destruct b.
Qed.

Lemma align512_spec n : 0 <= n < 2 ^ 31 → align512 n = n + (512 - n mod 512) mod 512.
Proof.
  intros Hn. unfold align512, usize. rewrite wrap_small by (unfold in_u; lia).
  assert (E : not32 511 = Z.shiftl (Z.ones 23) 9) by reflexivity.
  assert (En : Z.land (n + 511) (not32 511) = (n + 511) / 512 * 512).
  { rewrite E. change 512 with (2 ^ 9). rewrite <- Z.shiftr_div_pow2, <- Z.shiftl_mul_pow2 by lia.
    apply Z.bits_inj'. intros i Hi. rewrite Z.land_spec.
    destruct (Z.lt_ge_cases i 9) as [Hlt|Hge].
    - rewrite !Z.shiftl_spec_low by lia. apply andb_false_r.
    - rewrite !Z.shiftl_spec, Z.shiftr_spec by lia. replace (i - 9 + 9) with i by lia.
      destruct (Z.lt_ge_cases (i - 9) 23).
      + rewrite Z.ones_spec_low by lia. apply andb_true_r.
      + rewrite Z.ones_spec_high by lia. rewrite andb_false_r. symmetry.
        apply Z.bits_above_log2; [lia|]. apply Z.lt_le_trans with 32; [|lia].
        apply Z.log2_lt_pow2; lia. }
  rewrite En. Z.to_euclidean_division_equations. lia.
Qed.

Lemma length_body m : Z.of_nat (length (m_data m)) < 2 ^ 31 →
  Z.of_nat (length (body m)) = align512 (Z.of_nat (length (m_data m))).
Proof.
  intros Hd. rewrite align512_spec by lia. unfold body. rewrite length_app, length_replicate.
  pose proof (Nat.mod_upper_bound (length (m_data m)) 512 ltac:(lia)).
  rewrite Nat2Z.inj_add, Nat2Z.inj_mod, Nat2Z.inj_sub, Nat2Z.inj_mod by lia. done.
Qed.

(** ** One member of a well-formed archive *)
Lemma slice_mid {A} (a b c : list A) : slice (a ++ b ++ c) (length a) (length a + length b) = b.
Proof.
  rewrite slice_app_r by lia. rewrite Nat.sub_diag.
  replace (length a + length b - length a)%nat with (length b) by lia.
  rewrite slice_app_l by lia. by apply slice_full.
Qed.

(** The extractor's iteration on member [m], as one step of [install_members]. *)
Lemma extract_member fuel pre m post c w :
  member_ok m →
  let data := pre ++ (header m ++ body m) ++ post in
  Z.of_nat (length data) < 2 ^ 31 →
  extract_loop (S fuel) data (Z.of_nat (length pre)) c w =
    let off := Z.of_nat (length (pre ++ header m ++ body m)) in
    if is_control (m_name m) then extract_loop fuel data off (Some (m_data m)) w
    else if m_type m =? 53 then
      perform _d := CreateDirAll (sanitize (m_name m)) in extract_loop fuel data off c w
    else if (m_type m =? 48) || (m_type m =? 0) then
      await ok := write_member (sanitize (m_name m)) (m_data m) in
      if (ok : bool) then extract_loop fuel data off c (w ++ [m_name m]) else Ret ExErr
    else extract_loop fuel data off c w.
Proof.
  intros Hm data Hlen. pose proof (length_tar_header m Hm) as Hh.
  assert (Hl : length data = (length pre + 512 + length (body m) + length post)%nat)
    by (unfold data; rewrite !length_app; lia).
  assert (Hb : length (body m) = (length (m_data m) + (512 - length (m_data m) mod 512) mod 512)%nat)
    by (unfold body; by rewrite length_app, length_replicate).
  assert (Hd : Z.of_nat (length (m_data m)) < 2 ^ 31) by lia.
  pose proof (length_body m Hd) as Hbody.
  destruct (header_fields m Hm Hd) as (F1 & F2 & F3 & F4).
  cbn [extract_loop]. unfold usize. rewrite (wrap_small 32 (Z.of_nat (length pre) + 512)) by (unfold in_u; lia).
  destruct (Z.ltb_spec (Z.of_nat (length data)) (Z.of_nat (length pre) + 512)); [lia|].
  destruct (Z.ltb_spec (Z.of_nat (length pre) + 512) (Z.of_nat (length pre))); [lia|].
  replace (Z.to_nat (Z.of_nat (length pre) + 512)) with (length pre + length (header m))%nat by lia.
  rewrite Nat2Z.id.
  assert (slice data (length pre) (length pre + length (header m)) = header m) as ->.
  { unfold data. rewrite <- !app_assoc. apply slice_mid. }
  rewrite F1, F2, F3, F4.
  rewrite (wrap_small 32 (Z.of_nat (length pre) + 512 + Z.of_nat (length (m_data m)))) by (unfold in_u; lia).
  rewrite Z.min_l by lia.
  destruct (Z.ltb_spec (Z.of_nat (length pre) + 512 + Z.of_nat (length (m_data m))) (Z.of_nat (length pre) + 512)); [lia|].
  assert (slice data (length pre + length (header m))
    (Z.to_nat (Z.of_nat (length pre) + 512 + Z.of_nat (length (m_data m)))) = m_data m) as ->.
  { replace (Z.to_nat (Z.of_nat (length pre) + 512 + Z.of_nat (length (m_data m))))
      with (length (pre ++ header m) + length (m_data m))%nat by (rewrite length_app; lia).
    rewrite <- length_app. unfold data, body. rewrite <- !app_assoc, (app_assoc pre). apply slice_mid. }
  rewrite <- Hbody, wrap_small by (unfold in_u; lia).
  rewrite bool_decide_eq_false_2 by apply Hm.
  replace (Z.of_nat (length pre) + 512 + Z.of_nat (length (body m)))
    with (Z.of_nat (length (pre ++ header m ++ body m))) by (rewrite !length_app; lia).
  done.
Qed.

Lemma forallb_replicate {A} (p : A → bool) n x : p x = true → forallb p (replicate n x) = true.
Proof. intros H. induction n; simpl; by rewrite ?H. Qed.

(** At the two zero blocks the loop ends. *)
Lemma extract_end fuel pre c w :
  let data := pre ++ replicate 1024 0 in
  Z.of_nat (length data) < 2 ^ 31 →
  extract_loop (S fuel) data (Z.of_nat (length pre)) c w = Ret (ExOk (mkExtracted c w)).
Proof.
  intros data Hlen. assert (Hl : length data = (length pre + 1024)%nat)
    by (unfold data; by rewrite length_app, length_replicate).
  cbn [extract_loop]. unfold usize. rewrite (wrap_small 32) by (unfold in_u; lia).
  destruct (Z.ltb_spec (Z.of_nat (length data)) (Z.of_nat (length pre) + 512)); [lia|].
  destruct (Z.ltb_spec (Z.of_nat (length pre) + 512) (Z.of_nat (length pre))); [lia|].
  replace (Z.to_nat (Z.of_nat (length pre) + 512)) with (length pre + 512)%nat by lia.
  rewrite Nat2Z.id. unfold data. change (replicate 1024 0) with (replicate 512 0 ++ replicate 512 0).
  assert (slice (pre ++ replicate 512 0 ++ replicate 512 0) (length pre) (length pre + 512) = replicate 512 0) as ->.
  { rewrite <- (length_replicate 512 0) at 3. apply slice_mid. }
  by rewrite forallb_replicate.
Qed.

Lemma extract_archive_from ms : ∀ fuel pre c w,
  Forall member_ok ms → (length ms < fuel)%nat →
  let data := pre ++ archive ms ++ replicate 1024 0 in
  Z.of_nat (length data) < 2 ^ 31 →
  extract_loop fuel data (Z.of_nat (length pre)) c w ≡ install_members ms c w.
Proof.
  induction ms as [|m ms IH]; intros fuel pre c w Hms Hf data Hlen; (destruct fuel as [|fuel]; [simpl in Hf; lia|]).
  - pose proof (extract_end fuel pre c w Hlen) as E. unfold data, archive. cbn [map concat app] in *.
    by rewrite E.
  - apply Forall_cons in Hms as [Hm Hms].
    assert (Ed : data = pre ++ (header m ++ body m) ++ archive ms ++ replicate 1024 0).
    { unfold data, archive. cbn [map concat]. by rewrite <- !app_assoc. }
    rewrite Ed in *. rewrite (extract_member fuel pre m _ c w Hm Hlen). cbv zeta.
    assert (Hnext : ∀ c w, extract_loop fuel (pre ++ (header m ++ body m) ++ archive ms ++ replicate 1024 0)
      (Z.of_nat (length (pre ++ header m ++ body m))) c w ≡ install_members ms c w).
    { intros c' w'. specialize (IH fuel (pre ++ header m ++ body m) c' w' Hms ltac:(simpl in Hf; lia)).
      cbv zeta in IH. rewrite <- !app_assoc in *. by apply IH. }
    cbn [install_members]. repeat case_match; try apply Hnext.
    + by apply vis_equiv.
    + apply bind_equiv. intros [|]; [apply Hnext|done].
Qed.

(** * Properties *)

(** C14. Whatever the server sends and whatever the archive contains, every
    file or directory an installation creates has an absolute path without a
    parent component, or is the package's own record under /var/ipkg. *)
Theorem install_confined fuel repo name t r :
  runs (install fuel repo name) t r →
  writes_within (λ p, confined p ∨ p = list_path name ∨ p = control_path name) t.
Proof.
  unfold install. intros H. run_inv H. apply writes_within_cons; [by intros ? [=]|].
  destruct x as [index|]; [|run_inv H; apply writes_within_nil].
  destruct (find_entry index name) as [e|]; [|run_inv H; apply writes_within_nil].
  run_inv H. apply writes_within_app. split.
  { eapply writes_within_impl; [|by eapply http_get_writes]. done. }
  destruct a as [blob|]; [|run_inv H; apply writes_within_nil].
  destruct (verified e blob); [|run_inv H; apply writes_within_nil].
  run_inv H. apply writes_within_app. split.
  { eapply writes_within_impl; [|by eapply extract_loop_writes]. auto. }
  destruct a as [ex| | |]; [|run_inv H; apply writes_within_nil..].
  run_inv H. apply writes_within_cons; [intros ? [= <-]; auto|].
  destruct (control ex); [|run_inv H; apply writes_within_nil].
  run_inv H. run_inv H. apply writes_within_cons; [intros ? [= <-]; auto|apply writes_within_nil].
Qed.

(** C13. Nothing is written before the download is verified: in every run of an
    installation that creates anything, the trace splits into a part without
    writes, in which the index was read and the response received, and the
    rest; the index has a stanza for the package with a SHA-256, the size
    matches if given, and the FIPS 180-4 digest of the body in hexadecimal is
    that value up to letter case. *)
Theorem install_verifies fuel repo name t r :
  runs (install fuel repo name) t r →
  writes_within (λ _, False) t ∨
  ∃ t1 t2 index entry raw blob want,
    t = t1 ++ t2 ∧ writes_within (λ _, False) t1 ∧
    Call (ReadToString index_path) (Some index) ∈ t1 ∧ find_entry index name = Some entry ∧
    Call ReadToEnd (Some raw) ∈ t1 ∧ http_body raw = Some blob ∧
    (∀ sz, size entry = Some sz → Z.of_nat (length blob) = sz) ∧
    sha256 entry = Some want ∧
    eq_ignore_ascii_case (Sha.hex (Fips.sha256 blob)) want = true.
Proof.
  unfold install. intros H. run_inv H.
  destruct x as [index|]; [|run_inv H; left; no_writes].
  destruct (find_entry index name) as [e|] eqn:Ee; [|run_inv H; left; no_writes].
  run_inv H. pose proof (http_get_writes _ _ _ H0) as Hw.
  destruct a as [blob|]; [|run_inv H; left; rewrite app_nil_r; by apply writes_within_cons; [intros ? [=]|]].
  destruct (verified e blob) eqn:Ev;
    [|run_inv H; left; rewrite app_nil_r; by apply writes_within_cons; [intros ? [=]|]].
  right. destruct (http_get_body _ _ _ H0) as (raw & Hraw & Hb).
  unfold verified in Ev. apply andb_prop in Ev as [Es Ed].
  destruct (sha256 e) as [want|] eqn:Esha; [|done].
  match goal with |- context [?c :: ?a ++ ?b] =>
    exists (c :: a), b, index, e, raw, blob, want end.
  split; [done|]. split; [by apply writes_within_cons; [intros ? [=]|]|].
  split; [by left|]. split; [done|]. split; [by right|]. split; [done|]. split.
  - intros sz Hsz. rewrite Hsz in Es. by apply Z.eqb_eq.
  - split; [done|]. by rewrite <- Sha.digest_bytes_fips.
Qed.

(** C15. Extraction of a well-formed archive (any members, two zero blocks at
    the end, less than 2 GiB) terminates within one iteration per member and
    does exactly what the members ask for, in order, in every environment:
    regular files are written with their own bytes under their sanitised path
    after their directory, directories are created, the control member is
    captured and never written, links and devices are skipped, and the first
    failing write stops the installation. *)
Theorem extract_archive ms fuel :
  Forall member_ok ms → (length ms < fuel)%nat →
  Z.of_nat (length (archive ms ++ replicate 1024 0)) < 2 ^ 31 →
  extract_ustar fuel (archive ms ++ replicate 1024 0) ≡ install_members ms None [].
Proof. intros Hm Hf Hl. by apply (extract_archive_from ms fuel []). Qed.

Definition demo_member (name : str) (ty : byte) (data : bytes) : member :=
  mkMember name ty data (replicate 24 48) (replicate 20 48) (replicate 355 0).

Lemma extract_archive_witness :
  extract_ustar 3 (archive [demo_member (lit "./control") 48 [1; 2]; demo_member (lit "../etc/x") 48 [7]]
    ++ replicate 1024 0)
  ≡ install_members [demo_member (lit "./control") 48 [1; 2]; demo_member (lit "../etc/x") 48 [7]] None [].
Proof.
  apply extract_archive; [|simpl; lia|vm_compute; reflexivity].
  repeat apply Forall_cons_2; [| |apply Forall_nil_2]; (split; [discriminate|..|reflexivity|reflexivity|reflexivity]);
    try (apply (bool_decide_unpack _); vm_compute; exact I).
Defined.

Definition hostile (digits : str) : bytes :=
  Utf8.encode (lit "x") ++ replicate 123 0 ++ Utf8.encode digits ++ [0] ++ replicate 20 0 ++ [50] ++ replicate 355 0.

(** Evaluates the tests of an iteration on closed data. *)
Ltac closed_tests :=
  repeat match goal with |- context [if ?b then _ else _] =>
    let v := eval vm_compute in b in
    lazymatch v with true => idtac | false => idtac end;
    replace b with v by (vm_compute; reflexivity); cbv iota end.

Lemma hostile_loops fuel :
  extract_loop (S fuel) (hostile (lit "37777776777")) 0 None []
  = extract_loop fuel (hostile (lit "37777776777")) 0 None [].
Proof.
  cbn [extract_loop]. cbv zeta. closed_tests. f_equal.
Qed.

(** A size field can defeat the extractor's offset arithmetic on this
    32-bit target: with size 37777776777 (octal) the offset wraps back to zero
    and the loop never ends, whatever the fuel; with 37777777777 the slice
    bounds are reversed and the process aborts. *)
Theorem extract_wraps fuel :
  extract_ustar fuel (hostile (lit "37777776777")) = Ret ExFuel ∧
  extract_ustar (S fuel) (hostile (lit "37777777777")) = Ret ExAbort.
Proof.
  split.
  - unfold extract_ustar. induction fuel as [|fuel IH]; [reflexivity|]. by rewrite hostile_loops.
  - unfold extract_ustar. cbn [extract_loop]. cbv zeta. closed_tests. reflexivity.
Qed.

(** ** Observations *)

(** [remove] deletes the raw member names, not the paths that were written. *)
Theorem remove_deletes_raw_names :
  ∃ t, runs (extract_ustar 2 (archive [demo_member (lit "../../etc/x") 48 [7]] ++ replicate 1024 0)) t
         (ExOk (mkExtracted None [lit "../../etc/x"])) ∧
       Call (CreateFile (lit "/etc/x")) true ∈ t ∧
       ∃ u, runs (remove (lit "p")) u (Exit 0) ∧
         Call (ReadToString (list_path (lit "p"))) (Some (lit "../../etc/x")) ∈ u ∧
         Call (RemoveFile (lit "../../etc/x")) true ∈ u.
Proof.
  exists [Call (CreateDirAll (lit "/etc")) true; Call (CreateFile (lit "/etc/x")) true;
          Call (WriteAll (lit "/etc/x") [7]) true].
  split; [|split; [set_solver|]].
  - apply (extract_archive_from [demo_member (lit "../../etc/x") 48 [7]] 2 []); [|simpl; lia|vm_compute; reflexivity|].
    + apply Forall_singleton. split; [discriminate|..|reflexivity|reflexivity|reflexivity];
        apply (bool_decide_unpack _); vm_compute; exact I.
    + cbn [install_members]. repeat (eexists _, _; split; [reflexivity|]); split; reflexivity.
  - exists [Call (ReadToString (list_path (lit "p"))) (Some (lit "../../etc/x"));
            Call (RemoveFile (lit "../../etc/x")) true; Call (RemoveFile (list_path (lit "p"))) true].
    split; [|split; set_solver]. repeat (eexists _, _; split; [reflexivity|]). split; reflexivity.
Qed.

(** Any status line that contains the text 200 after a space is a success. *)
Example status_line_is_searched :
  http_body (Utf8.encode (lit "HTTP/1.0 404 took 200 ms" ++ CRLF ++ CRLF ++ lit "x")) = Some [120].
Proof. vm_compute. reflexivity. Qed.

Example find_entry_test :
  find_entry (lit "Package: hello" ++ [LF] ++ lit "Filename: hello_1.0_mipsel.ipk" ++ [LF; LF] ++
    lit "Package: world" ++ [LF] ++ lit "Filename: world_2.1_mipsel.ipk" ++ [LF] ++ lit "Size: 99" ++ [LF] ++
    lit "SHA256sum: deadbeef" ++ [LF]) (lit "world")
  = Some (mkEntry (lit "world_2.1_mipsel.ipk") (Some 99) (Some (lit "deadbeef"))).
Proof. vm_compute. reflexivity. Qed.

(** ** A complete installation: an empty archive with its digest in the index *)
Definition demo_blob : bytes := replicate 1024 0.
Definition demo_index : str :=
  lit "Package: p" ++ [LF] ++ lit "SHA256sum: 5f70bf18a086007016e948b04aed3b82103a36bea41755b6cddfaf10ace3c6ef".
Definition demo_entry : Entry :=
  mkEntry (lit "p.ipk") None (Some (lit "5f70bf18a086007016e948b04aed3b82103a36bea41755b6cddfaf10ace3c6ef")).
Definition demo_raw : bytes := Utf8.encode (lit "HTTP/1.0 200 OK" ++ CRLF ++ CRLF) ++ demo_blob.
Definition demo_trace : list (call ev) :=
  [Call (ReadToString index_path) (Some demo_index); Call (Connect (lit "h:80")) true;
   Call (SendAll (Utf8.encode (http_request (lit "/r/p.ipk") (lit "h")))) true;
   Call ReadToEnd (Some demo_raw); Call (WriteFile (list_path (lit "p")) []) true].

Lemma demo_install : runs (install 1 (lit "http://h/r") (lit "p")) demo_trace (Exit 0).
Proof.
  exists (Some demo_index), (drop 1 demo_trace). split; [reflexivity|].
  replace (find_entry demo_index (lit "p")) with (Some demo_entry) by (vm_compute; reflexivity).
  change (drop 1 demo_trace) with (take 3 (drop 1 demo_trace) ++ drop 4 demo_trace).
  apply (runs_bind _ _ _ _ (Some demo_blob)).
  - exists true, (drop 2 (take 4 demo_trace)). split; [vm_compute; reflexivity|].
    exists true, (drop 3 (take 4 demo_trace)). split; [vm_compute; reflexivity|].
    exists (Some demo_raw), []. split; [reflexivity|]. split; [reflexivity|]. vm_compute. reflexivity.
  - assert (verified demo_entry demo_blob = true) as -> by (vm_compute; reflexivity).
    apply (runs_bind _ _ [] _ (ExOk (mkExtracted None []))).
    + split; [reflexivity|]. vm_compute. reflexivity.
    + exists true, []. split; [reflexivity|]. split; reflexivity.
Qed.

Lemma install_confined_witness :
  writes_within (λ p, confined p ∨ p = list_path (lit "p") ∨ p = control_path (lit "p")) demo_trace.
Proof. exact (install_confined 1 (lit "http://h/r") (lit "p") demo_trace (Exit 0) demo_install). Defined.

Lemma install_verifies_witness :
  writes_within (λ _, False) demo_trace ∨
  ∃ t1 t2 index entry raw blob want,
    demo_trace = t1 ++ t2 ∧ writes_within (λ _, False) t1 ∧
    Call (ReadToString index_path) (Some index) ∈ t1 ∧ find_entry index (lit "p") = Some entry ∧
    Call ReadToEnd (Some raw) ∈ t1 ∧ http_body raw = Some blob ∧
    (∀ sz, size entry = Some sz → Z.of_nat (length blob) = sz) ∧
    sha256 entry = Some want ∧
    eq_ignore_ascii_case (Sha.hex (Fips.sha256 blob)) want = true.
Proof. exact (install_verifies 1 (lit "http://h/r") (lit "p") demo_trace (Exit 0) demo_install). Defined.

End Ipkg.
