(* ===== verification/Httpd.v ===== *)
(** * The admin web interface (httpd.rs)

    Request parsing, sessions, authentication, routing and the HTML fragments.
    [route] is a program over the events that reach outside the handler: the
    shared session store, files, the random device and the signal to init.
    The settings rewriter is in [Settings.v]. *)

From S2P Require Import Prelude Words RustStr IO Utf8 Num Config Settings Sha256.
Open Scope Z_scope.

Module Httpd.

(** ** Sessions: token -> issue time, in seconds of the monotonic clock *)
Definition SESSION_TTL : Z := 3600.

Record Sessions := mkSessions { tokens : gmap str Z }.
Definition no_sessions : Sessions := mkSessions ∅.

Definition gc (now : Z) (s : Sessions) : Sessions :=
  mkSessions (filter (λ '(_, t), now - t < SESSION_TTL) (tokens s)).
(** [insert]: the clock is read once by [gc] and once for the entry. *)
Definition insert_session (now now' : Z) (token : str) (s : Sessions) : Sessions :=
  mkSessions (<[token := now']> (tokens (gc now s))).
Definition valid (now : Z) (token : str) (s : Sessions) : bool :=
  match tokens s !! token with
  | Some t => now - t <? SESSION_TTL
  | None => false
  end.

(** ** Requests *)
Record Request := mkRequest {
  method : str; path : str; body : bytes; req_cookie : option str; csrf : option str
}.

Definition cookie_token (value : str) : option str :=
  let kvs := trim <$> split_char (chr ";") value in
  head (omap (strip_prefix (lit "session=")) kvs).

(** [BufRead::read_line]: the bytes up to and including a line feed, which
    must be UTF-8. *)
Fixpoint take_line (input : bytes) : bytes * bytes :=
  match input with
  | [] => ([], [])
  | b :: input =>
      if b =? 10 then ([b], input)
      else let '(l, rest) := take_line input in (b :: l, rest)
  end.
Definition read_line (input : bytes) : option (str * bytes) :=
  let '(l, rest) := take_line input in
  s ← Utf8.from_utf8 l; Some (s, rest).

(** The variables of the header loop: content length, cookie, CSRF token. *)
Definition header_line (s : Z * option str * option str) (h : str) : Z * option str * option str :=
  let '(clen, cookie, csrf) := s in
  let lower := to_ascii_lowercase h in
  match strip_prefix (lit "content-length:") lower with
  | Some v => (default 0 (parse_uint 32 (trim v)), cookie, csrf)
  | None =>
      match strip_prefix (lit "cookie:") lower with
      | Some v => (clen, cookie_token (trim v), csrf)
      | None =>
          if starts_with (lit "x-csrf-token:") lower
          then (clen, cookie, Some (trim (drop (length (lit "x-csrf-token:")) h)))
          else s
      end
  end.

Fixpoint read_headers (fuel : nat) (input : bytes) (s : Z * option str * option str)
    : option (Z * option str * option str * bytes) :=
  match fuel with
  | O => None
  | S fuel =>
      '(h, rest) ← read_line input;
      if bool_decide (h = []) || bool_decide (h = [CR; LF]) || bool_decide (h = [LF])
      then Some (s, rest)
      else read_headers fuel rest (header_line s h)
  end.

Definition read_request (input : bytes) : option Request :=
  '(line, input) ← read_line input;
  let parts := split_whitespace line in
  let method := default [] (head parts) in
  let path := default (lit "/") (head (tail parts)) in
  '(clen, cookie, csrf, input) ← read_headers (S (length input)) input (0, None, None);
  let clen := Z.min clen (256 * 1024) in
  if Z.of_nat (length input) <? clen then None
  else Some (mkRequest method path (take (Z.to_nat clen) input) cookie csrf).

(** ** Forms and escaping *)
Definition field (form : list (str * str)) (name : str) : option str :=
  snd <$> head (List.filter (λ '(k, _), bool_decide (k = name)) form).

Definition hexval (c : byte) : option Z :=
  if (48 <=? c) && (c <=? 57) then Some (c - 48)
  else if (97 <=? c) && (c <=? 102) then Some (c - 97 + 10)
  else if (65 <=? c) && (c <=? 70) then Some (c - 65 + 10)
  else None.

(** The loop of [urldecode] over the bytes that are left. *)
Fixpoint urldecode_bytes (b : bytes) : bytes :=
  match b with
  | [] => []
  | c :: b1 =>
      if c =? 43 then 32 :: urldecode_bytes b1
      else if c =? 37 then
        match b1 with
        | x :: ((y :: b2) as b1') =>
            match hexval x, hexval y with
            | Some h, Some l => u8 (h * 16 + l) :: urldecode_bytes b2
            | _, _ => 37 :: urldecode_bytes b1
            end
        | _ => 37 :: urldecode_bytes b1
        end
      else c :: urldecode_bytes b1
  end.
Definition urldecode (s : str) : str := Utf8.lossy (urldecode_bytes (Utf8.encode s)).

Definition form_pair (p : str) : option (str * str) :=
  '(k, v) ← split_once (chr "=") p; Some (urldecode k, urldecode v).
Definition parse_form (body : bytes) : list (str * str) :=
  omap form_pair (List.filter is_nonempty (split_char (chr "&") (Utf8.lossy body))).

Definition hesc_char (c : char) : str :=
  (if c =? chr "&" then lit "&amp;"
   else if c =? chr "<" then lit "&lt;"
   else if c =? chr ">" then lit "&gt;"
   else if c =? DQ then lit "&quot;"
   else if c =? chr "'" then lit "&#39;"
   else [c])%N.
Definition hesc (s : str) : str := concat (map hesc_char s).

Definition fmt_uptime (secs : Z) : str :=
  let d := secs / 86400 in
  let h := secs mod 86400 / 3600 in
  let m := secs mod 3600 / 60 in
  if 0 <? d then dec d ++ lit "d " ++ dec h ++ lit "h " ++ dec m ++ lit "m"
  else dec h ++ lit "h " ++ dec m ++ lit "m".

(** ** Authentication *)
Definition auth_required (cfg : Config) : bool :=
  match Config.get cfg (lit "admin") (lit "password") with
  | Some _ => true
  | None => match Config.get cfg (lit "admin") (lit "password_sha256") with Some _ => true | None => false end
  end.

Definition verify_password (cfg : Config) (supplied : str) : bool :=
  match Config.get cfg (lit "admin") (lit "password_sha256") with
  | Some h => eq_ignore_ascii_case (Sha.hex (Sha.digest_bytes (Utf8.encode supplied))) (trim h)
  | None =>
      match Config.get cfg (lit "admin") (lit "password") with
      | Some p => bool_decide (p = supplied)
      | None => false
      end
  end.

Definition csrf_ok (req : Request) (cfg : Config) : bool :=
  if negb (auth_required cfg) then true
  else match req_cookie req, csrf req with
       | Some c, Some h => bool_decide (c = h)
       | _, _ => false
       end.

(** ** Events of a handler *)
Inductive ev : Set → Type :=
| SessionValid (token : str) : ev bool       (* lock the store; [valid] *)
| SessionInsert (token : str) : ev unit      (* lock the store; [insert] *)
| ReadFile (path : str) : ev (option str)
| CreateDirAll (path : str) : ev bool
| WriteFile (path : str) (data : bytes) : ev bool
| OpenRandom : ev bool                       (* open /dev/urandom *)
| ReadRandom : ev bytes                      (* the 16-byte buffer after read_exact *)
| KillInit : ev unit.                        (* kill(1, SIGTERM) *)

Definition is_authed (req : Request) (cfg : Config) : io ev bool :=
  if negb (auth_required cfg) then Ret true
  else match req_cookie req with
       | Some tok => perform ok := SessionValid tok in Ret ok
       | None => Ret false
       end.

Definition new_token : io ev str :=
  perform opened := OpenRandom in
  if (opened : bool) then perform buf := ReadRandom in Ret (Sha.hex buf)
  else Ret (Sha.hex (replicate 16 0)).

(** ** Fragments *)
Definition row (k v : str) : str :=
  lit "<div class=row><span class=k>" ++ hesc k ++ lit "</span><span>" ++ hesc v ++ lit "</span></div>".

Definition load_config : io ev Config :=
  perform t := ReadFile Config.PATH in Ret (Config.load t).

Definition frag_status : io ev str :=
  await cfg := load_config in
  let host := Config.get_or cfg (lit "system") (lit "hostname") (lit "lwrt") in
  let lan := Config.get_or cfg (lit "lan") (lit "ipaddr") (lit "192.168.1.1") in
  perform up := ReadFile (lit "/proc/uptime") in
  let uptime := default 0 (match up with
    | Some s => n ← head (split_char (chr ".") s); parse_uint 64 n
    | None => None end) in
  perform d := ReadFile (lit "/run/wan.dns") in
  let dns := default [] (d : option str) in
  perform l := ReadFile (lit "/run/dhcp.leases") in
  let clients := match l with Some t => Z.of_nat (length (lines t)) | None => 0 end in
  let wg := bool_decide (Config.get_or cfg (lit "wireguard") (lit "enabled") (lit "0") = lit "1") in
  Ret (lit "<div class=card>" ++ concat
    [row (lit "Hostname") host; row (lit "LAN address") lan; row (lit "Uptime") (fmt_uptime uptime);
     row (lit "DHCP clients") (dec clients);
     row (lit "Upstream DNS") (match trim dns with [] => [8212%N] | _ => trim dns end);
     row (lit "WireGuard VPN") (if wg then lit "enabled" else lit "off")] ++ lit "</div><div class=card><button class=act hx-post=/ui/reboot hx-target=#content hx-confirm=" ++ [DQ] ++ lit "Reboot the router?" ++ [DQ] ++ lit ">Reboot router</button></div>").

(** One line of the lease file as a table row. *)
Definition client_row (l : str) : option str :=
  match split_whitespace l with
  | _ :: mac :: ip :: name :: _ => Some (lit "<tr><td>" ++ hesc name ++ lit "<td>" ++ hesc ip ++ lit "<td>" ++ hesc mac ++ lit "</tr>")
  | _ => None
  end.

Definition clients_table (text : str) : str :=
  match omap client_row (lines text) with
  | [] => lit "<div class=card><p class=k>No active DHCP leases.</p></div>"
  | l => let rows := lit "<tr><th>Name<th>IP<th>MAC</tr>" ++ concat l in
         lit "<div class=card><table>" ++ rows ++ lit "</table></div>"
  end.

Definition frag_clients : io ev str :=
  perform l := ReadFile (lit "/run/dhcp.leases") in
  Ret (clients_table (default [] (l : option str))).

Definition opt (value current label : str) : str :=
  let sel := if bool_decide (value = current) then lit " selected" else [] in
  lit "<option value=" ++ value ++ sel ++ lit ">" ++ label ++ lit "</option>".

Definition settings_page (cfg : Config) : str :=
  let host := hesc (Config.get_or cfg (lit "system") (lit "hostname") (lit "lwrt")) in
  let lan := hesc (Config.get_or cfg (lit "lan") (lit "ipaddr") (lit "192.168.1.1")) in
  let ssid := hesc (Config.get_or cfg (lit "wifi") (lit "ssid") (lit "LWRT")) in
  let proto := Config.get_or cfg (lit "wan") (lit "proto") (lit "dhcp") in
  let dhcp_on := bool_decide (Config.get_or cfg (lit "dhcp") (lit "enabled") (lit "1") = lit "1") in
  let checked := if dhcp_on then lit " checked" else [] in
  lit "<div class=card><form hx-post=/ui/settings hx-target=#content><label>Hostname<input name=hostname value=" ++ [DQ] ++ host ++ [DQ] ++ lit "></label><label>LAN IP address<input name=lan_ipaddr value=" ++ [DQ] ++ lan ++ [DQ] ++ lit "></label><label>Wi-Fi network name (SSID)<input name=wifi_ssid value=" ++ [DQ] ++ ssid ++ [DQ] ++ lit "></label><label>Wi-Fi password<input name=wifi_key type=password placeholder=" ++ [DQ] ++ lit "leave blank to keep current" ++ [DQ] ++ lit "></label><label>WAN protocol<select name=wan_proto>" ++ opt (lit "dhcp") proto (lit "DHCP (automatic)") ++ opt (lit "static") proto (lit "Static IP") ++ opt (lit "pppoe") proto (lit "PPPoE") ++ lit "</select></label><label class=chk><input type=checkbox name=dhcp_enabled" ++ checked ++ lit "> Run DHCP server on LAN</label><p><button class=act type=submit>Save</button></p></form></div>".

Definition frag_settings : io ev str :=
  await cfg := load_config in
  Ret (settings_page cfg).

Definition note (msg : str) (err : bool) : str :=
  lit "<div class=card><p class=" ++ (if err then lit "note err" else lit "note ok") ++ lit ">" ++ hesc msg ++ lit "</p></div>".

(** ** The page shell *)
Definition CSS : str :=
  lit ":root{--bg:#0f1419;--card:#1a212b;--fg:#e6edf3;--mut:#7d8590;--acc:#2f81f7;--ok:#3fb950;--" ++
  lit "err:#f85149}*{box-sizing:border-box}body{margin:0;font:14px/1.5 system-ui,sans-serif;backg" ++
  lit "round:var(--bg);color:var(--fg)}header{background:var(--card);padding:14px 20px;display:fl" ++
  lit "ex;align-items:center;gap:10px;border-bottom:1px solid #30363d}header b{font-size:18px}hea" ++
  lit "der span{color:var(--mut)}nav{display:flex;gap:4px;padding:10px 20px;flex-wrap:wrap;backgr" ++
  lit "ound:var(--card);border-bottom:1px solid #30363d}nav button{background:none;border:1px sol" ++
  lit "id #30363d;color:var(--fg);padding:6px 14px;border-radius:6px;cursor:pointer}nav button.on" ++
  lit "{background:var(--acc);border-color:var(--acc);color:#fff}main{padding:20px;max-width:760p" ++
  lit "x;margin:0 auto}.card{background:var(--card);border:1px solid #30363d;border-radius:10px;p" ++
  lit "adding:18px;margin-bottom:16px}.row{display:flex;justify-content:space-between;padding:6px" ++
  lit " 0;border-bottom:1px solid #21262d}.row:last-child{border:0}.k{color:var(--mut)}label{disp" ++
  lit "lay:block;margin:12px 0;color:var(--mut)}label.chk{display:flex;align-items:center;gap:8px" ++
  lit ";color:var(--fg)}input,select{width:100%;background:#0d1117;color:var(--fg);border:1px sol" ++
  lit "id #30363d;border-radius:8px;padding:9px;font:14px system-ui;margin-top:4px}input[type=che" ++
  lit "ckbox]{width:auto;margin:0}button.act{background:var(--acc);border:0;color:#fff;padding:9p" ++
  lit "x 18px;border-radius:6px;cursor:pointer;font-size:14px}table{width:100%;border-collapse:co" ++
  lit "llapse}td,th{text-align:left;padding:6px;border-bottom:1px solid #21262d}.dot{width:8px;he" ++
  lit "ight:8px;border-radius:50%;background:var(--ok);display:inline-block;margin-right:6px}.not" ++
  lit "e{margin:0}.ok{color:var(--ok)}.err{color:var(--err)}h3{margin-top:0}".

Definition SHIM : str := lit "(function(){
function tgt(el){var t=el.getAttribute('hx-target');return t?document.querySelector(t):el;}
function proc(root){root.querySelectorAll('[hx-get],[hx-post]').forEach(function(el){
if(el._hx)return;el._hx=1;
var verb=el.hasAttribute('hx-post')?'POST':'GET';
var url=el.getAttribute('hx-'+verb.toLowerCase());
var trig=el.getAttribute('hx-trigger')||(el.tagName==='FORM'?'submit':'click');
if(trig==='load'){req(el,verb,url);return;}
if(el.tagName==='FORM'){el.addEventListener('submit',function(e){e.preventDefault();
req(el,'POST',url,new URLSearchParams(new FormData(el)).toString());});return;}
el.addEventListener(trig,function(e){e.preventDefault();
if(el.parentElement&&el.parentElement.tagName==='NAV'){
Array.prototype.forEach.call(el.parentElement.children,function(c){c.classList.remove('on');});
el.classList.add('on');}
req(el,verb,url);});});}
function req(el,verb,url,body){
var c=el.getAttribute('hx-confirm');if(c&&!confirm(c))return;
var o={method:verb,headers:{}};
var m=document.querySelector('meta[name=csrf]');
if(verb==='POST'&&m)o.headers['X-CSRF-Token']=m.content;
if(body){o.body=body;o.headers['Content-Type']='application/x-www-form-urlencoded';}
fetch(url,o).then(function(r){return r.text();}).then(function(h){var t=tgt(el);t.innerHTML=h;proc(t);});}
window.addEventListener('DOMContentLoaded',function(){proc(document);});
})();".

Definition shell_inner (csrf : option str) (host : str) : str :=
  let meta := match csrf with Some t => lit "<meta name=csrf content=" ++ [DQ] ++ hesc t ++ [DQ] ++ lit ">" | None => [] end in
  meta ++ lit "<header><span class=dot></span><b>LWRT</b><span>" ++ hesc host ++ lit "</span></header><nav><button class=on hx-get=/ui/status hx-target=#content>Status</button><button hx-get=/ui/clients hx-target=#content>Clients</button><button hx-get=/ui/settings hx-target=#content>Settings</button></nav><main><div id=content hx-get=/ui/status hx-trigger=load>loading" ++ [8230%N] ++ lit "</div></main>".

Definition login_inner (err : option str) : str :=
  let msg := match err with Some e => lit "<p class=err>" ++ hesc e ++ lit "</p>" | None => [] end in
  lit "<header><span class=dot></span><b>LWRT</b></header><main><div class=card><h3>Sign in</h3><p class=k>Enter the admin password.</p><form hx-post=/ui/login hx-target=#root><input name=password type=password placeholder=Password autofocus><p><button class=act type=submit>Log in</button></p>" ++ msg ++ lit "</form></div></main>".

Definition full_page (root_inner : str) : str :=
  lit "<!doctype html><html lang=en><head><meta charset=utf-8><meta name=viewport content=" ++ [DQ] ++ lit "width=device-width,initial-scale=1" ++ [DQ] ++ lit "><title>LWRT</title><style>" ++ CSS ++ lit "</style></head><body><div id=root>" ++ root_inner ++ lit "</div><script>" ++ SHIM ++ lit "</script></body></html>".

(** ** Routing *)
Record Resp := mkResp { status : str; ctype : str; payload : bytes; set_cookie : option str }.
Definition HTML : str := lit "text/html; charset=utf-8".
Definition html (status body : str) : Resp := mkResp status HTML (Utf8.encode body) None.

(** The updates a submitted form asks for. *)
Definition put (form : list (str * str)) (section key name : str) : list update :=
  match field form name with Some v => [(section, key, v)] | None => [] end.
Definition form_updates (form : list (str * str)) : list update :=
  put form (lit "system") (lit "hostname") (lit "hostname") ++
  put form (lit "lan") (lit "ipaddr") (lit "lan_ipaddr") ++
  put form (lit "wifi") (lit "ssid") (lit "wifi_ssid") ++
  put form (lit "wifi") (lit "key") (lit "wifi_key") ++
  put form (lit "wan") (lit "proto") (lit "wan_proto") ++
  let dhcp := if existsb (λ '(k, _), bool_decide (k = lit "dhcp_enabled")) form then lit "1" else lit "0" in
  [(lit "dhcp", lit "enabled", dhcp)].

Definition save_settings (body : bytes) : io ev Resp :=
  let updates := form_updates (parse_form body) in
  perform old := ReadFile Config.PATH in
  let merged := apply_settings (default Config.DEFAULT (old : option str)) updates in
  perform _d := CreateDirAll (lit "/etc/lwrt") in
  perform ok := WriteFile Config.PATH (Utf8.encode merged) in
  if (ok : bool) then Ret (html (lit "200 OK") (note (lit "Saved. Reboot to apply network changes.") false))
  else Ret (html (lit "500 Error") (note (lit "Could not write config.") true)).

Definition login (req : Request) (cfg : Config) (host : str) : io ev Resp :=
  let form := parse_form (body req) in
  let supplied := default [] (field form (lit "password")) in
  if negb (auth_required cfg) || verify_password cfg supplied then
    await token := new_token in
    perform _u := SessionInsert token in
    Ret (mkResp (lit "200 OK") HTML (Utf8.encode (shell_inner (Some token) host)) (Some token))
  else Ret (html (lit "401 Unauthorized") (login_inner (Some (lit "Wrong password")))).

Definition GET : str := lit "GET".
Definition POST : str := lit "POST".
Definition is_req (req : Request) (m p : str) : bool := bool_decide (method req = m) && bool_decide (path req = p).

Definition check_failed : Resp := html (lit "403 Forbidden") (note (lit "Session check failed " ++ [8212%N] ++ lit " reload the page.") true).

Definition route (req : Request) (cfg : Config) : io ev Resp :=
  let host := Config.get_or cfg (lit "system") (lit "hostname") (lit "lwrt") in
  if is_req req GET (lit "/") then
    await shut :=
      (if auth_required cfg then await a := is_authed req cfg in Ret (negb a) else Ret false) in
    if (shut : bool) then Ret (html (lit "200 OK") (full_page (login_inner None)))
    else
      let csrf := if auth_required cfg then req_cookie req else None in
      Ret (html (lit "200 OK") (full_page (shell_inner csrf host)))
  else if is_req req POST (lit "/ui/login") then login req cfg host
  else
    await authed := is_authed req cfg in
    if negb authed then
      Ret (html (lit "401 Unauthorized") (login_inner (Some (lit "Session expired " ++ [8212%N] ++ lit " sign in again"))))
    else if is_req req GET (lit "/ui/status") then await b := frag_status in Ret (html (lit "200 OK") b)
    else if is_req req GET (lit "/ui/clients") then await b := frag_clients in Ret (html (lit "200 OK") b)
    else if is_req req GET (lit "/ui/settings") then await b := frag_settings in Ret (html (lit "200 OK") b)
    else if is_req req POST (lit "/ui/settings") then
      if negb (csrf_ok req cfg) then Ret check_failed else save_settings (body req)
    else if is_req req POST (lit "/ui/reboot") then
      if negb (csrf_ok req cfg) then Ret check_failed
      else
        perform _k := KillInit in
        Ret (html (lit "200 OK") (note (lit "Rebooting" ++ [8230%N] ++ lit " this page will stop responding for a moment.") false))
    else Ret (mkResp (lit "404 Not Found") (lit "text/plain") (Utf8.encode (lit "not found")) None).

(** The bytes written back by [handle]. *)
Definition CRLF : str := [CR; LF].
Definition respond (r : Resp) : bytes :=
  let cookie_hdr := match set_cookie r with
    | Some tok => lit "Set-Cookie: session=" ++ tok ++ lit "; HttpOnly; SameSite=Strict; Path=/" ++ CRLF
    | None => [] end in
  let head := lit "HTTP/1.0 " ++ status r ++ CRLF ++ lit "Content-Type: " ++ ctype r ++ CRLF ++
    cookie_hdr ++ lit "Content-Length: " ++ dec (Z.of_nat (length (payload r))) ++ CRLF ++
    lit "Connection: close" ++ CRLF ++ CRLF in
  Utf8.encode head ++ payload r.

(** One connection: the bytes received, the program of the handler. *)
Definition handle (input : bytes) : io ev (option bytes) :=
  match read_request input with
  | None => Ret None
  | Some req =>
      await cfg := load_config in
      await r := route req cfg in
      Ret (Some (respond r))
  end.

(** * Specifications *)

(** ** The inverse of escaping, as a browser reads character references *)
Fixpoint unescape (fuel : nat) (s : str) : str :=
  match fuel, s with
  | O, _ | _, [] => []
  | S fuel, c :: r =>
      match strip_prefix (lit "&amp;") s, strip_prefix (lit "&lt;") s, strip_prefix (lit "&gt;") s,
            strip_prefix (lit "&quot;") s, strip_prefix (lit "&#39;") s with
      | Some r, _, _, _, _ => chr "&" :: unescape fuel r
      | _, Some r, _, _, _ => chr "<" :: unescape fuel r
      | _, _, Some r, _, _ => chr ">" :: unescape fuel r
      | _, _, _, Some r, _ => DQ :: unescape fuel r
      | _, _, _, _, Some r => chr "'" :: unescape fuel r
      | _, _, _, _, _ => c :: unescape fuel r
      end
  end.

(** The characters that delimit tags and attribute values. *)
Definition markup_char (c : char) : bool := existsb (N.eqb c) [chr "<"; chr ">"; DQ; chr "'"].
Definition markup (s : str) : str := List.filter markup_char s.

(** ** The encoder of a browser's form submission *)
Definition unreserved (b : byte) : bool :=
  ((48 <=? b) && (b <=? 57)) || ((65 <=? b) && (b <=? 90)) || ((97 <=? b) && (b <=? 122))
  || (b =? 42) || (b =? 45) || (b =? 46) || (b =? 95).
Definition upper_hex (d : Z) : char := Z.to_N (if d <? 10 then d + 48 else d + 55).
Definition enc_byte (b : byte) : str :=
  if unreserved b then [Z.to_N b]
  else if b =? 32 then [chr "+"]
  else [chr "%"; upper_hex (b / 16); upper_hex (b mod 16)].
Definition urlencode (s : str) : str := concat (map enc_byte (Utf8.encode s)).
Definition form_body (kvs : list (str * str)) : bytes :=
  Utf8.encode (join (lit "&") (map (λ '(k, v), urlencode k ++ chr "=" :: urlencode v) kvs)).

(** ** Sessions as a history of insertions *)
Record insertion := mkInsertion { i_gc : Z; i_at : Z; i_token : str }.
Definition sessions_after (l : list insertion) : Sessions :=
  foldl (λ s i, insert_session (i_gc i) (i_at i) (i_token i) s) no_sessions l.
(** The clock does not go back. *)
Fixpoint clocked (from : Z) (l : list insertion) (now : Z) : Prop :=
  match l with
  | [] => from <= now
  | i :: l => from <= i_gc i ∧ i_gc i <= i_at i ∧ clocked (i_at i) l now
  end.
Definition last_issue (tok : str) (l : list insertion) : option Z :=
  foldl (λ o i, if bool_decide (i_token i = tok) then Some (i_at i) else o) None l.

(** * Lemmas *)

(** ** Escaping *)
Lemma hesc_cons c s : hesc (c :: s) = hesc_char c ++ hesc s.
Proof. done. Qed.

Lemma hesc_char_cases c :
  (c = chr "&" ∨ c = chr "<" ∨ c = chr ">" ∨ c = DQ ∨ c = chr "'") ∨
  (hesc_char c = [c] ∧ c ≠ chr "&" ∧ markup_char c = false).
Proof.
  unfold hesc_char, markup_char. simpl existsb.
  repeat match goal with |- context [(c =? ?d)%N] =>
    destruct (N.eqb_spec c d); [left; tauto|] end. right. done.
Qed.

Lemma unescape_hesc s : ∀ fuel, (length (hesc s) <= fuel)%nat → unescape fuel (hesc s) = s.
Proof.
  induction s as [|c s IH]; intros fuel Hf; [by destruct fuel|].
  rewrite hesc_cons in *. rewrite length_app in Hf.
  destruct (hesc_char_cases c) as [Hc|(Hc & Hamp & _)].
  - destruct_or! Hc; subst c; (destruct fuel as [|fuel]; [simpl in Hf; lia|]);
      cbn -[hesc]; f_equal; apply IH; simpl in Hf; lia.
  - rewrite Hc in *. destruct fuel as [|fuel]; [simpl in Hf; lia|]. simpl app.
    assert (∀ p, strip_prefix (chr "&" :: p) (c :: hesc s) = None) as Hn.
    { intros p. cbn [strip_prefix]. destruct (N.eqb_spec (chr "&") c); [congruence|done]. }
    cbn [unescape]. rewrite !Hn. f_equal. apply IH. simpl in Hf. lia.
Qed.

Lemma markup_app a b : markup (a ++ b) = markup a ++ markup b.
Proof. apply List.filter_app. Qed.

Lemma markup_hesc s : markup (hesc s) = [].
Proof.
  induction s as [|c s IH]; [done|]. rewrite hesc_cons, markup_app, IH, app_nil_r.
  destruct (hesc_char_cases c) as [Hc|(Hc & _ & Hm)].
  - destruct_or! Hc; by subst c.
  - rewrite Hc. simpl. by rewrite Hm.
Qed.

(** ** Forms *)
Lemma hexval_upper d : 0 <= d < 16 → hexval (Z.of_N (upper_hex d)) = Some d.
Proof.
  intros Hd. assert (Forall (λ i, hexval (Z.of_N (upper_hex (Z.of_nat i))) = Some (Z.of_nat i)) (seq 0 16)) as H
    by (apply (bool_decide_unpack _); vm_compute; done).
  rewrite Forall_forall in H. specialize (H (Z.to_nat d)). rewrite Z2Nat.id in H by lia.
  apply H, elem_of_seq. lia.
Qed.

Lemma urldecode_enc_byte b l :
  byte_ok b → urldecode_bytes (map Z.of_N (enc_byte b) ++ l) = b :: urldecode_bytes l.
Proof.
  intros Hb. unfold byte_ok in Hb. unfold enc_byte. destruct (unreserved b) eqn:Eu.
  - cbn [map app]. rewrite Z2N.id by lia. cbn [urldecode_bytes].
    destruct (Z.eqb_spec b 43) as [->|]; [done|]. by destruct (Z.eqb_spec b 37) as [->|].
  - destruct (Z.eqb_spec b 32) as [->|Hs]; [done|]. cbn [map app].
    pose proof (hexval_upper (b / 16) ltac:(Z.to_euclidean_division_equations; lia)) as E1.
    pose proof (hexval_upper (b mod 16) ltac:(Z.to_euclidean_division_equations; lia)) as E2.
    cbn [urldecode_bytes]. rewrite E1, E2.
    change (Z.of_N (chr "%") =? 43) with false. change (Z.of_N (chr "%") =? 37) with true. cbv iota.
    f_equal. unfold u8. rewrite wrap_small; unfold in_u; Z.to_euclidean_division_equations; lia.
Qed.

(** The characters a browser sends. *)
Definition form_char (c : char) : Prop :=
  Utf8.ascii c ∧ c ≠ chr "&" ∧ c ≠ chr "=".

Lemma enc_byte_chars b : byte_ok b → Forall form_char (enc_byte b).
Proof.
  intros Hb. unfold byte_ok in Hb.
  assert (Forall (λ i, Forall (λ c, (c < 128)%N ∧ c ≠ chr "&" ∧ c ≠ chr "=") (enc_byte (Z.of_nat i))) (seq 0 256)) as H
    by (apply (bool_decide_unpack _); vm_compute; done).
  rewrite Forall_forall in H. specialize (H (Z.to_nat b)). rewrite Z2Nat.id in H by lia.
  apply H, elem_of_seq. lia.
Qed.

Lemma urlencode_chars s : str_ok s → Forall form_char (urlencode s).
Proof.
  intros Hs. pose proof (Utf8.encode_ok s Hs) as Hb. unfold urlencode.
  induction Hb as [|b l Hb _ IH]; [constructor|]. cbn [map concat].
  apply Forall_app_2; [by apply enc_byte_chars|done].
Qed.

Lemma urldecode_urlencode s : str_ok s → urldecode (urlencode s) = s.
Proof.
  intros Hs. pose proof (Utf8.encode_ok s Hs) as Hb. unfold urldecode.
  rewrite Utf8.encode_ascii by (eapply Forall_impl; [by apply urlencode_chars|by intros c (? & _)]).
  assert (∀ l, bytes_ok l → urldecode_bytes (map Z.of_N (concat (map enc_byte l))) = l) as Hg.
  { clear. induction 1 as [|b l Hb _ IH]; [done|]. cbn [map concat]. rewrite map_app.
    by rewrite urldecode_enc_byte, IH. }
  unfold urlencode. rewrite Hg by done. by apply Utf8.lossy_encode.
Qed.

Lemma form_pair_encode k v :
  str_ok k → str_ok v → form_pair (urlencode k ++ chr "=" :: urlencode v) = Some (k, v).
Proof.
  intros Hk Hv. unfold form_pair. rewrite split_once_app.
  - cbn [mbind option_bind]. by rewrite !urldecode_urlencode.
  - eapply Forall_impl; [by apply urlencode_chars|]. by intros c (_ & _ & ?).
Qed.

Lemma ascii_str_ok s : Forall Utf8.ascii s → str_ok s.
Proof. intros H. eapply Forall_impl; [exact H|]. unfold Utf8.ascii, char_ok. lia. Qed.

(** ** The session store *)
Lemma tokens_insert now now' tok s k :
  tokens (insert_session now now' tok s) !! k =
    if bool_decide (tok = k) then Some now'
    else match tokens s !! k with
         | Some t => if now - t <? SESSION_TTL then Some t else None
         | None => None
         end.
Proof.
  unfold insert_session, gc. cbn [tokens]. case_bool_decide as E.
  - subst. by rewrite lookup_insert_eq.
  - rewrite lookup_insert_ne by done. rewrite map_lookup_filter.
    destruct (tokens s !! k) as [t|]; simpl; [|done].
    destruct (Z.ltb_spec (now - t) SESSION_TTL) as [H|H].
    + by rewrite option_guard_True.
    + rewrite option_guard_False; [done|lia].
Qed.

Lemma clocked_weaken l : ∀ a b now, a <= b → clocked b l now → clocked a l now.
Proof. destruct l; simpl; intros; [lia|]. destruct_and!. repeat split; try lia; done. Qed.

Lemma clocked_app l k : ∀ a now, clocked a (l ++ k) now → ∃ b, a <= b ∧ clocked a l b ∧ clocked b k now.
Proof.
  induction l as [|i l IH]; intros a now; simpl.
  - intros H. by exists a.
  - intros (H1 & H2 & H). destruct (IH _ _ H) as (b & Hb & H3 & H4). exists b. split; [lia|]. auto.
Qed.

(** The store against the history: an entry is the last issue of its token, and
    a token the store has dropped was issued too long ago. *)
Lemma sessions_after_spec l tok : ∀ now,
  clocked 0 l now →
  (∀ t, tokens (sessions_after l) !! tok = Some t → last_issue tok l = Some t) ∧
  (∀ t, last_issue tok l = Some t → tokens (sessions_after l) !! tok = None → SESSION_TTL <= now - t).
Proof.
  induction l as [|i l IH] using rev_ind; intros now Hc; [done|].
  destruct (clocked_app _ _ _ _ Hc) as (b & _ & Hl & Hi). simpl in Hi. destruct Hi as (H1 & H2 & H3).
  destruct (IH b Hl) as [IH1 IH2].
  unfold sessions_after, last_issue in *. rewrite !foldl_snoc. rewrite tokens_insert.
  case_bool_decide as E; [by split; [intros t [= <-]|intros t _ [=]]|].
  split.
  - intros t. destruct (tokens _ !! tok) as [u|] eqn:Eu; [|done]. case_match; [|done].
    intros [= <-]. by apply IH1.
  - intros t Ht. destruct (tokens _ !! tok) as [u|] eqn:Eu.
    + rewrite (IH1 u eq_refl) in Ht. injection Ht as ->.
      destruct (Z.ltb_spec (i_gc i - t) SESSION_TTL); [done|]. intros _. lia.
    + intros _. specialize (IH2 t Ht eq_refl). lia.
Qed.

(** * Properties *)

(** Escaped text cannot leave its place in a page: it contains no angle
    bracket and no quote, and a browser that resolves the character references
    reads the original text, for every Unicode text. *)
Theorem hesc_correct s : markup (hesc s) = [] ∧ unescape (length (hesc s)) (hesc s) = s.
Proof. split; [apply markup_hesc|by apply unescape_hesc]. Qed.

(** The rewriting that removes escaped text from the markup of a page. *)
Ltac skeleton := rewrite ?markup_app, ?markup_hesc; cbn [app].

Lemma markup_opt v c1 c2 l : markup (opt v c1 l) = markup (opt v c2 l).
Proof. unfold opt. rewrite !markup_app. by repeat case_bool_decide. Qed.

Lemma markup_settings_page cfg cfg' : markup (settings_page cfg) = markup (settings_page cfg').
Proof.
  unfold settings_page. cbv zeta. rewrite !markup_app, !markup_hesc.
  rewrite (markup_opt (lit "dhcp") _ (Config.get_or cfg' (lit "wan") (lit "proto") (lit "dhcp"))).
  rewrite (markup_opt (lit "static") _ (Config.get_or cfg' (lit "wan") (lit "proto") (lit "dhcp"))).
  rewrite (markup_opt (lit "pppoe") _ (Config.get_or cfg' (lit "wan") (lit "proto") (lit "dhcp"))).
  by repeat case_bool_decide.
Qed.

Definition row_markup : str := markup (lit "<tr><td><td><td></tr>").

Lemma markup_client_row l r : client_row l = Some r → markup r = row_markup.
Proof.
  unfold client_row. destruct (split_whitespace l) as [|? [|? [|? [|? ?]]]]; try done;
    (intros H; apply (inj Some) in H as <-; rewrite !markup_app, !markup_hesc; done).
Qed.

Lemma markup_clients_table t t' :
  length (omap client_row (lines t)) = length (omap client_row (lines t')) →
  markup (clients_table t) = markup (clients_table t').
Proof.
  assert (Hrows : ∀ t, Forall (λ r, markup r = row_markup) (omap client_row (lines t))).
  { intros u. apply Forall_forall. intros r Hr. apply list_elem_of_omap in Hr as (l & _ & Hr).
    by eapply markup_client_row. }
  intros Hlen. unfold clients_table. pose proof (Hrows t) as H1. pose proof (Hrows t') as H2.
  assert (Hc : markup (concat (omap client_row (lines t))) = markup (concat (omap client_row (lines t')))).
  { revert Hlen H1 H2. generalize (omap client_row (lines t)) (omap client_row (lines t')).
    induction l as [|r l IH]; intros [|r' l'] Hl H1 H2; [reflexivity|discriminate|discriminate|].
    apply Forall_cons in H1 as [E1 H1]. apply Forall_cons in H2 as [E2 H2].
    simpl concat. rewrite !markup_app, E1, E2. f_equal. apply IH; [by injection Hl|done..]. }
  destruct (omap client_row (lines t)) as [|r l], (omap client_row (lines t')) as [|r' l'];
    [reflexivity|discriminate|discriminate|].
  rewrite !markup_app, Hc. reflexivity.
Qed.

Lemma markup_row k v : markup (row k v) = markup (lit "<div class=row><span class=k></span><span></span></div>").
Proof. unfold row. by rewrite !markup_app, !markup_hesc. Qed.

(** A page of six rows between two constant pieces. *)
Lemma markup_rows s e (l l' : list (str * str)) : length l = length l' →
  markup (s ++ concat (map (λ '(k, v), row k v) l) ++ e)
  = markup (s ++ concat (map (λ '(k, v), row k v) l') ++ e).
Proof.
  intros H. rewrite !markup_app. do 2 f_equal. revert l' H.
  induction l as [|[k v] l IH]; intros [|[k' v'] l'] [=]; [done|].
  cbn [map concat]. rewrite !markup_app, !markup_row. f_equal. by apply IH.
Qed.

Lemma status_runs_markup t t' p p' :
  runs frag_status t p → runs frag_status t' p' → markup p = markup p'.
Proof.
  unfold frag_status. set (e := lit "</div><div class=card><button class=act hx-post=/ui/reboot hx-target=#content hx-confirm=" ++ _).
  clearbody e. intros H H'. run_inv H. clear H0. run_inv H. run_inv H. run_inv H. run_inv H.
  run_inv H'. run_inv H'. run_inv H'. run_inv H'. run_inv H'.
  apply (markup_rows (lit "<div class=card>") e
    [(_, _); (_, _); (_, _); (_, _); (_, _); (_, _)] [(_, _); (_, _); (_, _); (_, _); (_, _); (_, _)]).
  reflexivity.
Qed.

Lemma settings_run t p : runs frag_settings t p → ∃ cfg, p = settings_page cfg.
Proof. unfold frag_settings. intros H. run_inv H. run_inv H. by eexists. Qed.

Definition file_answer (c : call ev) : option (option str) :=
  match c with
  | Call e x =>
      match e in ev X return X → option (option str) with ReadFile _ => λ r, Some r | _ => λ _, None end x
  end.
Lemma clients_run path a p :
  runs frag_clients [Call (ReadFile path) a] p → p = clients_table (default [] a).
Proof.
  unfold frag_clients. intros H. apply runs_vis_inv in H as (x & t & E & H).
  pose proof (f_equal (λ t, head t ≫= file_answer) E) as E2. cbn in E2. injection E2 as ->.
  by run_inv H.
Qed.

(** The rows of a client table: the lines of the lease file with four words or
    more. *)
Definition leases_in (a : option str) : list str :=
  List.filter (λ l, (4 <=? length (split_whitespace l))%nat) (lines (default [] a)).

Lemma length_client_rows l :
  length (omap client_row l) = length (List.filter (λ l, (4 <=? length (split_whitespace l))%nat) l).
Proof.
  induction l as [|x l IH]; [done|]. cbn [omap list_omap List.filter]. unfold client_row at 1.
  destruct (split_whitespace x) as [|? [|? [|? [|? ?]]]]; simpl; by rewrite ?IH.
Qed.

(** C18. No stored cross-site scripting: the tags, angle brackets and quotes of
    what the web interface sends do not depend on any stored or submitted text.
    Any two runs of the status handler, whatever the configuration and the files
    they read, give pages with the same markup, and so do any two runs of the
    settings handler; two runs of the client handler do when the lease files
    they read have equally many lines of four words or more; likewise every row
    of the status page, notices, the page shell for any token and host name, the
    login form with any message, and whole pages around contents with the same
    markup. *)
Theorem fragments_markup :
  (∀ k v k' v', markup (row k v) = markup (row k' v')) ∧
  (∀ t t' p p', runs frag_status t p → runs frag_status t' p' → markup p = markup p') ∧
  (∀ t t' p p', runs frag_settings t p → runs frag_settings t' p' → markup p = markup p') ∧
  (∀ path path' a a' p p',
     runs frag_clients [Call (ReadFile path) a] p → runs frag_clients [Call (ReadFile path') a'] p' →
     length (leases_in a) = length (leases_in a') → markup p = markup p') ∧
  (∀ cfg cfg', markup (settings_page cfg) = markup (settings_page cfg')) ∧
  (∀ t t', length (omap client_row (lines t)) = length (omap client_row (lines t')) →
     markup (clients_table t) = markup (clients_table t')) ∧
  (∀ tok tok' h h', markup (shell_inner (Some tok) h) = markup (shell_inner (Some tok') h')) ∧
  (∀ m m' e, markup (note m e) = markup (note m' e)) ∧
  (∀ e e', markup (login_inner (Some e)) = markup (login_inner (Some e'))) ∧
  (∀ c c', markup c = markup c' → markup (full_page c) = markup (full_page c')).
Proof.
  split; [intros; by rewrite !markup_row|].
  split; [apply status_runs_markup|].
  split; [intros t t' p p' [c ->]%settings_run [c' ->]%settings_run; apply markup_settings_page|].
  split.
  { intros path path' a a' p p' ->%clients_run ->%clients_run Hl.
    apply markup_clients_table. by rewrite !length_client_rows. }
  split; [apply markup_settings_page|]. split; [apply markup_clients_table|].
  split; [|split; [|split]]; intros; [unfold shell_inner|unfold note|unfold login_inner|unfold full_page];
    cbv zeta; rewrite !markup_app, ?markup_hesc; congruence.
Qed.

(** What a browser submits is what the handlers see: parsing the URL-encoded
    body of any list of named values gives that list back. *)
Theorem parse_form_body kvs :
  Forall (λ '(k, v), str_ok k ∧ str_ok v) kvs → parse_form (form_body kvs) = kvs.
Proof.
  intros H. unfold parse_form, form_body. change (lit "&") with [chr "&"].
  set (enc := λ '(k, v), urlencode k ++ chr "=" :: urlencode v).
  assert (He : Forall (λ p, Forall (λ c, Utf8.ascii c ∧ c ≠ chr "&") p) (map enc kvs)).
  { apply Forall_map. eapply Forall_impl; [exact H|]. intros [k v] [Hk Hv]. unfold compose, enc.
    apply Forall_app_2; [|apply Forall_cons_2; [done|]];
      (eapply Forall_impl; [by apply urlencode_chars|by intros c (? & ? & _)]). }
  assert (Hj : Forall Utf8.ascii (join [chr "&"] (map enc kvs))).
  { clear H. induction (map enc kvs) as [|p l IH]; [constructor|].
    apply Forall_cons in He as [Hp He]. assert (Forall Utf8.ascii p) as Hpa
      by (eapply Forall_impl; [exact Hp|by intros c [? _]]).
    destruct l as [|q l]; [done|]. rewrite join_cons by done.
    apply Forall_app_2; [done|]. apply Forall_app_2; [by apply Forall_singleton|by apply IH]. }
  rewrite Utf8.lossy_encode by (by apply ascii_str_ok).
  destruct kvs as [|kv kvs]; [done|].
  rewrite split_char_join; [|done|].
  2: { eapply Forall_impl; [exact He|]. intros p Hp. eapply Forall_impl; [exact Hp|]. by intros c [_ ?]. }
  clear He Hj. induction H as [|[k v] l [Hk Hv] _ IH]; [done|]. cbn [map List.filter].
  assert (is_nonempty (enc (k, v)) = true) as ->.
  { unfold enc. by destruct (urlencode k). }
  cbn [omap list_omap]. unfold enc at 1. rewrite form_pair_encode by done. f_equal. exact IH.
Qed.

Lemma parse_form_body_witness :
  parse_form (form_body [(lit "wifi_key", lit "a b&c=%"); (lit "hostname", [233%N])])
  = [(lit "wifi_key", lit "a b&c=%"); (lit "hostname", [233%N])].
Proof.
  apply parse_form_body. repeat constructor; try (left; reflexivity).
Defined.

(** Sessions last one hour from their last issue and no longer: after any
    history of logins a token is accepted exactly when it was issued and its
    last issue is less than the time to live ago; the garbage collection done
    at each login is never observable. *)
Theorem session_valid_iff l now tok :
  clocked 0 l now →
  valid now tok (sessions_after l)
  = match last_issue tok l with Some t => now - t <? SESSION_TTL | None => false end.
Proof.
  intros Hc. destruct (sessions_after_spec l tok now Hc) as [H1 H2]. unfold valid.
  destruct (tokens (sessions_after l) !! tok) as [t|] eqn:Et.
  - by rewrite (H1 t eq_refl).
  - destruct (last_issue tok l) as [t|]; [|done]. specialize (H2 t eq_refl eq_refl).
    symmetry. apply Z.ltb_ge. lia.
Qed.

Lemma session_valid_iff_witness :
  valid 4000 (lit "a") (sessions_after [mkInsertion 10 10 (lit "a"); mkInsertion 3700 3701 (lit "b")]) = false.
Proof.
  rewrite session_valid_iff; [reflexivity|]. vm_compute. repeat split; discriminate.
Defined.

(** ** Runs of the router *)

(** The events that change the device. *)
Definition changes (c : call ev) : Prop :=
  match c with
  | Call e _ => match e with WriteFile _ _ | CreateDirAll _ | KillInit => True | _ => False end
  end.
Definition quiet (t : list (call ev)) : Prop := Forall (λ c, ¬ changes c) t.
Definition no_insert (t : list (call ev)) : Prop :=
  Forall (λ c, match c with Call e _ => match e with SessionInsert _ => False | _ => True end end) t.

(** What the session check did: nothing without authentication, one lookup of
    the cookie's token otherwise. *)
Lemma is_authed_runs req cfg t a :
  runs (is_authed req cfg) t a →
  (auth_required cfg = false ∧ t = [] ∧ a = true) ∨
  (auth_required cfg = true ∧ req_cookie req = None ∧ t = [] ∧ a = false) ∨
  (auth_required cfg = true ∧ ∃ tok, req_cookie req = Some tok ∧ t = [Call (SessionValid tok) a]).
Proof.
  unfold is_authed. destruct (auth_required cfg); simpl negb; cbv iota; intros H; [|run_inv H; auto].
  destruct (req_cookie req) as [tok|]; [|run_inv H; right; left; auto].
  run_inv H. run_inv H. right. right. split; [done|]. by exists tok.
Qed.

Lemma is_authed_quiet req cfg t a : runs (is_authed req cfg) t a → quiet t ∧ no_insert t.
Proof.
  intros H. apply is_authed_runs in H as [(_ & -> & _)|[(_ & _ & -> & _)|(_ & tok & _ & ->)]];
    repeat constructor. by intros [].
Qed.

Lemma quiet_app t u : quiet (t ++ u) ↔ quiet t ∧ quiet u.
Proof. apply Forall_app. Qed.
Lemma no_insert_app t u : no_insert (t ++ u) ↔ no_insert t ∧ no_insert u.
Proof. apply Forall_app. Qed.

Lemma fragments_calm (f : io ev str) t b :
  f = frag_status ∨ f = frag_clients ∨ f = frag_settings → runs f t b → quiet t ∧ no_insert t.
Proof.
  intros [->|[->| ->]] H; unfold frag_status, frag_clients, frag_settings, load_config in H;
    simpl in H; repeat match goal with H : ∃ _, _ |- _ => destruct H as [? H] | H : _ ∧ _ |- _ => destruct H end;
    subst; split; repeat constructor; by intros [].
Qed.

Lemma save_settings_runs bd t r : runs (save_settings bd) t r → no_insert t.
Proof.
  intros H. unfold save_settings in H. simpl in H.
  destruct H as (x & t' & -> & x0 & t0 & -> & x1 & t1 & -> & H).
  destruct x1; simpl in H; destruct H as [-> _]; by repeat constructor.
Qed.

Lemma login_quiet req cfg host t r : runs (login req cfg host) t r → quiet t.
Proof.
  unfold login. intros H. destruct (negb _ || _); [|run_inv H; constructor].
  unfold new_token in H. simpl in H. destruct H as (x & t' & -> & H). destruct x; simpl in H.
  - destruct H as (y & t1 & -> & u & t2 & -> & -> & _). repeat constructor; by intros [].
  - destruct H as (u & t2 & -> & -> & _). repeat constructor; by intros [].
Qed.

(** The outcome of [route], by cases on what was asked and the session. *)
Lemma route_runs req cfg t r :
  runs (route req cfg) t r →
  (quiet t ∧ (no_insert t ∨ is_req req GET (lit "/") = false ∧ is_req req POST (lit "/ui/login") = true ∧
     runs (login req cfg (Config.get_or cfg (lit "system") (lit "hostname") (lit "lwrt"))) t r)) ∨
  (∃ ta tb, t = ta ++ tb ∧ runs (is_authed req cfg) ta true ∧ csrf_ok req cfg = true ∧ no_insert tb).
Proof.
  unfold route. intros H.
  destruct (is_req req GET (lit "/")) eqn:E1.
  { left. run_inv H. assert (quiet t0 ∧ no_insert t0) as [Hq Hn].
    { destruct (auth_required cfg); [|by run_inv H0; split; constructor].
      run_inv H0. run_inv H0. rewrite app_nil_r. by eapply is_authed_quiet. }
    destruct a; run_inv H; rewrite app_nil_r; auto. }
  destruct (is_req req POST (lit "/ui/login")) eqn:E2.
  { left. split; [by eapply login_quiet|]. right. auto. }
  run_inv H. destruct (is_authed_quiet _ _ _ _ H0) as [Hq Hn].
  destruct a; simpl negb in H; cbv iota in H.
  2: { left. run_inv H. rewrite app_nil_r. auto. }
  assert (Hfrag : ∀ f u, f = frag_status ∨ f = frag_clients ∨ f = frag_settings →
    runs (await b := f in Ret (html (lit "200 OK") b)) u r → quiet (t0 ++ u) ∧ (no_insert (t0 ++ u) ∨
      false = false ∧ false = true ∧ runs (login req cfg (Config.get_or cfg (lit "system") (lit "hostname") (lit "lwrt"))) (t0 ++ u) r)).
  { intros f u Hf Hr. run_inv Hr. destruct (fragments_calm _ _ _ Hf H1) as [? ?]. run_inv Hr.
    rewrite app_nil_r. split; [by apply quiet_app|left; by apply no_insert_app]. }
  destruct (is_req req GET (lit "/ui/status")); [left; eapply Hfrag; [|exact H]; auto|].
  destruct (is_req req GET (lit "/ui/clients")); [left; eapply Hfrag; [|exact H]; auto|].
  destruct (is_req req GET (lit "/ui/settings")); [left; eapply Hfrag; [|exact H]; auto|].
  destruct (is_req req POST (lit "/ui/settings")).
  { destruct (csrf_ok req cfg) eqn:Ec; simpl negb in H; cbv iota in H.
    - right. eexists _, _. split; [done|]. repeat split; [done|]. by eapply save_settings_runs.
    - left. run_inv H. rewrite app_nil_r. auto. }
  destruct (is_req req POST (lit "/ui/reboot")).
  { destruct (csrf_ok req cfg) eqn:Ec; simpl negb in H; cbv iota in H.
    - right. eexists _, _. split; [done|]. repeat split; [done|]. run_inv H. run_inv H. by repeat constructor.
    - left. run_inv H. rewrite app_nil_r. auto. }
  left. run_inv H. rewrite app_nil_r. auto.
Qed.

(** The device is changed (settings written, init signalled) only for an
    authenticated and deliberate request: in every environment, if a handler
    changes anything then either no admin password is configured, or before
    the first change the session store accepted the token of the request's
    cookie and the X-CSRF-Token header carries the same token. *)
Theorem changes_need_session req cfg t r :
  runs (route req cfg) t r → ¬ quiet t →
  auth_required cfg = false ∨
  ∃ tok rest, t = Call (SessionValid tok) true :: rest ∧
    req_cookie req = Some tok ∧ csrf req = Some tok.
Proof.
  intros H Hq. apply route_runs in H as [[? _]|(ta & tb & -> & Ha & Hc & _)]; [done|].
  apply is_authed_runs in Ha as [(? & _)|[(_ & _ & _ & ?)|(Hr & tok & Hk & ->)]]; [by left|done|].
  right. exists tok, tb. split; [done|]. split; [done|].
  unfold csrf_ok in Hc. rewrite Hr, Hk in Hc. simpl in Hc.
  destruct (csrf req) as [h|]; [|done]. by apply bool_decide_eq_true in Hc as <-.
Qed.

(** A session is issued only by a login: if a handler inserts a token in
    the store then the request is POST /ui/login, it is the only token issued,
    and either no password is configured or the password field of the form
    passed the check. *)
Theorem session_needs_password req cfg t r :
  runs (route req cfg) t r → ¬ no_insert t →
  method req = POST ∧ path req = lit "/ui/login" ∧
  (auth_required cfg = false ∨
   verify_password cfg (default [] (field (parse_form (body req)) (lit "password"))) = true) ∧
  ∃ tok t1, t = t1 ++ [Call (SessionInsert tok) tt] ∧ no_insert t1 ∧ set_cookie r = Some tok.
Proof.
  intros H Hn. apply route_runs in H as [[_ [?|(_ & Hreq & Hl)]]|(ta & tb & -> & Ha & _ & Hb)]; [done| |].
  2: { destruct Hn. apply no_insert_app. split; [by eapply is_authed_quiet|done]. }
  unfold is_req in Hreq. apply andb_prop in Hreq as [Hm Hp].
  apply bool_decide_eq_true in Hm. apply bool_decide_eq_true in Hp.
  split; [done|]. split; [done|]. unfold login in Hl.
  destruct (negb (auth_required cfg) || verify_password cfg _) eqn:Ev.
  2: { run_inv Hl. by destruct Hn; constructor. }
  split.
  { apply orb_true_iff in Ev as [Ev|Ev]; [left; by destruct (auth_required cfg)|by right]. }
  clear - Hl. unfold new_token in Hl. simpl in Hl. destruct Hl as (x & t' & -> & Hl). destruct x; simpl in Hl.
  - destruct Hl as (y & t1 & -> & u & t2 & -> & -> & ->). destruct u.
    exists (Sha.hex y), [Call OpenRandom true; Call ReadRandom y]. repeat split. by repeat constructor.
  - destruct Hl as (u & t2 & -> & -> & ->). destruct u.
    eexists _, [Call OpenRandom false]. repeat split. by repeat constructor.
Qed.

Definition locked : Config := Config.parse (lit "[admin]
password = x").
Definition reboot_request : Request := mkRequest POST (lit "/ui/reboot") [] (Some (lit "t")) (Some (lit "t")).

Lemma changes_need_session_witness :
  auth_required locked = false ∨
  ∃ tok rest, [Call (SessionValid (lit "t")) true; Call KillInit tt] = Call (SessionValid tok) true :: rest ∧
    req_cookie reboot_request = Some tok ∧ csrf reboot_request = Some tok.
Proof.
  apply (changes_need_session reboot_request locked [Call (SessionValid (lit "t")) true; Call KillInit tt]
    (html (lit "200 OK") (note (lit "Rebooting" ++ [8230%N] ++ lit " this page will stop responding for a moment.") false))).
  - exists true, [Call KillInit tt]. split; [reflexivity|]. exists tt, []. split; [reflexivity|]. split; reflexivity.
  - intros H. apply Forall_cons in H as [_ H]. apply Forall_cons in H as [H _]. by apply H.
Defined.

Definition login_request : Request := mkRequest POST (lit "/ui/login") (Utf8.encode (lit "password=x")) None None.
Definition login_trace : list (call ev) :=
  [Call OpenRandom false; Call (SessionInsert (Sha.hex (replicate 16 0))) tt].

Lemma session_needs_password_witness :
  method login_request = POST ∧ path login_request = lit "/ui/login" ∧
  (auth_required locked = false ∨
   verify_password locked (default [] (field (parse_form (body login_request)) (lit "password"))) = true) ∧
  ∃ tok t1, login_trace = t1 ++ [Call (SessionInsert tok) tt] ∧ no_insert t1 ∧
    set_cookie (mkResp (lit "200 OK") HTML
      (Utf8.encode (shell_inner (Some (Sha.hex (replicate 16 0))) (lit "lwrt"))) (Some (Sha.hex (replicate 16 0)))) = Some tok.
Proof.
  apply (session_needs_password login_request locked login_trace).
  - exists false, (drop 1 login_trace). split; [reflexivity|]. exists tt, []. split; [reflexivity|]. split; reflexivity.
  - intros H. apply Forall_cons in H as [_ H]. by apply Forall_cons in H as [H _].
Defined.

(** The random device failing to open, the token is a constant. *)
Example token_without_random_device :
  runs new_token [Call OpenRandom false] (lit "00000000000000000000000000000000").
Proof. exists false, []. split; [reflexivity|]. split; reflexivity. Qed.

End Httpd.
