(* ===== verification/Dns.v ===== *)
(** * The DNS forwarder (dns.rs)

    Local answers for leased host names, the 60-second cache and the
    forwarding path.  The upstream exchange is an argument: the response, if
    one came, with the time it was stored. *)

From S2P Require Import Prelude Words RustStr Utf8 Num Dhcp.
Open Scope Z_scope.

Module Dns.

(** ** Names *)

(** [read_name]: [None] is the fall through to forwarding. *)
Fixpoint read_labels (fuel : nat) (buf : bytes) (pos : nat) (parts : list str) : option (list str * nat) :=
  match fuel with
  | O => None
  | S fuel =>
      if (length buf <=? pos)%nat then None
      else
        let len := Z.to_nat (byte_at buf pos) in
        if (len =? 0)%nat then Some (parts, pos + 1)%nat
        else if (192 <=? len)%nat then None
        else
          let pos := (pos + 1)%nat in
          if (length buf <? pos + len)%nat then None
          else read_labels fuel buf (pos + len) (parts ++ [Utf8.lossy (slice buf pos (pos + len))])
  end.
Definition read_name (buf : bytes) (pos : nat) : option (str * nat) :=
  '(parts, pos) ← read_labels (S (length buf)) buf pos [];
  Some (join (lit ".") parts, pos).

(** ** Leases *)
Fixpoint lookup_lines (ls : list str) (host : str) : option Z :=
  match ls with
  | [] => None
  | line :: ls =>
      match split_whitespace line with
      | _ :: _ :: ip :: name :: _ =>
          if eq_ignore_ascii_case name host then Ipv4.parse ip else lookup_lines ls host
      | _ => lookup_lines ls host
      end
  end.
(** [leases] is the lease file, if it can be read. *)
Definition lookup_lease (leases : option str) (host : str) : option Z :=
  text ← leases; lookup_lines (lines text) host.

(** ** Local answers *)
Definition answer (ip : Z) : bytes :=
  [0xc0; 0x0c] ++ be_bytes 2 1 ++ be_bytes 2 1 ++ be_bytes 4 120 ++ be_bytes 2 4 ++ Ipv4.octets ip.

Definition local_answer (leases : option str) (query : bytes) : option bytes :=
  if negb (u16_from_be (byte_at query 4) (byte_at query 5) =? 1) then None
  else
    '(name, after) ← read_name query 12;
    if (length query <? after + 4)%nat then None
    else if negb (u16_from_be (byte_at query after) (byte_at query (after + 1)) =? 1) then None
    else
      let host := to_ascii_lowercase (trim_end_matches (lit ".lan") name) in
      ip ← lookup_lease leases host;
      let r := take (after + 4) query in
      let r := <[2%nat := 0x81]> r in
      let r := <[3%nat := 0x80]> r in
      let r := <[6%nat := 0]> r in
      let r := <[7%nat := 1]> r in
      Some (r ++ answer ip).

(** ** Forwarding *)

(** [upstream]: the address to forward to, from the text of /run/wan.dns. *)
Definition upstream (wan_dns : option str) : Z :=
  default (Ipv4.new 1 1 1 1) (s ← wan_dns; Ipv4.parse (trim s)).

(** Question section -> response with a cleared id, and the time it was stored
    (seconds). *)
Abbreviation cache_t := (gmap bytes (bytes * Z)).

Inductive reply : Type :=
| Local (r : bytes)
| Cached (r : bytes)
| Forwarded (r : bytes)
| Silent.

(** The body of the receive loop: [now] is the time of the cache test,
    [response] what [forward] returns if it is called, with the time of the
    insertion.  [Panic] is an index out of range. *)
Definition handle (cache : cache_t) (leases : option str) (now : Z) (response : option (bytes * Z))
    (query : bytes) : outcome (cache_t * reply) :=
  if (length query <? 12)%nat then Done (cache, Silent)
  else
    match local_answer leases query with
    | Some r => Done (cache, Local r)
    | None =>
        let key := drop 12 query in
        let forwarded :=
          match response with
          | Some (resp, when) =>
              match resp with
              | _ :: _ :: _ =>
                  let store := <[1%nat := 0]> (<[0%nat := 0]> resp) in
                  Done (<[key := (store, when)]> cache, Forwarded resp)
              | _ => Panic
              end
          | None => Done (cache, Silent)
          end in
        match cache !! key with
        | Some (resp, when) =>
            if now - when <? 60 then
              match resp with
              | _ :: _ :: _ =>
                  let out := <[1%nat := byte_at query 1]> (<[0%nat := byte_at query 0]> resp) in
                  Done (cache, Cached out)
              | _ => Panic
              end
            else forwarded
        | None => forwarded
        end
    end.

(** * Specification *)

(** ** The wire form of a name *)
Definition enc_name (labels : list str) : bytes :=
  concat (map (λ l, Z.of_nat (length (Utf8.encode l)) :: Utf8.encode l) labels) ++ [0].
Definition label_ok (l : str) : Prop :=
  str_ok l ∧ (0 < length (Utf8.encode l) < 192)%nat.

(** ** A session of the server: per query the state of the world it meets *)
Record input := mkInput { i_leases : option str; i_now : Z; i_response : option (bytes * Z); i_query : bytes }.

Fixpoint serve (cache : cache_t) (l : list input) : outcome (list reply) :=
  match l with
  | [] => Done []
  | i :: l =>
      match handle cache (i_leases i) (i_now i) (i_response i) (i_query i) with
      | Panic => Panic
      | Done (cache, r) =>
          match serve cache l with Panic => Panic | Done rs => Done (r :: rs) end
      end
  end.

(** ** Lemmas: names *)
Lemma read_labels_enc labels : ∀ fuel pre parts rest,
  Forall label_ok labels → (length labels < fuel)%nat →
  read_labels fuel (pre ++ enc_name labels ++ rest) (length pre) parts
  = Some (parts ++ labels, (length pre + length (enc_name labels))%nat).
Proof.
  induction labels as [|l labels IH]; intros fuel pre parts rest Hl Hf;
    (destruct fuel as [|fuel]; [simpl in Hf; lia|]).
  - unfold enc_name. cbn [read_labels map concat app]. rewrite length_app. simpl length.
    destruct (Nat.leb_spec (length pre + S (length rest)) (length pre)); [lia|].
    unfold byte_at. rewrite app_nth2, Nat.sub_diag by lia. simpl. by rewrite app_nil_r.
  - apply Forall_cons in Hl as [[Hs Hn] Hl]. set (e := Utf8.encode l) in *.
    assert (Ee : enc_name (l :: labels) = [Z.of_nat (length e)] ++ e ++ enc_name labels).
    { unfold enc_name. cbn [map concat]. by rewrite <- !app_assoc. }
    rewrite Ee, <- !app_assoc.
    assert (Hbyte : byte_at (pre ++ [Z.of_nat (length e)] ++ e ++ enc_name labels ++ rest) (length pre)
      = Z.of_nat (length e)).
    { unfold byte_at. by rewrite app_nth2, Nat.sub_diag by lia. }
    cbn [read_labels]. rewrite Hbyte, Nat2Z.id. rewrite !length_app.
    destruct (Nat.leb_spec (length pre + (length [Z.of_nat (length e)] + (length e + (length (enc_name labels) + length rest)))) (length pre)) as [H|_];
      [simpl in H; lia|].
    destruct (Nat.eqb_spec (length e) 0); [lia|]. destruct (Nat.leb_spec 192 (length e)); [lia|].
    destruct (Nat.ltb_spec (length pre + (length [Z.of_nat (length e)] + (length e + (length (enc_name labels) + length rest))))
      (length pre + 1 + length e)) as [H1|_]; [simpl in H1; lia|].
    specialize (IH fuel (pre ++ [Z.of_nat (length e)] ++ e) (parts ++ [l]) rest Hl ltac:(simpl in Hf; lia)).
    rewrite <- !app_assoc, !length_app in IH. simpl length in IH.
    replace (length pre + 1 + length e)%nat with (length pre + (1 + length e))%nat by lia.
    assert (slice (pre ++ [Z.of_nat (length e)] ++ e ++ enc_name labels ++ rest)
      (length pre + 1) (length pre + (1 + length e)) = e) as ->.
    { rewrite app_assoc, slice_app_r by (rewrite length_app; simpl; lia).
      rewrite length_app. simpl length. replace (length pre + 1 - (length pre + 1))%nat with 0%nat by lia.
      rewrite slice_app_l by lia. apply slice_full. lia. }
    assert (Utf8.lossy e = l) as -> by (by apply Utf8.lossy_encode). rewrite IH. do 2 f_equal.
    simpl length. lia.
Qed.

Lemma read_name_enc pre labels rest :
  Forall label_ok labels →
  read_name (pre ++ enc_name labels ++ rest) (length pre)
  = Some (join (lit ".") labels, (length pre + length (enc_name labels))%nat).
Proof.
  intros Hl. unfold read_name. rewrite read_labels_enc; [done|done|].
  rewrite !length_app. assert (length labels <= length (enc_name labels))%nat; [|lia].
  unfold enc_name. rewrite length_app. clear Hl.
  induction labels as [|l labels IH]; simpl; [lia|]. rewrite length_app. simpl in *. lia.
Qed.

(** ** Lemmas: the lease file of the DHCP server *)
Lemma digit_word_chars s :
  Forall (λ c, is_ascii_digit c = true) s → Forall (λ c, is_whitespace c = false) s.
Proof.
  intros H. eapply Forall_impl; [exact H|]. intros c Hc. unfold is_ascii_digit in Hc.
  apply andb_prop in Hc as [H1%N.leb_le H2%N.leb_le].
  assert (∀ i, (i < 10)%nat → is_whitespace (48 + N.of_nat i) = false) as Hd.
  { intros i Hi. do 10 (destruct i as [|i]; [done|]). lia. }
  replace c with (48 + N.of_nat (N.to_nat (c - 48)))%N by lia. apply Hd. lia.
Qed.

Lemma dec_word w x : 0 <= x < 2 ^ w → word (dec x).
Proof. intros H. destruct (dec_spec w x H) as (_ & Hf & Hne). split; [done|]. by apply digit_word_chars. Qed.

Lemma show_ip_word ip : word (Ipv4.show ip).
Proof.
  unfold Ipv4.show. pose proof (Ipv4.octets_ok ip) as Ho.
  destruct (Dhcp.octets_explicit ip) as (a & b & c & d & E & _). rewrite E in *.
  repeat (apply Forall_cons in Ho as [?%(dec_word 8) Ho]). clear E Ho.
  cbn [map]. rewrite !join_cons by done. cbn [join].
  repeat match goal with H : word _ |- _ => destruct H end.
  split; [by destruct (dec a)|]. repeat apply Forall_app_2; try done; by repeat constructor.
Qed.

Lemma hex2_word b : byte_ok b → word (hex2 b).
Proof.
  intros Hb. unfold byte_ok in Hb.
  assert (Forall (λ i, word (hex2 (Z.of_nat i))) (seq 0 256)) as H
    by (apply (bool_decide_unpack _); vm_compute; done).
  rewrite Forall_forall in H. specialize (H (Z.to_nat b)). rewrite Z2Nat.id in H by lia.
  apply H, elem_of_seq. lia.
Qed.

Lemma mac_word mac : mac ≠ [] → bytes_ok mac → word (Dhcp.mac_show mac).
Proof.
  intros Hne Hm. unfold Dhcp.mac_show. induction Hm as [|b l Hb Hl IH]; [done|].
  pose proof (hex2_word b Hb) as [Hb1 Hb2]. destruct l as [|c l]; [done|].
  specialize (IH ltac:(done)). destruct IH as [IH1 IH2]. cbn [map] in *. rewrite join_cons by done.
  split; [by destruct (hex2 b)|]. repeat apply Forall_app_2; try done. by repeat constructor.
Qed.

(** A pool whose names and hardware addresses print as words. *)
Record printable (p : Dhcp.Pool) : Prop := {
  pr_names : ∀ ip n, Dhcp.names p !! ip = Some n → word n;
  pr_macs : ∀ mac ip, Dhcp.by_mac p !! mac = Some ip → mac ≠ [] ∧ bytes_ok mac;
  pr_ips : ∀ mac ip, Dhcp.by_mac p !! mac = Some ip → Ipv4.ip_ok ip
}.

Definition lease_name (p : Dhcp.Pool) (ip : Z) : str := default (lit "*") (Dhcp.names p !! ip).

Lemma lease_line_words now p mac ip :
  printable p → Dhcp.by_mac p !! mac = Some ip →
  ∃ l, Dhcp.lease_line now p (mac, ip) = l ++ [LF] ∧ no_char LF l ∧ (∀ k, l ≠ k ++ [CR]) ∧
    ∃ e, split_whitespace l = [e; Dhcp.mac_show mac; Ipv4.show ip; lease_name p ip].
Proof.
  intros [Hn Hm Hi] Hmac. destruct (Hm _ _ Hmac) as [Hm1 Hm2].
  assert (Hw : word (lease_name p ip)).
  { unfold lease_name. destruct (Dhcp.names p !! ip) as [n|] eqn:E; [by eapply Hn|].
    apply (bool_decide_unpack _). vm_compute. done. }
  pose proof (dec_word 64 (u64 (now + Dhcp.lease p)) (wrap_bound 64 _ ltac:(lia))) as Hd.
  pose proof (mac_word mac Hm1 Hm2) as Hmw. pose proof (show_ip_word ip) as Hiw.
  unfold Dhcp.lease_line. fold (lease_name p ip).
  set (l := dec (u64 (now + Dhcp.lease p)) ++ lit " " ++ Dhcp.mac_show mac ++ lit " " ++ Ipv4.show ip
    ++ lit " " ++ lease_name p ip).
  exists l. split; [unfold l; by rewrite <- !app_assoc|].
  assert (Hnl : ∀ w, word w → no_char LF w).
  { intros w [_ H]. eapply Forall_impl; [exact H|]. by intros c Hc ->. }
  split; [|split].
  - assert (Hsp : no_char LF (lit " ")) by (by apply Forall_singleton).
    unfold l. rewrite !no_char_app. auto 10.
  - intros k E. unfold l in E. destruct Hw as [Hne Hws].
    destruct (lease_name p ip) as [|x n _] using rev_ind; [done|].
    rewrite !app_assoc in E. apply app_inj_tail in E as [_ ->].
    apply Forall_app in Hws as [_ Hx]. by apply Forall_cons in Hx as [? _].
  - exists (dec (u64 (now + Dhcp.lease p))). unfold l.
    by rewrite !split_whitespace_cons, split_whitespace_word.
Qed.

Definition matches (p : Dhcp.Pool) (host : str) (e : bytes * Z) : bool :=
  eq_ignore_ascii_case (lease_name p e.2) host.

Lemma lookup_lease_lines now p host l :
  printable p → Forall (λ e : bytes * Z, Dhcp.by_mac p !! e.1 = Some e.2) l →
  lookup_lease (Some (concat (map (Dhcp.lease_line now p) l))) host
  = snd <$> head (List.filter (matches p host) l).
Proof.
  intros Hp Hl. unfold lookup_lease. cbn [mbind option_bind].
  assert (∃ ls, concat (map (Dhcp.lease_line now p) l) = unlines ls ∧ Forall (no_char LF) ls ∧
    strip_cr <$> ls = ls ∧
    Forall2 (λ t e, ∃ x, split_whitespace t = [x; Dhcp.mac_show e.1; Ipv4.show e.2; lease_name p e.2]) ls l)
    as (ls & -> & Hfree & Hcr & Hrel).
  { induction Hl as [|[mac ip] l He _ (ls & E & Hf & Hc & Hr)]; [by exists []|]. simpl in He.
    destruct (lease_line_words now p mac ip Hp He) as (t & Et & Ht & Hk & Hw).
    exists (t :: ls). split; [|split; [|split]].
    - cbn [map concat]. rewrite Et, E. done.
    - by constructor.
    - cbn [fmap list_fmap]. f_equal; [by apply strip_cr_id|done].
    - by constructor. }
  rewrite lines_unlines, Hcr by done. clear Hfree Hcr.
  induction Hrel as [|t [mac ip] ls l (x & Hw) _ IH]; [done|].
  apply Forall_cons in Hl as [He Hl]. cbn [lookup_lines List.filter fst snd] in *. rewrite Hw.
  unfold matches at 1. cbn [snd]. destruct (eq_ignore_ascii_case (lease_name p ip) host).
  - cbn [head fmap option_fmap option_map snd]. apply Ipv4.parse_show. by eapply pr_ips.
  - by apply IH.
Qed.

Lemma lookup_lease_persist now p host :
  printable p →
  lookup_lease (Some (Dhcp.persist_text now p)) host
  = snd <$> head (List.filter (matches p host) (merge_sort Dhcp.mac_order (map_to_list (Dhcp.by_mac p)))).
Proof.
  intros Hp. apply lookup_lease_lines; [done|]. apply Forall_forall. intros [mac ip] He.
  rewrite merge_sort_Permutation in He. by apply elem_of_map_to_list in He.
Qed.

(** ** The suffix of the local domain *)
Lemma eq_ignore_lower s : eq_ignore_ascii_case s (to_ascii_lowercase s) = true.
Proof.
  unfold eq_ignore_ascii_case. apply bool_decide_eq_true. unfold to_ascii_lowercase.
  induction s as [|c s IH]; [done|]. cbn. f_equal; [|done]. unfold to_ascii_lower.
  destruct ((65 <=? c) && (c <=? 90))%N eqn:E; [|by rewrite E].
  apply andb_prop in E as [H1%N.leb_le H2%N.leb_le].
  destruct (N.leb_spec 65 (c + 32)), (N.leb_spec (c + 32) 90); simpl; lia.
Qed.

Lemma trim_lan name : no_char (chr ".") name → trim_end_matches (lit ".lan") (name ++ lit ".lan") = name.
Proof.
  intros H. unfold trim_end_matches. rewrite reverse_app. unfold trim_start_matches.
  change (reverse (lit ".lan")) with (lit "nal."). rewrite length_app. simpl length.
  assert (Hs : strip_prefix (lit "nal.") (reverse name) = None).
  { destruct (strip_prefix (lit "nal.") (reverse name)) as [u|] eqn:E; [|done].
    apply strip_prefix_Some in E. apply (f_equal reverse) in E. rewrite reverse_involutive in E.
    rewrite E, reverse_app in H. apply no_char_app in H as [_ H]. by apply Forall_cons in H as [? _]. }
  cbn [Nat.add trim_start_matches_fuel]. rewrite strip_prefix_app. cbn [trim_start_matches_fuel].
  rewrite Hs. apply reverse_involutive.
Qed.

(** * Properties *)

(** C19. DHCP and DNS agree, as long as every host name in the pool is one word
    and its addresses are proper ([printable]): a client that holds a lease under
    a host name of one label (no dot, fewer than 192 bytes) that no other lease
    has in any letter case is resolved at name.lan, in any letter case, to its
    leased address, through the lease file the DHCP server writes; the question
    is the only one and of type A, and the response repeats it, carries the flags
    and one answer, and ends with the address.  A name with white space breaks
    the lease file: [hostname_forges_lease_line]. *)
Theorem leased_host_resolves now p mac ip name query_name hdr :
  printable p →
  Dhcp.by_mac p !! mac = Some ip → Dhcp.names p !! ip = Some name →
  (∀ mac' ip', Dhcp.by_mac p !! mac' = Some ip' →
     eq_ignore_ascii_case (lease_name p ip') (to_ascii_lowercase query_name) = true → ip' = ip) →
  eq_ignore_ascii_case name (to_ascii_lowercase query_name) = true →
  label_ok query_name → no_char (chr ".") query_name →
  length hdr = 12%nat → byte_at hdr 4 = 0 → byte_at hdr 5 = 1 →
  let question := enc_name [query_name; lit "lan"] ++ [0; 1; 0; 1] in
  local_answer (Some (Dhcp.persist_text now p)) (hdr ++ question)
  = Some (take 2 hdr ++ [0x81; 0x80] ++ slice hdr 4 6 ++ [0; 1] ++ drop 8 hdr ++ question ++ answer ip).
Proof.
  intros Hp Hmac Hname Huniq Heq Hlab Hdot Hh H4 H5 question.
  destruct hdr as [|h0 [|h1 [|h2 [|h3 [|h4 [|h5 [|h6 [|h7 [|h8 [|h9 [|h10 [|h11 [|]]]]]]]]]]]]]; try discriminate Hh.
  unfold byte_at in H4, H5. cbn [nth] in H4, H5. subst h4 h5.
  set (hdr := [h0; h1; h2; h3; 0; 1; h6; h7; h8; h9; h10; h11]).
  assert (Hlab2 : Forall label_ok [query_name; lit "lan"]).
  { apply Forall_cons_2; [done|]. apply Forall_cons_2; [|apply Forall_nil_2]. split; [|simpl; lia].
    repeat (apply Forall_cons_2; [left; reflexivity|]). apply Forall_nil_2. }
  unfold local_answer. change (u16_from_be (byte_at (hdr ++ question) 4) (byte_at (hdr ++ question) 5) =? 1) with true.
  cbn [negb]. pose proof (read_name_enc hdr _ [0; 1; 0; 1] Hlab2) as Er.
  fold question in Er. change (length hdr) with 12%nat in Er. rewrite Er.
  cbn [mbind option_bind]. set (after := (12 + length (enc_name [query_name; lit "lan"]))%nat).
  assert (Hafter : after = (length hdr + length (enc_name [query_name; lit "lan"]))%nat) by done.
  clearbody after.
  assert (Hlen : length (hdr ++ question) = (after + 4)%nat).
  { unfold question. rewrite Hafter, !length_app. simpl length. lia. }
  rewrite Hlen. destruct (Nat.ltb_spec (after + 4) (after + 4)); [lia|].
  assert (Hq : ∀ i, byte_at (hdr ++ question) (after + i) = byte_at [0; 1; 0; 1] i).
  { intros i. unfold byte_at, question. rewrite app_assoc, app_nth2 by (rewrite Hafter, length_app; lia).
    f_equal. rewrite Hafter, length_app. lia. }
  replace (byte_at (hdr ++ question) after) with 0 by (rewrite <- (Nat.add_0_r after), Hq; done).
  rewrite Hq. change (u16_from_be 0 (byte_at [0; 1; 0; 1] 1) =? 1) with true. cbn [negb].
  change (join (lit ".") [query_name; lit "lan"]) with (query_name ++ lit ".lan").
  rewrite trim_lan, lookup_lease_persist by done.
  set (L := merge_sort _ _).
  assert (HL : ∀ e, e ∈ L ↔ Dhcp.by_mac p !! e.1 = Some e.2).
  { intros [m v]. unfold L. rewrite merge_sort_Permutation. apply elem_of_map_to_list. }
  assert (Hin : (mac, ip) ∈ List.filter (matches p (to_ascii_lowercase query_name)) L).
  { apply list_elem_of_In, filter_In. split; [by apply list_elem_of_In, HL|].
    unfold matches, lease_name. cbn [snd]. by rewrite Hname. }
  destruct (List.filter _ L) as [|[m v] l] eqn:Ef; [by apply not_elem_of_nil in Hin|].
  assert (v = ip) as ->.
  { assert (H0 : In (m, v) (List.filter (matches p (to_ascii_lowercase query_name)) L)) by (rewrite Ef; by left).
    apply filter_In in H0 as [H1 H2]. apply list_elem_of_In, HL in H1. by eapply Huniq. }
  cbn [head fmap option_fmap option_map snd]. rewrite take_ge by lia. reflexivity.
Qed.

(** A response of the upstream server, once stored. *)
Definition stored (resp : bytes) : bytes := <[1%nat := 0]> (<[0%nat := 0]> resp).

(** The entries of the cache are responses forwarded earlier. *)
Definition from_history (h : list (bytes * bytes * Z)) (cache : cache_t) : Prop :=
  ∀ key store when, cache !! key = Some (store, when) →
    ∃ q resp, (q, resp, when) ∈ h ∧ drop 12 q = key ∧ store = stored resp ∧ (2 <= length resp)%nat.

Lemma handle_cases cache h i out :
  from_history h cache →
  handle cache (i_leases i) (i_now i) (i_response i) (i_query i) = Done out →
  let h' := match out.2, i_response i with
            | Forwarded r, Some (_, when) => (i_query i, r, when) :: h
            | _, _ => h
            end in
  from_history h' out.1 ∧
  ∀ r, out.2 = Cached r →
    ∃ q resp when, (q, resp, when) ∈ h ∧ drop 12 q = drop 12 (i_query i) ∧ i_now i - when < 60 ∧
      r = take 2 (i_query i) ++ drop 2 resp.
Proof.
  intros Hh. unfold handle. destruct (Nat.ltb_spec (length (i_query i)) 12) as [|Hq]; [by intros [= <-]|].
  destruct (local_answer _ _); [by intros [= <-]|].
  set (fw := match i_response i with Some _ => _ | None => _ end).
  assert (Hfw : fw = Done out → let h' := match out.2, i_response i with
      | Forwarded r, Some (_, when) => (i_query i, r, when) :: h | _, _ => h end in
    from_history h' out.1 ∧ ∀ r, out.2 = Cached r → False).
  { unfold fw. destruct (i_response i) as [[resp when]|]; [|by intros [= <-]].
    destruct resp as [|r0 [|r1 resp]]; try discriminate. intros [= <-]. cbn [fst snd].
    split; [|done]. intros key store w. rewrite lookup_insert_Some. intros [[<- [= <- <-]]|[_ Hc]].
    - exists (i_query i), (r0 :: r1 :: resp). split; [by left|]. repeat split. simpl. lia.
    - destruct (Hh _ _ _ Hc) as (q & rs & Hin & ? & ? & ?). exists q, rs. split; [by right|done]. }
  destruct (cache !! drop 12 (i_query i)) as [[store when]|] eqn:Ec.
  2: { intros H. destruct (Hfw H) as [? Hno]. split; [done|]. intros r Hr. by destruct (Hno r). }
  destruct (Z.ltb_spec (i_now i - when) 60) as [Hw|Hw].
  2: { intros H. destruct (Hfw H) as [? Hno]. split; [done|]. intros r Hr. by destruct (Hno r). }
  destruct (Hh _ _ _ Ec) as (q & resp & Hin & Hk & -> & Hlen).
  destruct resp as [|r0 [|r1 resp]]; [simpl in Hlen; lia..|]. unfold stored. simpl.
  intros [= <-]. cbn [fst snd]. split; [done|]. intros r [= <-].
  exists q, (r0 :: r1 :: resp), when. repeat split; try done.
  destruct (i_query i) as [|q0 [|q1 ql]]; [simpl in Hq; lia..|]. done.
Qed.

(** What the replies so far say of the cache. *)
Lemma serve_from_history l : ∀ h cache out,
  from_history h cache → serve cache l = Done out →
  ∀ j i r, l !! j = Some i → out !! j = Some (Cached r) →
    ∃ q resp when, drop 12 q = drop 12 (i_query i) ∧ i_now i - when < 60 ∧
      r = take 2 (i_query i) ++ drop 2 resp ∧
      ((q, resp, when) ∈ h ∨
       ∃ k i', (k < j)%nat ∧ l !! k = Some i' ∧ out !! k = Some (Forwarded resp) ∧
         i_query i' = q ∧ ∃ full, i_response i' = Some (full, when) ∧ full = resp).
Proof.
  induction l as [|i0 l IH]; intros h cache out Hh Hs j i r Hj Hr; [done|]. cbn [serve] in Hs.
  destruct (handle cache _ _ _ _) as [[cache' r0]|] eqn:E; [|done].
  destruct (serve cache' l) as [rs|] eqn:Es; [|done]. injection Hs as <-.
  pose proof (handle_cases _ _ _ _ Hh E) as [Hh' Hc]. cbn [fst snd] in *.
  destruct j as [|j].
  - injection Hj as ->. injection Hr as ->. destruct (Hc r eq_refl) as (q & resp & when & Hin & ? & ? & ?).
    exists q, resp, when. auto.
  - cbn [lookup list_lookup] in Hj, Hr.
    destruct (IH _ _ _ Hh' Es j i r Hj Hr) as (q & resp & when & H1 & H2 & H3 & H4).
    exists q, resp, when. repeat split; try done. destruct H4 as [Hin|(k & i' & Hk & Hl & Ho & Hq & Hf)].
    + destruct r0 as [| |f|]; auto. destruct (i_response i0) as [[full w]|] eqn:Ei; auto.
      apply elem_of_cons in Hin as [[= -> -> ->]|Hin]; [|auto]. right.
      exists 0%nat, i0. repeat split; try done; [lia|]. exists full. split; [done|].
      revert E. unfold handle. repeat case_match; by intros [= _ <-].
    + right. exists (S k), i'. split; [lia|]. eauto.
Qed.

(** C20. The cache is transparent for a minute: over any sequence of queries,
    every reply served from the cache is the response that the upstream server
    gave, less than 60 seconds before, to an earlier query with the same
    question section, with the transaction id of the present query. *)
Theorem cached_reply_is_recent l out j i r :
  serve ∅ l = Done out → l !! j = Some i → out !! j = Some (Cached r) →
  ∃ k i' resp when, (k < j)%nat ∧ l !! k = Some i' ∧ out !! k = Some (Forwarded resp) ∧
    i_response i' = Some (resp, when) ∧ drop 12 (i_query i') = drop 12 (i_query i) ∧
    i_now i - when < 60 ∧ r = take 2 (i_query i) ++ drop 2 resp.
Proof.
  intros Hs Hj Hr. assert (Hh : from_history [] ∅) by (intros k s w; by rewrite lookup_empty).
  destruct (serve_from_history _ _ _ _ Hh Hs _ _ _ Hj Hr)
    as (q & resp & when & H1 & H2 & H3 & [Hin|(k & i' & Hk & Hl & Ho & <- & full & Hf & ->)]).
  - by apply not_elem_of_nil in Hin.
  - by exists k, i', resp, when.
Qed.

Definition demo_query (id : byte) : bytes := [id; 0; 1; 0; 0; 1; 0; 0; 0; 0; 0; 0] ++ enc_name [lit "x"] ++ [0; 1; 0; 1].
Definition demo_session : list input :=
  [mkInput None 0 (Some ([1; 0; 7; 7], 2)) (demo_query 1); mkInput None 50 None (demo_query 9)].

Lemma cached_reply_is_recent_witness :
  ∃ k i' resp when, (k < 1)%nat ∧ demo_session !! k = Some i' ∧
    [Forwarded [1; 0; 7; 7]; Cached [9; 0; 7; 7]] !! k = Some (Forwarded resp) ∧
    i_response i' = Some (resp, when) ∧ drop 12 (i_query i') = drop 12 (demo_query 9) ∧
    50 - when < 60 ∧ [9; 0; 7; 7] = take 2 (demo_query 9) ++ drop 2 resp.
Proof.
  apply (cached_reply_is_recent demo_session [Forwarded [1; 0; 7; 7]; Cached [9; 0; 7; 7]] 1
    (mkInput None 50 None (demo_query 9)) [9; 0; 7; 7]); [vm_compute; reflexivity|reflexivity|reflexivity].
Defined.

Definition demo_pool : Dhcp.Pool :=
  Dhcp.add_name (Dhcp.assign Dhcp.demo_pool [2; 0; 0; 0; 0; 1] (Ipv4.new 192 168 1 100))
    (Ipv4.new 192 168 1 100) (Some (lit "NAS")).

Lemma leased_host_resolves_witness :
  local_answer (Some (Dhcp.persist_text 0 demo_pool))
    ([5; 6; 1; 0; 0; 1; 0; 0; 0; 0; 0; 0] ++ enc_name [lit "nas"; lit "lan"] ++ [0; 1; 0; 1])
  = Some ([5; 6; 0x81; 0x80; 0; 1; 0; 1; 0; 0; 0; 0] ++ enc_name [lit "nas"; lit "lan"] ++ [0; 1; 0; 1]
      ++ answer (Ipv4.new 192 168 1 100)).
Proof.
  refine (leased_host_resolves 0 demo_pool [2; 0; 0; 0; 0; 1] (Ipv4.new 192 168 1 100) (lit "NAS") (lit "nas")
    [5; 6; 1; 0; 0; 1; 0; 0; 0; 0; 0; 0] _ eq_refl eq_refl _ eq_refl _ _ eq_refl eq_refl eq_refl).
  - assert (Hm : ∀ mac ip, Dhcp.by_mac demo_pool !! mac = Some ip →
      mac = [2; 0; 0; 0; 0; 1] ∧ ip = Ipv4.new 192 168 1 100).
    { intros mac ip H. change (Dhcp.by_mac demo_pool) with ({[ [2; 0; 0; 0; 0; 1] := Ipv4.new 192 168 1 100 ]} : gmap bytes Z) in H.
      by apply lookup_singleton_Some in H as [<- <-]. }
    split.
    + intros ip n H. change (Dhcp.names demo_pool) with ({[ Ipv4.new 192 168 1 100 := lit "NAS" ]} : gmap Z str) in H.
      apply lookup_singleton_Some in H as [_ <-]. apply (bool_decide_unpack _). vm_compute. exact I.
    + intros mac ip [-> ->]%Hm. split; [done|]. apply (bool_decide_unpack _). vm_compute. exact I.
    + intros mac ip [-> ->]%Hm. split; [vm_compute; discriminate|reflexivity].
  - intros mac ip H _. change (Dhcp.by_mac demo_pool) with ({[ [2; 0; 0; 0; 0; 1] := Ipv4.new 192 168 1 100 ]} : gmap bytes Z) in H.
    by apply lookup_singleton_Some in H as [_ <-].
  - split; [|simpl; lia]. repeat (apply Forall_cons_2; [left; reflexivity|]). apply Forall_nil_2.
  - repeat (apply Forall_cons_2; [discriminate|]). apply Forall_nil_2.
Defined.

(** A response of fewer than two bytes from the upstream server aborts the
    forwarder (its transaction id is cleared without a length check), and
    nothing else does: a query panics exactly when it is forwarded to such a
    response. *)
Theorem short_response_aborts h cache i :
  from_history h cache →
  handle cache (i_leases i) (i_now i) (i_response i) (i_query i) = Panic ↔
  (12 <= length (i_query i))%nat ∧ local_answer (i_leases i) (i_query i) = None ∧
  (∀ store when, cache !! drop 12 (i_query i) = Some (store, when) → 60 <= i_now i - when) ∧
  ∃ resp when, i_response i = Some (resp, when) ∧ (length resp < 2)%nat.
Proof.
  intros Hh. unfold handle. destruct (Nat.ltb_spec (length (i_query i)) 12) as [Hq|Hq].
  { split; [done|]. intros (? & _). lia. }
  destruct (local_answer _ _) as [r|]; [by split; [|intros (_ & ? & _)]|].
  set (fw := match i_response i with Some _ => _ | None => _ end).
  assert (Hfw : fw = Panic ↔ ∃ resp when, i_response i = Some (resp, when) ∧ (length resp < 2)%nat).
  { unfold fw. destruct (i_response i) as [[resp when]|].
    - destruct resp as [|r0 [|r1 resp]]; (split; [|]); try done.
      + intros _. eexists _, _. split; [done|]. simpl. lia.
      + intros _. eexists _, _. split; [done|]. simpl. lia.
      + intros (? & ? & [= <- <-] & ?). simpl in *. lia.
    - split; [done|]. by intros (? & ? & ? & _). }
  destruct (cache !! drop 12 (i_query i)) as [[store when]|] eqn:Ec.
  2: { rewrite Hfw. split; [intros H; repeat split; try done|tauto]. }
  destruct (Hh _ _ _ Ec) as (q & resp & _ & _ & -> & Hlen).
  destruct resp as [|r0 [|r1 resp]]; [simpl in Hlen; lia..|]. unfold stored. simpl.
  destruct (Z.ltb_spec (i_now i - when) 60) as [Hw|Hw].
  - split; [done|]. intros (_ & _ & H & _). specialize (H _ _ eq_refl). lia.
  - rewrite Hfw. split; [intros H; repeat split; try done|tauto]. by intros ? ? [= <- <-].
Qed.

Lemma short_response_aborts_witness :
  handle ∅ None 0 (Some ([7], 0)) (demo_query 1) = Panic.
Proof.
  apply (short_response_aborts [] ∅ (mkInput None 0 (Some ([7], 0)) (demo_query 1))).
  - intros k s w. by rewrite lookup_empty.
  - split; [vm_compute; lia|]. split; [reflexivity|]. split; [intros s w; by rewrite lookup_empty|].
    exists [7], 0. split; [reflexivity|simpl; lia].
Defined.

(** ** Observations *)

(** The counts of the query's other sections are copied into the response but
    the sections are not: the answer to a query with an additional record (as
    EDNS resolvers send) announces a record that is missing. *)
Example additional_count_is_copied :
  local_answer (Some (Dhcp.persist_text 0 demo_pool))
    ([5; 6; 1; 0; 0; 1; 0; 0; 0; 0; 0; 1] ++ enc_name [lit "nas"; lit "lan"] ++ [0; 1; 0; 1]
     ++ [0; 0; 41; 4; 208; 0; 0; 0; 0; 0; 0])
  = Some ([5; 6; 0x81; 0x80; 0; 1; 0; 1; 0; 0; 0; 1] ++ enc_name [lit "nas"; lit "lan"] ++ [0; 1; 0; 1]
      ++ answer (Ipv4.new 192 168 1 100)).
Proof. vm_compute. reflexivity. Qed.

(** An asterisk is the name of every lease without a host name. *)
Example asterisk_resolves :
  lookup_lease (Some (Dhcp.persist_text 0 (Dhcp.assign Dhcp.demo_pool [2; 0; 0; 0; 0; 1] (Ipv4.new 192 168 1 100))))
    (lit "*") = Some (Ipv4.new 192 168 1 100).
Proof. vm_compute. reflexivity. Qed.

End Dns.
