(* ===== verification/DnsRun.v ===== *)
(** * The DNS applet (dns.rs: run, forward)

    The receive loop and the exchange with the upstream server, over events; a
    turn of the loop is [Dns.handle] on what it met. *)

From S2P Require Import Prelude Words RustStr Num IO Config Dns.
Open Scope Z_scope.

Module DnsRun.
Import Dns.

Inductive ev : Set → Type :=
| ReadConfig : ev (option str)
| BindTo (addr : str) : ev bool
| RecvFrom : ev (option (Z * bytes))           (* the peer and the datagram *)
| SendTo (data : bytes) (peer : Z) : ev bool
| ReadLeases : ev (option str)
| ReadWanDns : ev (option str)
| Now : ev Z                                   (* the monotonic clock, in seconds *)
| BindAny : ev bool
| SetTimeout (secs : Z) : ev bool
| Ask (query : bytes) (server : Z) : ev bool   (* to port 53 *)
| RecvAnswer : ev (option bytes).

Definition BUF : nat := 1500.

Definition forward (query : bytes) : io ev (option bytes) :=
  perform b := BindAny in
  if negb b then Ret None else
  perform t := SetTimeout 3 in
  if negb t then Ret None else
  perform w := ReadWanDns in
  perform s := Ask query (upstream w) in
  if negb s then Ret None else
  perform r := RecvAnswer in
  Ret (take BUF <$> (r : option bytes)).

(** [if let Some(resp) = forward(query)]: relayed, and stored with a cleared id. *)
Definition relay (cache : cache_t) (peer : Z) (query : bytes) : io ev (outcome cache_t) :=
  await resp := forward query in
  match resp with
  | None => Ret (Done cache)
  | Some resp =>
      match resp with
      | _ :: _ :: _ =>
          let store := <[1%nat := 0]> (<[0%nat := 0]> resp) in
          perform when := Now in
          perform s := SendTo resp peer in
          Ret (Done (<[drop 12 query := (store, when)]> cache))
      | _ => Ret Panic
      end
  end.

(** One turn of the loop.  The lease file is read when a local answer is looked
    for. *)
Definition answer_query (cache : cache_t) (peer : Z) (query : bytes) : io ev (outcome cache_t) :=
  if (length query <? 12)%nat then Ret (Done cache)
  else
    perform leases := ReadLeases in
    match local_answer leases query with
    | Some reply => perform s := SendTo reply peer in Ret (Done cache)
    | None =>
        let key := drop 12 query in
        match cache !! key with
        | Some (resp, when) =>
            perform now := Now in
            if now - when <? 60 then
              match resp with
              | _ :: _ :: _ =>
                  let out := <[1%nat := byte_at query 1]> (<[0%nat := byte_at query 0]> resp) in
                  perform s := SendTo out peer in Ret (Done cache)
              | _ => Ret Panic
              end
            else relay cache peer query
        | None => relay cache peer query
        end
    end.

(** The loop for [n] receipts. *)
Fixpoint loop (n : nat) (cache : cache_t) : io ev (outcome cache_t) :=
  match n with
  | O => Ret (Done cache)
  | S n =>
      perform r := RecvFrom in
      match r with
      | None => loop n cache
      | Some (peer, query) =>
          await o := answer_query cache peer (take BUF query) in
          match o with Panic => Ret Panic | Done cache => loop n cache end
      end
  end.

(** [Some] is the exit code; [None] is still running. *)
Definition run (n : nat) (args : list str) : io ev (outcome (option Z)) :=
  perform text := ReadConfig in
  let cfg := Config.load text in
  let lan_ip := Config.get_or cfg (lit "lan") (lit "ipaddr") (lit "192.168.1.1") in
  let bind := lan_ip ++ lit ":53" in
  perform sock := BindTo bind in
  if negb sock then Ret (Done (Some 1)) else
  await o := loop n ∅ in
  Ret (match o with Panic => Panic | Done _ => Done None end).

(** ** A turn is the handler of [Dns] *)
Definition replied (c : call ev) : option bytes :=
  match c with
  | Call e x => match e in ev X return X → option bytes with SendTo data _ => λ _, Some data | _ => λ _, None end x
  end.
Definition reply_bytes (r : reply) : list bytes :=
  match r with Silent => [] | Local b => [b] | Cached b => [b] | Forwarded b => [b] end.

Lemma forward_quiet query t r : runs (forward query) t r → omap replied t = [].
Proof.
  unfold forward. intros H. run_inv H. destruct x; cbn [negb] in H; [|by run_inv H].
  run_inv H. destruct x; cbn [negb] in H; [|by run_inv H]. run_inv H. run_inv H.
  destruct x0; cbn [negb] in H; [|by run_inv H]. run_inv H. by run_inv H.
Qed.

(** What [Dns.handle] does with the answer of the upstream server. *)
Definition relayed (cache : cache_t) (query : bytes) (response : option (bytes * Z)) : outcome (cache_t * reply) :=
  match response with
  | Some (resp, when) =>
      match resp with
      | _ :: _ :: _ => Done (<[drop 12 query := (<[1%nat := 0]> (<[0%nat := 0]> resp), when)]> cache, Forwarded resp)
      | _ => Panic
      end
  | None => Done (cache, Silent)
  end.

(** A run that ends with [o] agrees with the outcome of the handler. *)
Definition agrees (t : list (call ev)) (o : outcome cache_t) (h : outcome (cache_t * reply)) : Prop :=
  match o with
  | Done cache' => ∃ r, h = Done (cache', r) ∧ omap replied t = reply_bytes r
  | Panic => h = Panic
  end.

Lemma relay_runs cache peer query t o :
  runs (relay cache peer query) t o → ∃ response, agrees t o (relayed cache query response).
Proof.
  unfold relay, agrees. intros H. run_inv H. apply forward_quiet in H0. rewrite omap_app, H0. cbn [app].
  destruct a as [[|b0 [|b1 resp]]|].
  - run_inv H. by exists (Some ([], 0)).
  - run_inv H. by exists (Some ([b0], 0)).
  - run_inv H. run_inv H. run_inv H. exists (Some (b0 :: b1 :: resp, x)). by exists (Forwarded (b0 :: b1 :: resp)).
  - run_inv H. exists None. by exists Silent.
Qed.

(** For some contents of the lease file, time and upstream answer, the turn
    leaves the cache of [Dns.handle] and has sent its reply; it aborts only when
    [Dns.handle] does. *)
Theorem answer_query_handles cache peer query t o :
  runs (answer_query cache peer query) t o →
  ∃ leases now response, agrees t o (handle cache leases now response query).
Proof.
  unfold answer_query, handle. destruct (length query <? 12)%nat.
  { intros H. run_inv H. exists None, 0, None. by exists Silent. }
  intros H. run_inv H. exists x. destruct (local_answer x query) as [reply|].
  { run_inv H. run_inv H. exists 0, None. by exists (Local reply). }
  cbv zeta in *. destruct (cache !! drop 12 query) as [[resp when]|].
  - run_inv H. exists x0. destruct (x0 - when <? 60).
    + exists None. destruct resp as [|b0 [|b1 resp]]; [by run_inv H..|]. run_inv H. run_inv H. eexists. by split.
    + apply relay_runs in H as (response & H). by exists response.
  - apply relay_runs in H as (response & H). by exists 0, response.
Qed.

(** ** The name server of the WAN lease

    The DHCP client stores the address followed by a line feed; the forwarder
    reads it back and asks that server. *)
Definition asked (c : call ev) : option Z :=
  match c with
  | Call e x => match e in ev X return X → option Z with Ask _ server => λ _, Some server | _ => λ _, None end x
  end.
Definition wan_dns (c : call ev) : option (option str) :=
  match c with
  | Call e x => match e in ev X return X → option (option str) with ReadWanDns => λ r, Some r | _ => λ _, None end x
  end.

Lemma upstream_of_lease dns : Ipv4.ip_ok dns → upstream (Some (Ipv4.show dns ++ [LF])) = dns.
Proof.
  intros H. unfold upstream. cbn [mbind option_bind].
  rewrite trim_app_blank_r by done. destruct (show_ip_word dns) as [_ Hw].
  rewrite not_blank_trimmed by done. by rewrite Ipv4.parse_show.
Qed.

Theorem lease_server_is_asked query dns t r :
  Ipv4.ip_ok dns →
  runs (forward query) t r →
  Forall (λ w, w = Some (Ipv4.show dns ++ [LF])) (omap wan_dns t) →
  omap asked t = [] ∨ omap asked t = [dns].
Proof.
  intros Hd H. unfold forward in H.
  run_inv H. destruct x; cbn [negb] in H; [|run_inv H; by left].
  run_inv H. destruct x; cbn [negb] in H; [|run_inv H; by left]. run_inv H. run_inv H.
  cbn [omap list_omap wan_dns asked]. intros [Hx _]%Forall_cons. subst x. rewrite upstream_of_lease by done. right.
  destruct x0; cbn [negb] in H; [|by run_inv H]. run_inv H. by run_inv H.
Qed.
End DnsRun.
