(* ===== verification/Mtd.v ===== *)
(** * The flash tool (mtd.rs)

    Partition names, ioctl numbers, the erase loop and the write, erase and
    verify commands as programs over device events.  What the hardware does
    with the erase and write requests is the interface [Flash]; the theorems
    hold for every implementation of it. *)

From S2P Require Import Prelude Words RustStr IO Num.
Open Scope Z_scope.

Module Mtd.

(** ** The _IOC encoding of the two families of targets *)
Record ioc_abi := mkIoc { DIRSHIFT : Z; SIZESHIFT : Z; READ : Z; WRITE : Z }.
Definition ioc_mips : ioc_abi := mkIoc 29 16 2 4.
Definition ioc_generic : ioc_abi := mkIoc 30 16 2 1.
Definition TYPESHIFT : Z := 8.
Definition NRSHIFT : Z := 0.

Definition ioc (abi : ioc_abi) (dir ty nr size : Z) : Z :=
  Z.lor (Z.lor (Z.lor (u32 (Z.shiftl dir (DIRSHIFT abi))) (u32 (Z.shiftl ty TYPESHIFT)))
    (u32 (Z.shiftl nr NRSHIFT))) (u32 (Z.shiftl size (SIZESHIFT abi))).
Definition M : Z := 77.
Definition MEMGETINFO (abi : ioc_abi) : Z := ioc abi (READ abi) M 1 32.
Definition MEMERASE (abi : ioc_abi) : Z := ioc abi (WRITE abi) M 2 8.
Definition MEMUNLOCK (abi : ioc_abi) : Z := ioc abi (WRITE abi) M 6 8.

(** ** Events: what the commands ask of the system *)
Inductive ev : Set → Type :=
| ReadStdin : ev (option bytes)
| ReadImage (path : str) : ev (option bytes)
| ReadTable : ev (option str)            (* /proc/mtd *)
| OpenPart (path : str) : ev bool        (* read/write, O_SYNC *)
| GetInfo : ev (option bytes)            (* MEMGETINFO: the 32-byte structure *)
| Unlock (ei : bytes) : ev unit          (* MEMUNLOCK; its result is ignored *)
| Erase (ei : bytes) : ev bool           (* MEMERASE *)
| SeekStart (pos : Z) : ev bool
| WriteAll (data : bytes) : ev bool
| ReadExact (n : nat) : ev (option bytes)
| Flush : ev bool.

Record MtdInfo := mkInfo { size : Z; erasesize : Z }.

(** The fields at offsets 8 and 12 of [mtd_info_user]. *)
Definition info_of (buf : bytes) : MtdInfo :=
  let rd off := of_le_bytes (slice buf off (off + 4)) in
  mkInfo (rd 8%nat) (rd 12%nat).
Definition get_info : io ev (option MtdInfo) :=
  perform r := GetInfo in Ret (info_of <$> (r : option bytes)).

(** ** The erase loop *)

(** [erase_info_user]: start and length. *)
Definition erase_info (off bs : Z) : bytes := le_bytes 4 off ++ le_bytes 4 bs.

(** [None]: the fuel is exhausted, the loop does not end within it. *)
Fixpoint erase_loop (fuel : nat) (bs end_ off : Z) : io ev (option bool) :=
  match fuel with
  | O => Ret None
  | S fuel =>
      if off <? end_ then
        let ei := erase_info off bs in
        perform _u := Unlock ei in
        perform r := Erase ei in
        if negb r then Ret (Some false)
        else erase_loop fuel bs end_ (u32 (off + bs))
      else Ret (Some true)
  end.

Definition saturating_add (a b : Z) : Z := Z.min (a + b) (2 ^ 32 - 1).

Definition block_size (info : MtdInfo) : Z := Z.max (erasesize info) 1.
Definition erase_end (info : MtdInfo) (start len : Z) : Z :=
  let bs := block_size info in
  let end_ := saturating_add start len in
  let end_ := u32 (div_ceil end_ bs * bs) in
  Z.min end_ (size info).
Definition erase_range (info : MtdInfo) (start len : Z) : io ev (option bool) :=
  let bs := block_size info in
  let end_ := erase_end info start len in
  erase_loop (Z.to_nat (end_ / bs + 2)) bs end_ (start - start mod bs).

(** ** Partition names *)
Definition name_of_line (line : str) : option (str * str) :=
  '(dev, rest) ← split_once (chr ":") line;
  name ← split_char DQ rest !! 1%nat;
  Some (dev, name).
Fixpoint find_part (ls : list str) (part : str) : option str :=
  match ls with
  | [] => None
  | line :: ls =>
      match name_of_line line with
      | Some (dev, name) =>
          if bool_decide (name = part) then Some (lit "/dev/" ++ trim dev) else find_part ls part
      | None => find_part ls part
      end
  end.

Definition shorthand (part : str) : option str :=
  n ← strip_prefix (lit "mtd") part;
  if forallb is_ascii_digit n && is_nonempty n then Some (lit "/dev/mtd" ++ n) else None.

Definition resolve (part : str) : io ev (option str) :=
  if starts_with (lit "/dev/") part then Ret (Some part)
  else match shorthand part with
       | Some dev => Ret (Some dev)
       | None => perform table := ReadTable in
                 Ret (t ← (table : option str); find_part (lines t) part)
       end.

(** ** Commands; [None] is a command that does not end *)
Definition open_part (part : str) : io ev (option MtdInfo) :=
  await path := resolve part in
  match path with
  | None => Ret None
  | Some path =>
      perform opened := OpenPart path in
      if (opened : bool) then get_info else Ret None
  end.

Definition read_image (src : str) : io ev (option bytes) :=
  if bool_decide (src = lit "-") then perform d := ReadStdin in Ret d
  else perform d := ReadImage src in Ret d.

(** [seek] to the start, then [write_all], then [flush]. *)
Definition write_data (data : bytes) : io ev (option Z) :=
  perform sought := SeekStart 0 in
  if negb sought then Ret (Some 1)
  else perform written := WriteAll data in
  if negb written then Ret (Some 1)
  else perform flushed := Flush in
  if negb flushed then Ret (Some 1)
  else Ret (Some 0).

Definition write (img part : str) : io ev (option Z) :=
  await d := read_image img in
  match d with
  | None => Ret (Some 1)
  | Some data =>
      await o := open_part part in
      match o with
      | None => Ret (Some 1)
      | Some info =>
          if size info <? Z.of_nat (length data) then Ret (Some 1)
          else
            await e := erase_range info 0 (u32 (Z.of_nat (length data))) in
            match e with
            | None => Ret None
            | Some false => Ret (Some 1)
            | Some true => write_data data
            end
      end
  end.
Definition write_image (img part : str) : io ev (option Z) := write img part.

Definition erase (part : str) : io ev (option Z) :=
  await o := open_part part in
  match o with
  | None => Ret (Some 1)
  | Some info =>
      await e := erase_range info 0 (size info) in
      match e with
      | None => Ret None
      | Some false => Ret (Some 1)
      | Some true => Ret (Some 0)
      end
  end.

Definition verify (img part : str) : io ev (option Z) :=
  await d := read_image img in
  match d with
  | None => Ret (Some 1)
  | Some data =>
      await o := open_part part in
      match o with
      | None => Ret (Some 1)
      | Some _info =>
          perform sought := SeekStart 0 in
          if negb sought then Ret (Some 1)
          else
            perform r := ReadExact (length data) in
            match r with
            | None => Ret (Some 1)
            | Some on_flash => Ret (Some (if bool_decide (on_flash = data) then 0 else 2))
            end
      end
  end.

Definition list_table : io ev (option Z) :=
  perform t := ReadTable in
  match t with Some _ => Ret (Some 0) | None => Ret (Some 1) end.

Definition run (args : list str) : io ev (option Z) :=
  match args with
  | [] => list_table
  | cmd :: rest =>
      if bool_decide (cmd = lit "list") then list_table
      else if bool_decide (cmd = lit "write") then
        match rest with img :: part :: _ => write img part | _ => Ret (Some 2) end
      else if bool_decide (cmd = lit "erase") then
        match rest with part :: _ => erase part | _ => Ret (Some 2) end
      else if bool_decide (cmd = lit "verify") then
        match rest with img :: part :: _ => verify img part | _ => Ret (Some 2) end
      else Ret (Some 2)
  end.

(** * Specification *)

(** ** What the hardware promises: erasing sets the bytes of a block, writing to
    erased bytes stores the data, and neither touches anything else. *)
Class Flash (mem : Type) := {
  cell : mem → Z → byte;
  f_erase : Z → Z → mem → mem;
  f_program : Z → bytes → mem → mem;
  erase_cell off bs m a : cell (f_erase off bs m) a = if (off <=? a) && (a <? off + bs) then 255 else cell m a;
  program_cell pos d m i b : d !! i = Some b → byte_ok b → cell m (pos + Z.of_nat i) = 255 →
    cell (f_program pos d m) (pos + Z.of_nat i) = b;
  program_other pos d m a : a < pos ∨ pos + Z.of_nat (length d) <= a → cell (f_program pos d m) a = cell m a
}.

Definition ei_start (ei : bytes) : Z := of_le_bytes (take 4 ei).
Definition ei_length (ei : bytes) : Z := of_le_bytes (drop 4 ei).

(** The device behind the events: the flash and the file position. *)
Definition dev_step {mem} `{Flash mem} (d : mem * Z) (c : call ev) : mem * Z :=
  match c with
  | Call e x =>
      match e in ev X return X → mem * Z with
      | OpenPart _ => λ r, if r then (d.1, 0) else d
      | Erase ei => λ r, if r then (f_erase (ei_start ei) (ei_length ei) d.1, d.2) else d
      | SeekStart p => λ r, if r then (d.1, p) else d
      | WriteAll b => λ r, if r then (f_program d.2 b d.1, d.2 + Z.of_nat (length b)) else d
      | ReadExact n => λ r, match r with Some _ => (d.1, d.2 + Z.of_nat n) | None => d end
      | _ => λ _, d
      end x
  end.
Definition after {mem} `{Flash mem} (d : mem * Z) (t : list (call ev)) : mem * Z := foldl dev_step d t.

(** The reads of a trace return what is on the flash. *)
Definition honest {mem} `{Flash mem} (d : mem * Z) (c : call ev) : Prop :=
  match c with
  | Call e x =>
      match e in ev X return X → Prop with
      | ReadExact n => λ r, match r with
          | Some b => b = (λ i, cell d.1 (d.2 + Z.of_nat i)) <$> seq 0 n
          | None => True end
      | _ => λ _, True
      end x
  end.
Fixpoint faithful {mem} `{Flash mem} (d : mem * Z) (t : list (call ev)) : Prop :=
  match t with
  | [] => True
  | c :: t => honest d c ∧ faithful (dev_step d c) t
  end.

(** ** Traces *)

(** Images are bytes; the geometry the driver reports is words, and a partition
    whose end is a block away from 2^32. *)
Definition sane (c : call ev) : Prop :=
  match c with
  | Call e x =>
      match e in ev X return X → Prop with
      | GetInfo => λ r, match r with
          | Some buf => bytes_ok buf ∧ size (info_of buf) + block_size (info_of buf) <= 2 ^ 32
          | None => True end
      | ReadStdin | ReadImage _ => λ r, match r with Some d => bytes_ok d | None => True end
      | _ => λ _, True
      end x
  end.
(** The image bytes a trace has read. *)
Definition image_read (c : call ev) : option bytes :=
  match c with
  | Call e x =>
      match e in ev X return X → option bytes with
      | ReadStdin | ReadImage _ => λ r, r
      | _ => λ _, None
      end x
  end.
Definition image_of (t : list (call ev)) : option bytes := head (omap image_read t).

(** The device geometry a trace has read. *)
Definition geometry_read (c : call ev) : option MtdInfo :=
  match c with
  | Call e x =>
      match e in ev X return X → option MtdInfo with
      | GetInfo => λ r, info_of <$> r
      | _ => λ _, None
      end x
  end.
Definition geometry_of (t : list (call ev)) : option MtdInfo := head (omap geometry_read t).

(** Events that neither change the flash nor move the file position. *)
Definition prelude_event (c : call ev) : Prop :=
  match c with
  | Call e _ => match e with
      | ReadStdin | ReadImage _ | ReadTable | OpenPart _ | GetInfo => True
      | _ => False end
  end.
(** Events that erase or program the flash. *)
Definition changes (c : call ev) : Prop :=
  match c with
  | Call e _ => match e with Erase _ | WriteAll _ => True | _ => False end
  end.

Definition erase_calls (bs off : Z) (n : nat) : list (call ev) :=
  flat_map (λ i, let ei := erase_info (off + Z.of_nat i * bs) bs in
    [Call (Unlock ei) tt; Call (Erase ei) true]) (seq 0 n).

(** * Lemmas *)
Lemma erase_info_start off bs : 0 <= off < 2 ^ 32 → ei_start (erase_info off bs) = off.
Proof.
  intros H. unfold ei_start, erase_info. rewrite take_app_length' by (symmetry; apply length_le_bytes).
  by apply of_le_le_bytes_small.
Qed.
Lemma erase_info_length off bs : 0 <= bs < 2 ^ 32 → ei_length (erase_info off bs) = bs.
Proof.
  intros H. unfold ei_length, erase_info. rewrite drop_app_length' by (symmetry; apply length_le_bytes).
  by apply of_le_le_bytes_small.
Qed.

Lemma erase_calls_S bs off n :
  erase_calls bs off (S n) =
  Call (Unlock (erase_info off bs)) tt :: Call (Erase (erase_info off bs)) true :: erase_calls bs (off + bs) n.
Proof.
  unfold erase_calls. cbn [seq flat_map app]. rewrite Z.mul_0_l, Z.add_0_r. do 2 f_equal.
  rewrite <- seq_shift, flat_map_concat_map, map_map, <- flat_map_concat_map.
  apply flat_map_ext. intros i. by replace (off + Z.of_nat (S i) * bs) with (off + bs + Z.of_nat i * bs) by lia.
Qed.

(** The blocks between [off] and [end_]. *)
Definition nblocks (bs end_ off : Z) : nat := Z.to_nat ((end_ - off + bs - 1) / bs).

Lemma nblocks_done bs end_ off : 0 < bs → end_ <= off → nblocks bs end_ off = 0%nat.
Proof. intros. unfold nblocks. assert ((end_ - off + bs - 1) / bs <= 0); [|lia]. apply Z.lt_succ_r, Z.div_lt_upper_bound; lia. Qed.
Lemma nblocks_step bs end_ off : 0 < bs → off < end_ → nblocks bs end_ off = S (nblocks bs end_ (off + bs)).
Proof.
  intros. unfold nblocks. replace (end_ - off + bs - 1) with (end_ - (off + bs) + bs - 1 + 1 * bs) by lia.
  rewrite Z.div_add by lia. assert (0 <= (end_ - (off + bs) + bs - 1) / bs); [apply Z.div_pos; lia|lia].
Qed.
Lemma nblocks_covers bs end_ : 0 < bs → 0 <= end_ → end_ <= Z.of_nat (nblocks bs end_ 0) * bs < end_ + bs.
Proof. intros. unfold nblocks. Z.to_euclidean_division_equations; nia. Qed.

(** Every request of the loop is for a whole block that starts before the end. *)
Definition erases_within (bs off end_ : Z) (c : call ev) : Prop :=
  match c with
  | Call e _ => match e with
      | Erase ei | Unlock ei => ∃ i, ei = erase_info (off + Z.of_nat i * bs) bs ∧ off + Z.of_nat i * bs < end_
      | _ => False end
  end.

Lemma erases_within_next bs off end_ c : erases_within bs (off + bs) end_ c → erases_within bs off end_ c.
Proof.
  destruct c as [X e x]. destruct e; try done; intros (i & -> & H); exists (S i);
    replace (off + Z.of_nat (S i) * bs) with (off + bs + Z.of_nat i * bs) by lia; done.
Qed.

(** The loop ends; when it succeeds it erased exactly the blocks asked for. *)
Lemma erase_loop_runs fuel bs end_ : ∀ off t r,
  0 < bs → 0 <= off → end_ + bs <= 2 ^ 32 → (nblocks bs end_ off < fuel)%nat →
  runs (erase_loop fuel bs end_ off) t r →
  Forall (erases_within bs off end_) t ∧
  (r = Some false ∨ r = Some true ∧ t = erase_calls bs off (nblocks bs end_ off)).
Proof.
  induction fuel as [|fuel IH]; intros off t r Hbs H0 Hend Hfuel H; [lia|].
  cbn [erase_loop] in H. destruct (Z.ltb_spec off end_) as [Hlt|Hge].
  2: { run_inv H. rewrite nblocks_done by done. auto. }
  rewrite nblocks_step in Hfuel |- * by done.
  run_inv H. run_inv H. destruct x.
  assert (He : erases_within bs off end_ (Call (Unlock (erase_info off bs)) tt) ∧
               erases_within bs off end_ (Call (Erase (erase_info off bs)) x0)).
  { split; exists 0%nat; rewrite Z.mul_0_l, Z.add_0_r; done. }
  destruct x0; cbn [negb] in H.
  2: { run_inv H. split; [|by left]. repeat constructor; apply He. }
  unfold u32 in H. rewrite wrap_small in H by (unfold in_u; lia).
  apply IH in H as [Hall Hr]; [|lia..].
  split; [repeat constructor; [apply He..|]|].
  { eapply Forall_impl; [exact Hall|]. intros c. apply erases_within_next. }
  destruct Hr as [->|[-> ->]]; [by left|right]. by rewrite erase_calls_S.
Qed.

Lemma nblocks_round bs e c : 0 < bs → e <= c * bs < e + bs → nblocks bs e 0 = Z.to_nat c.
Proof. intros. unfold nblocks. f_equal. Z.to_euclidean_division_equations; nia. Qed.

Lemma erase_end_spec info len :
  0 < block_size info → size info + block_size info <= 2 ^ 32 → 0 <= len <= size info →
  len <= erase_end info 0 len <= size info ∧
  nblocks (block_size info) (erase_end info 0 len) 0 = nblocks (block_size info) len 0.
Proof.
  intros Hb Hg Hl. unfold erase_end, saturating_add. set (bs := block_size info) in *.
  replace (Z.min (0 + len) (2 ^ 32 - 1)) with len by lia.
  pose proof (div_ceil_spec len bs Hb ltac:(lia)) as Hc.
  unfold u32. rewrite wrap_small by (unfold in_u; lia).
  split; [lia|]. by rewrite !(nblocks_round bs _ (div_ceil len bs)) by lia.
Qed.

(** [erase_range] from the start of the partition. *)
Lemma erase_range_runs info len t r :
  size info + block_size info <= 2 ^ 32 → 0 <= len <= size info →
  runs (erase_range info 0 len) t r →
  Forall (erases_within (block_size info) 0 (erase_end info 0 len)) t ∧
  (r = Some false ∨ r = Some true ∧ t = erase_calls (block_size info) 0 (nblocks (block_size info) len 0)).
Proof.
  intros Hg Hl H. assert (0 < block_size info) as Hb by (unfold block_size; lia).
  destruct (erase_end_spec info len Hb Hg Hl) as [He Hn]. rewrite <- Hn.
  unfold erase_range in H. rewrite Z.mod_0_l, Z.sub_0_r in H by lia.
  apply erase_loop_runs in H; [done|done|lia|lia|].
  unfold nblocks. set (e := erase_end info 0 len) in *. set (bs := block_size info) in *.
  Z.to_euclidean_division_equations; nia.
Qed.

Section Device.
Context {mem : Type} `{Flash mem}.

Lemma after_app d t u : after d (t ++ u) = after (after d t) u.
Proof. apply foldl_app. Qed.

Lemma prelude_after t : ∀ d, Forall prelude_event t → (after d t).1 = d.1.
Proof.
  induction t as [|[X e x] t IH]; intros d Ht; [done|]. apply Forall_cons in Ht as [He Ht].
  cbn [after foldl]. unfold after in IH. rewrite IH by done. by destruct e; try done; destruct x.
Qed.

Lemma erase_calls_cell bs n : ∀ off d a, 0 < bs → 0 <= off → off + Z.of_nat n * bs < 2 ^ 32 →
  cell (after d (erase_calls bs off n)).1 a =
  if (off <=? a) && (a <? off + Z.of_nat n * bs) then 255 else cell d.1 a.
Proof.
  induction n as [|n IH]; intros off d a Hbs H0 Hn.
  { cbn [after erase_calls seq flat_map foldl]. destruct (Z.leb_spec off a), (Z.ltb_spec a (off + Z.of_nat 0 * bs)); simpl; done || lia. }
  rewrite erase_calls_S. cbn [after foldl dev_step]. unfold after in IH. rewrite IH by nia.
  cbn [fst]. rewrite erase_info_start, erase_info_length, erase_cell by nia.
  destruct (Z.leb_spec (off + bs) a), (Z.ltb_spec a (off + bs + Z.of_nat n * bs)),
    (Z.leb_spec off a), (Z.ltb_spec a (off + Z.of_nat (S n) * bs)), (Z.ltb_spec a (off + bs)); simpl; done || nia.
Qed.
Lemma erase_calls_pos bs n : ∀ off d, (after d (erase_calls bs off n)).2 = d.2.
Proof. induction n as [|n IH]; intros off d; [done|]. rewrite erase_calls_S. cbn [after foldl dev_step]. unfold after in IH. by rewrite IH. Qed.
End Device.

(** ** The commands before they touch the flash *)
Lemma resolve_runs part t r : runs (resolve part) t r → Forall prelude_event t ∧ omap image_read t = [] ∧ omap geometry_read t = [].
Proof.
  unfold resolve. intros H. destruct (starts_with _ _); [by run_inv H|].
  destruct (shorthand part); [by run_inv H|]. run_inv H. run_inv H. by repeat constructor.
Qed.

Lemma open_part_runs part t o : runs (open_part part) t o → Forall sane t →
  Forall prelude_event t ∧ omap image_read t = [] ∧
  (∀ info, o = Some info → geometry_of t = Some info ∧ 0 <= size info ∧ size info + block_size info <= 2 ^ 32).
Proof.
  unfold open_part, geometry_of. intros H Hs. run_inv H. apply resolve_runs in H0 as (Hp & Hi & Hg).
  destruct a as [path|]; [|by run_inv H; rewrite app_nil_r].
  run_inv H. destruct x; cbv iota in H; [|run_inv H; rewrite omap_app, Hi; split; [apply Forall_app; split; [done|by repeat constructor]|done]].
  unfold get_info in H. run_inv H. run_inv H. rewrite !omap_app, Hi, Hg.
  split; [apply Forall_app; split; [done|by repeat constructor]|]. split; [by destruct x|].
  intros info Hx. destruct x as [buf|]; [|done]. injection Hx as <-.
  apply Forall_app in Hs as [_ Hs]. apply Forall_cons in Hs as [_ Hs]. apply Forall_cons in Hs as [Hs _].
  destruct Hs as [Hb Hs]. split; [done|]. split; [|done].
  unfold info_of. cbn [size]. assert (bytes_ok (slice buf 8 12)) as Ho; [|by apply of_le_bytes_bound in Ho as [? _]].
  unfold slice. by apply Forall_take, Forall_drop.
Qed.

Lemma read_image_runs img t d : runs (read_image img) t d →
  Forall prelude_event t ∧ omap image_read t = option_list d ∧ omap geometry_read t = [].
Proof.
  unfold read_image. intros H. destruct (bool_decide _); run_inv H; run_inv H; split; try (by repeat constructor); by destruct x.
Qed.
(** The shape of every run of [write]: nothing, or the erase requests for an
    image that fits, and after all of them succeeded the write. *)
Lemma write_runs img part t r : runs (write img part) t r → Forall sane t →
  ∃ pre u, t = pre ++ u ∧ Forall prelude_event pre ∧
  ((u = [] ∧ r = Some 1) ∨
   ∃ data info te td, image_of t = Some data ∧ geometry_of t = Some info ∧
     Z.of_nat (length data) <= size info ∧ size info + block_size info <= 2 ^ 32 ∧ u = te ++ td ∧
     Forall (erases_within (block_size info) 0 (erase_end info 0 (Z.of_nat (length data)))) te ∧
     ((r = Some 1 ∧ td = []) ∨
      te = erase_calls (block_size info) 0 (nblocks (block_size info) (Z.of_nat (length data)) 0) ∧
      runs (write_data data) td r)).
Proof.
  unfold write, image_of, geometry_of. intros H Hs. run_inv H. apply read_image_runs in H0 as (Hp1 & Hi1 & Hg1).
  destruct a as [data|]; [|run_inv H; exists t0, []; auto].
  run_inv H. apply Forall_app in Hs as [_ Hs]. apply Forall_app in Hs as [Hs1 Hs].
  apply open_part_runs in H0 as (Hp2 & Hi2 & Hg2); [|done].
  exists (t0 ++ t), t2. rewrite <- app_assoc. split; [done|]. split; [by apply Forall_app|].
  destruct a as [info|]; [|run_inv H; auto].
  destruct (Hg2 info eq_refl) as (Hg3 & H0 & Hg). unfold geometry_of in Hg3.
  destruct (Z.ltb_spec (size info) (Z.of_nat (length data))) as [Hlt|Hge]; [run_inv H; auto|right].
  run_inv H. unfold u32 in H1. rewrite wrap_small in H1 by (unfold in_u; unfold block_size in Hg; lia).
  apply erase_range_runs in H1 as [Hte Hr]; [|done|lia].
  eexists data, info, _, _. rewrite !omap_app, Hi1, Hg1. split; [done|].
  split. { by destruct (omap geometry_read t). }
  do 3 (split; [done|]). split; [done|].
  destruct Hr as [->|[-> Ht]]; [left; by run_inv H|right]. done.
Qed.
Lemma write_data_runs data t r : runs (write_data data) t r →
  Forall (λ c, changes c → ∃ w, c = Call (WriteAll data) w) t ∧
  (r = Some 1 ∨ r = Some 0 ∧ t = [Call (SeekStart 0) true; Call (WriteAll data) true; Call Flush true]).
Proof.
  unfold write_data. intros H. run_inv H. destruct x; cbn [negb] in H.
  2: { run_inv H. split; [repeat constructor; by intros []|by left]. }
  run_inv H. destruct x; cbn [negb] in H.
  2: { run_inv H. split; [|by left]. repeat constructor; [by intros []|eauto]. }
  run_inv H. destruct x; cbn [negb] in H; run_inv H; (split; [|by auto]); repeat constructor; eauto; by intros [].
Qed.

Lemma erase_end_start info len i :
  0 < block_size info → size info + block_size info <= 2 ^ 32 → 0 <= len <= size info →
  Z.of_nat i * block_size info < erase_end info 0 len → Z.of_nat i * block_size info < len.
Proof.
  intros Hb Hg Hl Hi. destruct (erase_end_spec info len Hb Hg Hl) as [He Hn].
  set (bs := block_size info) in *.
  pose proof (nblocks_covers bs _ Hb (proj1 Hl)) as H1.
  pose proof (nblocks_covers bs (erase_end info 0 len) Hb ltac:(lia)) as H2. rewrite Hn in H2.
  assert (Z.of_nat i < Z.of_nat (nblocks bs len 0)) by nia. nia.
Qed.

Lemma prelude_changes t c : Forall prelude_event t → c ∈ t → ¬ changes c.
Proof. intros H Hc. rewrite Forall_forall in H. apply H in Hc. intros Hch. by destruct c as [X []]. Qed.

Lemma image_of_ok t data : Forall sane t → image_of t = Some data → bytes_ok data.
Proof.
  unfold image_of. induction 1 as [|[X e x] t He _ IH]; [done|]. cbn [omap list_omap].
  destruct e; simpl; try done; destruct x; try done; by intros [= <-].
Qed.

(** A run of [write] that returns 0 stored the image. *)
Lemma write_success {mem} `{Flash mem} (d : mem * Z) img part t :
  runs (write img part) t (Some 0) → Forall sane t →
  ∃ data info, image_of t = Some data ∧ geometry_of t = Some info ∧
    (∀ i b, data !! i = Some b → cell (after d t).1 (Z.of_nat i) = b) ∧
    (∀ a, a < 0 ∨ Z.of_nat (nblocks (block_size info) (Z.of_nat (length data)) 0) * block_size info <= a →
      cell (after d t).1 a = cell d.1 a).
Proof.
  intros Hr Hs. pose proof (λ data, image_of_ok t data Hs) as Hok.
  apply write_runs in Hr as (pre & u & -> & Hp & [[_ ?]|H1]); [done| |done].
  destruct H1 as (data & info & te & td & Hi & Hg & Hfit & Hgeo & -> & _ & [[? _]|[-> Hw]]); [done|].
  apply write_data_runs in Hw as [_ [?|[_ ->]]]; [done|].
  exists data, info. split; [done|]. split; [done|]. specialize (Hok data Hi).
  assert (0 < block_size info) as Hb by (unfold block_size; lia). set (bs := block_size info) in *.
  pose proof (nblocks_covers bs _ Hb (Nat2Z.is_nonneg (length data))) as Hc. set (n := nblocks bs _ 0) in *.
  rewrite !after_app. cbn [after foldl dev_step fst snd].
  assert (∀ a, cell (after (after d pre) (erase_calls bs 0 n)).1 a =
    if (0 <=? a) && (a <? 0 + Z.of_nat n * bs) then 255 else cell d.1 a) as Hcell.
  { intros a. rewrite erase_calls_cell by lia. by rewrite prelude_after. }
  split.
  - intros i b Hib. apply (program_cell 0); [done|by eapply Forall_lookup_1|]. rewrite Hcell. apply lookup_lt_Some in Hib.
    by destruct (Z.leb_spec 0 (0 + Z.of_nat i)), (Z.ltb_spec (0 + Z.of_nat i) (0 + Z.of_nat n * bs)); try lia.
  - intros a Ha. rewrite program_other, Hcell by lia.
    by destruct (Z.leb_spec 0 a), (Z.ltb_spec a (0 + Z.of_nat n * bs)); try lia.
Qed.

Lemma faithful_app {mem} `{Flash mem} t : ∀ (d : mem * Z) u, faithful d (t ++ u) → faithful (after d t) u.
Proof. induction t as [|c t IH]; intros d u Hf; [done|]. apply IH, Hf. Qed.

Lemma verify_runs img part t r : runs (verify img part) t r → Forall sane t → r ≠ Some 2 ∧ (r = Some 0 ∨ r = Some 1) ∨
  r = Some 2 ∧ ∃ pre data on_flash, t = pre ++ [Call (SeekStart 0) true; Call (ReadExact (length data)) (Some on_flash)] ∧
    Forall prelude_event pre ∧ image_of t = Some data ∧ on_flash ≠ data.
Proof.
  unfold verify. intros H Hs. run_inv H. apply read_image_runs in H0 as (Hp1 & Hi1 & _).
  destruct a as [data|]; [|run_inv H; left; auto].
  run_inv H. apply Forall_app in Hs as [_ Hs]. apply Forall_app in Hs as [Hs1 Hs].
  apply open_part_runs in H0 as (Hp2 & Hi2 & _); [|done].
  destruct a as [info|]; [|run_inv H; left; auto].
  run_inv H. destruct x; cbn [negb] in H; [|run_inv H; left; auto].
  run_inv H. destruct x as [on_flash|]; [|run_inv H; left; auto].
  run_inv H. case_bool_decide; [left; auto|right]. split; [done|].
  eexists (_ ++ _), data, on_flash. rewrite <- app_assoc. split; [done|]. split; [by apply Forall_app|].
  split; [|done]. unfold image_of. by rewrite !omap_app, Hi1.
Qed.

(** * Theorems *)

(** C21. Flashing works: with any flash memory and any answers of the system
    (the partition ending a block short of 2^32 bytes), [write] ends, and when
    it returns 0 the flash holds the image at offset 0 and every byte past the
    last erase block of the image is as before. *)
Theorem write_flashes {mem} `{Flash mem} (d : mem * Z) img part t r :
  runs (write img part) t r → Forall sane t →
  r ≠ None ∧
  (r = Some 0 → ∃ data info, image_of t = Some data ∧ geometry_of t = Some info ∧
    (∀ i b, data !! i = Some b → cell (after d t).1 (Z.of_nat i) = b) ∧
    (∀ a, a < 0 ∨ Z.of_nat (nblocks (block_size info) (Z.of_nat (length data)) 0) * block_size info <= a →
      cell (after d t).1 a = cell d.1 a)).
Proof.
  intros Hr Hs. split; [|intros ->; by eapply write_success].
  apply write_runs in Hr as (pre & u & -> & Hp & [[_ ->]|H1]); [done| |done].
  destruct H1 as (data & info & te & td & _ & _ & _ & _ & -> & _ & [[-> _]|[_ Hw]]); [done|].
  by apply write_data_runs in Hw as [_ [->|[-> _]]].
Qed.

(** C22. The flash is touched only for an image that was read in full and fits
    the partition: in every run of [write], an erase request is for one whole
    erase block that will hold part of the image, and what is written is the
    image. *)
Theorem write_guarded img part t r c :
  runs (write img part) t r → Forall sane t → c ∈ t → changes c →
  ∃ data info, image_of t = Some data ∧ geometry_of t = Some info ∧
    Z.of_nat (length data) <= size info ∧
    ((∃ i ok, c = Call (Erase (erase_info (Z.of_nat i * block_size info) (block_size info))) ok ∧
        Z.of_nat i * block_size info < Z.of_nat (length data)) ∨
     (∃ ok, c = Call (WriteAll data) ok)).
Proof.
  intros Hr Hs Hc Hch. apply write_runs in Hr as (pre & u & -> & Hp & Hu); [|done].
  apply elem_of_app in Hc as [Hc|Hc]; [by apply (prelude_changes pre c) in Hch|].
  destruct Hu as [[-> _]|(data & info & te & td & Hi & Hg & Hfit & Hgeo & -> & Hte & Htd)]; [by apply elem_of_nil in Hc|].
  exists data, info. do 3 (split; [done|]).
  apply elem_of_app in Hc as [Hc|Hc].
  - left. rewrite Forall_forall in Hte. apply Hte in Hc. destruct c as [X e x]. destruct e; try done.
    destruct Hc as (i & -> & Hlt). rewrite Z.add_0_l in *. exists i, x. split; [done|].
    eapply erase_end_start; [| |split; [|exact Hfit]|exact Hlt]; [unfold block_size; lia|done|lia].
  - right. destruct Htd as [[_ ->]|[_ Hw]]; [by apply elem_of_nil in Hc|].
    apply write_data_runs in Hw as [Hw _]. rewrite Forall_forall in Hw. destruct (Hw c Hc Hch) as (w & ->). by exists w.
Qed.
(** C23. Flash then verify: when [write] returned 0 and the reads of a later
    [verify] of the same image return what is on the flash, the verdict is never
    a mismatch; it is 0, or 1 for a failed system call. *)
Theorem verify_after_write {mem} `{Flash mem} (d : mem * Z) img part data t1 t2 r :
  runs (write img part) t1 (Some 0) → Forall sane t1 → image_of t1 = Some data →
  runs (verify img part) t2 r → Forall sane t2 → image_of t2 = Some data → faithful (after d t1) t2 →
  r = Some 0 ∨ r = Some 1.
Proof.
  intros Hw Hs1 Hi1 Hv Hs2 Hi2 Hf. apply verify_runs in Hv as [[_ Hv]|(-> & pre & data' & fl & -> & Hp & Hi & Hne)]; [done| |done].
  rewrite Hi2 in Hi. injection Hi as <-. destruct Hne.
  apply faithful_app in Hf as (_ & Hh & _). cbn [honest dev_step fst snd] in Hh. rewrite Hh.
  apply (write_success d) in Hw as (data' & info & Hi & _ & Hcell & _); [|done].
  rewrite Hi1 in Hi. injection Hi as <-. apply list_eq. intros i.
  rewrite list_lookup_fmap. destruct (data !! i) as [b|] eqn:Eb.
  - pose proof (lookup_lt_Some _ _ _ Eb). rewrite lookup_seq_lt by done. simpl.
    rewrite prelude_after by done. f_equal. by apply Hcell.
  - apply lookup_ge_None in Eb. by rewrite lookup_seq_ge.
Qed.

(** ** A NOR flash: erasing sets bits, programming clears them *)
#[global] Program Instance nor : Flash (Z → byte) := {|
  cell m a := m a;
  f_erase off bs m a := if (off <=? a) && (a <? off + bs) then 255 else m a;
  f_program pos d m a :=
    if a <? pos then m a
    else match d !! Z.to_nat (a - pos) with Some b => Z.land (m a) b | None => m a end
|}.
Next Obligation. done. Qed.
Next Obligation.
  intros pos d m i b Hi Hb Hm. simpl in *. destruct (Z.ltb_spec (pos + Z.of_nat i) pos); [lia|].
  replace (Z.to_nat (pos + Z.of_nat i - pos)) with i by lia. rewrite Hi, Hm.
  change 255 with (Z.ones 8). rewrite Z.land_comm, Z.land_ones by lia. by apply Z.mod_small.
Qed.
Next Obligation.
  intros pos d m a Ha. simpl. destruct (Z.ltb_spec a pos); [done|].
  rewrite lookup_ge_None_2; [done|lia].
Qed.

(** A partition of two 64-KiB blocks and a three-byte image. *)
Definition demo_geometry : bytes :=
  replicate 8 0 ++ le_bytes 4 (2 * 65536) ++ le_bytes 4 65536 ++ replicate 16 0.
Definition demo_open : list (call ev) :=
  [Call (ReadImage (lit "fw.bin")) (Some [7; 8; 9]); Call (OpenPart (lit "/dev/mtd3")) true; Call GetInfo (Some demo_geometry)].
Definition demo_write : list (call ev) :=
  demo_open ++ [Call (Unlock (erase_info 0 65536)) tt; Call (Erase (erase_info 0 65536)) true;
    Call (SeekStart 0) true; Call (WriteAll [7; 8; 9]) true; Call Flush true].
Definition demo_verify : list (call ev) :=
  demo_open ++ [Call (SeekStart 0) true; Call (ReadExact 3) (Some [7; 8; 9])].
(** All zeros before the upgrade. *)
Definition demo_flash : (Z → byte) * Z := (λ _, 0, 0).

Lemma demo_write_runs : runs (write (lit "fw.bin") (lit "mtd3")) demo_write (Some 0).
Proof. play. Qed.
Lemma demo_sane : Forall sane demo_write.
Proof. repeat constructor; vm_compute; done. Qed.

Lemma write_flashes_witness :
  Some 0 ≠ None ∧
  (Some 0 = Some 0 → ∃ data info, image_of demo_write = Some data ∧ geometry_of demo_write = Some info ∧
    (∀ i b, data !! i = Some b → cell (after demo_flash demo_write).1 (Z.of_nat i) = b) ∧
    (∀ a, a < 0 ∨ Z.of_nat (nblocks (block_size info) (Z.of_nat (length data)) 0) * block_size info <= a →
      cell (after demo_flash demo_write).1 a = cell demo_flash.1 a)).
Proof. apply (write_flashes demo_flash _ _ _ _ demo_write_runs demo_sane). Defined.

Lemma write_guarded_witness :
  ∃ data info, image_of demo_write = Some data ∧ geometry_of demo_write = Some info ∧
    Z.of_nat (length data) <= size info ∧
    ((∃ i ok, Call (WriteAll [7; 8; 9]) true = Call (Erase (erase_info (Z.of_nat i * block_size info) (block_size info))) ok ∧
        Z.of_nat i * block_size info < Z.of_nat (length data)) ∨
     (∃ ok, Call (WriteAll [7; 8; 9]) true = Call (WriteAll data) ok)).
Proof.
  apply (write_guarded _ _ _ _ _ demo_write_runs demo_sane); [|exact I].
  unfold demo_write, demo_open. set_solver.
Defined.

Lemma verify_after_write_witness : Some 0 = Some 0 ∨ Some 0 = Some 1.
Proof.
  apply (verify_after_write demo_flash (lit "fw.bin") (lit "mtd3") [7; 8; 9] demo_write demo_verify (Some 0)).
  - exact demo_write_runs.
  - exact demo_sane.
  - reflexivity.
  - play.
  - repeat constructor; vm_compute; done.
  - reflexivity.
  - vm_compute. repeat split.
Defined.

(** The ioctl numbers of the source's tests. *)
Example ioctl_numbers :
  [MEMGETINFO ioc_generic; MEMERASE ioc_generic; MEMUNLOCK ioc_generic] = [0x80204d01; 0x40084d02; 0x40084d06] ∧
  [MEMGETINFO ioc_mips; MEMERASE ioc_mips; MEMUNLOCK ioc_mips] = [0x40204d01; 0x80084d02; 0x80084d06].
Proof. split; reflexivity. Qed.

(** A partition that ends at 2^32 (two blocks of 2^31) wraps the rounded end to
    zero: nothing is erased before the write. *)
Example erase_end_wraps : erase_end (mkInfo (2 ^ 32 - 1) (2 ^ 31)) 0 (2 ^ 31 + 1) = 0.
Proof. reflexivity. Qed.

Example resolve_names :
  find_part (lines (lit "dev:    size   erasesize  name
mtd0: 00030000 00010000 " ++ [DQ] ++ lit "u-boot" ++ [DQ] ++ lit "
mtd5: 00fa0000 00010000 " ++ [DQ] ++ lit "firmware" ++ [DQ])) (lit "firmware") = Some (lit "/dev/mtd5") ∧
  shorthand (lit "mtd7") = Some (lit "/dev/mtd7") ∧ shorthand (lit "mtd") = None.
Proof. repeat split; reflexivity. Qed.
End Mtd.
