(* ===== verification/Sysupgrade.v ===== *)
(** * Firmware upgrade (sysupgrade.rs)

    Option parsing, the pre-flight checks and the upgrade itself, over the
    events of the flash tool and the few the applet adds. *)

From S2P Require Import Prelude Words RustStr IO Mtd.
Open Scope Z_scope.

Module Sysupgrade.

Definition DEFAULT_PART : str := lit "firmware".
Definition CONFIG : str := lit "/etc/lwrt/config".
Definition BACKUP : str := lit "/etc/lwrt/config.bak".

Record Opts := mkOpts { keep_config : bool; test_only : bool; part : str; image : option str }.

Inductive usage_error : Type :=
| MissingPartition
| UnknownOption (o : str).

(** The option loop, from the arguments that are left. *)
Fixpoint parse_from (o : Opts) (args : list str) : result Opts usage_error :=
  match args with
  | [] => Ok o
  | a :: rest =>
      if bool_decide (a = lit "-n") then
        parse_from (mkOpts false (test_only o) (part o) (image o)) rest
      else if bool_decide (a = lit "-T") || bool_decide (a = lit "--test") then
        parse_from (mkOpts (keep_config o) true (part o) (image o)) rest
      else if bool_decide (a = lit "-p") then
        match rest with
        | p :: rest => parse_from (mkOpts (keep_config o) (test_only o) p (image o)) rest
        | [] => Err MissingPartition
        end
      else if starts_with (lit "-") a then Err (UnknownOption a)
      else parse_from (mkOpts (keep_config o) (test_only o) (part o) (Some a)) rest
  end.
Definition parse (args : list str) : result Opts usage_error :=
  parse_from (mkOpts true false DEFAULT_PART None) args.

(** ** Events: those of the flash tool, and the applet's own *)
Inductive ev : Set → Type :=
| Flash {X : Set} (e : Mtd.ev X) : ev X
| Metadata (path : str) : ev (option (bool * Z))   (* regular file?, length *)
| Exists (path : str) : ev bool
| Copy (from to : str) : ev bool
| Sync : ev unit
| Reboot : ev unit.

Definition flash {A} (m : io Mtd.ev A) : io ev A := io_map (@Flash) m.

(** The image size, or [None] for an error. *)
Definition validate (o : Opts) : io ev (option Z) :=
  match image o with
  | None => Ret None
  | Some img =>
      perform meta := Metadata img in
      match meta with
      | None => Ret None
      | Some (is_file, len) =>
          if negb is_file then Ret None
          else if len =? 0 then Ret None
          else
            await dev := flash (Mtd.resolve (part o)) in
            match dev with Some _ => Ret (Some len) | None => Ret None end
      end
  end.

Definition backup_config : io ev unit :=
  perform e := Exists CONFIG in
  if (e : bool) then perform _c := Copy CONFIG BACKUP in Ret tt else Ret tt.

(** [None]: the erase loop of the flash tool does not end. *)
Definition run (args : list str) : io ev (option Z) :=
  match parse args with
  | Err _ => Ret (Some 2)
  | Ok opts =>
      await v := validate opts in
      match v with
      | None => Ret (Some 1)
      | Some _ =>
          if test_only opts then Ret (Some 0)
          else
            await _b := (if keep_config opts then backup_config else Ret tt) in
            perform _s := Sync in
            match image opts with
            | None => Ret (Some 134) (* unwrap aborts; validated above *)
            | Some img =>
                await rc := flash (Mtd.write_image img (part opts)) in
                if negb (bool_decide (rc = Some 0)) then Ret rc
                else
                  perform _s := Sync in
                  perform _r := Reboot in
                  Ret (Some 0)
            end
      end
  end.

(** * Specification *)

(** Events that change anything: flash requests, copies, the reboot. *)
Definition changes (c : call ev) : Prop :=
  match c with
  | Call e x => match e in ev X return X → Prop with
      | Flash f => λ x, Mtd.changes (Call f x)
      | Copy _ _ | Reboot => λ _, True
      | _ => λ _, False end x
  end.

(** The answer of a test for existence. *)
Definition found (c : call ev) : bool :=
  match c with
  | Call e x => match e in ev X return X → bool with Exists _ => λ b, b | _ => λ _, false end x
  end.

Definition reboots (c : call ev) : bool :=
  match c with Call e _ => match e with Reboot => true | _ => false end end.
Definition flashes (c : call ev) : bool :=
  match c with Call e _ => match e with Flash _ => true | _ => false end end.
Definition calm (c : call ev) : Prop := ¬ changes c ∧ found c = false.

Lemma resolve_calm p t r : runs (flash (Mtd.resolve p)) t r → Forall calm t.
Proof.
  intros H. apply runs_map in H as (u & -> & H). apply Mtd.resolve_runs in H as [Hp _].
  apply Forall_map, Forall_forall. intros c Hc. pose proof (Mtd.prelude_changes u c Hp Hc) as H'. by destruct c.
Qed.

Lemma validate_runs o t v : runs (validate o) t v →
  Forall calm t ∧
  ∀ n, v = Some n → n ≠ 0 ∧ ∃ img, image o = Some img ∧ Call (Metadata img) (Some (true, n)) ∈ t.
Proof.
  unfold validate. intros H. destruct (image o) as [img|]; [|by run_inv H].
  run_inv H. assert (Hm : ∀ x, calm (Call (Metadata img) x)) by (intros ?; by split; [intros []|]).
  destruct x as [[f len]|]; [|run_inv H; split; [by apply Forall_singleton|done]].
  destruct f; simpl negb in H; cbv iota in H; [|run_inv H; split; [by apply Forall_singleton|done]].
  destruct (Z.eqb_spec len 0); [run_inv H; split; [by apply Forall_singleton|done]|].
  run_inv H. apply resolve_calm in H0.
  assert (t1 = []) as -> by (destruct a; by run_inv H). rewrite app_nil_r in *.
  split; [by constructor|]. intros k ->. destruct a; run_inv H. split; [done|].
  exists img. split; [done|]. set_solver.
Qed.

(** The backup of the configuration: there is none, or a copy was attempted
    right after it was found; the copy may fail, which the source only reports. *)
Definition backed_up (t : list (call ev)) : Prop :=
  Call (Exists (lit "/etc/lwrt/config")) false ∈ t ∨
  ∃ a ok b, t = a ++ [Call (Exists (lit "/etc/lwrt/config")) true;
                      Call (Copy (lit "/etc/lwrt/config") (lit "/etc/lwrt/config.bak")) ok] ++ b.
Definition copies (c : call ev) : bool :=
  match c with Call e _ => match e with Copy _ _ => true | _ => false end end.

Lemma backed_up_mid t u v : backed_up u → backed_up (t ++ u ++ v).
Proof.
  intros [H|(a & ok & b & ->)]; [left; set_solver|right].
  exists (t ++ a), ok, (b ++ v). by rewrite <- !app_assoc.
Qed.

Lemma backup_runs (keep : bool) t u : runs (if keep then backup_config else Ret tt) t u →
  Call Reboot tt ∉ t ∧ (∀ X (f : Mtd.ev X) x, Call (Flash f) x ∉ t) ∧
  (keep = true → backed_up t) ∧ (keep = false → t = []).
Proof.
  intros H. destruct keep; [|run_inv H; set_solver].
  unfold backup_config in H. run_inv H. destruct x; [run_inv H|]; run_inv H;
    (split; [set_solver|split; [set_solver|split; [intros _|done]]]).
  - right. by exists [], x, [].
  - left. set_solver.
Qed.
(** What a trace did before flashing. *)
Record prepared (o : Opts) (img : str) (t : list (call ev)) : Prop := {
  prep_image : image o = Some img;
  prep_checked : ∃ n, n ≠ 0 ∧ Call (Metadata img) (Some (true, n)) ∈ t;
  prep_no_reboot : Call Reboot tt ∉ t;
  prep_no_flash : ∀ X (f : Mtd.ev X) x, Call (Flash f) x ∈ t → ¬ Mtd.changes (Call f x);
  prep_backup : keep_config o = true → backed_up t;
  prep_no_backup : keep_config o = false → Forall (λ c, copies c = false) t
}.

Lemma calm_copies c : calm c → copies c = false.
Proof. intros [H _]. destruct c as [X e x]. destruct e; try done. Qed.

(** The runs of the applet: no change at all, or preparation, a run of the
    flash tool, and the reboot exactly when it returned 0. *)
Lemma run_runs args t r : runs (run args) t r →
  Forall calm t ∨
  ∃ o img t1 t2 t3 rc, parse args = Ok o ∧ test_only o = false ∧ prepared o img t1 ∧
    t = t1 ++ map (call_map (@Flash)) t2 ++ t3 ∧ runs (Mtd.write_image img (part o)) t2 rc ∧
    ((rc ≠ Some 0 ∧ t3 = [] ∧ r = rc) ∨ (rc = Some 0 ∧ t3 = [Call Sync tt; Call Reboot tt] ∧ r = Some 0)).
Proof.
  unfold run. intros H. destruct (parse args) as [o|e]; [|run_inv H; by left].
  run_inv H. apply validate_runs in H0 as [Hcalm Hv].
  destruct a as [n|]; [|run_inv H; rewrite app_nil_r; by left].
  destruct (Hv n eq_refl) as (Hn & img & Himg & Hmeta).
  destruct (test_only o) eqn:Ht; [run_inv H; rewrite app_nil_r; by left|right].
  run_inv H. apply backup_runs in H0 as (Hb1 & Hb2 & Hb3 & Hb4). run_inv H. destruct x. rewrite Himg in H.
  run_inv H. apply runs_map in H0 as (u & -> & Hu).
  exists o, img, (t0 ++ t ++ [Call Sync tt]), u, t3, a0.
  split; [done|]. split; [done|]. split; [|split; [by rewrite <- !app_assoc|split; [done|]]].
  - rewrite Forall_forall in Hcalm. split; [done|..].
    + exists n. set_solver.
    + rewrite !elem_of_app, list_elem_of_singleton. intros [Hr|[Hr|Hr]]; [by apply Hcalm in Hr as [[] _]|done|].
      by apply (f_equal reboots) in Hr.
    + intros X f x. rewrite !elem_of_app, list_elem_of_singleton. intros [Hr|[Hr|Hr]].
      * apply Hcalm in Hr as [Hr _]. done.
      * by apply Hb2 in Hr.
      * by apply (f_equal flashes) in Hr.
    + intros Hk. by apply backed_up_mid, Hb3.
    + intros Hk. rewrite (Hb4 Hk). apply Forall_app. split; [|by repeat constructor].
      apply Forall_forall. intros c Hc. by apply calm_copies, Hcalm.
  - case_bool_decide as E; cbn [negb] in H.
    + run_inv H. run_inv H. run_inv H. destruct x, x0. auto.
    + run_inv H. auto.
Qed.

(** * Theorems *)

(** C24. The router reboots only into an image that is on the flash: in every run
    that restarts it, the options named a regular file of non-zero length and
    unless -n was given the configuration /etc/lwrt/config was looked for and,
    when it is there, a copy to /etc/lwrt/config.bak was attempted right away
    (the source goes on when the copy fails), and with -n nothing was copied; then
    the flash tool ran on that file and partition and returned 0, its last
    acts being a sync and the restart; and the flash, of any kind, holds at the
    start of the partition the bytes the tool read from the file. *)
Theorem reboot_only_after_flash {mem} `{Mtd.Flash mem} (d : mem * Z) args t r :
  runs (run args) t r → Call Reboot tt ∈ t →
  ∃ o img t1 t2, parse args = Ok o ∧ test_only o = false ∧ prepared o img t1 ∧
    t = t1 ++ map (call_map (@Flash)) t2 ++ [Call Sync tt; Call Reboot tt] ∧ r = Some 0 ∧
    runs (Mtd.write_image img (part o)) t2 (Some 0) ∧
    (Forall Mtd.sane t2 → ∃ data, Mtd.image_of t2 = Some data ∧
      ∀ i b, data !! i = Some b → Mtd.cell (Mtd.after d t2).1 (Z.of_nat i) = b).
Proof.
  intros Hr Hb. apply run_runs in Hr as [Hcalm|(o & img & t1 & t2 & t3 & rc & Hp & Ht & Hprep & -> & Hw & Hrc)].
  { rewrite Forall_forall in Hcalm. by apply Hcalm in Hb as [[] _]. }
  exists o, img, t1, t2. do 3 (split; [done|]).
  destruct Hrc as [(_ & -> & _)|(-> & -> & ->)].
  { exfalso. rewrite app_nil_r in Hb. apply elem_of_app in Hb as [Hb|Hb]; [by apply (prep_no_reboot _ _ _ Hprep)|].
    apply list_elem_of_fmap in Hb as ([X e x] & Hc & _). by apply (f_equal reboots) in Hc. }
  do 3 (split; [done|]). intros Hs. destruct (Mtd.write_success d _ _ _ Hw Hs) as (data & info & Hi & _ & Hcell & _).
  by exists data.
Qed.

(** Test mode changes nothing, and neither does a run whose checks fail:
    every run with -T, without an image, or with an image that is missing,
    empty or not a regular file makes no flash request, copies nothing and does
    not restart the router. *)
Theorem test_mode_changes_nothing args o t r :
  runs (run args) t r → parse args = Ok o →
  test_only o = true ∨ image o = None ∨
    (∀ img n, image o = Some img → Call (Metadata img) (Some (true, n)) ∈ t → n = 0) →
  Forall (λ c, ¬ changes c) t.
Proof.
  intros Hr Hp Hcase. apply run_runs in Hr as [Hcalm|(o' & img & t1 & t2 & t3 & rc & Hp' & Ht & Hprep & -> & _)].
  { eapply Forall_impl; [exact Hcalm|]. by intros c [? _]. }
  rewrite Hp in Hp'. injection Hp' as <-. destruct Hprep as [Hi (n & Hn & Hm) _ _ _ _].
  destruct Hcase as [?|[?|Hz]]; [congruence|congruence|].
  destruct Hn. eapply Hz; [done|]. set_solver.
Qed.

(** ** Witnesses *)
Definition demo_args : list str := [lit "-p"; lit "mtd3"; lit "fw.bin"].
Definition demo_prepare : list (call ev) :=
  [Call (Metadata (lit "fw.bin")) (Some (true, 3)); Call (Exists CONFIG) true;
   Call (Copy CONFIG BACKUP) true; Call Sync tt].
Definition demo_upgrade : list (call ev) :=
  demo_prepare ++ map (call_map (@Flash)) Mtd.demo_write ++ [Call Sync tt; Call Reboot tt].

Lemma reboot_only_after_flash_witness :
  ∃ o img t1 t2, parse demo_args = Ok o ∧ test_only o = false ∧ prepared o img t1 ∧
    demo_upgrade = t1 ++ map (call_map (@Flash)) t2 ++ [Call Sync tt; Call Reboot tt] ∧ Some 0 = Some 0 ∧
    runs (Mtd.write_image img (part o)) t2 (Some 0) ∧
    (Forall Mtd.sane t2 → ∃ data, Mtd.image_of t2 = Some data ∧
      ∀ i b, data !! i = Some b → Mtd.cell (Mtd.after Mtd.demo_flash t2).1 (Z.of_nat i) = b).
Proof.
  apply (reboot_only_after_flash Mtd.demo_flash demo_args demo_upgrade (Some 0)).
  - play.
  - unfold demo_upgrade. set_solver.
Defined.

Lemma test_mode_changes_nothing_witness :
  Forall (λ c, ¬ changes c) [Call (Metadata (lit "fw.bin")) (Some (true, 3))].
Proof.
  apply (test_mode_changes_nothing [lit "-T"; lit "-p"; lit "mtd3"; lit "fw.bin"]
    (mkOpts true true (lit "mtd3") (Some (lit "fw.bin"))) _ (Some 0)).
  - play.
  - reflexivity.
  - by left.
Defined.

(** The option parser of the source's tests. *)
Example parse_examples :
  parse [lit "-n"; lit "-T"; lit "-p"; lit "kernel"; lit "img"] = Ok (mkOpts false true (lit "kernel") (Some (lit "img"))) ∧
  parse [lit "-z"; lit "img"] = Err (UnknownOption (lit "-z")) ∧ parse [lit "-p"] = Err MissingPartition.
Proof. repeat split; reflexivity. Qed.
End Sysupgrade.
