(* ===== verification/Sys.v ===== *)
(** * System-call wrappers (sys.rs) and the child of a fork (init.rs: exec_self)

    The raw calls are events answered by a return value and an errno; the
    wrappers turn them into results. *)

From S2P Require Import Prelude Words RustStr Utf8 IO.
Open Scope Z_scope.

Module Sys.

(** A raw call answers its return value and the errno it leaves. *)
Inductive ev : Set → Type :=
| Mount (src tgt fs : bytes) (flags : Z) (data : option bytes) : ev (Z * Z)
| Mkdir (path : bytes) (mode : Z) : ev (Z * Z)
| Fork : ev (Z * Z)
| Reboot (action : Z) : ev (Z * Z)
| Signal (sig : Z) : ev unit
| Execv (prog : bytes) (argv : list bytes) : ev unit.     (* returns only on failure *)

Inductive error := Os (errno : Z) | InteriorNul.

Definition EEXIST : Z := 17.

(** A C string, without its final NUL. *)
Definition cstr (s : str) : result bytes error :=
  let b := Utf8.encode s in
  if existsb (Z.eqb 0) b then Err InteriorNul else Ok b.

Definition unit_of (r : Z * Z) : result unit error := if r.1 =? 0 then Ok tt else Err (Os r.2).

Definition mount (src target fstype : str) (flags : Z) (data : str) : io ev (result unit error) :=
  match cstr src, cstr target, cstr fstype, cstr data with
  | Ok c_src, Ok c_tgt, Ok c_fs, Ok c_data =>
      let data_ptr := match data with [] => None | _ => Some c_data end in
      perform r := Mount c_src c_tgt c_fs flags data_ptr in Ret (unit_of r)
  | _, _, _, _ => Ret (Err InteriorNul)
  end.

Definition mkdir (path : str) (mode : Z) : io ev (result unit error) :=
  match cstr path with
  | Err e => Ret (Err e)
  | Ok c =>
      perform r := Mkdir c mode in
      Ret (if r.1 =? 0 then Ok tt else if r.2 =? EEXIST then Ok tt else Err (Os r.2))
  end.

(** [Some] in the parent, [None] in the child. *)
Definition fork : io ev (result (option Z) error) :=
  perform r := Fork in
  Ret (if r.1 =? -1 then Err (Os r.2) else if r.1 =? 0 then Ok None else Ok (Some r.1)).

Definition reboot (action : Z) : io ev (result unit error) :=
  perform r := Reboot action in Ret (unit_of r).

Definition signal (sig : Z) : io ev unit := perform u := Signal sig in Ret tt.

(** ** [init::exec_self]: what the child of a fork runs.  An argument with an
    interior NUL becomes empty; the result is the exit code when both images
    fail to start. *)
Definition cargs (argv : list str) : list bytes :=
  map (λ a, match cstr a with Ok c => c | Err _ => [] end) argv.

Fixpoint try_images (progs : list str) (argv : list bytes) : io ev unit :=
  match progs with
  | [] => Ret tt
  | prog :: progs =>
      match cstr prog with
      | Ok p => perform u := Execv p argv in try_images progs argv
      | Err _ => try_images progs argv
      end
  end.
Definition exec_self (argv : list str) : io ev Z :=
  await u := try_images [lit "/proc/self/exe"; lit "/sbin/lwrt"] (cargs argv) in Ret 127.

(** The answer of a call that has one. *)
Definition answer (c : call ev) : Z * Z :=
  match c with
  | Call e x =>
      match e in ev X return X → Z * Z with
      | Signal _ | Execv _ _ => λ _, (0, 0)
      | _ => λ r, r
      end x
  end.

(** * Theorems *)

(** No wrapper aborts or reaches the kernel on a string with an interior NUL:
    the error is a value. *)
Theorem interior_nul src target fstype flags data t r :
  Exists (λ s, In 0 (Utf8.encode s)) [src; target; fstype; data] →
  runs (mount src target fstype flags data) t r → t = [] ∧ r = Err InteriorNul.
Proof.
  intros H Hr. unfold mount in Hr.
  assert (Hc : ∀ s, In 0 (Utf8.encode s) → cstr s = Err InteriorNul).
  { intros s Hs. unfold cstr. assert (existsb (Z.eqb 0) (Utf8.encode s) = true) as ->; [|done].
    apply existsb_exists. by exists 0. }
  rewrite !Exists_cons, Exists_nil in H.
  destruct H as [H|[H|[H|[H|[]]]]]; apply Hc in H; rewrite H in Hr;
    repeat case_match; simplify_eq; by run_inv Hr.
Qed.

(** [mkdir] is idempotent: a directory that exists is a success, every other
    failure is reported. *)
Theorem mkdir_idempotent path mode t r :
  runs (mkdir path mode) t r →
  r = Ok tt ↔ ∃ c x, cstr path = Ok c ∧ t = [Call (Mkdir c mode) x] ∧ (x.1 = 0 ∨ x.2 = EEXIST).
Proof.
  unfold mkdir. destruct (cstr path) as [c|e] eqn:E; intros H; run_inv H.
  - run_inv H. split.
    + intros Hr. exists c, x. split; [done|]. split; [done|].
      destruct (Z.eqb_spec (fst x) 0); [by left|]. destruct (Z.eqb_spec (snd x) EEXIST); [by right|done].
    + intros (c' & y & Hc & Ht & Hy). apply (f_equal (fmap answer ∘ head)) in Ht. cbn in Ht. injection Ht as ->.
      destruct Hy as [-> | ->]; [done|]. by destruct (_ =? 0).
  - split; [done|]. by intros (c & x & ? & _).
Qed.

(** The child tries the running image first and the installed one second, with
    the same arguments, and exits with 127 only after both failed. *)
Theorem exec_self_tries argv t code :
  runs (exec_self argv) t code →
  code = 127 ∧ t = [Call (Execv (Utf8.encode (lit "/proc/self/exe")) (cargs argv)) tt;
                    Call (Execv (Utf8.encode (lit "/sbin/lwrt")) (cargs argv)) tt].
Proof.
  unfold exec_self. intros H. run_inv H. run_inv H. rewrite app_nil_r. split; [done|].
  cbn [try_images] in H0. change (cstr (lit "/proc/self/exe")) with (@Ok bytes error (Utf8.encode (lit "/proc/self/exe"))) in H0.
  change (cstr (lit "/sbin/lwrt")) with (@Ok bytes error (Utf8.encode (lit "/sbin/lwrt"))) in H0.
  cbv beta iota in H0. run_inv H0. run_inv H0. run_inv H0. by destruct x, x0.
Qed.
End Sys.
