(* ===== verification/Init.v ===== *)
(** * PID 1 (init.rs)

    Boot and supervision as a program over process events.  [supervise] is an
    endless loop, run here for any number of rounds. *)

From S2P Require Import Prelude RustStr IO Num Config.
Open Scope Z_scope.

Module Init.

Definition SERVICES : list (list str) :=
  [[lit "log"]; [lit "ubus"]; [lit "dhcp"; lit "server"]; [lit "dns"]; [lit "httpd"]].

(** ** Events *)
Inductive ev : Set → Type :=
| CatchTerm : ev unit                                     (* signal(SIGTERM, on_term) *)
| Mkdir (path : str) (mode : Z) : ev unit                 (* its result is ignored *)
| Mount (src target fstype : str) (flags : Z) (data : str) : ev bool
| ReadConfig : ev (option str)
| NetUp (ifname : str) : ev unit
| NetConfigure (ifname : str) (addr mask : Z) : ev bool
| DefaultRoute (gateway : Z) : ev unit
| Fork (argv : list str) : ev (option Z)                  (* the child runs [exec_self argv] *)
| WaitPid (pid : Z) : ev unit
| LoadStop : ev bool
| WaitAny : ev Z                                          (* waitpid(-1): the child, or <= 0 *)
| KillAll : ev unit
| Reboot : ev unit.

(** ** Boot *)
Definition mounts : list (str * str * str * Z * str) :=
  [(lit "proc", lit "/proc", lit "proc", 0, []);
   (lit "sysfs", lit "/sys", lit "sysfs", 0, []);
   (lit "devtmpfs", lit "/dev", lit "devtmpfs", 0, []);
   (lit "tmpfs", lit "/tmp", lit "tmpfs", 0, lit "mode=1777");
   (lit "tmpfs", lit "/run", lit "tmpfs", 0, lit "mode=0755")].
Fixpoint mount_each (l : list (str * str * str * Z * str)) : io ev unit :=
  match l with
  | [] => Ret tt
  | (src, tgt, fs, flags, data) :: l =>
      perform _d := Mkdir tgt 493 in
      perform _m := Mount src tgt fs flags data in
      mount_each l
  end.
Definition mount_all : io ev unit := mount_each mounts.

Definition run_oneshot (argv : list str) : io ev unit :=
  perform child := Fork argv in
  match child with
  | Some pid => perform _w := WaitPid pid in Ret tt
  | None => Ret tt
  end.

Definition bring_up_lan (cfg : Config) : io ev unit :=
  let lan_if := Config.get_or cfg (lit "lan") (lit "ifname") (lit "br-lan") in
  let ip := Config.get_or cfg (lit "lan") (lit "ipaddr") (lit "192.168.1.1") in
  let mask := Config.get_or cfg (lit "lan") (lit "netmask") (lit "255.255.255.0") in
  match Ipv4.parse ip, Ipv4.parse mask with
  | Some a, Some m => perform _c := NetConfigure lan_if a m in Ret tt
  | _, _ => Ret tt
  end.

Definition static_address (cfg : Config) : io ev unit :=
  let wan_if := Config.get_or cfg (lit "wan") (lit "ifname") (lit "eth0.2") in
  match Config.get cfg (lit "wan") (lit "ipaddr"), Config.get cfg (lit "wan") (lit "netmask") with
  | Some a, Some m =>
      match Ipv4.parse a, Ipv4.parse m with
      | Some a, Some m => perform _c := NetConfigure wan_if a m in Ret tt
      | _, _ => Ret tt
      end
  | _, _ => Ret tt
  end.
Definition static_route (cfg : Config) : io ev unit :=
  match Config.get cfg (lit "wan") (lit "gateway") with
  | Some gw =>
      match Ipv4.parse gw with
      | Some gw => perform _r := DefaultRoute gw in Ret tt
      | None => Ret tt
      end
  | None => Ret tt
  end.
Definition bring_up_wan (cfg : Config) : io ev unit :=
  let proto := Config.get_or cfg (lit "wan") (lit "proto") (lit "dhcp") in
  if bool_decide (proto = lit "dhcp") then run_oneshot [lit "dhcp"; lit "client"]
  else if bool_decide (proto = lit "static") then
    await _a := static_address cfg in static_route cfg
  else Ret tt.

Definition bring_up_network (cfg : Config) : io ev unit :=
  perform _u := NetUp (lit "lo") in
  await _l := bring_up_lan cfg in
  bring_up_wan cfg.

(** ** Supervision *)
Definition spawn (argv : list str) : io ev (option Z) :=
  perform child := Fork argv in Ret child.

Definition service (idx : nat) : list str := nth idx SERVICES [].

(** The supervised processes: pid and index in [SERVICES]. *)
Abbreviation pids_t := (list (Z * nat)).

Fixpoint spawn_all (idxs : list nat) (pids : pids_t) : io ev pids_t :=
  match idxs with
  | [] => Ret pids
  | idx :: idxs =>
      await child := spawn (service idx) in
      spawn_all idxs (match child with Some pid => pids ++ [(pid, idx)] | None => pids end)
  end.

(** [position] and [remove]: the entry of the dead process, the others. *)
Fixpoint take_dead (dead : Z) (pids : pids_t) : option (nat * pids_t) :=
  match pids with
  | [] => None
  | (p, idx) :: pids =>
      if p =? dead then Some (idx, pids)
      else '(i, rest) ← take_dead dead pids; Some (i, (p, idx) :: rest)
  end.

(** A round after a child was reaped. *)
Definition reap (dead : Z) (pids : pids_t) : io ev pids_t :=
  if dead <=? 0 then Ret pids
  else
    match take_dead dead pids with
    | Some (idx, pids) =>
        await child := spawn (service idx) in
        Ret (match child with Some pid => pids ++ [(pid, idx)] | None => pids end)
    | None => Ret pids
    end.

(** [rounds] rounds of the loop; [None]: it is still going. *)
Fixpoint supervise_loop (rounds : nat) (pids : pids_t) : io ev (option unit) :=
  match rounds with
  | O => Ret None
  | S rounds =>
      perform stop := LoadStop in
      if (stop : bool) then
        perform _k := KillAll in
        perform _r := Reboot in
        Ret (Some tt)
      else
        perform dead := WaitAny in
        await pids := reap dead pids in
        supervise_loop rounds pids
  end.
Definition supervise (rounds : nat) : io ev (option unit) :=
  await pids := spawn_all (seq 0 (length SERVICES)) [] in
  supervise_loop rounds pids.

Definition boot : io ev unit :=
  perform _s := CatchTerm in
  await _m := mount_all in
  perform text := ReadConfig in
  let cfg := Config.load text in
  await _n := bring_up_network cfg in
  await _f := run_oneshot [lit "fw"] in
  if bool_decide (Config.get_or cfg (lit "wireguard") (lit "enabled") (lit "0") = lit "1")
  then run_oneshot [lit "wg"; lit "up"] else Ret tt.
Definition run (rounds : nat) : io ev (option Z) :=
  await _b := boot in
  await r := supervise rounds in
  Ret (match r with Some _ => Some 0 | None => None end).

(** * Specification: the processes a trace leaves running *)

(** The children of init: forked, and neither waited for nor reported dead. *)
Definition children_step (l : list (Z * list str)) (c : call ev) : list (Z * list str) :=
  match c with
  | Call e x =>
      match e in ev X return X → list (Z * list str) with
      | Fork argv => λ r, match r with Some pid => l ++ [(pid, argv)] | None => l end
      | WaitPid pid => λ _, List.filter (λ c, negb (c.1 =? pid)) l
      | WaitAny => λ dead, if dead <=? 0 then l else List.filter (λ c, negb (c.1 =? dead)) l
      | _ => λ _, l
      end x
  end.
Definition children (t : list (call ev)) : list (Z * list str) := foldl children_step [] t.

(** The commands whose fork failed. *)
Definition failed_fork (c : call ev) : option (list str) :=
  match c with
  | Call e x =>
      match e in ev X return X → option (list str) with
      | Fork argv => λ r, match r with Some _ => None | None => Some argv end
      | _ => λ _, None
      end x
  end.
Definition failed (t : list (call ev)) : list (list str) := omap failed_fork t.

(** What the kernel promises: a new process has a positive pid that no living
    child has. *)
Definition fresh_pid (l : list (Z * list str)) (c : call ev) : Prop :=
  match c with
  | Call e x =>
      match e in ev X return X → Prop with
      | Fork _ => λ r, match r with Some pid => 0 < pid ∧ pid ∉ l.*1 | None => True end
      | _ => λ _, True
      end x
  end.
Fixpoint kernel_ok (l : list (Z * list str)) (t : list (call ev)) : Prop :=
  match t with
  | [] => True
  | c :: t => fresh_pid l c ∧ kernel_ok (children_step l c) t
  end.

(** ** Lemmas *)
Definition named (pids : pids_t) : list (Z * list str) := map (λ '(p, i), (p, service i)) pids.

Lemma named_pids pids : (named pids).*1 = pids.*1.
Proof. unfold named. rewrite <- list_fmap_compose. by apply list_fmap_ext; intros ? [p i] _. Qed.

Lemma named_app a b : named (a ++ b) = named a ++ named b.
Proof. apply map_app. Qed.

Lemma filter_other p (l : list (Z * list str)) : p ∉ l.*1 → List.filter (λ c, negb (c.1 =? p)) l = l.
Proof.
  induction l as [|[q a] l IH]; [done|]. cbn. rewrite not_elem_of_cons. intros [Hq Hl].
  destruct (Z.eqb_spec q p); [done|]. simpl. f_equal. by apply IH.
Qed.

(** Removing the dead process from the table removes it from the children. *)
Lemma take_dead_spec dead pids :
  NoDup pids.*1 →
  match take_dead dead pids with
  | Some (idx, rest) =>
      List.filter (λ c, negb (c.1 =? dead)) (named pids) = named rest ∧
      pids ≡ₚ (dead, idx) :: rest ∧ NoDup rest.*1 ∧ dead ∉ rest.*1
  | None => List.filter (λ c, negb (c.1 =? dead)) (named pids) = named pids
  end.
Proof.
  induction pids as [|[p i] pids IH]; intros Hnd; [done|].
  cbn in Hnd. apply NoDup_cons in Hnd as [Hp Hnd]. cbn [take_dead named map List.filter fst].
  destruct (Z.eqb_spec p dead) as [->|Hne]; cbn [negb].
  - rewrite filter_other by (by rewrite named_pids). done.
  - specialize (IH Hnd). destruct (take_dead dead pids) as [[idx rest]|]; simpl.
    + destruct IH as (Hf & Hperm & Hr & Hd). split; [by f_equal|]. split; [by rewrite Hperm, Permutation_swap|].
      cbn. split; [|set_solver]. apply NoDup_cons. split; [|done]. rewrite Hperm in Hp. set_solver.
    + by f_equal.
Qed.
(** [P] holds of the events before every wait of a trace. *)
Definition is_wait (c : call ev) : bool :=
  match c with Call e _ => match e with WaitAny => true | _ => false end end.
Fixpoint at_waits (P : list (call ev) → Prop) (t0 t : list (call ev)) : Prop :=
  match t with
  | [] => True
  | c :: t => (is_wait c = true → P t0) ∧ at_waits P (t0 ++ [c]) t
  end.

Lemma at_waits_app P t u : ∀ t0, at_waits P t0 (t ++ u) ↔ at_waits P t0 t ∧ at_waits P (t0 ++ t) u.
Proof.
  induction t as [|c t IH]; intros t0; simpl; [rewrite app_nil_r; tauto|].
  rewrite IH, <- app_assoc. simpl. tauto.
Qed.

Lemma kernel_ok_app t u : ∀ l, kernel_ok l (t ++ u) ↔ kernel_ok l t ∧ kernel_ok (foldl children_step l t) u.
Proof. induction t as [|c t IH]; intros l; simpl; [tauto|]. rewrite IH. tauto. Qed.

(** The table agrees with the children, and every service is in it or failed. *)
Record table_ok (pids : pids_t) (t0 : list (call ev)) : Prop := {
  table_children : children t0 = named pids;
  table_nodup : NoDup pids.*1;
  table_services : SERVICES ≡ₚ (named pids).*2 ++ failed t0
}.
Definition all_served (t0 : list (call ev)) : Prop := SERVICES ≡ₚ (children t0).*2 ++ failed t0.

Lemma children_snoc t0 c : children (t0 ++ [c]) = children_step (children t0) c.
Proof. unfold children. by rewrite foldl_app. Qed.
Lemma failed_app t u : failed (t ++ u) = failed t ++ failed u.
Proof. apply omap_app. Qed.

(** A spawn adds the service to the table, or to the failed ones. *)
Lemma spawned pids idx t0 (child : option Z) rest :
  children t0 = named pids → NoDup pids.*1 → kernel_ok (children t0) [Call (Fork (service idx)) child] →
  SERVICES ≡ₚ service idx :: (named pids).*2 ++ failed t0 ++ rest →
  let pids' := match child with Some pid => pids ++ [(pid, idx)] | None => pids end in
  let t1 := t0 ++ [Call (Fork (service idx)) child] in
  children t1 = named pids' ∧ NoDup pids'.*1 ∧ SERVICES ≡ₚ (named pids').*2 ++ failed t1 ++ rest.
Proof.
  intros Hc Hnd [Hk _] Hs. cbn zeta. rewrite children_snoc, failed_app, Hc. destruct child as [pid|]; simpl in *.
  - rewrite Hc, named_pids in Hk. destruct Hk as [_ Hk].
    split; [by rewrite named_app|]. split.
    { rewrite fmap_app. apply NoDup_app. split; [done|]. split; [|apply NoDup_singleton]. set_solver. }
    rewrite Hs, named_app, fmap_app, app_nil_r, <- app_assoc. simpl. by rewrite Permutation_middle.
  - split; [done|]. split; [done|]. rewrite Hs, <- app_assoc. simpl.
    rewrite Permutation_middle. apply Permutation_app_head. by rewrite Permutation_middle.
Qed.
Lemma spawn_all_runs idxs : ∀ pids t0 t pids',
  children t0 = named pids → NoDup pids.*1 → SERVICES ≡ₚ (named pids).*2 ++ failed t0 ++ map service idxs →
  runs (spawn_all idxs pids) t pids' → kernel_ok (children t0) t →
  table_ok pids' (t0 ++ t) ∧ at_waits all_served t0 t.
Proof.
  induction idxs as [|idx idxs IH]; intros pids t0 t pids' Hc Hnd Hs H Hk.
  { cbn [spawn_all] in H. run_inv H. cbn [map] in Hs. rewrite app_nil_r. rewrite app_nil_r in Hs. by split. }
  cbn [spawn_all] in H. unfold spawn in H. cbn [io_bind] in H. run_inv H.
  change (Call (Fork (service idx)) x :: t1) with ([Call (Fork (service idx)) x] ++ t1) in Hk.
  apply kernel_ok_app in Hk as [Hk1 Hk].
  pose proof (spawned pids idx t0 x (map service idxs) Hc Hnd Hk1) as (Hc' & Hnd' & Hs').
  { rewrite Hs. simpl. rewrite app_assoc, <- Permutation_middle. by rewrite <- app_assoc. }
  destruct (IH _ (t0 ++ [Call (Fork (service idx)) x]) t1 _ Hc' Hnd' Hs' H) as [Ht Hw].
  { rewrite children_snoc. apply Hk. }
  rewrite <- app_assoc in Ht. by split.
Qed.

(** One round keeps the table right. *)
Lemma reap_runs dead pids t0 t pids' :
  table_ok pids t0 → runs (reap dead pids) t pids' →
  kernel_ok (children (t0 ++ [Call WaitAny dead])) t →
  table_ok pids' (t0 ++ Call WaitAny dead :: t) ∧ at_waits all_served (t0 ++ [Call WaitAny dead]) t.
Proof.
  intros [Hc Hnd Hs] H Hk.
  assert (Hf0 : failed (t0 ++ [Call WaitAny dead]) = failed t0) by (rewrite failed_app; apply app_nil_r).
  assert (Hc0 : children (t0 ++ [Call WaitAny dead]) =
    if dead <=? 0 then named pids else List.filter (λ c, negb (c.1 =? dead)) (named pids)).
  { rewrite children_snoc, Hc. done. }
  unfold reap in H. destruct (dead <=? 0); [run_inv H; split; [split|]; rewrite ?Hf0; done|].
  pose proof (take_dead_spec dead pids Hnd) as Hd. destruct (take_dead dead pids) as [[idx rest]|].
  2: { rewrite Hd in Hc0. run_inv H. split; [split|]; rewrite ?Hf0; done. }
  destruct Hd as (Hf & Hperm & Hnd' & _). rewrite Hf in Hc0.
  unfold spawn in H. cbn [io_bind] in H. run_inv H. run_inv H.
  destruct (spawned rest idx (t0 ++ [Call WaitAny dead]) x [] Hc0 Hnd' Hk) as (Hc1 & Hnd1 & Hs1).
  { rewrite Hf0, app_nil_r, Hs. unfold named in *. by rewrite Hperm. }
  rewrite <- app_assoc in Hc1, Hs1. split; [|done]. rewrite app_nil_r in Hs1. by split.
Qed.

Lemma supervise_loop_runs rounds : ∀ pids t0 t r,
  table_ok pids t0 → runs (supervise_loop rounds pids) t r → kernel_ok (children t0) t →
  at_waits all_served t0 t.
Proof.
  induction rounds as [|rounds IH]; intros pids t0 t r Hok H Hk; [by destruct H as [-> _]|].
  cbn [supervise_loop] in H. run_inv H. destruct x; cbv iota in H.
  { run_inv H. run_inv H. by run_inv H. }
  assert (Hok' : table_ok pids (t0 ++ [Call LoadStop false])).
  { destruct Hok as [Hc Hnd Hs]. split; [by rewrite children_snoc|done|].
    by rewrite failed_app, app_nil_r. }
  run_inv H. run_inv H. cbn [kernel_ok] in Hk. destruct Hk as (_ & _ & Hk). cbn [children_step] in Hk.
  apply kernel_ok_app in Hk as [Hk1 Hk2].
  destruct (reap_runs x _ _ _ _ Hok' H0) as [Hok2 Hw].
  { rewrite !children_snoc. apply Hk1. }
  cbn [at_waits]. split; [done|]. split.
  { intros _. unfold all_served. rewrite (table_children _ _ Hok'). apply Hok'. }
  apply at_waits_app. split; [done|]. eapply IH; [|exact H|].
  - by rewrite <- app_assoc.
  - unfold children in *. rewrite !foldl_app. apply Hk2.
Qed.

(** The events of a loop that goes on. *)
Definition going (c : call ev) : Prop :=
  match c with
  | Call e x =>
      match e in ev X return X → Prop with
      | Fork _ | WaitAny => λ _, True
      | LoadStop => λ stop, stop = false
      | _ => λ _, False
      end x
  end.

Lemma spawn_all_going idxs : ∀ pids t pids', runs (spawn_all idxs pids) t pids' → Forall going t.
Proof.
  induction idxs as [|idx idxs IH]; intros pids t pids' H; [by destruct H as [-> _]|].
  cbn [spawn_all] in H. unfold spawn in H. cbn [io_bind] in H. run_inv H. constructor; [done|]. by eapply IH.
Qed.

Lemma reap_going dead pids t pids' : runs (reap dead pids) t pids' → Forall going t.
Proof.
  unfold reap. intros H. destruct (dead <=? 0); [by run_inv H|].
  destruct (take_dead dead pids) as [[idx rest]|]; [|by run_inv H].
  unfold spawn in H. cbn [io_bind] in H. run_inv H. run_inv H. by repeat constructor.
Qed.

Lemma supervise_loop_going rounds : ∀ pids t r, runs (supervise_loop rounds pids) t r →
  (r = None ∧ Forall going t) ∨
  (r = Some tt ∧ ∃ u, t = u ++ [Call LoadStop true; Call KillAll tt; Call Reboot tt] ∧ Forall going u).
Proof.
  induction rounds as [|rounds IH]; intros pids t r H; [left; by destruct H as [-> ->]|].
  cbn [supervise_loop] in H. run_inv H. destruct x; cbv iota in H.
  { run_inv H. run_inv H. run_inv H. destruct x, x0. right. split; [done|]. by exists []. }
  run_inv H. run_inv H. apply reap_going in H0. apply IH in H as [[-> Hg]|(-> & u & -> & Hg)].
  - left. split; [done|]. repeat constructor. by apply Forall_app.
  - right. split; [done|]. exists (Call LoadStop false :: Call WaitAny x :: t0 ++ u).
    split; [cbn [app]; by rewrite <- app_assoc|]. repeat constructor. by apply Forall_app.
Qed.

(** * Theorems *)

(** C25. Supervision: whenever init waits for a child, every service has exactly
    one running process, or is one whose fork failed once; a service whose
    fork failed is therefore never started again, and none runs twice.  This
    holds for any number of rounds, any exits (of services or of strangers)
    and any pids a kernel may give. *)
Theorem services_are_supervised rounds t r t1 dead t2 :
  runs (supervise rounds) t r → kernel_ok [] t → t = t1 ++ Call WaitAny dead :: t2 →
  SERVICES ≡ₚ (children t1).*2 ++ failed t1.
Proof.
  intros H Hk Ht. unfold supervise in H. run_inv H. apply kernel_ok_app in Hk as [Hk1 Hk2].
  destruct (spawn_all_runs _ [] [] _ _ eq_refl NoDup_nil_2 (reflexivity _) H0 Hk1) as [Hok Hw1].
  pose proof (supervise_loop_runs _ _ _ _ _ Hok H Hk2) as Hw2.
  pose proof (proj2 (at_waits_app _ _ _ _) (conj Hw1 Hw2)) as Hw. rewrite Ht in Hw.
  apply at_waits_app in Hw as [_ [Hw _]]. by apply Hw.
Qed.
(** Shutdown: the loop ends exactly when it reads a set stop flag, after
    which its only acts are the signal to every process and the restart; until
    then it only forks services, waits and reads the flag. *)
Theorem supervise_stops rounds t r :
  runs (supervise rounds) t r →
  (r = None ∧ Forall going t) ∨
  (r = Some tt ∧ ∃ u, t = u ++ [Call LoadStop true; Call KillAll tt; Call Reboot tt] ∧ Forall going u).
Proof.
  unfold supervise. intros H. run_inv H. apply spawn_all_going in H0.
  apply supervise_loop_going in H as [[-> Hg]|(-> & u & -> & Hg)].
  - left. split; [done|]. by apply Forall_app.
  - right. split; [done|]. exists (t0 ++ u). rewrite <- app_assoc. split; [done|]. by apply Forall_app.
Qed.

(** ** Witnesses *)

(** Five services start; dhcp server dies and cannot be restarted; then dns
    dies and is restarted; then a stranger is reaped. *)
Definition demo_trace : list (call ev) :=
  [Call (Fork (service 0)) (Some 11); Call (Fork (service 1)) (Some 12); Call (Fork (service 2)) (Some 13);
   Call (Fork (service 3)) (Some 14); Call (Fork (service 4)) (Some 15);
   Call LoadStop false; Call WaitAny 13; Call (Fork (service 2)) None;
   Call LoadStop false; Call WaitAny 14; Call (Fork (service 3)) (Some 16);
   Call LoadStop false; Call WaitAny 99].

Lemma services_are_supervised_witness :
  SERVICES ≡ₚ (children (take 12 demo_trace)).*2 ++ failed (take 12 demo_trace).
Proof.
  apply (services_are_supervised 3 demo_trace None _ 99 []).
  - play.
  - vm_compute. repeat split; set_solver.
  - reflexivity.
Defined.

Lemma supervise_stops_witness :
  let t := take 5 demo_trace ++ [Call LoadStop true; Call KillAll tt; Call Reboot tt] in
  (Some tt = None ∧ Forall going t) ∨
  (Some tt = Some tt ∧ ∃ u, t = u ++ [Call LoadStop true; Call KillAll tt; Call Reboot tt] ∧ Forall going u).
Proof. intros t. apply (supervise_stops 1 t (Some tt)). play. Defined.

(** The service whose fork failed stays down: of the five, four are left. *)
Example failed_service_is_lost :
  failed demo_trace = [service 2] ∧ (children demo_trace).*2 = [service 0; service 1; service 4; service 3].
Proof. split; reflexivity. Qed.
End Init.
