(* ===== verification/Json.v ===== *)
(** * JSON values (json.rs)

    The parser by recursive descent, with its error texts, and the serializer.
    Numbers are an interface: the operations of [f64] the sources use, with the
    documented laws the round trip needs. *)

From S2P Require Import Prelude Words RustStr Utf8 Num.
Open Scope Z_scope.

(** ** The operations of [f64] and what the language documents of them *)
Definition num_char (c : char) : bool :=
  (is_ascii_digit c || (c =? chr ".") || (c =? chr "e") || (c =? chr "E") || (c =? chr "+") || (c =? chr "-"))%N.
Definition show_i64 (x : Z) : str := if x <? 0 then chr "-" :: dec (- x) else dec x.

Class Float64 := {
  f64 : Type;
  f64_eqb : f64 → f64 → bool;            (* == *)
  is_finite : f64 → bool;
  is_integral : f64 → bool;              (* fract() == 0.0 *)
  is_below_1e15 : f64 → bool;            (* abs() < 1e15 *)
  is_nonneg : f64 → bool;                (* >= 0.0 *)
  to_i64 : f64 → Z;                      (* as i64 *)
  to_u64 : f64 → Z;                      (* as u64 *)
  of_int : Z → f64;                      (* as f64, from u64 or i64 *)
  f64_from_str : str → option f64;       (* str::parse *)
  f64_display : f64 → str                (* {} *)
}.

Class Float64Laws `{Float64} := {
  f64_eqb_refl x : is_finite x = true → f64_eqb x x = true;
  (** an integer below 10^15 is read back from its digits, up to the sign of zero *)
  integral_roundtrip x : is_finite x = true → is_integral x = true → is_below_1e15 x = true →
    ∃ y, f64_from_str (show_i64 (to_i64 x)) = Some y ∧ f64_eqb x y = true;
  (** [Display] prints digits that read back as the same number *)
  display_roundtrip x : is_finite x = true → f64_from_str (f64_display x) = Some x;
  display_chars x : is_finite x = true → ∃ c r, f64_display x = c :: r ∧
    (is_ascii_digit c || (c =? chr "-")%N) = true ∧ forallb num_char r = true;
  (** integers up to 2^53 are exact *)
  to_u64_of_int n : 0 <= n <= 2 ^ 53 → to_u64 (of_int n) = n;
  of_int_nonneg n : 0 <= n <= 2 ^ 53 → is_nonneg (of_int n) = true;
  of_int_integral n : 0 <= n <= 2 ^ 53 → is_integral (of_int n) = true;
  of_int_finite n : Z.abs n <= 2 ^ 53 → is_finite (of_int n) = true
}.

Module Json.
Section Json.
Context `{F : Float64}.

(** ** Values *)
Inductive Value : Type :=
| Null
| Bool (b : bool)
| Num (n : f64)
| Str (s : str)
| Array (a : list Value)
| Object (pairs : list (str * Value)).

Definition get (v : Value) (key : str) : option Value :=
  match v with
  | Object pairs => snd <$> head (List.filter (λ '(k, _), bool_decide (k = key)) pairs)
  | _ => None
  end.
Definition as_str (v : Value) : option str := match v with Str s => Some s | _ => None end.
Definition as_u64 (v : Value) : option Z :=
  match v with
  | Num n => if is_nonneg n && is_integral n then Some (to_u64 n) else None
  | _ => None
  end.
Definition as_array (v : Value) : option (list Value) := match v with Array a => Some a | _ => None end.

(** ** Serialization *)
Definition escape_char (c : char) : str :=
  (if c =? DQ then [92; 34]
   else if c =? 92 then [92; 92]
   else if c =? LF then lit "\n"
   else if c =? CR then lit "\r"
   else if c =? 9 then lit "\t"
   else if c =? 8 then lit "\b"
   else if c =? 12 then lit "\f"
   else if c <? 32 then lit "\u00" ++ hex2 (Z.of_N c)
   else [c])%N.
Definition write_str (s : str) : str := [DQ] ++ concat (map escape_char s) ++ [DQ].

Definition write_num (n : f64) : str :=
  if is_finite n && is_integral n && is_below_1e15 n then show_i64 (to_i64 n)
  else if is_finite n then f64_display n
  else lit "null".

(** The text appended for a value. *)
Fixpoint write (v : Value) : str :=
  match v with
  | Null => lit "null"
  | Bool true => lit "true"
  | Bool false => lit "false"
  | Num n => write_num n
  | Str s => write_str s
  | Array a => lit "[" ++ join (lit ",") (map write a) ++ lit "]"
  | Object pairs =>
      lit "{" ++ join (lit ",") (map (λ '(k, v), write_str k ++ lit ":" ++ write v) pairs) ++ lit "}"
  end.
Definition to_string (v : Value) : str := write v.

Definition obj (pairs : list (str * Value)) : Value := Object pairs.

(** ** The parser: an index, and the bytes from it on *)
Record Parser := mkParser { i : nat; rest : bytes }.
Definition advance (n : nat) (p : Parser) : Parser := mkParser (i p + n) (drop n (rest p)).
Definition peek (p : Parser) : option byte := head (rest p).

Definition is_ws (c : byte) : bool := (c =? 32) || (c =? 9) || (c =? 10) || (c =? 13).
Definition ws (p : Parser) : Parser := advance (length (take_while is_ws (rest p))) p.

(** Results: a value with the parser after it, or the error text. *)
Definition parsed (A : Type) : Type := result (A * Parser) str.

(** [{:?}] of a byte as a char. *)
Definition debug_char (c : byte) : str :=
  let c := Z.to_N c in
  lit "'" ++
  (if c =? 0 then lit "\0" else if c =? 9 then lit "\t" else if c =? 13 then lit "\r"
   else if c =? 10 then lit "\n" else if c =? 39 then lit "\'" else if c =? 92 then [92; 92]
   else if ((32 <=? c) && (c <=? 126)) || ((161 <=? c) && negb (c =? 173)) then [c]
   else lit "\u{" ++ (if c <? 16 then [digit_chr (Z.of_N c)] else hex2 (Z.of_N c)) ++ lit "}")%N ++
  lit "'".
Definition at_byte (p : Parser) : str := dec (Z.of_nat (i p)).

Definition expect (c : byte) (p : Parser) : parsed unit :=
  if bool_decide (peek p = Some c) then Ok (tt, advance 1 p)
  else Err (lit "expected " ++ debug_char c ++ lit " at byte " ++ at_byte p).

(** Number of continuation bytes after a lead byte. *)
Definition utf8_extra (lead : byte) : nat :=
  if lead <=? 127 then 0%nat
  else if (192 <=? lead) && (lead <=? 223) then 1%nat
  else if (224 <=? lead) && (lead <=? 239) then 2%nat
  else if (240 <=? lead) && (lead <=? 247) then 3%nat
  else 0%nat.

(** [char::to_digit(16)] of a byte as a char. *)
Definition hex_digit (c : byte) : option Z :=
  if (48 <=? c) && (c <=? 57) then Some (c - 48)
  else if (97 <=? c) && (c <=? 102) then Some (c - 87)
  else if (65 <=? c) && (c <=? 70) then Some (c - 55)
  else None.

Fixpoint hex_digits (n : nat) (v : Z) (p : Parser) : parsed Z :=
  match n with
  | O => Ok (v, p)
  | S n =>
      match peek p with
      | None => Err (lit "truncated \u escape")
      | Some c =>
          match hex_digit c with
          | None => Err (lit "non-hex in \u escape")
          | Some d => hex_digits n (v * 16 + d) (advance 1 p)
          end
      end
  end.
Definition hex4 (p : Parser) : parsed Z := hex_digits 4 0 p.

(** [char::from_u32]. *)
Definition from_u32 (cp : Z) : option char :=
  if (cp <? 55296) || ((57344 <=? cp) && (cp <? 1114112)) then Some (Z.to_N cp) else None.

Definition unicode_escape (p : Parser) : parsed char :=
  let? (hi, p) := hex4 p in
  let? (cp, p) :=
    (if (55296 <=? hi) && (hi <=? 56319) then
       if bool_decide (peek p = Some 92) then
         let? (_, p) := expect 117 (advance 1 p) in
         let? (lo, p) := hex4 p in
         if negb ((56320 <=? lo) && (lo <=? 57343)) then Err (lit "bad low surrogate")
         else Ok (65536 + Z.shiftl (hi - 55296) 10 + (lo - 56320), p)
       else Err (lit "lone high surrogate")
     else Ok (hi, p)) in
  match from_u32 cp with
  | Some c => Ok (c, p)
  | None => Err (lit "invalid code point")
  end.

(** The escape after a backslash: the characters it stands for. *)
Definition escape (p : Parser) : parsed str :=
  match peek p with
  | None => Err (lit "unterminated escape")
  | Some e =>
      let p := advance 1 p in
      if e =? 34 then Ok ([DQ], p) else if e =? 92 then Ok ([92%N], p) else if e =? 47 then Ok ([47%N], p)
      else if e =? 110 then Ok ([LF], p) else if e =? 114 then Ok ([CR], p) else if e =? 116 then Ok ([9%N], p)
      else if e =? 98 then Ok ([8%N], p) else if e =? 102 then Ok ([12%N], p)
      else if e =? 117 then let? (c, p) := unicode_escape p in Ok ([c], p)
      else Err (lit "bad escape " ++ [92%N; Z.to_N e])
  end.

(** A raw character that starts with byte [c]. *)
Definition raw_char (c : byte) (p : Parser) : parsed str :=
  let extra := utf8_extra c in
  if (length (rest p) <? extra)%nat then Err (lit "truncated UTF-8 in string")
  else
    match Utf8.from_utf8 (c :: take extra (rest p)) with
    | Some part => Ok (part, advance extra p)
    | None => Err (lit "invalid UTF-8 in string")
    end.

(** The loop of [string]; every round reads a byte, the fuel is the number of
    bytes left. *)
Fixpoint string_loop (fuel : nat) (out : str) (p : Parser) : option (parsed str) :=
  match fuel with
  | O => None
  | S fuel =>
      match peek p with
      | None => Some (Err (lit "unterminated string"))
      | Some c =>
          let p := advance 1 p in
          if c =? 34 then Some (Ok (out, p))
          else
            match (if c =? 92 then escape p else raw_char c p) with
            | Err e => Some (Err e)
            | Ok (s, p) => string_loop fuel (out ++ s) p
            end
      end
  end.
Definition string (p : Parser) : option (parsed str) :=
  match expect 34 p with
  | Err e => Some (Err e)
  | Ok (_, p) => string_loop (S (length (rest p))) [] p
  end.

Definition is_num_byte (c : byte) : bool := num_char (Z.to_N c).
Definition number (p : Parser) : parsed Value :=
  let sign := if bool_decide (peek p = Some 45) then 1%nat else 0%nat in
  let digits := take_while is_num_byte (drop sign (rest p)) in
  let text := map Z.to_N (take sign (rest p) ++ digits) in
  match f64_from_str text with
  | Some x => Ok (Num x, advance (length text) p)
  | None => Err (lit "invalid number " ++ [DQ] ++ text ++ [DQ])
  end.

(** [self.b[self.i..].starts_with(b"...")]. *)
Definition starts_with_bytes (t : str) (p : Parser) : bool :=
  bool_decide (take (length t) (rest p) = map Z.of_N t).
Definition invalid_literal (p : Parser) : str := lit "invalid literal at byte " ++ at_byte p.
Definition boolean (p : Parser) : parsed Value :=
  if starts_with_bytes (lit "true") p then Ok (Bool true, advance 4 p)
  else if starts_with_bytes (lit "false") p then Ok (Bool false, advance 5 p)
  else Err (invalid_literal p).
Definition null (p : Parser) : parsed Value :=
  if starts_with_bytes (lit "null") p then Ok (Null, advance 4 p) else Err (invalid_literal p).

(** The recursive part; [None]: the fuel is exhausted. *)
Fixpoint value (fuel : nat) (p : Parser) : option (parsed Value) :=
  match fuel with
  | O => None
  | S fuel =>
      match peek p with
      | None => Some (Err (lit "unexpected end of input"))
      | Some c =>
          if c =? 123 then
            let p := ws (advance 1 p) in
            if bool_decide (peek p = Some 125) then Some (Ok (Object [], advance 1 p))
            else object_loop fuel [] p
          else if c =? 91 then
            let p := ws (advance 1 p) in
            if bool_decide (peek p = Some 93) then Some (Ok (Array [], advance 1 p))
            else array_loop fuel [] p
          else if c =? 34 then
            r ← string p;
            Some (let? (s, p) := r in Ok (Str s, p))
          else if (c =? 116) || (c =? 102) then Some (boolean p)
          else if c =? 110 then Some (null p)
          else if (c =? 45) || ((48 <=? c) && (c <=? 57)) then Some (number p)
          else Some (Err (lit "unexpected byte " ++ debug_char c ++ lit " at " ++ at_byte p))
      end
  end
with object_loop (fuel : nat) (pairs : list (str * Value)) (p : Parser) : option (parsed Value) :=
  match fuel with
  | O => None
  | S fuel =>
      r ← string (ws p);
      match r with
      | Err e => Some (Err e)
      | Ok (key, p) =>
          match expect 58 (ws p) with
          | Err e => Some (Err e)
          | Ok (_, p) =>
              r ← value fuel (ws p);
              match r with
              | Err e => Some (Err e)
              | Ok (val, p) =>
                  let pairs := pairs ++ [(key, val)] in
                  let p := ws p in
                  if bool_decide (peek p = Some 44) then object_loop fuel pairs (advance 1 p)
                  else if bool_decide (peek p = Some 125) then Some (Ok (Object pairs, advance 1 p))
                  else Some (Err (lit "expected ',' or '}' at byte " ++ at_byte p))
              end
          end
      end
  end
with array_loop (fuel : nat) (items : list Value) (p : Parser) : option (parsed Value) :=
  match fuel with
  | O => None
  | S fuel =>
      r ← value fuel (ws p);
      match r with
      | Err e => Some (Err e)
      | Ok (v, p) =>
          let items := items ++ [v] in
          let p := ws p in
          if bool_decide (peek p = Some 44) then array_loop fuel items (advance 1 p)
          else if bool_decide (peek p = Some 93) then Some (Ok (Array items, advance 1 p))
          else Some (Err (lit "expected ',' or ']' at byte " ++ at_byte p))
      end
  end.

(** [Value::parse] on the bytes of the input. *)
Definition parse_bytes (b : bytes) : option (result Value str) :=
  let p := ws (mkParser 0 b) in
  r ← value (2 * length b + 2) p;
  Some (let? (v, p) := r in
        let p := ws p in
        match rest p with
        | [] => Ok v
        | _ => Err (lit "trailing data at byte " ++ at_byte p)
        end).
Definition parse (input : str) : option (result Value str) := parse_bytes (Utf8.encode input).

(** * Specification: the texts of a value *)

Definition ws_text (w : bytes) : Prop := forallb is_ws w = true.

(** The texts of one character of a string literal. *)
Inductive char_text : char → bytes → Prop :=
| ct_raw c : char_ok c → c ≠ DQ → c ≠ 92%N → char_text c (Utf8.encode_char c)
| ct_short e c : (e, c) ∈ [(34, DQ); (92, 92%N); (47, 47%N); (110, LF); (114, CR); (116, 9%N); (98, 8%N); (102, 12%N)] →
    char_text c [92; e]
| ct_u h1 h2 h3 h4 d1 d2 d3 d4 c :
    hex_digit h1 = Some d1 → hex_digit h2 = Some d2 → hex_digit h3 = Some d3 → hex_digit h4 = Some d4 →
    Z.of_N c = ((d1 * 16 + d2) * 16 + d3) * 16 + d4 → char_ok c → char_text c [92; 117; h1; h2; h3; h4]
| ct_pair g1 g2 g3 g4 e1 e2 e3 e4 h1 h2 h3 h4 d1 d2 d3 d4 hi lo c :
    hex_digit g1 = Some e1 → hex_digit g2 = Some e2 → hex_digit g3 = Some e3 → hex_digit g4 = Some e4 →
    hex_digit h1 = Some d1 → hex_digit h2 = Some d2 → hex_digit h3 = Some d3 → hex_digit h4 = Some d4 →
    ((e1 * 16 + e2) * 16 + e3) * 16 + e4 = 55296 + hi → 0 <= hi < 1024 →
    ((d1 * 16 + d2) * 16 + d3) * 16 + d4 = 56320 + lo → 0 <= lo < 1024 →
    Z.of_N c = 65536 + hi * 1024 + lo →
    char_text c [92; 117; g1; g2; g3; g4; 92; 117; h1; h2; h3; h4].

Inductive chars_text : str → bytes → Prop :=
| cs_nil : chars_text [] []
| cs_cons c s t u : char_text c t → chars_text s u → chars_text (c :: s) (t ++ u).

(** The number texts: those [f64] reads that start like a number. *)
Definition number_text (x : f64) (t : bytes) : Prop :=
  ∃ c r, t = c :: r ∧ (c = 45 ∨ 48 <= c <= 57) ∧ forallb is_num_byte r = true ∧
    f64_from_str (map Z.to_N t) = Some x.

(** The texts of values, of the inside of arrays and of objects, with any white
    space the grammar allows. *)
Inductive text : Value → bytes → Prop :=
| t_null : text Null (map Z.of_N (lit "null"))
| t_true : text (Bool true) (map Z.of_N (lit "true"))
| t_false : text (Bool false) (map Z.of_N (lit "false"))
| t_num x t : number_text x t → text (Num x) t
| t_str s t : chars_text s t → text (Str s) (34 :: t ++ [34])
| t_empty_array w : ws_text w → text (Array []) (91 :: w ++ [93])
| t_array vs t : items_text vs t → text (Array vs) (91 :: t ++ [93])
| t_empty_object w : ws_text w → text (Object []) (123 :: w ++ [125])
| t_object ps t : pairs_text ps t → text (Object ps) (123 :: t ++ [125])
with items_text : list Value → bytes → Prop :=
| it_one v w1 t w2 : ws_text w1 → text v t → ws_text w2 → items_text [v] (w1 ++ t ++ w2)
| it_cons v vs w1 t w2 u : ws_text w1 → text v t → ws_text w2 → items_text vs u →
    items_text (v :: vs) (w1 ++ t ++ w2 ++ 44 :: u)
with pairs_text : list (str * Value) → bytes → Prop :=
| pt_one k v kt w1 w2 w3 t w4 : ws_text w1 → chars_text k kt → ws_text w2 → ws_text w3 → text v t → ws_text w4 →
    pairs_text [(k, v)] (w1 ++ (34 :: kt ++ [34]) ++ w2 ++ 58 :: w3 ++ t ++ w4)
| pt_cons k v ps kt w1 w2 w3 t w4 u : ws_text w1 → chars_text k kt → ws_text w2 → ws_text w3 → text v t → ws_text w4 →
    pairs_text ps u →
    pairs_text ((k, v) :: ps) (w1 ++ (34 :: kt ++ [34]) ++ w2 ++ 58 :: w3 ++ t ++ w4 ++ 44 :: u).

Scheme text_mind := Minimality for text Sort Prop
with items_text_mind := Minimality for items_text Sort Prop
with pairs_text_mind := Minimality for pairs_text Sort Prop.
Combined Scheme texts_ind from text_mind, items_text_mind, pairs_text_mind.

(** * Lemmas *)

(** ** Single steps *)

(** The lengths of concatenations. *)
Ltac lens_in H := repeat ((rewrite !length_app in H) || (progress cbn [length] in H)).
Ltac lens := repeat ((rewrite !length_app) || (progress cbn [length])).

(** Equal results up to the arithmetic of the index. *)
Ltac at_end :=
  unfold advance; cbn [i rest drop length map];
  match goal with |- ?l = ?r =>
    match l with context [mkParser ?a _] =>
      match r with context [mkParser ?b _] => replace b with a by lia end
    end
  end; reflexivity.

Lemma advance_app n t k : advance (length t) (mkParser n (t ++ k)) = mkParser (n + length t) k.
Proof. unfold advance. cbn [i rest]. by rewrite drop_app_length. Qed.

Lemma ws_app n w k : ws_text w → stops is_ws k → ws (mkParser n (w ++ k)) = mkParser (n + length w) k.
Proof. intros Hw Hk. unfold ws. cbn [rest]. rewrite take_while_stops by done. apply advance_app. Qed.

Lemma ws_id n k : stops is_ws k → ws (mkParser n k) = mkParser n k.
Proof. intros Hk. rewrite <- (app_nil_l k) at 1. rewrite ws_app by done. by rewrite Nat.add_0_r. Qed.

Lemma expect_app n c k : expect c (mkParser n (c :: k)) = Ok (tt, mkParser (n + 1) k).
Proof. unfold expect. rewrite bool_decide_true by done. done. Qed.

(** ** Strings *)
Lemma lead_extra c : char_ok c → ∃ b l, Utf8.encode_char c = b :: l ∧ utf8_extra b = length l ∧
  (b = Z.of_N c ∨ 192 <= b).
Proof.
  intros Hc. assert (0 <= Z.of_N c < 1114112) by (unfold char_ok in Hc; lia).
  unfold Utf8.encode_char. set (z := Z.of_N c) in *. clearbody z.
  assert (Hx : ∀ b n, (b <= 127 ∧ n = 0%nat) ∨ (192 <= b <= 223 ∧ n = 1%nat) ∨ (224 <= b <= 239 ∧ n = 2%nat) ∨
    (240 <= b <= 247 ∧ n = 3%nat) → utf8_extra b = n).
  { intros b n Hb. unfold utf8_extra. repeat case_match; lia. }
  destruct (Z.ltb_spec z 128); [|destruct (Z.ltb_spec z 2048); [|destruct (Z.ltb_spec z 65536)]];
    eexists _, _; (split; [reflexivity|]); (split; [apply Hx; cbn [length]|]);
    Z.to_euclidean_division_equations; lia.
Qed.

Lemma raw_char_encode n c k b l : char_ok c → Utf8.encode_char c = b :: l → utf8_extra b = length l →
  raw_char b (mkParser n (l ++ k)) = Ok ([c], mkParser (n + length l) k).
Proof.
  intros Hc He Hx. unfold raw_char. cbn [rest]. rewrite Hx.
  destruct (Nat.ltb_spec (length (l ++ k)) (length l)) as [Hlt|_]; [rewrite length_app in Hlt; lia|].
  rewrite take_app_length, <- He.
  assert (Utf8.from_utf8 (Utf8.encode_char c) = Some [c]) as ->.
  { rewrite <- (app_nil_r (Utf8.encode_char c)). change (Utf8.encode_char c ++ []) with (Utf8.encode [c]).
    apply Utf8.from_utf8_encode. by apply Forall_singleton. }
  by rewrite advance_app.
Qed.

Lemma hex4_digits n h1 h2 h3 h4 d1 d2 d3 d4 k :
  hex_digit h1 = Some d1 → hex_digit h2 = Some d2 → hex_digit h3 = Some d3 → hex_digit h4 = Some d4 →
  hex4 (mkParser n (h1 :: h2 :: h3 :: h4 :: k)) = Ok (((d1 * 16 + d2) * 16 + d3) * 16 + d4, mkParser (n + 4) k).
Proof.
  intros H1 H2 H3 H4. unfold hex4. cbn [hex_digits peek rest head advance drop i].
  rewrite H1. cbn [hex_digits peek rest head advance drop i]. rewrite H2. cbn [hex_digits peek rest head advance drop i].
  rewrite H3. cbn [hex_digits peek rest head advance drop i]. rewrite H4. cbn [hex_digits peek rest head advance drop i].
  unfold advance. cbn [i rest drop]. do 3 f_equal. lia.
Qed.

(** One character of a string literal, whatever its spelling. *)
Definition string_step (p : Parser) : option (parsed str) :=
  match peek p with
  | None => None
  | Some c =>
      if c =? 34 then None
      else Some (if c =? 92 then escape (advance 1 p) else raw_char c (advance 1 p))
  end.

Lemma string_step_text c t n k : char_text c t →
  string_step (mkParser n (t ++ k)) = Some (Ok ([c], mkParser (n + length t) k)).
Proof.
  destruct 1 as [c Hc Hq Hb|e c Hin|h1 h2 h3 h4 d1 d2 d3 d4 c H1 H2 H3 H4 Hv Hc
    |g1 g2 g3 g4 e1 e2 e3 e4 h1 h2 h3 h4 d1 d2 d3 d4 hi lo c G1 G2 G3 G4 H1 H2 H3 H4 Hhi Rhi Hlo Rlo Hv].
  - destruct (lead_extra c Hc) as (b & l & He & Hx & Hlead). rewrite He. unfold string_step. cbn [peek rest head app].
    assert (b ≠ 34 ∧ b ≠ 92) as [H1 H2]. { unfold DQ in Hq. lia. }
    destruct (Z.eqb_spec b 34) as [|_]; [done|]. destruct (Z.eqb_spec b 92) as [|_]; [done|].
    change (advance 1 (mkParser n (b :: l ++ k))) with (mkParser (n + 1) (l ++ k)). rewrite (raw_char_encode _ c k b l) by done.
    do 4 f_equal. cbn [length]. lia.
  - rewrite !elem_of_cons, elem_of_nil in Hin.
    destruct Hin as [E|[E|[E|[E|[E|[E|[E|[E|[]]]]]]]]]; injection E as -> ->;
      unfold string_step, escape, advance; cbn [peek rest head app i drop length Z.eqb Pos.eqb];
      do 4 f_equal; lia.
  - unfold string_step, escape, advance. cbn [peek rest head app drop i Z.eqb Pos.eqb].
    unfold unicode_escape. rewrite (hex4_digits _ _ _ _ _ d1 d2 d3 d4) by done. cbn [result_bind].
    rewrite <- Hv. unfold char_ok in Hc.
    replace ((55296 <=? Z.of_N c) && (Z.of_N c <=? 56319)) with false by lia. cbn [result_bind].
    unfold from_u32. replace ((Z.of_N c <? 55296) || (57344 <=? Z.of_N c) && (Z.of_N c <? 1114112)) with true by lia.
    cbn [result_bind]. rewrite N2Z.id. cbn [length]. do 4 f_equal. lia.
  - unfold string_step, escape, advance. cbn [peek rest head app drop i Z.eqb Pos.eqb].
    unfold unicode_escape. rewrite (hex4_digits _ _ _ _ _ e1 e2 e3 e4) by done. cbn [result_bind].
    rewrite Hhi. replace ((55296 <=? 55296 + hi) && (55296 + hi <=? 56319)) with true by lia.
    rewrite bool_decide_true by done. unfold advance. cbn [rest i drop]. rewrite expect_app. cbn [result_bind].
    rewrite (hex4_digits _ _ _ _ _ d1 d2 d3 d4) by done. cbn [result_bind].
    rewrite Hlo. replace ((56320 <=? 56320 + lo) && (56320 + lo <=? 57343)) with true by lia. cbn [negb result_bind].
    rewrite Z.shiftl_mul_pow2 by lia.
    replace (65536 + (55296 + hi - 55296) * 2 ^ 10 + (56320 + lo - 56320)) with (Z.of_N c) by lia.
    unfold from_u32. replace ((Z.of_N c <? 55296) || (57344 <=? Z.of_N c) && (Z.of_N c <? 1114112)) with true by lia.
    cbn [result_bind]. rewrite N2Z.id. cbn [length]. do 4 f_equal. lia.
Qed.

Lemma char_text_nonempty c t : char_text c t → (0 < length t)%nat.
Proof.
  destruct 1; simpl; try lia. destruct (Utf8.encode_char c) eqn:E; [|simpl; lia].
  by apply Utf8.encode_char_nonempty in E.
Qed.

Lemma string_loop_text s t : chars_text s t → ∀ fuel out n k, (length t < fuel)%nat →
  string_loop fuel out (mkParser n (t ++ 34 :: k)) = Some (Ok (out ++ s, mkParser (n + length t + 1) k)).
Proof.
  induction 1 as [|c s t u Hc _ IH]; intros fuel out n k Hf; (destruct fuel as [|fuel]; [lia|]).
  - cbn. rewrite app_nil_r. at_end.
  - pose proof (string_step_text c t n (u ++ 34 :: k) Hc) as Hs. pose proof (char_text_nonempty c t Hc).
    rewrite length_app in Hf. rewrite <- app_assoc.
    unfold string_step in Hs. cbn [string_loop]. destruct (peek _) as [b|]; [|done].
    destruct (b =? 34); [done|]. injection Hs as Hs.
    destruct (b =? 92); rewrite Hs, IH by lia; rewrite <- app_assoc; rewrite length_app; at_end.
Qed.

Lemma string_text s t n k : chars_text s t →
  string (mkParser n (34 :: t ++ 34 :: k)) = Some (Ok (s, mkParser (n + length t + 2) k)).
Proof.
  intros Hs. unfold string. rewrite expect_app. rewrite (string_loop_text s t Hs); cbn [rest].
  - at_end.
  - rewrite length_app. cbn [length]. lia.
Qed.

(** ** Numbers, heads and white space *)
Lemma number_text_runs x t n k : number_text x t → stops is_num_byte k →
  number (mkParser n (t ++ k)) = Ok (Num x, mkParser (n + length t) k).
Proof.
  intros (c & r & -> & Hc & Hr & Hx) Hk. unfold number. cbn [peek rest head app].
  assert (map Z.to_N (take (if bool_decide (Some c = Some 45) then 1 else 0) (c :: r ++ k) ++
    take_while is_num_byte (drop (if bool_decide (Some c = Some 45) then 1 else 0) (c :: r ++ k))) = map Z.to_N (c :: r)) as ->.
  { f_equal. case_bool_decide as E.
    { change (c :: take_while is_num_byte (r ++ k) = c :: r). by rewrite take_while_stops. }
    change (take_while is_num_byte (c :: r ++ k) = c :: r). change (c :: r ++ k) with ((c :: r) ++ k). apply take_while_stops; [|done]. simpl. rewrite Hr, andb_true_r.
    destruct Hc as [->|Hc]; [done|]. unfold is_num_byte, num_char.
    assert (is_ascii_digit (Z.to_N c) = true) as -> by (apply andb_true_intro; split; apply N.leb_le; lia). done. }
  rewrite Hx, length_map. change (c :: r ++ k) with ((c :: r) ++ k). by rewrite advance_app.
Qed.

Lemma text_head v t : text v t → ∃ c r, t = c :: r ∧ is_ws c = false ∧ c ≠ 93 ∧ c ≠ 125.
Proof.
  destruct 1 as [| | |x t (c & r & -> & Hc & _)| | | | |]; try (by eexists _, _).
  exists c, r. unfold is_ws. repeat split; lia.
Qed.

Definition starts_like (w : bytes) (c : byte) (r : bytes) (t : bytes) : Prop :=
  t = w ++ c :: r ∧ ws_text w ∧ is_ws c = false ∧ c ≠ 93 ∧ c ≠ 125.

Lemma items_head vs t : items_text vs t → ∃ w c r, starts_like w c r t.
Proof.
  destruct 1 as [v w1 t w2 H1 Ht|v vs w1 t w2 u H1 Ht];
    destruct (text_head _ _ Ht) as (c & r & -> & Hc); eexists w1, c, _; (split; [reflexivity|done]).
Qed.
Lemma pairs_head ps t : pairs_text ps t → ∃ w c r, starts_like w c r t.
Proof. destruct 1; eexists _, 34, _; (split; [reflexivity|done]). Qed.

Lemma stops_ws w c k : ws_text w → is_num_byte c = false → stops is_num_byte (w ++ c :: k).
Proof.
  intros Hw Hc. destruct w as [|b w]; [done|]. simpl in *. apply andb_prop in Hw as [Hb _].
  unfold is_ws in Hb. unfold is_num_byte, num_char, is_ascii_digit.
  assert (b = 32 ∨ b = 9 ∨ b = 10 ∨ b = 13) as [->|[->|[-> | ->]]] by lia; done.
Qed.

Lemma stops_is_ws w c k : ws_text w → is_ws c = false → stops is_ws (drop (length w) (w ++ c :: k)).
Proof. intros Hw Hc. by rewrite drop_app_length. Qed.

Lemma ws_ws p : ws (ws p) = ws p.
Proof.
  destruct p as [n l]. unfold ws at 2 3. unfold advance. cbn [rest i]. apply ws_id.
  rewrite <- (take_drop_while is_ws l) at 2. rewrite drop_app_length.
  destruct (drop_while is_ws l) as [|x k] eqn:E; [done|]. by eapply drop_while_head.
Qed.

Lemma array_loop_ws fuel items p : array_loop fuel items (ws p) = array_loop fuel items p.
Proof. destruct fuel as [|fuel]; [done|]. cbn [array_loop]. by rewrite ws_ws. Qed.
Lemma object_loop_ws fuel pairs p : object_loop fuel pairs (ws p) = object_loop fuel pairs p.
Proof. destruct fuel as [|fuel]; [done|]. cbn [object_loop]. by rewrite ws_ws. Qed.

Lemma peek_ws_starts n t w c r k : starts_like w c r t → peek (ws (mkParser n (t ++ k))) = Some c.
Proof. intros (-> & Hw & Hc & _). by rewrite <- app_assoc, ws_app. Qed.

(** The head of a text that is not empty after white space. *)
Lemma ws_text_value n w t v k : ws_text w → text v t → ws (mkParser n (w ++ t ++ k)) = mkParser (n + length w) (t ++ k).
Proof.
  intros Hw Ht. apply ws_app; [done|]. by destruct (text_head _ _ Ht) as (c & r & -> & Hc & _).
Qed.

(** ** The parser reads every text *)
Definition reads_value (v : Value) (t : bytes) : Prop :=
  ∀ fuel n k, (2 * length t < fuel)%nat → stops is_num_byte k →
    value fuel (mkParser n (t ++ k)) = Some (Ok (v, mkParser (n + length t) k)).
Definition reads_items (vs : list Value) (t : bytes) : Prop :=
  ∀ fuel items n k, (2 * length t + 1 < fuel)%nat →
    array_loop fuel items (mkParser n (t ++ 93 :: k)) =
    Some (Ok (Array (items ++ vs), mkParser (n + length t + 1) k)).
Definition reads_pairs (ps : list (str * Value)) (t : bytes) : Prop :=
  ∀ fuel pairs n k, (2 * length t + 1 < fuel)%nat →
    object_loop fuel pairs (mkParser n (t ++ 125 :: k)) =
    Some (Ok (Object (pairs ++ ps), mkParser (n + length t + 1) k)).

Lemma starts_with_bytes_app t n k : starts_with_bytes t (mkParser n (map Z.of_N t ++ k)) = true.
Proof.
  unfold starts_with_bytes. cbn [rest]. apply bool_decide_eq_true.
  rewrite take_app_length'; [done|by rewrite length_map].
Qed.

Lemma reads_literals :
  reads_value Null (map Z.of_N (lit "null")) ∧ reads_value (Bool true) (map Z.of_N (lit "true")) ∧
  reads_value (Bool false) (map Z.of_N (lit "false")).
Proof.
  split; [|split]; intros fuel n k Hf _; (destruct fuel as [|fuel]; [lia|]); cbn [value].
  - change (peek (mkParser n _)) with (Some 110). cbn [Z.eqb Pos.eqb orb]. unfold null. rewrite starts_with_bytes_app. at_end.
  - change (peek (mkParser n _)) with (Some 116). cbn [Z.eqb Pos.eqb orb]. unfold boolean. rewrite starts_with_bytes_app. at_end.
  - change (peek (mkParser n _)) with (Some 102). cbn [Z.eqb Pos.eqb orb]. unfold boolean. rewrite starts_with_bytes_app.
    assert (starts_with_bytes (lit "true") (mkParser n (map Z.of_N (lit "false") ++ k)) = false) as ->; [|at_end].
    unfold starts_with_bytes. by apply bool_decide_eq_false.
Qed.

Lemma reads_number x t : number_text x t → reads_value (Num x) t.
Proof.
  intros Ht fuel n k Hf Hk. destruct fuel as [|fuel]; [lia|]. cbn [value].
  rewrite (number_text_runs x t) by done. destruct Ht as (c & r & -> & Hc & _ & _). cbn [peek rest app head].
  repeat match goal with |- context [?a =? ?b] => destruct (Z.eqb_spec a b); [lia|] end.
  destruct (Z.eqb_spec c 45); [done|]. by replace ((48 <=? c) && (c <=? 57)) with true by lia.
Qed.

Lemma reads_string s t : chars_text s t → reads_value (Str s) (34 :: t ++ [34]).
Proof.
  intros Ht fuel n k Hf _. destruct fuel as [|fuel]; [lia|]. cbn [value app]. rewrite <- app_assoc. cbn [app].
  change (peek (mkParser n _)) with (Some 34). cbn [Z.eqb Pos.eqb]. rewrite (string_text s t) by done. cbn [mbind option_bind result_bind].
  cbn [length]. rewrite length_app. at_end.
Qed.

Lemma reads_empty w : ws_text w → reads_value (Array []) (91 :: w ++ [93]) ∧ reads_value (Object []) (123 :: w ++ [125]).
Proof.
  intros Hw. split; intros fuel n k Hf _; (destruct fuel as [|fuel]; [lia|]); cbn [value app]; rewrite <- app_assoc; cbn [app].
  - change (peek (mkParser n _)) with (Some 91). cbn [Z.eqb Pos.eqb].
    change (advance 1 (mkParser n (91 :: w ++ 93 :: k))) with (mkParser (n + 1) (w ++ 93 :: k)).
    rewrite ws_app by done. cbn [peek rest head]. rewrite bool_decide_true by done. cbn [length]. rewrite length_app. at_end.
  - change (peek (mkParser n _)) with (Some 123). cbn [Z.eqb Pos.eqb].
    change (advance 1 (mkParser n (123 :: w ++ 125 :: k))) with (mkParser (n + 1) (w ++ 125 :: k)).
    rewrite ws_app by done. cbn [peek rest head]. rewrite bool_decide_true by done. cbn [length]. rewrite length_app. at_end.
Qed.

Lemma reads_array vs t : items_text vs t → reads_items vs t → reads_value (Array vs) (91 :: t ++ [93]).
Proof.
  intros Ht IH fuel n k Hf _. destruct fuel as [|fuel]; [lia|]. cbn [value app]. rewrite <- app_assoc. cbn [app].
  cbn [length] in Hf. rewrite length_app in Hf. cbn [length] in Hf.
  change (peek (mkParser n (91 :: t ++ 93 :: k))) with (Some 91). cbn [Z.eqb Pos.eqb].
  change (advance 1 (mkParser n (91 :: t ++ 93 :: k))) with (mkParser (n + 1) (t ++ 93 :: k)).
  destruct (items_head _ _ Ht) as (w & c & r & Hs). rewrite (peek_ws_starts _ _ _ _ _ _ Hs).
  rewrite bool_decide_false by (intros [= ->]; by destruct Hs as (_ & _ & _ & ? & _)).
  rewrite array_loop_ws, IH by lia. cbn [app length]. rewrite length_app. at_end.
Qed.

Lemma reads_object ps t : pairs_text ps t → reads_pairs ps t → reads_value (Object ps) (123 :: t ++ [125]).
Proof.
  intros Ht IH fuel n k Hf _. destruct fuel as [|fuel]; [lia|]. cbn [value app]. rewrite <- app_assoc. cbn [app].
  cbn [length] in Hf. rewrite length_app in Hf. cbn [length] in Hf.
  change (peek (mkParser n (123 :: t ++ 125 :: k))) with (Some 123). cbn [Z.eqb Pos.eqb].
  change (advance 1 (mkParser n (123 :: t ++ 125 :: k))) with (mkParser (n + 1) (t ++ 125 :: k)).
  destruct (pairs_head _ _ Ht) as (w & c & r & Hs). rewrite (peek_ws_starts _ _ _ _ _ _ Hs).
  rewrite bool_decide_false by (intros [= ->]; by destruct Hs as (_ & _ & _ & _ & ?)).
  rewrite object_loop_ws, IH by lia. cbn [app length]. rewrite length_app. at_end.
Qed.

Lemma reads_one_item v w1 t w2 : ws_text w1 → text v t → reads_value v t → ws_text w2 → reads_items [v] (w1 ++ t ++ w2).
Proof.
  intros H1 Ht IH H2 fuel items n k Hf. destruct fuel as [|fuel]; [lia|]. cbn [array_loop].
  rewrite !length_app in Hf. rewrite <- !app_assoc, (ws_text_value _ _ t v) by done.
  rewrite IH by (lia || by apply stops_ws). cbn [mbind option_bind]. rewrite ws_app by done.
  cbn [peek rest head]. rewrite bool_decide_false, bool_decide_true by done. rewrite !length_app. at_end.
Qed.

Lemma reads_more_items v vs w1 t w2 u : ws_text w1 → text v t → reads_value v t → ws_text w2 → reads_items vs u →
  reads_items (v :: vs) (w1 ++ t ++ w2 ++ 44 :: u).
Proof.
  intros H1 Ht IH H2 IHs fuel items n k Hf. destruct fuel as [|fuel]; [lia|]. cbn [array_loop].
  rewrite !length_app in Hf. cbn [length] in Hf. rewrite <- !app_assoc, (ws_text_value _ _ t v) by done. cbn [app].
  rewrite IH by (lia || by apply stops_ws). cbn [mbind option_bind]. rewrite ws_app by done.
  cbn [peek rest head]. rewrite bool_decide_true by done.
  change (advance 1 (mkParser (n + length w1 + length t + length w2) (44 :: u ++ 93 :: k)))
    with (mkParser (n + length w1 + length t + length w2 + 1) (u ++ 93 :: k)).
  rewrite IHs by lia. rewrite <- app_assoc. rewrite !length_app. at_end.
Qed.

(** A key, its colon and its value. *)
Lemma reads_pair k v kt w1 w2 w3 t w4 fuel pairs n l :
  ws_text w1 → chars_text k kt → ws_text w2 → ws_text w3 → text v t → reads_value v t → ws_text w4 →
  (2 * length t < fuel)%nat → is_ws (hd 0 l) = false → is_num_byte (hd 0 l) = false → l ≠ [] →
  object_loop (S fuel) pairs (mkParser n (w1 ++ (34 :: kt ++ [34]) ++ w2 ++ 58 :: w3 ++ t ++ w4 ++ l)) =
  (let p := mkParser (n + (length w1 + length kt + 3 + length w2 + length w3 + length t + length w4)) l in
   let pairs := pairs ++ [(k, v)] in
   if bool_decide (peek p = Some 44) then object_loop fuel pairs (advance 1 p)
   else if bool_decide (peek p = Some 125) then Some (Ok (Object pairs, advance 1 p))
   else Some (Err (lit "expected ',' or '}' at byte " ++ at_byte p))).
Proof.
  intros H1 Hk H2 H3 Ht IH H4 Hf Hl Hn Hne. destruct l as [|c l]; [done|]. cbn [hd] in *.
  cbn [object_loop]. rewrite ws_app by done. cbn [app]. rewrite <- app_assoc. cbn [app].
  rewrite (string_text k kt) by done. cbn [mbind option_bind]. rewrite ws_app by done.
  rewrite expect_app. rewrite (ws_text_value _ _ t v) by done.
  rewrite IH by (lia || by apply stops_ws). cbn [mbind option_bind]. rewrite ws_app by done. cbv zeta.
  replace (n + length w1 + length kt + 2 + length w2 + 1 + length w3 + length t + length w4)%nat
    with (n + (length w1 + length kt + 3 + length w2 + length w3 + length t + length w4))%nat by lia.
  reflexivity.
Qed.

Lemma reads_one_pair k v kt w1 w2 w3 t w4 :
  ws_text w1 → chars_text k kt → ws_text w2 → ws_text w3 → text v t → reads_value v t → ws_text w4 →
  reads_pairs [(k, v)] (w1 ++ (34 :: kt ++ [34]) ++ w2 ++ 58 :: w3 ++ t ++ w4).
Proof.
  intros H1 Hk H2 H3 Ht IH H4 fuel pairs n l Hf. destruct fuel as [|fuel]; [lia|].
  lens_in Hf.
  assert ((w1 ++ (34 :: kt ++ [34]) ++ w2 ++ 58 :: w3 ++ t ++ w4) ++ 125 :: l =
    w1 ++ (34 :: kt ++ [34]) ++ w2 ++ 58 :: w3 ++ t ++ w4 ++ 125 :: l) as -> by (rewrite <- !app_assoc; cbn [app]; by rewrite <- !app_assoc).
  rewrite (reads_pair k v) by (done || lia). cbv zeta. cbn [peek rest head].
  rewrite bool_decide_false, bool_decide_true by done.
  lens. at_end.
Qed.

Lemma reads_more_pairs k v ps kt w1 w2 w3 t w4 u :
  ws_text w1 → chars_text k kt → ws_text w2 → ws_text w3 → text v t → reads_value v t → ws_text w4 → reads_pairs ps u →
  reads_pairs ((k, v) :: ps) (w1 ++ (34 :: kt ++ [34]) ++ w2 ++ 58 :: w3 ++ t ++ w4 ++ 44 :: u).
Proof.
  intros H1 Hk H2 H3 Ht IH H4 IHs fuel pairs n l Hf. destruct fuel as [|fuel]; [lia|].
  lens_in Hf.
  assert ((w1 ++ (34 :: kt ++ [34]) ++ w2 ++ 58 :: w3 ++ t ++ w4 ++ 44 :: u) ++ 125 :: l =
    w1 ++ (34 :: kt ++ [34]) ++ w2 ++ 58 :: w3 ++ t ++ w4 ++ 44 :: u ++ 125 :: l) as -> by (rewrite <- !app_assoc; cbn [app]; by rewrite <- !app_assoc).
  rewrite (reads_pair k v) by (done || lia). cbv zeta. cbn [peek rest head].
  rewrite bool_decide_true by done. unfold advance. cbn [rest i drop]. rewrite drop_0, IHs by lia. rewrite <- app_assoc.
  lens. at_end.
Qed.

Lemma reads_texts v t : text v t → reads_value v t.
Proof.
  destruct reads_literals as (Hn & Ht & Hf).
  assert (H : (∀ v t, text v t → text v t ∧ reads_value v t) ∧ (∀ vs t, items_text vs t → items_text vs t ∧ reads_items vs t) ∧
    (∀ ps t, pairs_text ps t → pairs_text ps t ∧ reads_pairs ps t)).
  { apply texts_ind; intros;
      repeat match goal with H : _ ∧ _ |- _ => destruct H end; (split; [by econstructor|]).
    - done.
    - done.
    - done.
    - by apply reads_number.
    - by apply reads_string.
    - by apply reads_empty.
    - by apply reads_array.
    - by apply reads_empty.
    - by apply reads_object.
    - by apply reads_one_item.
    - by apply reads_more_items.
    - by apply reads_one_pair.
    - by apply reads_more_pairs. }
  intros H'. by apply H.
Qed.

Lemma stops_num_ws w : ws_text w → stops is_num_byte w.
Proof.
  intros Hw. destruct w as [|c w]; [done|]. pose proof (stops_ws [c] 0 w) as H. simpl in H.
  apply H; [|done]. simpl in Hw. unfold ws_text. simpl. apply andb_prop in Hw as [-> _]. done.
Qed.

(** ** Every input is answered *)

(** The parser is done with the bytes before what is left. *)
Definition ends_within {A} (l : nat) (r : parsed A) : Prop :=
  match r with Ok (_, p) => (length (rest p) < l)%nat | Err _ => True end.

Lemma advance_rest n p : length (rest (advance n p)) = (length (rest p) - n)%nat.
Proof. unfold advance. cbn [rest]. apply length_drop. Qed.
Lemma ws_rest p : (length (rest (ws p)) <= length (rest p))%nat.
Proof. unfold ws. rewrite advance_rest. lia. Qed.
Lemma peek_rest p c : peek p = Some c → (0 < length (rest p))%nat.
Proof. unfold peek. destruct (rest p); [done|simpl; lia]. Qed.

Lemma expect_ends c p : ends_within (length (rest p)) (expect c p).
Proof.
  unfold expect. case_bool_decide as E; [|done]. apply peek_rest in E. cbn [ends_within]. rewrite advance_rest. lia.
Qed.

Lemma ends_bind {A B} l l' (r : parsed A) (k : A * Parser → parsed B) :
  ends_within l r → (∀ a p, (length (rest p) < l)%nat → ends_within l' (k (a, p))) → ends_within l' (result_bind r k).
Proof. intros Hr Hk. destruct r as [[a p]|e]; [|done]. by apply Hk. Qed.

Lemma ends_weaken {A} l l' (r : parsed A) : (l <= l')%nat → ends_within l r → ends_within l' r.
Proof. destruct r as [[a p]|e]; [|done]. cbn [ends_within]. lia. Qed.

Lemma hex_digits_ends n : ∀ v p, ends_within (S (length (rest p))) (hex_digits n v p).
Proof.
  induction n as [|n IH]; intros v p; [cbn; lia|]. cbn [hex_digits].
  destruct (peek p); [|done]. destruct (hex_digit _); [|done].
  eapply ends_weaken; [|apply IH]. rewrite advance_rest. lia.
Qed.

Lemma unicode_escape_ends p : ends_within (S (length (rest p))) (unicode_escape p).
Proof.
  unfold unicode_escape. eapply ends_bind; [apply hex_digits_ends|]. intros hi q1 Hq1.
  apply (ends_bind (S (length (rest p)))).
  - destruct ((55296 <=? hi) && (hi <=? 56319)); [|exact Hq1]. case_bool_decide; [|done].
    eapply ends_bind; [apply expect_ends|]. intros _ q2 Hq2. rewrite advance_rest in Hq2.
    eapply ends_bind; [apply hex_digits_ends|]. intros lo q3 Hq3.
    destruct (negb _); [done|]. cbn [ends_within]. lia.
  - intros cp q2 Hq2. by destruct (from_u32 cp).
Qed.

Lemma escape_ends p : ends_within (S (length (rest p))) (escape p).
Proof.
  unfold escape. destruct (peek p) as [e|]; [|done].
  repeat (case_match; [cbn [ends_within]; rewrite ?advance_rest; try lia|]); [|done].
  eapply ends_bind; [apply unicode_escape_ends|]. intros c q1 Hq1. rewrite advance_rest in Hq1. cbn [ends_within]. lia.
Qed.

Lemma raw_char_ends c p : ends_within (S (length (rest p))) (raw_char c p).
Proof.
  unfold raw_char. destruct (_ <? _)%nat; [done|]. destruct (Utf8.from_utf8 _); [|done].
  cbn [ends_within]. rewrite advance_rest. lia.
Qed.

Lemma string_loop_total fuel : ∀ out p, (length (rest p) < fuel)%nat →
  ∃ r, string_loop fuel out p = Some r ∧ ends_within (length (rest p)) r.
Proof.
  induction fuel as [|fuel IH]; intros out p Hf; [lia|]. cbn [string_loop].
  destruct (peek p) as [c|] eqn:Ep; [|by eexists]. apply peek_rest in Ep.
  destruct (c =? 34); [eexists; split; [done|]; cbn [ends_within]; rewrite advance_rest; lia|].
  assert (He : ends_within (S (length (rest (advance 1 p)))) (if c =? 92 then escape (advance 1 p) else raw_char c (advance 1 p)))
    by (destruct (c =? 92); [apply escape_ends|apply raw_char_ends]).
  destruct (if c =? 92 then _ else _) as [[s p']|e]; [|by eexists].
  cbn [ends_within] in He. rewrite advance_rest in He.
  destruct (IH (out ++ s) p' ltac:(lia)) as (r & Hr & Hw). exists r. split; [done|]. eapply ends_weaken; [|exact Hw]. lia.
Qed.

Lemma string_total p : ∃ r, string p = Some r ∧ ends_within (length (rest p)) r.
Proof.
  unfold string. pose proof (expect_ends 34 p) as He. destruct (expect 34 p) as [[[] p']|e]; [|by eexists].
  cbn [ends_within] in He. destruct (string_loop_total (S (length (rest p'))) [] p' ltac:(lia)) as (r & Hr & Hw).
  exists r. split; [done|]. eapply ends_weaken; [|exact Hw]. lia.
Qed.

Lemma literals_end p c : peek p = Some c →
  ends_within (length (rest p)) (boolean p) ∧ ends_within (length (rest p)) (null p).
Proof.
  intros Hp. apply peek_rest in Hp. unfold boolean, null.
  split; repeat (case_match; [cbn [ends_within]; rewrite advance_rest; lia|]); done.
Qed.

Lemma number_ends p c : peek p = Some c → is_num_byte c = true → ends_within (length (rest p)) (number p).
Proof.
  intros Hp Hc. unfold number. destruct (f64_from_str _); [|done]. cbn [ends_within]. rewrite advance_rest.
  pose proof (peek_rest p c Hp). rewrite length_map, length_app, length_take.
  unfold peek in Hp. destruct (rest p) as [|b l]; [done|]. injection Hp as ->.
  case_bool_decide; simpl; [lia|]. rewrite Hc. simpl. lia.
Qed.

Definition answered (l : nat) (o : option (parsed Value)) : Prop := ∃ r, o = Some r ∧ ends_within l r.

Lemma answered_done l r : ends_within l r → answered l (Some r).
Proof. by exists r. Qed.
Lemma answered_weaken l l' o : (l <= l')%nat → answered l o → answered l' o.
Proof. intros Hl (r & -> & Hr). exists r. split; [done|]. by eapply ends_weaken. Qed.

(** The tail of a loop: a comma and another round, the closing bracket, or an
    error. *)
Lemma loop_tail (close : byte) (res : Value) err l o p :
  (length (rest p) < l)%nat →
  (∀ c, peek (ws p) = Some c → answered (length (rest (advance 1 (ws p)))) o) →
  answered l (if bool_decide (peek (ws p) = Some 44) then o
              else if bool_decide (peek (ws p) = Some close) then Some (Ok (res, advance 1 (ws p)))
              else Some (Err err)).
Proof.
  intros Hl Ho. pose proof (ws_rest p) as Hw.
  case_bool_decide as E1; [eapply answered_weaken; [|by eapply Ho]; rewrite advance_rest; lia|].
  case_bool_decide; apply answered_done; [|done]. cbn [ends_within]. rewrite advance_rest. lia.
Qed.

Lemma value_step fuel p :
  (∀ ps p, (2 * length (rest p) + 1 < fuel)%nat → answered (length (rest p)) (object_loop fuel ps p)) →
  (∀ vs p, (2 * length (rest p) + 1 < fuel)%nat → answered (length (rest p)) (array_loop fuel vs p)) →
  (2 * length (rest p) < S fuel)%nat → answered (length (rest p)) (value (S fuel) p).
Proof.
  intros IHo IHa Hf. cbn [value]. destruct (peek p) as [c|] eqn:Ep; [|by apply answered_done].
  pose proof (peek_rest _ _ Ep). pose proof (ws_rest (advance 1 p)) as Hw. rewrite advance_rest in Hw.
  destruct (c =? 123).
  { case_bool_decide; [apply answered_done; cbn [ends_within]; rewrite advance_rest; lia|].
    eapply answered_weaken; [|apply IHo]; lia. }
  destruct (c =? 91).
  { case_bool_decide; [apply answered_done; cbn [ends_within]; rewrite advance_rest; lia|].
    eapply answered_weaken; [|apply IHa]; lia. }
  destruct (c =? 34).
  { destruct (string_total p) as (r & -> & Hr). apply answered_done. eapply ends_bind; [exact Hr|]. done. }
  destruct ((c =? 116) || (c =? 102)); [apply answered_done; by eapply literals_end|].
  destruct (c =? 110); [apply answered_done; by eapply literals_end|].
  destruct ((c =? 45) || _) eqn:En; apply answered_done; [|done]. eapply number_ends; [done|].
  unfold is_num_byte, num_char. destruct (Z.eqb_spec c 45) as [->|_]; [done|]. simpl in En.
  assert (is_ascii_digit (Z.to_N c) = true) as -> by (apply andb_true_intro; split; apply N.leb_le; lia). done.
Qed.

Lemma loops_total fuel :
  (∀ p, (2 * length (rest p) < fuel)%nat → answered (length (rest p)) (value fuel p)) ∧
  (∀ ps p, (2 * length (rest p) + 1 < fuel)%nat → answered (length (rest p)) (object_loop fuel ps p)) ∧
  (∀ vs p, (2 * length (rest p) + 1 < fuel)%nat → answered (length (rest p)) (array_loop fuel vs p)).
Proof.
  induction fuel as [|fuel (IHv & IHo & IHa)]; [repeat split; intros; lia|].
  split; [intros p Hf; by apply value_step|]. split.
  - intros ps p Hf. cbn [object_loop]. pose proof (ws_rest p).
    destruct (string_total (ws p)) as (r & -> & Hr). cbn [mbind option_bind].
    destruct r as [[key p1]|e]; [|by apply answered_done]. cbn [ends_within] in Hr. pose proof (ws_rest p1).
    pose proof (expect_ends 58 (ws p1)) as He. destruct (expect 58 (ws p1)) as [[[] p2]|e]; [|by apply answered_done].
    cbn [ends_within] in He. pose proof (ws_rest p2).
    destruct (IHv (ws p2) ltac:(lia)) as (r & -> & Hv). cbn [mbind option_bind].
    destruct r as [[v p3]|e]; [|by apply answered_done]. cbn [ends_within] in Hv.
    apply loop_tail; [lia|]. intros c Hc. pose proof (ws_rest p3). apply IHo. rewrite advance_rest. lia.
  - intros vs p Hf. cbn [array_loop]. pose proof (ws_rest p).
    destruct (IHv (ws p) ltac:(lia)) as (r & -> & Hv). cbn [mbind option_bind].
    destruct r as [[v p3]|e]; [|by apply answered_done]. cbn [ends_within] in Hv.
    apply loop_tail; [lia|]. intros c Hc. pose proof (ws_rest p3). apply IHa. rewrite advance_rest. lia.
Qed.

Lemma parse_bytes_text v t w1 w2 : text v t → ws_text w1 → ws_text w2 →
  parse_bytes (w1 ++ t ++ w2) = Some (Ok v).
Proof.
  intros Ht H1 H2. unfold parse_bytes. rewrite (ws_text_value _ _ t v) by done.
  rewrite (reads_texts v t Ht); [|lens; lia|by apply stops_num_ws]. cbn [mbind option_bind result_bind].
  rewrite <- (app_nil_r w2) at 1. by rewrite ws_app.
Qed.

Lemma parse_bytes_total b : ∃ r, parse_bytes b = Some r.
Proof.
  unfold parse_bytes. pose proof (ws_rest (mkParser 0 b)) as Hw. cbn [rest] in Hw.
  destruct (loops_total (2 * length b + 2)) as (Hv & _). destruct (Hv (ws (mkParser 0 b)) ltac:(lia)) as (r & -> & _).
  cbn [mbind option_bind]. by eexists.
Qed.

(** ** The serializer writes texts *)

(** The values a program can hold and print: scalar values in strings, and
    numbers that are not NaN or infinite. *)
Inductive printable : Value → Prop :=
| p_null : printable Null
| p_bool b : printable (Bool b)
| p_num n : is_finite n = true → printable (Num n)
| p_str s : str_ok s → printable (Str s)
| p_array a : Forall printable a → printable (Array a)
| p_object ps : Forall (λ p, str_ok p.1 ∧ printable p.2) ps → printable (Object ps).

(** [PartialEq] on values. *)
Inductive same : Value → Value → Prop :=
| s_null : same Null Null
| s_bool b : same (Bool b) (Bool b)
| s_num x y : f64_eqb x y = true → same (Num x) (Num y)
| s_str s : same (Str s) (Str s)
| s_array a b : Forall2 same a b → same (Array a) (Array b)
| s_object p q : Forall2 (λ x y, x.1 = y.1 ∧ same x.2 y.2) p q → same (Object p) (Object q).

(** Induction on values, through the lists they hold. *)
Definition value_ind' (P : Value → Prop) (Hnull : P Null) (Hbool : ∀ b, P (Bool b)) (Hnum : ∀ n, P (Num n))
    (Hstr : ∀ s, P (Str s)) (Harray : ∀ a, Forall P a → P (Array a))
    (Hobject : ∀ ps, Forall (λ p, P p.2) ps → P (Object ps)) : ∀ v, P v :=
  fix go v :=
    match v with
    | Null => Hnull
    | Bool b => Hbool b
    | Num n => Hnum n
    | Str s => Hstr s
    | Array a => Harray a ((fix all l : Forall P l :=
        match l with [] => List.Forall_nil _ | v :: l => List.Forall_cons _ v l (go v) (all l) end) a)
    | Object ps => Hobject ps ((fix all l : Forall (λ p, P p.2) l :=
        match l with [] => List.Forall_nil _ | p :: l => List.Forall_cons _ p l (go p.2) (all l) end) ps)
    end.

Lemma hex_digit_chr d : 0 <= d < 16 → hex_digit (Z.of_N (digit_chr d)) = Some d.
Proof.
  intros Hd. assert (Forall (λ n, hex_digit (Z.of_N (digit_chr (Z.of_nat n))) = Some (Z.of_nat n)) (seq 0 16)) as H
    by (apply (bool_decide_unpack _); vm_compute; done).
  rewrite Forall_forall in H. specialize (H (Z.to_nat d)). rewrite Z2Nat.id in H by lia.
  apply H. apply elem_of_seq. lia.
Qed.

Lemma encode_ascii_one l : Forall Utf8.ascii l → Utf8.encode l = map Z.of_N l.
Proof. apply Utf8.encode_ascii. Qed.

Lemma escape_char_text c : char_ok c → char_text c (Utf8.encode (escape_char c)).
Proof.
  intros Hc. unfold escape_char.
  assert (Hs : ∀ e d, (e, d) ∈ [(34, DQ); (92, 92%N); (47, 47%N); (110, LF); (114, CR); (116, 9%N); (98, 8%N); (102, 12%N)] →
    char_text d [92; e]) by (intros; by apply ct_short).
  repeat match goal with |- context [(c =? ?x)%N] => destruct (N.eqb_spec c x) as [->|]; [apply Hs; set_solver|] end.
  destruct (N.ltb_spec c 32).
  - assert (Hd : ∀ d, 0 <= d < 16 → (digit_chr d < 128)%N) by (intros d Hd; unfold digit_chr; case_match; lia).
    rewrite Utf8.encode_ascii.
    2: { unfold Utf8.ascii. repeat constructor; apply Hd; Z.to_euclidean_division_equations; lia. }
    eapply (ct_u 48 48 _ _ 0 0); [done|done|apply hex_digit_chr..| |done]; Z.to_euclidean_division_equations; lia.
  - cbn [Utf8.encode map concat]. rewrite app_nil_r. by apply ct_raw.
Qed.

Lemma write_str_text s : str_ok s → ∃ t, Utf8.encode (write_str s) = 34 :: t ++ [34] ∧ chars_text s t.
Proof.
  intros Hs. exists (Utf8.encode (concat (map escape_char s))). split.
  { unfold write_str. rewrite !Utf8.encode_app. reflexivity. }
  induction Hs as [|c s Hc _ IH]; [constructor|]. cbn [map concat]. rewrite Utf8.encode_app.
  constructor; [by apply escape_char_text|done].
Qed.

Lemma items_join (l : list (Value * str)) : l ≠ [] → Forall (λ p, text p.1 (Utf8.encode p.2)) l →
  items_text l.*1 (Utf8.encode (join (lit ",") l.*2)).
Proof.
  intros Hne Hl. induction Hl as [|[v t] l Hv Hl IH]; [done|]. cbn [fst snd] in Hv.
  destruct l as [|p l].
  - cbn. pose proof (it_one v [] (Utf8.encode t) [] eq_refl Hv eq_refl) as H. by rewrite app_nil_r in H.
  - cbn [fmap list_fmap]. rewrite join_cons by done. rewrite !Utf8.encode_app.
    by apply (it_cons v _ [] (Utf8.encode t) []); [|..|apply IH].
Qed.

Lemma pairs_join (l : list (str * Value * str)) : l ≠ [] →
  Forall (λ p, str_ok p.1.1 ∧ text p.1.2 (Utf8.encode p.2)) l →
  pairs_text l.*1 (Utf8.encode (join (lit ",") (map (λ p, write_str p.1.1 ++ lit ":" ++ p.2) l))).
Proof.
  intros Hne Hl. induction Hl as [|[[k v] t] l [Hk Hv] Hl IH]; [done|]. cbn [fst snd] in Hk, Hv.
  destruct (write_str_text k Hk) as (kt & Ek & Hkt). destruct l as [|p l].
  - cbn [map join fst snd]. rewrite !Utf8.encode_app, Ek.
    pose proof (pt_one k v kt [] [] [] (Utf8.encode t) [] eq_refl Hkt eq_refl eq_refl Hv eq_refl) as H.
    by rewrite app_nil_r in H.
  - cbn [map]. rewrite join_cons by done. cbn [fst snd]. rewrite !Utf8.encode_app, Ek. rewrite <- !app_assoc.
    exact (pt_cons k v _ kt [] [] [] (Utf8.encode t) [] _ eq_refl Hkt eq_refl eq_refl Hv eq_refl (IH ltac:(done))).
Qed.

Section Laws.
Context {L : Float64Laws}.

Lemma num_chars_bytes r : forallb num_char r = true → forallb is_num_byte (map Z.of_N r) = true.
Proof.
  induction r as [|c r IH]; [done|]. simpl. intros [Hc Hr]%andb_prop.
  unfold is_num_byte at 1. by rewrite N2Z.id, Hc, IH.
Qed.

Lemma number_text_ascii x c r : f64_from_str (c :: r) = Some x → (is_ascii_digit c || (c =? chr "-")%N) = true →
  forallb num_char r = true → number_text x (Utf8.encode (c :: r)).
Proof.
  intros Hx Hc Hr.
  assert (Hascii : ∀ d, num_char d = true → Utf8.ascii d).
  { intros d Hd. unfold num_char, is_ascii_digit in Hd. unfold Utf8.ascii.
    destruct (N.ltb_spec d 128); [done|].
    repeat match goal with H : context [(d =? ?y)%N] |- _ => destruct (N.eqb_spec d y); [subst; done|] end.
    simpl in Hd. rewrite !orb_false_r in Hd. apply andb_prop in Hd as [_ Hd%N.leb_le]. lia. }
  assert (Hn : num_char c = true) by (unfold num_char; apply orb_true_iff in Hc as [-> | ->]; by rewrite ?orb_true_r).
  rewrite Utf8.encode_ascii.
  2: { constructor; [by apply Hascii|]. apply Forall_forall. intros d Hd. apply Hascii.
       rewrite forallb_forall in Hr. apply Hr. by apply list_elem_of_In. }
  exists (Z.of_N c), (map Z.of_N r). split; [done|]. split.
  { apply orb_true_iff in Hc as [Hc|Hc]; [right|left].
    - apply andb_prop in Hc as [H1%N.leb_le H2%N.leb_le]. lia.
    - apply N.eqb_eq in Hc as ->. done. }
  split.
  { by apply num_chars_bytes. }
  rewrite <- Hx. f_equal. change (Z.of_N c :: map Z.of_N r) with (map Z.of_N (c :: r)).
  rewrite map_map. rewrite <- (map_id (c :: r)) at 2. apply map_ext. intros d. apply N2Z.id.
Qed.
Lemma dec_digits x : 0 <= x → Forall (λ c, is_ascii_digit c = true) (dec x) ∧ dec x ≠ [].
Proof.
  intros Hx. destruct (dec_spec (x + 1) x) as (_ & H); [|done].
  split; [done|]. apply Z.lt_le_trans with (x + 1); [lia|]. apply Z.lt_le_incl, Z.pow_gt_lin_r; lia.
Qed.

Lemma show_i64_chars x : ∃ c r, show_i64 x = c :: r ∧ (is_ascii_digit c || (c =? chr "-")%N) = true ∧ forallb num_char r = true.
Proof.
  assert (Hd : ∀ l, Forall (λ c, is_ascii_digit c = true) l → forallb num_char l = true).
  { intros l Hl. apply forallb_forall. intros c Hc. rewrite Forall_forall in Hl.
    unfold num_char. by rewrite Hl by (by apply list_elem_of_In). }
  unfold show_i64. destruct (Z.ltb_spec x 0).
  - destruct (dec_digits (- x)) as [H1 _]; [lia|]. eexists _, _. split; [done|]. split; [done|]. by apply Hd.
  - destruct (dec_digits x) as [H1 H2]; [lia|]. destruct (dec x) as [|c r]; [done|].
    apply Forall_cons in H1 as [Hc Hr]. exists c, r. split; [done|]. split; [by rewrite Hc|by apply Hd].
Qed.

Lemma write_num_text n : is_finite n = true → ∃ y, f64_eqb n y = true ∧ number_text y (Utf8.encode (write_num n)).
Proof.
  intros Hn. unfold write_num. rewrite Hn. cbn [andb].
  destruct (is_integral n && is_below_1e15 n) eqn:Ei.
  - apply andb_prop in Ei as [Hi Hb]. destruct (integral_roundtrip n Hn Hi Hb) as (y & Hy & He).
    exists y. split; [done|]. destruct (show_i64_chars (to_i64 n)) as (c & r & E & Hc & Hr). rewrite E in *.
    by apply number_text_ascii.
  - exists n. split; [by apply f64_eqb_refl|]. destruct (display_chars n Hn) as (c & r & E & Hc & Hr).
    pose proof (display_roundtrip n Hn) as Hd. rewrite E in *. by apply number_text_ascii.
Qed.

(** A value and a text of a value that compares equal to it. *)
Definition writes (v : Value) : Prop := ∃ w, same v w ∧ text w (Utf8.encode (write v)).

Lemma writes_all a : Forall writes a →
  ∃ l : list (Value * str), l.*2 = map write a ∧ Forall2 same a l.*1 ∧ Forall (λ p, text p.1 (Utf8.encode p.2)) l.
Proof.
  induction 1 as [|v a (w & Hs & Ht) _ (l & Hl & H1 & H2)]; [by exists []|].
  exists ((w, write v) :: l). cbn. split; [by f_equal|]. split; by constructor.
Qed.

Lemma writes_pairs ps : Forall (λ p, str_ok p.1 ∧ writes p.2) ps →
  ∃ l : list (str * Value * str), map (λ p, write_str p.1.1 ++ lit ":" ++ p.2) l =
      map (λ '(k, v), write_str k ++ lit ":" ++ write v) ps ∧
    Forall2 (λ x y, x.1 = y.1 ∧ same x.2 y.2) ps l.*1 ∧ Forall (λ p, str_ok p.1.1 ∧ text p.1.2 (Utf8.encode p.2)) l.
Proof.
  induction 1 as [|[k v] ps [Hk (w & Hs & Ht)] _ (l & Hl & H1 & H2)]; [by exists []|].
  exists ((k, w, write v) :: l). cbn [map]. split; [by f_equal|]. split; by constructor.
Qed.

Lemma write_text v : printable v → writes v.
Proof.
  induction v as [| |n|s|a IH|ps IH] using value_ind'; inversion 1; subst.
  - exists Null. split; constructor.
  - exists (Bool b). split; [constructor|]. destruct b; constructor.
  - destruct (write_num_text n) as (y & He & Ht); [done|]. exists (Num y). split; by constructor.
  - exists (Str s). split; [constructor|]. destruct (write_str_text s) as (t & Et & Ht); [done|].
    cbn [write]. rewrite Et. by constructor.
  - destruct (writes_all a) as (l & Hl & Hsame & Htext); [rewrite Forall_forall in *; by eauto|].
    exists (Array l.*1). split; [by constructor|]. cbn [write]. rewrite !Utf8.encode_app, <- Hl.
    destruct l as [|p l]; [exact (t_empty_array [] eq_refl)|]. apply t_array, items_join; done.
  - destruct (writes_pairs ps) as (l & Hl & Hsame & Htext).
    { rewrite Forall_forall in *. intros p Hp. split; [by apply H1|]. by apply IH, H1. }
    exists (Object l.*1). split; [by constructor|]. cbn [write]. rewrite !Utf8.encode_app, <- Hl.
    destruct l as [|p l]; [exact (t_empty_object [] eq_refl)|]. apply t_object, pairs_join; done.
Qed.
End Laws.

(** * Theorems *)

(** C26. The parser accepts the JSON grammar: every text of a value, with white
    space wherever the grammar allows it, any spelling of the characters of its
    strings (raw, short escape, \u escape, surrogate pair) and any nesting, is
    parsed to that value, in order and with duplicate keys kept. *)
Theorem parse_reads_texts v t w1 w2 :
  text v t → ws_text w1 → ws_text w2 → parse_bytes (w1 ++ t ++ w2) = Some (Ok v).
Proof. intros Ht H1 H2. rewrite (parse_bytes_text v); done. Qed.

(** C27. The parser ends on every input, however malformed: with fuel twice the
    number of bytes there is always an answer. *)
Theorem parse_terminates s : ∃ r, parse s = Some r.
Proof.
  destruct (parse_bytes_total (Utf8.encode s)) as [r Hr]. exists r.
  unfold parse. exact Hr.
Qed.

(** C28. Serialize then parse: for every value whose numbers are finite, parsing
    the text that [to_string] writes gives a value equal to it (numbers compared
    as [f64] does). *)
Theorem parse_to_string {L : Float64Laws} v : printable v → ∃ w, parse (to_string v) = Some (Ok w) ∧ same v w.
Proof.
  intros Hv. destruct (write_text v Hv) as (w & Hs & Ht). exists w. split; [|done].
  unfold parse, to_string. rewrite <- (app_nil_r (Utf8.encode _)).
  apply (parse_bytes_text w _ [] []); done.
Qed.
End Json.

(** ** A concrete number type: the integers that [f64] represents exactly *)
#[local] Instance integer_floats : Float64 := {|
  f64 := Z;
  f64_eqb := Z.eqb;
  is_finite x := Z.abs x <=? 2 ^ 53;
  is_integral _ := true;
  is_below_1e15 x := Z.abs x <? 10 ^ 15;
  is_nonneg x := 0 <=? x;
  to_i64 x := x;
  to_u64 x := x;
  of_int x := x;
  f64_from_str s := match s with
    | 45%N :: r => Z.opp <$> parse_uint 64 r
    | _ => parse_uint 64 s
    end;
  f64_display := show_i64
|}.

Lemma integer_parse_show x : Z.abs x <= 2 ^ 53 → f64_from_str (show_i64 x) = Some x.
Proof.
  intros Hx. unfold show_i64. destruct (Z.ltb_spec x 0).
  - change (Z.opp <$> parse_uint 64 (dec (- x)) = Some x). rewrite parse_uint_dec by lia.
    change (Some (- - x) = Some x). f_equal. lia.
  - assert (Hu : parse_uint 64 (dec x) = Some x) by (apply parse_uint_dec; lia).
    destruct (dec_digits x) as [Hd Hne]; [done|]. destruct (dec x) as [|c r]; [done|].
    apply Forall_cons in Hd as [Hc _]. assert (c ≠ 45%N) by (intros ->; done).
    unfold f64_from_str, integer_floats. repeat case_match; congruence.
Qed.

#[local] Instance integer_laws : Float64Laws.
Proof.
  split; cbn.
  - intros x _. apply Z.eqb_refl.
  - intros x Hx _ _. exists x. split; [apply integer_parse_show; lia|apply Z.eqb_refl].
  - intros x Hx. apply integer_parse_show. lia.
  - intros x _. apply show_i64_chars.
  - done.
  - intros n Hn. lia.
  - done.
  - intros n Hn. lia.
Qed.

Definition demo_value : Value :=
  Object [(lit "path", Str (lit "a" ++ [DQ; LF; 128512%N])); (lit "n", Array [Num 5; Num (-7); Null; Bool true]);
          (lit "path", Object [])].

Lemma demo_printable : printable demo_value.
Proof.
  unfold demo_value. repeat constructor; cbn; unfold char_ok; lia.
Qed.

Lemma parse_to_string_witness : ∃ w, parse (to_string demo_value) = Some (Ok w) ∧ same demo_value w.
Proof. apply (parse_to_string demo_value). exact demo_printable. Defined.

Lemma parse_reads_texts_witness :
  parse_bytes ([32] ++ (91 :: ([10] ++ map Z.of_N (lit "null") ++ []) ++ [93]) ++ [10]) = Some (Ok (Array [Null])).
Proof.
  apply (parse_reads_texts (Array [Null])).
  - apply t_array, it_one; [reflexivity|constructor|reflexivity].
  - reflexivity.
  - reflexivity.
Defined.

(** The source's test cases, by the text of the value or the error. *)
Definition outcome_text (r : option (result Value str)) : option (str + str) :=
  match r with
  | Some (Ok v) => Some (inl (to_string v))
  | Some (Err e) => Some (inr e)
  | None => None
  end.

Example json_examples :
  map (λ s, outcome_text (parse s)) [lit "[1, 2]"; lit "[1,]"; lit "1 2"; lit "{"; []] =
  [Some (inl (lit "[1,2]")); Some (inr (lit "unexpected byte ']' at 3")); Some (inr (lit "trailing data at byte 2"));
   Some (inr (lit "expected '" ++ [DQ] ++ lit "' at byte 1")); Some (inr (lit "unexpected end of input"))].
Proof. vm_compute. reflexivity. Qed.

(** Outside the grammar: leading zeros and raw control characters are accepted. *)
Example parse_is_lenient :
  map (λ s, outcome_text (parse s)) [lit "01"; [DQ; 1%N; DQ]] =
  [Some (inl (lit "1")); Some (inl ([DQ] ++ lit "\u0001" ++ [DQ]))].
Proof. vm_compute. reflexivity. Qed.
End Json.
