(* ===== verification/Ubus.v ===== *)
(** * The message bus (ubus.rs)

    The broker as a state machine: connections, the object registry, listeners
    and calls in flight, with the frames each event sends.  Every arm of
    [handle_request] holds the bus lock once, so the events of different
    connection threads interleave as whole steps.  The built-in [system] object
    reads the system through [probe]; the command-line clients are functions of
    the broker's answers. *)

From S2P Require Import Prelude Words RustStr IO Utf8 Num Json.
Open Scope Z_scope.

Import Json.

Module Ubus.
Section Ubus.
Context `{F : Float64}.

Definition SOCK : str := lit "/var/run/ubus.sock".
Definition BUILTINS : list (str * list str) := [(lit "system", [lit "board"; lit "info"])].
(** CARGO_PKG_VERSION *)
Definition VERSION : str := lit "0.2.0".
Definition num (x : Z) : Value := Num (of_int x).

(** ** The bus *)
Record Object := mkObject { path : str; methods : list str; owner : Z }.
Record Bus := mkBus {
  objects : list Object;
  conns : gset Z;          (* connections with a write handle *)
  listeners : gset Z;
  pending : gmap Z Z;      (* call in flight -> caller *)
  next_conn : Z;
  next_req : Z
}.
Definition new_bus : Bus := mkBus [] ∅ ∅ ∅ 0 0.

Definition set_objects (o : list Object) (b : Bus) : Bus :=
  mkBus o (conns b) (listeners b) (pending b) (next_conn b) (next_req b).
Definition set_listeners (l : gset Z) (b : Bus) : Bus :=
  mkBus (objects b) (conns b) l (pending b) (next_conn b) (next_req b).
Definition set_pending (p : gmap Z Z) (b : Bus) : Bus :=
  mkBus (objects b) (conns b) (listeners b) p (next_conn b) (next_req b).

(** The frames sent: a frame is lost when its connection has no write handle. *)
Abbreviation frames := (list (Z * Value)).
Definition send_to (b : Bus) (conn : Z) (v : Value) : frames :=
  if bool_decide (conn ∈ conns b) then [(conn, v)] else [].

(** ** Replies *)
Definition ok (data : Value) : Value := obj [(lit "status", num 0); (lit "data", data)].
Definition status (code : Z) : Value := obj [(lit "status", num code)].
Definition err (code : Z) (msg : str) : Value := obj [(lit "status", num code); (lit "error", Str msg)].

Definition object_entry (p : str) (ms : list str) : Value :=
  obj [(lit "path", Str p); (lit "methods", Array (map Str ms))].
Definition list_objects (b : Bus) : Value :=
  let objs := map (λ '(p, ms), object_entry p ms) BUILTINS in
  let objs := objs ++ map (λ o, object_entry (path o) (methods o)) (objects b) in
  obj [(lit "status", num 0); (lit "objects", Array objs)].

(** ** The built-in object; [probe] is what the system calls and files return *)
Record probe := mkProbe {
  uname_release : option bytes;     (* utsname.release, if uname succeeds *)
  hostname_file : option str;       (* /proc/sys/kernel/hostname *)
  uptime_file : option str;         (* /proc/uptime *)
  meminfo_file : option str;        (* /proc/meminfo *)
  clock : option Z                  (* seconds since the epoch *)
}.

Definition cbuf (buf : bytes) : str := Utf8.lossy (take_while (λ c, negb (c =? 0)) buf).
Definition kernel_release (s : probe) : str := match uname_release s with Some r => cbuf r | None => [] end.
Definition hostname (s : probe) : str := match hostname_file s with Some t => trim t | None => lit "lwrt" end.
Definition uptime (s : probe) : Z :=
  match (t ← uptime_file s; f ← head (split_whitespace t); f64_from_str f) with
  | Some f => to_u64 f
  | None => 0
  end.
Definition meminfo_line (m : Z * Z) (line : str) : Z * Z :=
  let '(total, free) := m in
  let kb := default 0 (v ← split_whitespace line !! 1%nat; parse_uint 64 v) in
  if starts_with (lit "MemTotal:") line then (kb, free)
  else if starts_with (lit "MemFree:") line then (total, kb)
  else m.
Definition meminfo (s : probe) : Z * Z := foldl meminfo_line (0, 0) (lines (default [] (meminfo_file s))).
Definition now_secs (s : probe) : Z := default 0 (clock s).

Definition board (s : probe) : Value :=
  obj [(lit "kernel", Str (kernel_release s)); (lit "hostname", Str (hostname s)); (lit "system", Str (lit "LWRT"));
       (lit "model", Str (lit "LWRT router")); (lit "board_name", Str (lit "lwrt"));
       (lit "release", obj [(lit "distribution", Str (lit "LWRT")); (lit "version", Str VERSION)])].
Definition info (s : probe) : Value :=
  let '(total, free) := meminfo s in
  obj [(lit "uptime", num (uptime s)); (lit "localtime", num (now_secs s));
       (lit "memory", obj [(lit "total", num total); (lit "free", num free)])].

Definition builtin_call (s : probe) (p method : str) (_args : Value) : option Value :=
  if bool_decide (p = lit "system") && bool_decide (method = lit "board") then Some (board s)
  else if bool_decide (p = lit "system") && bool_decide (method = lit "info") then Some (info s)
  else None.

(** ** Requests *)
Definition str_field (req : Value) (key : str) : str := default [] (get req key ≫= as_str).
Definition value_field (req : Value) (key : str) (d : Value) : Value := default d (get req key).

Definition provides (p method : str) (o : Object) : bool :=
  bool_decide (path o = p) && existsb (λ m, bool_decide (m = method)) (methods o).
Definition find_provider (p method : str) (b : Bus) : option Z :=
  owner <$> head (List.filter (provides p method) (objects b)).

Definition invoke (reqid : Z) (method : str) (args : Value) : Value :=
  obj [(lit "invoke", num reqid); (lit "method", Str method); (lit "args", args)].

Definition handle_call (s : probe) (b : Bus) (id : Z) (req : Value) : Bus * frames :=
  let p := str_field req (lit "path") in
  let method := str_field req (lit "method") in
  let args := value_field req (lit "args") (Json.Object []) in
  match builtin_call s p method args with
  | Some data => (b, send_to b id (ok data))
  | None =>
      match find_provider p method b with
      | Some o =>
          let reqid := u64 (next_req b + 1) in
          let b := mkBus (objects b) (conns b) (listeners b) (<[reqid := id]> (pending b)) (next_conn b) reqid in
          (b, send_to b o (invoke reqid method args))
      | None => (b, send_to b id (err (-2) (lit "object/method not found")))
      end
  end.

Definition handle_reply (b : Bus) (req : Value) : Bus * frames :=
  let reqid := default 0 (get req (lit "id") ≫= as_u64) in
  let data := value_field req (lit "data") Null in
  match pending b !! reqid with
  | Some caller => let b := set_pending (delete reqid (pending b)) b in (b, send_to b caller (ok data))
  | None => (b, [])
  end.

Definition handle_add (b : Bus) (id : Z) (req : Value) : Bus * frames :=
  let p := str_field req (lit "path") in
  let ms := match get req (lit "methods") ≫= as_array with Some a => omap as_str a | None => [] end in
  match p with
  | [] => (b, send_to b id (err (-1) (lit "add: empty path")))
  | _ =>
      let b := set_objects (List.filter (λ o, negb (bool_decide (path o = p))) (objects b) ++ [mkObject p ms id]) b in
      (b, send_to b id (status 0))
  end.

(** The order of the listeners is that of a hash set; here that of [elements]. *)
Definition handle_send (b : Bus) (id : Z) (req : Value) : Bus * frames :=
  let event := str_field req (lit "event") in
  let data := value_field req (lit "data") Null in
  let msg := obj [(lit "event", Str event); (lit "data", data)] in
  (b, flat_map (λ t, send_to b t msg) (elements (listeners b)) ++ send_to b id (status 0)).

Definition handle_request (s : probe) (b : Bus) (id : Z) (req : Value) : Bus * frames :=
  let op := str_field req (lit "op") in
  if bool_decide (op = lit "list") then (b, send_to b id (list_objects b))
  else if bool_decide (op = lit "call") then handle_call s b id req
  else if bool_decide (op = lit "reply") then handle_reply b req
  else if bool_decide (op = lit "add") then handle_add b id req
  else if bool_decide (op = lit "send") then handle_send b id req
  else if bool_decide (op = lit "listen") then
    let b := set_listeners ({[id]} ∪ listeners b) b in (b, send_to b id (status 0))
  else (b, send_to b id (err (-1) (lit "unknown op"))).

(** ** Connections *)
Definition connect (b : Bus) : Bus :=
  let id := u64 (next_conn b + 1) in
  mkBus (objects b) ({[id]} ∪ conns b) (listeners b) (pending b) id (next_req b).

(** A line of input; [None] only if the JSON parser ran out of fuel. *)
Definition handle_line (s : probe) (b : Bus) (id : Z) (line : str) : option (Bus * frames) :=
  match trim line with
  | [] => Some (b, [])
  | _ =>
      r ← parse line;
      Some (match r with
            | Ok req => handle_request s b id req
            | Err e => (b, send_to b id (err (-1) (lit "bad json: " ++ e)))
            end)
  end.

Definition disconnect (b : Bus) (id : Z) : Bus :=
  mkBus (List.filter (λ o, negb (owner o =? id)) (objects b)) (conns b ∖ {[id]}) (listeners b ∖ {[id]})
    (pending b) (next_conn b) (next_req b).

(** What the threads of the broker do, one critical section at a time. *)
Inductive event : Type :=
| Accept
| Line (s : probe) (id : Z) (line : str)
| Hangup (id : Z).

Definition step (b : Bus) (e : event) : option (Bus * frames) :=
  match e with
  | Accept => Some (connect b, [])
  | Line s id line => handle_line s b id line
  | Hangup id => Some (disconnect b id, [])
  end.

(** The connection of an event has a thread. *)
Definition enabled (b : Bus) (e : event) : Prop :=
  match e with Accept => True | Line _ id _ | Hangup id => id ∈ conns b end.

(** ** The command-line clients *)
Inductive ev : Set → Type :=
| SockPath : ev (option str)                  (* LWRT_UBUS_SOCK *)
| Connect (path : str) : ev (result unit str)
| WriteLine (line : str) : ev (result unit str)
| ReadLine : ev (result str str)              (* read_line on the stream *)
| NextLine : ev (option (option str))         (* lines(): the end, an error, a line *)
| Print (line : str) : ev unit.

Definition sock_path : io ev str := perform p := SockPath in Ret (default SOCK (p : option str)).
Definition connect_to_broker : io ev (result unit str) :=
  await sock := sock_path in
  perform r := Connect sock in
  Ret (match r with
       | Ok _ => Ok tt
       | Err e => Err (lit "connect " ++ sock ++ lit ": " ++ e ++ lit " (is the broker running?)")
       end).

(** The parser always answers ([parse_terminates]). *)
Definition parse_text (t : str) : result Value str := default (Err []) (parse t).

Definition request (req : Value) : io ev (result Value str) :=
  await c := connect_to_broker in
  match c with
  | Err e => Ret (Err e)
  | Ok _ =>
      perform w := WriteLine (to_string req ++ [LF]) in
      match w with
      | Err e => Ret (Err e)
      | Ok _ =>
          perform r := ReadLine in
          match r with
          | Err e => Ret (Err e)
          | Ok resp =>
              Ret (match parse_text (trim resp) with
                   | Ok v => Ok v
                   | Err e => Err (lit "bad response: " ++ e)
                   end)
          end
      end
  end.

Fixpoint print_objects (filter : option str) (objs : list Value) : io ev Z :=
  match objs with
  | [] => Ret 0
  | o :: objs =>
      let p := str_field o (lit "path") in
      if match filter with Some f => negb (bool_decide (f = p)) | None => false end then print_objects filter objs
      else
        let ms := match get o (lit "methods") ≫= as_array with Some a => omap as_str a | None => [] end in
        perform _p := Print (p ++ [9%N] ++ lit "[" ++ join (lit ", ") ms ++ lit "]") in
        print_objects filter objs
  end.
Definition cli_list (filter : option str) : io ev Z :=
  await r := request (obj [(lit "op", Str (lit "list"))]) in
  match r with
  | Err _ => Ret 1
  | Ok resp =>
      match get resp (lit "objects") ≫= as_array with
      | None => Ret 1
      | Some objs => print_objects filter objs
      end
  end.

Definition call_request (p method : str) (args : Value) : Value :=
  obj [(lit "op", Str (lit "call")); (lit "path", Str p); (lit "method", Str method); (lit "args", args)].
(** The optional JSON argument of a command. *)
Definition json_arg (t : option str) (d : Value) : result Value str :=
  match t with Some t => parse_text t | None => Ok d end.
Definition cli_call (p method : str) (args_json : option str) : io ev Z :=
  match json_arg args_json (Json.Object []) with
  | Err _ => Ret 1
  | Ok args =>
      await r := request (call_request p method args) in
      match r with
      | Ok resp =>
          match get resp (lit "data") with
          | Some data => perform _p := Print (to_string data) in Ret 0
          | None => Ret 1
          end
      | Err _ => Ret 1
      end
  end.

Definition send_request (event : str) (data : Value) : Value :=
  obj [(lit "op", Str (lit "send")); (lit "event", Str event); (lit "data", data)].
Definition cli_send (event : str) (data_json : option str) : io ev Z :=
  match json_arg data_json Null with
  | Err _ => Ret 1
  | Ok data =>
      await r := request (send_request event data) in
      match r with Ok _ => Ret 0 | Err _ => Ret 1 end
  end.

(** [lines] rounds of the endless listening loop; [None]: still listening. *)
Fixpoint listen_loop (lines : nat) : io ev (option Z) :=
  match lines with
  | O => Ret None
  | S lines =>
      perform l := NextLine in
      match l with
      | Some (Some line) =>
          match trim line with
          | [] => listen_loop lines
          | _ =>
              match parse_text line with
              | Ok v =>
                  match get v (lit "event") with
                  | Some _ => perform _p := Print (to_string v) in listen_loop lines
                  | None => listen_loop lines
                  end
              | Err _ => listen_loop lines
              end
          end
      | _ => Ret (Some 0)
      end
  end.
Definition cli_listen (lines : nat) : io ev (option Z) :=
  await c := connect_to_broker in
  match c with
  | Err _ => Ret (Some 1)
  | Ok _ =>
      perform w := WriteLine (lit "{" ++ [DQ] ++ lit "op" ++ [DQ] ++ lit ":" ++ [DQ] ++ lit "listen" ++ [DQ] ++ lit "}" ++ [LF]) in
      match w with
      | Err _ => Ret (Some 1)
      | Ok _ => listen_loop lines
      end
  end.

(** * Specification *)

(** Executions: each event enabled where it happens, with the frames it sends. *)
Inductive runs_to : Bus → list event → Bus → list frames → Prop :=
| runs_nil b : runs_to b [] b []
| runs_cons b e b' out es b'' outs :
    enabled b e → step b e = Some (b', out) → runs_to b' es b'' outs → runs_to b (e :: es) b'' (out :: outs).

(** A state the bus was in during the events [es] that led from the start to [b]. *)
Definition visited (es : list event) (b x : Bus) : Prop :=
  ∃ es1 es2 o1 o2, es = es1 ++ es2 ∧ runs_to new_bus es1 x o1 ∧ runs_to x es2 b o2.

(** A well-formed bus after at most [n] events. *)
Record bus_ok (n : Z) (b : Bus) : Prop := {
  ok_paths : NoDup (map path (objects b));
  ok_objects : Forall (λ o, path o ≠ [] ∧ owner o ∈ conns b) (objects b);
  ok_listeners : listeners b ⊆ conns b;
  ok_conns : ∀ c, c ∈ conns b → 1 <= c <= next_conn b;
  ok_pending : ∀ r c, pending b !! r = Some c → 1 <= r <= next_req b ∧ 1 <= c <= next_conn b;
  ok_counters : 0 <= next_conn b <= n ∧ 0 <= next_req b <= n
}.

(** ** Lemmas *)
Lemma filter_sub {A} (p : A → bool) l x : x ∈ List.filter p l ↔ x ∈ l ∧ p x = true.
Proof. rewrite !list_elem_of_In. apply filter_In. Qed.

Lemma NoDup_map_filter {A B} (f : A → B) (p : A → bool) l : NoDup (map f l) → NoDup (map f (List.filter p l)).
Proof.
  induction l as [|x l IH]; [done|]. cbn. rewrite NoDup_cons. intros [Hx Hl].
  destruct (p x); [|by apply IH]. cbn. apply NoDup_cons. split; [|by apply IH].
  intros Hin. apply Hx. apply list_elem_of_fmap in Hin as (y & -> & [Hy _]%filter_sub). by apply list_elem_of_fmap_2.
Qed.

Lemma Forall_filter_sub {A} (P : A → Prop) (p : A → bool) l : Forall P l → Forall P (List.filter p l).
Proof. rewrite !Forall_forall. intros H x [Hx _]%filter_sub. by apply H. Qed.

Lemma send_to_live b c v f : f ∈ send_to b c v → f = (c, v) ∧ c ∈ conns b.
Proof. unfold send_to. case_bool_decide; [intros ->%list_elem_of_singleton; done|by intros ?%elem_of_nil]. Qed.

(** The frames of a step go to connections of the bus. *)
Definition to_live (b : Bus) (out : frames) : Prop := Forall (λ f, f.1 ∈ conns b) out.
Lemma send_live b b' c v : conns b' = conns b → to_live b' (send_to b c v).
Proof. intros E. apply Forall_forall. intros f [-> Hc]%send_to_live. by rewrite E. Qed.

Lemma handle_conns s b id req : conns (handle_request s b id req).1 = conns b.
Proof.
  unfold handle_request, handle_call, handle_reply, handle_add, handle_send.
  repeat case_match; done.
Qed.

Lemma handle_live s b id req : to_live (handle_request s b id req).1 (handle_request s b id req).2.
Proof.
  unfold handle_request, handle_call, handle_reply, handle_add, handle_send.
  repeat case_match; cbn [fst snd]; try (by apply send_live); try constructor.
  apply Forall_app. split; [|by apply send_live]. apply Forall_forall. intros f Hf.
  apply list_elem_of_In, in_flat_map in Hf as (t & _ & Hf). apply list_elem_of_In, send_to_live in Hf as [-> Hc]. done.
Qed.

Lemma ok_weaken n b : bus_ok n b → bus_ok (n + 1) b.
Proof. intros [H1 H2 H3 H4 H5 H6]. split; try done. lia. Qed.

Lemma new_bus_ok : bus_ok 0 new_bus.
Proof.
  split; cbn; [constructor|constructor|done|set_solver| |lia].
  intros r c. by rewrite lookup_empty.
Qed.

Lemma call_ok s n b id req : bus_ok n b → id ∈ conns b → n + 1 < 2 ^ 64 → bus_ok (n + 1) (handle_call s b id req).1.
Proof.
  intros Hok Hid Hn. unfold handle_call. destruct (builtin_call _ _ _ _); [by apply ok_weaken|].
  destruct (find_provider _ _ _); [|by apply ok_weaken]. destruct Hok as [H1 H2 H3 H4 H5 H6].
  unfold u64. rewrite wrap_small by (unfold in_u; lia).
  split; cbn [fst objects conns listeners pending next_conn next_req]; try done; [|lia].
  intros r c. rewrite lookup_insert_Some. intros [[<- <-]|[_ Hr]]; [specialize (H4 id Hid); lia|].
  specialize (H5 r c Hr). lia.
Qed.

Lemma reply_ok n b req : bus_ok n b → bus_ok (n + 1) (handle_reply b req).1.
Proof.
  intros Hok. unfold handle_reply. destruct (pending b !! _); [|by apply ok_weaken].
  apply ok_weaken. destruct Hok as [H1 H2 H3 H4 H5 H6]. split; try done.
  intros r c. cbn. rewrite lookup_delete_Some. intros [_ Hr]. by apply H5.
Qed.

Lemma add_ok n b id req : bus_ok n b → id ∈ conns b → bus_ok (n + 1) (handle_add b id req).1.
Proof.
  intros Hok Hid. unfold handle_add. destruct (str_field req _) as [|ch p']; [by apply ok_weaken|]. set (p := ch :: p').
  apply ok_weaken. destruct Hok as [H1 H2 H3 H4 H5 H6]. split; cbn [fst objects conns listeners pending next_conn next_req set_objects]; try done.
  - rewrite map_app. apply NoDup_app. split; [by apply NoDup_map_filter|]. split; [|apply NoDup_singleton].
    intros q Hq. apply list_elem_of_fmap in Hq as (o & -> & [_ Ho]%filter_sub).
    cbn. intros E%list_elem_of_singleton. cbn in E. rewrite bool_decide_true in Ho; done.
  - apply Forall_app. split; [by apply Forall_filter_sub|]. by apply Forall_singleton.
Qed.

Lemma handle_ok s n b id req : bus_ok n b → id ∈ conns b → n + 1 < 2 ^ 64 →
  bus_ok (n + 1) (handle_request s b id req).1.
Proof.
  intros Hok Hid Hn. unfold handle_request.
  repeat (case_bool_decide; [try (by apply ok_weaken)|]); [by apply call_ok|by apply reply_ok|by apply add_ok| |by apply ok_weaken].
  apply ok_weaken. destruct Hok as [K1 K2 K3 K4 K5 K6]. split; try done. cbn. set_solver.
Qed.

Lemma line_ok s n b id line b' out : bus_ok n b → id ∈ conns b → n + 1 < 2 ^ 64 →
  handle_line s b id line = Some (b', out) → bus_ok (n + 1) b' ∧ to_live b' out.
Proof.
  intros Hok Hid Hn. unfold handle_line. destruct (trim line) as [|c l].
  { intros [= <- <-]. split; [by apply ok_weaken|constructor]. }
  destruct (parse line) as [[req|e]|]; cbn [mbind option_bind]; [| |done].
  - intros [= Hr]. pose proof (handle_ok s n b id req Hok Hid Hn) as H1. pose proof (handle_live s b id req) as H2.
    rewrite Hr in H1, H2. done.
  - intros [= <- <-]. split; [by apply ok_weaken|by apply send_live].
Qed.

Lemma connect_ok n b : bus_ok n b → n + 1 < 2 ^ 64 →
  bus_ok (n + 1) (connect b) ∧ next_conn (connect b) ∉ conns b.
Proof.
  intros [H1 H2 H3 H4 H5 H6] Hn. unfold connect, u64. rewrite wrap_small by (unfold in_u; lia).
  split; [split; cbn [objects conns listeners pending next_conn next_req]|].
  - done.
  - eapply Forall_impl; [exact H2|]. intros o [Hp Ho]. split; [done|]. set_solver.
  - set_solver.
  - intros c [->%elem_of_singleton|Hc]%elem_of_union; [lia|]. specialize (H4 c Hc). lia.
  - intros r c Hr. specialize (H5 r c Hr). lia.
  - lia.
  - cbn. intros Hc. specialize (H4 _ Hc). lia.
Qed.

Lemma disconnect_ok n b id : bus_ok n b → bus_ok (n + 1) (disconnect b id).
Proof.
  intros Hok. apply ok_weaken. destruct Hok as [H1 H2 H3 H4 H5 H6]. split; cbn; [by apply NoDup_map_filter| |set_solver| |done..].
  - rewrite Forall_forall in H2 |- *. intros o [Ho Hne]%filter_sub. destruct (H2 o Ho) as [? ?].
    split; [done|]. destruct (Z.eqb_spec (owner o) id); [done|]. set_solver.
  - intros c Hc. apply H4. set_solver.
Qed.

Lemma step_ok n b e b' out : bus_ok n b → enabled b e → n + 1 < 2 ^ 64 → step b e = Some (b', out) →
  bus_ok (n + 1) b' ∧ to_live b' out ∧ (e = Accept → conns b' = {[next_conn b']} ∪ conns b ∧ next_conn b' ∉ conns b).
Proof.
  intros Hok He Hn Hs. destruct e as [|s id line|id]; cbn in Hs, He.
  - injection Hs as <- <-. destruct (connect_ok n b Hok Hn) as [H1 H2]. split; [done|]. by split; [constructor|].
  - destruct (line_ok s n b id line b' out Hok He Hn Hs) as [H1 H2]. by split.
  - injection Hs as <- <-. split; [by apply disconnect_ok|]. by split; [constructor|].
Qed.

Lemma runs_ok b es b' outs : runs_to b es b' outs → ∀ n, bus_ok n b → n + Z.of_nat (length es) < 2 ^ 64 →
  bus_ok (n + Z.of_nat (length es)) b'.
Proof.
  induction 1 as [b|b e b1 out es b2 outs He Hs _ IH]; intros n Hok Hn; [by rewrite Z.add_0_r|].
  cbn [length] in *. destruct (step_ok n b e b1 out Hok He ltac:(lia) Hs) as [H1 _].
  replace (n + Z.of_nat (S (length es))) with (n + 1 + Z.of_nat (length es)) by lia. apply IH; [done|lia].
Qed.

(** The counter of calls moves by at most one. *)
Lemma step_req b e b' out : step b e = Some (b', out) → next_req b' = next_req b ∨ next_req b' = u64 (next_req b + 1).
Proof.
  destruct e as [|s id line|id]; cbn; [by intros [= <- _]; left| |by intros [= <- _]; left].
  unfold handle_line. destruct (trim line); [intros [= <- _]; by left|].
  destruct (parse line) as [[req|er]|]; cbn; [|intros [= <- _]; by left|done].
  intros [= Hs]. replace b' with (handle_request s b id req).1 by (by rewrite Hs).
  unfold handle_request, handle_call, handle_reply, handle_add, handle_send.
  repeat case_match; cbn [fst next_req set_objects set_pending set_listeners]; auto.
Qed.

(** Where new ids come from, and that the counters only grow. *)
Lemma handle_next_conn s b id req : next_conn (handle_request s b id req).1 = next_conn b.
Proof.
  unfold handle_request, handle_call, handle_reply, handle_add, handle_send.
  repeat case_match; done.
Qed.

Lemma line_state s b id line b' out : handle_line s b id line = Some (b', out) →
  b' = b ∨ ∃ req, b' = (handle_request s b id req).1.
Proof.
  unfold handle_line. destruct (trim line); [intros [= <- _]; by left|].
  destruct (parse line) as [[req|er]|]; cbn; [|intros [= <- _]; by left|done].
  intros [= Hs]. right. exists req. by rewrite Hs.
Qed.

Lemma step_new_conn b e b' out i : step b e = Some (b', out) → i ∈ conns b' →
  i ∈ conns b ∨ i = u64 (next_conn b + 1).
Proof.
  destruct e as [|s id line|id]; cbn.
  - intros [= <- _]. cbn. set_solver.
  - intros [->|[req ->]]%line_state; [by left|]. rewrite handle_conns. by left.
  - intros [= <- _]. cbn. set_solver.
Qed.

Lemma step_new_req b e b' out r c : step b e = Some (b', out) → pending b' !! r = Some c →
  pending b !! r = Some c ∨ r = u64 (next_req b + 1).
Proof.
  destruct e as [|s id line|id]; cbn; [intros [= <- _]; by left| |intros [= <- _]; by left].
  intros [->|[req ->]]%line_state; [by left|].
  unfold handle_request, handle_call, handle_reply, handle_add, handle_send.
  repeat case_match; cbn [fst pending set_objects set_pending set_listeners]; auto;
    rewrite ?lookup_insert_Some, ?lookup_delete_Some; naive_solver.
Qed.

Lemma step_counters n b e b' out : bus_ok n b → n + 1 < 2 ^ 64 → step b e = Some (b', out) →
  next_conn b <= next_conn b' ∧ next_req b <= next_req b'.
Proof.
  intros Hok Hn Hs. destruct (ok_counters _ _ Hok) as [Hc Hr]. split.
  - destruct e as [|s id line|id]; cbn in Hs.
    + injection Hs as <- _. cbn. unfold u64. rewrite wrap_small by (unfold in_u; lia). lia.
    + apply line_state in Hs as [->|[req ->]]; [lia|]. rewrite handle_next_conn. lia.
    + injection Hs as <- _. cbn. lia.
  - destruct (step_req _ _ _ _ Hs) as [->| ->]; [lia|]. unfold u64. rewrite wrap_small by (unfold in_u; lia). lia.
Qed.

Lemma runs_counters b es b' outs : runs_to b es b' outs → ∀ n, bus_ok n b → n + Z.of_nat (length es) < 2 ^ 64 →
  next_conn b <= next_conn b' ∧ next_req b <= next_req b'.
Proof.
  induction 1 as [b|b e b1 out es b2 outs He Hs _ IH]; intros n Hok Hn; [lia|].
  cbn [length] in Hn. destruct (step_ok n b e b1 out Hok He ltac:(lia) Hs) as [H1 _].
  pose proof (step_counters n b e b1 out Hok ltac:(lia) Hs).
  pose proof (IH (n + 1) H1 ltac:(lia)). lia.
Qed.

(** The ids in a visited state are not above the present counters. *)
Lemma visited_ids es b x : visited es b x → Z.of_nat (length es) < 2 ^ 64 →
  (∀ i, i ∈ conns x → i <= next_conn b) ∧ (∀ r c, pending x !! r = Some c → r <= next_req b).
Proof.
  intros (es1 & es2 & o1 & o2 & -> & H1 & H2) Hn. rewrite length_app in Hn.
  pose proof (runs_ok _ _ _ _ H1 0 new_bus_ok ltac:(lia)) as Hok.
  pose proof (runs_counters _ _ _ _ H2 _ Hok ltac:(lia)) as [Hc Hr]. split.
  - intros i Hi. apply (ok_conns _ _ Hok) in Hi. lia.
  - intros r c Hp. apply (ok_pending _ _ Hok) in Hp as [Hp _]. lia.
Qed.

Lemma step_total b e : ∃ r, step b e = Some r.
Proof.
  destruct e as [|s id line|id]; [by eexists| |by eexists]. cbn. unfold handle_line.
  destruct (trim line); [by eexists|]. destruct (parse_bytes_total (Utf8.encode line)) as [r Hr].
  unfold parse. rewrite Hr. by eexists.
Qed.

(** ** Lines and the values they say *)
Definition says (line : str) (v : Value) : Prop :=
  ∃ w1 t w2, Utf8.encode line = w1 ++ t ++ w2 ∧ ws_text w1 ∧ ws_text w2 ∧ text v t.

Lemma text_first v t : text v t → ∃ c r, t = c :: r ∧ 34 <= c < 128.
Proof.
  destruct 1 as [| | |x t (c & r & -> & Hc & _)| | | | |]; try (eexists _, _; split; [reflexivity|lia]).
Qed.

Lemma encode_char_ascii c b : b ∈ Utf8.encode_char c → b < 128 → b = Z.of_N c.
Proof.
  unfold Utf8.encode_char. intros Hb Hl.
  repeat case_match; rewrite ?elem_of_cons, elem_of_nil in Hb; naive_solver (Z.to_euclidean_division_equations; lia).
Qed.

Lemma encode_ascii_elem line b : b ∈ Utf8.encode line → b < 128 → Exists (λ c, Z.of_N c = b) line.
Proof.
  induction line as [|c line IH]; [by intros ?%elem_of_nil|]. rewrite Utf8.encode_cons, elem_of_app.
  intros [Hb|Hb] Hl; [left; by rewrite (encode_char_ascii c b)|right; by apply IH].
Qed.

Lemma says_not_blank line v : says line v → trim line ≠ [].
Proof.
  intros (w1 & t & w2 & He & _ & _ & Ht) Hb. destruct (text_first v t Ht) as (c & r & -> & Hc).
  assert (Hx : Exists (λ x, Z.of_N x = c) line) by (apply encode_ascii_elem; [rewrite He; set_solver|lia]).
  apply Exists_exists in Hx as (x & Hx & Hxc).
  destruct (trim_spec line) as (ba & bb & E & Ha & Hb' & _). rewrite Hb in E.
  assert (Hw : is_whitespace x = true).
  { rewrite E in Hx. rewrite !elem_of_app in Hx. destruct Hx as [Hx|[Hx|Hx]]; [|by apply elem_of_nil in Hx|].
    - unfold blank in Ha. rewrite forallb_forall in Ha. by apply Ha, list_elem_of_In.
    - unfold blank in Hb'. rewrite forallb_forall in Hb'. by apply Hb', list_elem_of_In. }
  assert (Hr : (34 <= x < 128)%N) by lia. revert Hw. clear -Hr.
  assert (Forall (λ n, is_whitespace (N.of_nat n) = false) (seq 34 94)) as H
    by (apply (bool_decide_unpack _); vm_compute; done).
  rewrite Forall_forall in H. specialize (H (N.to_nat x)). rewrite N2Nat.id in H.
  rewrite H by (apply elem_of_seq; lia). done.
Qed.

Lemma handle_line_says s b id line v : says line v → handle_line s b id line = Some (handle_request s b id v).
Proof.
  intros Hs. unfold handle_line. destruct (trim line) as [|x l] eqn:Et; [by apply (says_not_blank line v) in Hs|].
  destruct Hs as (w1 & t & w2 & He & H1 & H2 & Ht). unfold parse. rewrite He, (parse_bytes_text v) by done. done.
Qed.

(** ** A call in flight stays in flight *)

(** The event is a reply to call [N]. *)
Definition answers (N : Z) (e : event) : Prop :=
  match e with
  | Line _ _ line => ∃ req, parse line = Some (Ok req) ∧ str_field req (lit "op") = lit "reply" ∧
      default 0 (get req (lit "id") ≫= as_u64) = N
  | _ => False
  end.

Record in_flight (N c : Z) (b : Bus) : Prop := {
  fl_pending : pending b !! N = Some c;
  fl_live : c ∈ conns b;
  fl_issued : 1 <= N <= next_req b
}.

Lemma in_flight_request s N c b id req :
  in_flight N c b → next_req b + 1 < 2 ^ 64 →
  ¬ (str_field req (lit "op") = lit "reply" ∧ default 0 (get req (lit "id") ≫= as_u64) = N) →
  in_flight N c (handle_request s b id req).1 ∧ next_req (handle_request s b id req).1 <= next_req b + 1.
Proof.
  intros [Hp Hl Hi] Hn Ha. unfold handle_request.
  assert (Hsame : ∀ b' : Bus, pending b' = pending b → conns b' = conns b → next_req b' = next_req b →
    in_flight N c b' ∧ next_req b' <= next_req b + 1).
  { intros b' E1 E2 E3. split; [|lia]. split; by rewrite ?E1, ?E2, ?E3. }
  case_bool_decide; [by apply Hsame|]. case_bool_decide; [|case_bool_decide as Hop; [|case_bool_decide;
    [|repeat (case_bool_decide; [by apply Hsame|]); by apply Hsame]]].
  - unfold handle_call. destruct (builtin_call _ _ _ _); [by apply Hsame|].
    destruct (find_provider _ _ _); [|by apply Hsame]. unfold u64. rewrite wrap_small by (unfold in_u; lia).
    cbn [fst next_req]. split; [|lia]. split; cbn; [|done|lia]. rewrite lookup_insert_ne by lia. done.
  - unfold handle_reply. destruct (pending b !! default 0 _) eqn:Ep; [|by apply Hsame].
    cbn [fst]. split; [|cbn [next_req set_pending]; lia].
    split; cbn; [|done|done]. rewrite lookup_delete_ne; [done|]. intros E. by apply Ha.
  - unfold handle_add. destruct (str_field req (lit "path")); by apply Hsame.
Qed.

Lemma in_flight_step N c b e b' out :
  in_flight N c b → next_req b + 1 < 2 ^ 64 → ¬ answers N e → e ≠ Hangup c → step b e = Some (b', out) →
  in_flight N c b' ∧ next_req b' <= next_req b + 1.
Proof.
  intros Hf Hn Ha He Hs. destruct e as [|s id line|id]; cbn in Hs.
  - injection Hs as <- <-. destruct Hf as [Hp Hl Hi]. split; [split; cbn; [done|set_solver|done]|cbn [next_req connect]; lia].
  - unfold handle_line in Hs. destruct (trim line); [injection Hs as <- <-; split; [done|lia]|].
    destruct (parse line) as [[req|er]|] eqn:Ep; cbn in Hs; [| |done].
    + injection Hs as Hs. replace b' with (handle_request s b id req).1 by (by rewrite Hs).
      apply in_flight_request; [done|done|]. intros [Hop Hid]. apply Ha. by exists req.
    + injection Hs as <- <-. split; [done|lia].
  - injection Hs as <- <-. destruct Hf as [Hp Hl Hi]. split; [|cbn [next_req set_pending set_objects connect disconnect]; lia]. split; cbn; [done| |done].
    assert (c ≠ id) by congruence. set_solver.
Qed.

Lemma in_flight_runs N c b es b' outs : runs_to b es b' outs → ∀ n, in_flight N c b → next_req b <= n →
  n + Z.of_nat (length es) < 2 ^ 64 → Forall (λ e, ¬ answers N e ∧ e ≠ Hangup c) es → in_flight N c b'.
Proof.
  induction 1 as [b|b e b1 out es b2 outs He Hs _ IH]; intros n Hf Hb Hn Hes; [done|].
  apply Forall_cons in Hes as [[Ha Hh] Hes]. cbn [length] in Hn.
  destruct (in_flight_step N c b e b1 out Hf ltac:(lia) Ha Hh Hs) as [Hf1 Hb1].
  apply (IH (n + 1)); [done|lia|lia|done].
Qed.

(** ** Equal values have equal fields *)
Lemma same_get v w key : same v w →
  (get v key = None ∧ get w key = None) ∨ ∃ x y, get v key = Some x ∧ get w key = Some y ∧ same x y.
Proof.
  destruct 1 as [| | | | |p q Hpq]; [by left..|]. cbn [get].
  induction Hpq as [|[k x] [k' y] p q [Hk Hs] _ IH]; [by left|]. cbn in Hk, Hs. subst k'. cbn [List.filter].
  case_bool_decide; [right; by exists x, y|done].
Qed.

Lemma same_str_field v w key : same v w → str_field v key = str_field w key.
Proof.
  intros Hs. unfold str_field. destruct (same_get v w key Hs) as [[-> ->]|(x & y & -> & -> & Hxy)]; [done|].
  by destruct Hxy.
Qed.

(** A written value is said by its line. *)
Section Written.
Context {L : Float64Laws}.

Lemma says_written v : printable v → ∃ w, same v w ∧ says (to_string v) w ∧ says (to_string v ++ [LF]) w.
Proof.
  intros Hv. destruct (write_text v Hv) as (w & Hs & Ht). exists w. split; [done|]. split.
  - exists [], (Utf8.encode (to_string v)), []. by rewrite app_nil_r.
  - exists [], (Utf8.encode (to_string v)), [10]. by rewrite Utf8.encode_app.
Qed.

Lemma object_trimmed ps : trimmed (to_string (Json.Object ps)).
Proof.
  unfold to_string. cbn [write]. set (m := join _ _). split; intros x k H.
  - by injection H as <- _.
  - change (lit "{" ++ m ++ lit "}") with ((lit "{" ++ m) ++ [chr "}"]) in H.
    apply app_inj_tail in H as [_ <-]. done.
Qed.

(** What a client reads back from a line the broker wrote. *)
Lemma read_back ps : printable (Json.Object ps) →
  ∃ w, same (Json.Object ps) w ∧ parse_text (trim (to_string (Json.Object ps) ++ [LF])) = Ok w.
Proof.
  intros Hv. destruct (write_text _ Hv) as (w & Hs & Ht). exists w. split; [done|].
  rewrite trim_app_blank_r by done. rewrite trimmed_trim by apply object_trimmed.
  unfold parse_text, parse. pose proof (parse_bytes_text w _ [] [] Ht eq_refl eq_refl) as Hp.
  rewrite app_nil_r in Hp. cbn [app] in Hp. unfold to_string. by rewrite Hp.
Qed.

Lemma ok_printable data : printable data → printable (ok data).
Proof.
  intros Hd. constructor. repeat constructor; cbn; try done; try (unfold char_ok; lia).
  by apply of_int_finite.
Qed.

Lemma call_request_printable p m args : str_ok p → str_ok m → printable args → printable (call_request p m args).
Proof.
  intros Hp Hm Ha. constructor. repeat constructor; cbn; try done; unfold char_ok; lia.
Qed.
(** The frame a provider sends to answer call [N]. *)
Definition reply_request (N : Z) (data : Value) : Value :=
  obj [(lit "op", Str (lit "reply")); (lit "id", num N); (lit "data", data)].

Lemma reply_request_printable N d : Z.abs N <= 2 ^ 53 → printable d → printable (reply_request N d).
Proof.
  intros HN Hd. constructor. repeat constructor; cbn; try done; try (unfold char_ok; lia). by apply of_int_finite.
Qed.

Lemma NoDup_map_inj {A B} (f : A → B) l x y : NoDup (map f l) → x ∈ l → y ∈ l → f x = f y → x = y.
Proof.
  intros Hl Hx Hy E. apply list_elem_of_lookup in Hx as [i Hi]. apply list_elem_of_lookup in Hy as [j Hj].
  assert (i = j) as ->; [|congruence].
  apply (NoDup_lookup (map f l) i j (f x) Hl); [|rewrite E]; rewrite list_lookup_fmap; by rewrite ?Hi, ?Hj.
Qed.

(** The object at a path is the one a call finds. *)
Lemma find_provider_object n m b ob : bus_ok n b → ob ∈ objects b → m ∈ methods ob →
  find_provider (path ob) m b = Some (owner ob) ∧ owner ob ∈ conns b.
Proof.
  intros Hok Hin Hm. pose proof (ok_objects n b Hok) as Ho. rewrite Forall_forall in Ho.
  split; [|by apply Ho]. unfold find_provider.
  assert (ob ∈ List.filter (provides (path ob) m) (objects b)) as Hf.
  { apply filter_sub. split; [done|]. unfold provides. rewrite bool_decide_true by done.
    apply existsb_exists. exists m. split; [by apply list_elem_of_In|by apply bool_decide_true]. }
  destruct (List.filter _ _) as [|x l] eqn:E; [by apply elem_of_nil in Hf|].
  assert (x ∈ List.filter (provides (path ob) m) (objects b)) as [Hx Hp]%filter_sub by (rewrite E; by left).
  apply andb_prop in Hp as [Hp%bool_decide_eq_true _].
  by rewrite (NoDup_map_inj path (objects b) x ob (ok_paths n b Hok) Hx Hin Hp).
Qed.

Lemma handle_call_request s b id p m args o :
  builtin_call s p m args = None → find_provider p m b = Some o → o ∈ conns b →
  let N := u64 (next_req b + 1) in
  handle_request s b id (call_request p m args) =
  (mkBus (objects b) (conns b) (listeners b) (<[N := id]> (pending b)) (next_conn b) N, [(o, invoke N m args)]).
Proof.
  intros Hb Hf Ho N. change (handle_request s b id (call_request p m args)) with (handle_call s b id (call_request p m args)).
  unfold handle_call. change (str_field (call_request p m args) (lit "path")) with p.
  change (str_field (call_request p m args) (lit "method")) with m.
  change (value_field (call_request p m args) (lit "args") (Json.Object [])) with args.
  rewrite Hb, Hf. unfold send_to. cbn [conns]. by rewrite bool_decide_true.
Qed.

Lemma handle_reply_request s b id N d c :
  1 <= N <= 2 ^ 53 → pending b !! N = Some c → c ∈ conns b →
  handle_request s b id (reply_request N d) = (set_pending (delete N (pending b)) b, [(c, ok d)]).
Proof.
  intros HN Hp Hc. change (handle_request s b id (reply_request N d)) with (handle_reply b (reply_request N d)).
  unfold handle_reply. change (get (reply_request N d) (lit "id")) with (Some (num N)).
  change (value_field (reply_request N d) (lit "data") Null) with d. cbn [mbind option_bind].
  assert (as_u64 (num N) = Some N) as ->.
  { unfold num, as_u64. rewrite of_int_nonneg, of_int_integral, to_u64_of_int by lia. done. }
  cbn [default]. cbn. rewrite Hp. unfold send_to. by rewrite bool_decide_true.
Qed.

(** * Theorems *)

(** C29. The bus is well formed after any sequence of fewer than 2^64 - 1 events,
    in any interleaving of the connections: no two objects have one path and no
    object an empty one, every object and listener belongs to an open
    connection, and the ids of connections and calls are in range.  Ids are
    never reused: the id a new connection gets belonged to no connection at any
    earlier point of the history, also none that has hung up since, and the id
    of a new call was in flight at no earlier point.  Every frame is sent to an
    open connection. *)
Theorem bus_invariant es b outs :
  runs_to new_bus es b outs → Z.of_nat (length es) < 2 ^ 64 - 1 →
  bus_ok (Z.of_nat (length es)) b ∧
  ∀ e b' out, enabled b e → step b e = Some (b', out) →
    to_live b' out ∧ (e = Accept → conns b' = {[next_conn b']} ∪ conns b ∧ next_conn b' ∉ conns b) ∧
    (next_req b' = next_req b ∨ pending b !! next_req b' = None) ∧
    (∀ i, i ∈ conns b' → i ∈ conns b ∨ ∀ x, visited es b x → i ∉ conns x) ∧
    (∀ r c, pending b' !! r = Some c → pending b !! r = Some c ∨ ∀ x, visited es b x → pending x !! r = None).
Proof.
  intros Hr Hn. pose proof (runs_ok _ _ _ _ Hr 0 new_bus_ok ltac:(lia)) as Hok. split; [done|].
  intros e b' out He Hs. destruct (step_ok _ _ _ _ _ Hok He ltac:(lia) Hs) as (Hok' & Hl & Hc).
  pose proof (ok_counters _ _ Hok) as [Hkc Hkr].
  split; [done|]. split; [done|]. split; [|split].
  - destruct (decide (next_req b' = next_req b)) as [|Hne]; [by left|right].
    destruct (pending b !! next_req b') as [c|] eqn:Ep; [|done]. apply (ok_pending _ _ Hok) in Ep as [Hi _].
    pose proof (step_req _ _ _ _ Hs) as Hq. unfold u64 in Hq. rewrite wrap_small in Hq by (unfold in_u; lia). lia.
  - intros i [Hi|Hi]%(step_new_conn _ _ _ _ _ Hs); [by left|right]. intros x Hx Hin.
    apply (visited_ids _ _ _ Hx ltac:(lia)) in Hin.
    unfold u64 in Hi. rewrite wrap_small in Hi by (unfold in_u; lia). lia.
  - intros r c [Hi|Hi]%(step_new_req _ _ _ _ _ _ Hs); [by left|right]. intros x Hx.
    destruct (pending x !! r) as [c'|] eqn:E; [|done]. apply (visited_ids _ _ _ Hx ltac:(lia)) in E.
    unfold u64 in Hi. rewrite wrap_small in Hi by (unfold in_u; lia). lia.
Qed.

(** C30. A call through a well-formed bus: a line that says a call for a method
    of the object registered at the path (there is one at most) sends exactly
    one frame, the invocation with a new call id, to the connection that
    registered the object; and however other events interleave, as long as no
    other reply to that id is sent and the caller does not hang up, a line of
    any connection that says the reply to that id sends exactly one frame, the
    data, to the caller, and closes the call.  The method is none of the
    built-in ones and fewer than 2^53 calls have been made. *)
Theorem call_round_trip n s b c line m args ob s' q line' d es b2 outs :
  let N := next_req b + 1 in
  bus_ok n b → c ∈ conns b → ob ∈ objects b → m ∈ methods ob → builtin_call s (path ob) m args = None →
  says line (call_request (path ob) m args) → N + Z.of_nat (length es) < 2 ^ 53 →
  ∃ b1, step b (Line s c line) = Some (b1, [(owner ob, invoke N m args)]) ∧
    (runs_to b1 es b2 outs → Forall (λ e, ¬ answers N e ∧ e ≠ Hangup c) es → says line' (reply_request N d) →
     ∃ b3, step b2 (Line s' q line') = Some (b3, [(c, ok d)]) ∧ pending b3 !! N = None).
Proof.
  intros N Hok Hc Hob Hm Hb Hl Hn. pose proof (ok_counters _ _ Hok) as [_ Hq].
  destruct (find_provider_object _ _ _ _ Hok Hob Hm) as [Hf Ho].
  assert (HN : u64 (next_req b + 1) = N) by (apply wrap_small; unfold in_u; lia).
  eexists. split.
  { cbn [step]. rewrite (handle_line_says _ _ _ _ _ Hl), (handle_call_request _ _ _ _ _ _ (owner ob)), HN by done.
    reflexivity. }
  intros Hr Hes Hl'. pose proof (in_flight_runs N c _ _ _ _ Hr N) as Hfl.
  destruct Hfl as [Hp Hlive Hi]; [split; cbn; [by rewrite lookup_insert_eq|done|lia]|cbn; lia|lia|done|].
  eexists. split.
  { cbn [step]. rewrite (handle_line_says _ _ _ _ _ Hl'), (handle_reply_request _ _ _ _ _ c) by (done || lia). reflexivity. }
  cbn. by rewrite lookup_delete_eq.
Qed.

Lemma request_runs req w sock line :
  parse_text (trim line) = Ok w →
  runs (request req) [Call SockPath sock; Call (Connect (default SOCK sock)) (Ok tt);
    Call (WriteLine (to_string req ++ [LF])) (Ok tt); Call ReadLine (Ok line)] (Ok w).
Proof.
  intros Hw. unfold request, connect_to_broker, sock_path. cbn [io_bind].
  do 4 (apply runs_vis; cbn [io_bind]; cbv beta iota). split; [done|]. by rewrite Hw.
Qed.

(** C31. Client and broker composed: [ubus call system M] with a built-in method
    writes a line that the broker, in any state, answers with one frame, the
    method's data; and reading that frame the client prints the serialization
    of a value equal to the data and returns 0. *)
Theorem cli_call_builtin s b id method data sock :
  builtin_call s (lit "system") method (Json.Object []) = Some data → printable data → id ∈ conns b →
  ∃ line w, step b (Line s id line) = Some (b, [(id, ok data)]) ∧ same data w ∧
    runs (cli_call (lit "system") method None)
      [Call SockPath sock; Call (Connect (default SOCK sock)) (Ok tt); Call (WriteLine (line ++ [LF])) (Ok tt);
       Call ReadLine (Ok (to_string (ok data) ++ [LF])); Call (Print (to_string w)) tt] 0.
Proof.
  intros Hb Hd Hid. set (req := call_request (lit "system") method (Json.Object [])).
  assert (Hm : str_ok method).
  { unfold builtin_call in Hb. repeat case_bool_decide; subst; try done; repeat constructor; unfold char_ok; lia. }
  assert (Hreq : printable req).
  { apply call_request_printable; [repeat constructor; unfold char_ok; lia|done|by constructor]. }
  destruct (says_written req Hreq) as (v & Hs & Hsay & _).
  destruct (read_back _ (ok_printable data Hd)) as (rv & Hrs & Hrp).
  destruct (same_get _ _ (lit "data") Hrs) as [[Hnone _]|(x & w & Hx & Hw & Hxw)]; [done|].
  change (Some data = Some x) in Hx. injection Hx as <-.
  exists (to_string req), w. split; [|split; [done|]].
  - cbn [step]. rewrite (handle_line_says _ _ _ _ _ Hsay). f_equal.
    assert (Hf : ∀ k, str_field v k = str_field req k) by (intros k; symmetry; by apply same_str_field).
    unfold handle_request. rewrite !Hf. change (str_field req (lit "op")) with (lit "call").
    rewrite bool_decide_false, bool_decide_true by done. unfold handle_call. rewrite !Hf.
    change (str_field req (lit "path")) with (lit "system"). change (str_field req (lit "method")) with method.
    assert (∀ a, builtin_call s (lit "system") method a = Some data) as -> by done.
    unfold send_to. by rewrite bool_decide_true.
  - unfold cli_call. cbn [json_arg].
    eapply (runs_bind _ _ [_; _; _; _] [_] (Ok rv)); [by apply request_runs|]. cbn beta iota. rewrite Hw.
    eexists _, []. split; [reflexivity|]. by split.
Qed.
End Written.

(** ** A small session, for any numbers *)
Definition demo_probe : probe :=
  mkProbe (Some [53; 46; 52; 0; 0]) (Some (lit "lwrt
")) None (Some (lit "MemTotal:  60000 kB
MemFree:   1000 kB")) (Some 1700000000).
Definition demo_add : Value :=
  obj [(lit "op", Str (lit "add")); (lit "path", Str (lit "led")); (lit "methods", Array [Str (lit "on")])].

(** Two connections; the second registers the object "led". *)
Definition demo_events : list event := [Accept; Accept; Line demo_probe 2 (to_string demo_add)].
Definition demo_bus : Bus := mkBus [mkObject (lit "led") [lit "on"] 2] ({[2]} ∪ ({[1]} ∪ ∅)) ∅ ∅ 2 0.

Lemma demo_runs : runs_to new_bus demo_events demo_bus [[]; []; [(2, status 0)]].
Proof.
  eapply runs_cons; [exact I|reflexivity|]. eapply runs_cons; [exact I|reflexivity|].
  eapply runs_cons; [cbn; set_solver| |apply runs_nil].
  cbn [step]. unfold handle_line.
  replace (parse (to_string demo_add)) with (Some (Ok demo_add) : option (result Value str)) by (vm_compute; reflexivity).
  vm_compute. reflexivity.
Qed.
End Ubus.

(** ** Witnesses, with the integers as numbers *)
#[local] Existing Instance integer_floats.
#[local] Existing Instance integer_laws.

Lemma integer_same_eq (v : Value) : ∀ w, same v w → v = w.
Proof.
  induction v as [| |n|s|a IH|ps IH] using value_ind'; intros w Hs; inversion Hs; subst; try done.
  - f_equal. by apply Z.eqb_eq.
  - f_equal. clear Hs. revert b H0. induction IH as [|v a Hv _ IHa]; intros b Hb; inversion Hb; subst; [done|].
    f_equal; [by apply Hv|by apply IHa].
  - f_equal. clear Hs. revert q H0. induction IH as [|[k v] a Hv _ IHa]; intros b Hb; inversion Hb; subst; [done|].
    destruct y as [k' v']. cbn in *. destruct H1 as [-> Hs]. f_equal; [f_equal; by apply Hv|by apply IHa].
Qed.

Lemma integer_says (v : Value) : printable v → says (to_string v) v.
Proof. intros Hv. destruct (says_written v Hv) as (w & Hs & Hl & _). by rewrite <- (integer_same_eq v w Hs) in Hl. Qed.

Lemma bus_invariant_witness :
  bus_ok 3 demo_bus ∧
  ∀ e b' out, enabled demo_bus e → step demo_bus e = Some (b', out) →
    to_live b' out ∧ (e = Accept → conns b' = {[next_conn b']} ∪ conns demo_bus ∧ next_conn b' ∉ conns demo_bus) ∧
    (next_req b' = next_req demo_bus ∨ pending demo_bus !! next_req b' = None) ∧
    (∀ i, i ∈ conns b' → i ∈ conns demo_bus ∨ ∀ x, visited demo_events demo_bus x → i ∉ conns x) ∧
    (∀ r c, pending b' !! r = Some c →
       pending demo_bus !! r = Some c ∨ ∀ x, visited demo_events demo_bus x → pending x !! r = None).
Proof. apply (bus_invariant demo_events demo_bus _ demo_runs). reflexivity. Defined.

Definition demo_call : Value := call_request (lit "led") (lit "on") (Json.Object []).
Definition demo_reply : Value := reply_request 1 (Str (lit "done")).
Definition demo_pending : Bus := mkBus (objects demo_bus) (conns demo_bus) ∅ (<[1 := 1]> ∅) 2 1.

Lemma demo_strings : printable demo_call ∧ printable demo_reply.
Proof.
  split; [apply call_request_printable|apply reply_request_printable]; try done; repeat constructor; unfold char_ok; lia.
Qed.

Lemma call_round_trip_witness :
  ∃ b1, step demo_bus (Line demo_probe 1 (to_string demo_call)) = Some (b1, [(2, invoke 1 (lit "on") (Json.Object []))]) ∧
    (runs_to b1 [] demo_pending [] → Forall (λ e, ¬ answers 1 e ∧ e ≠ Hangup 1) [] →
     says (to_string demo_reply) (reply_request 1 (Str (lit "done"))) →
     ∃ b3, step demo_pending (Line demo_probe 2 (to_string demo_reply)) = Some (b3, [(1, ok (Str (lit "done")))]) ∧
       pending b3 !! 1 = None).
Proof.
  apply (call_round_trip 3 demo_probe demo_bus 1 (to_string demo_call) (lit "on") (Json.Object [])
    (mkObject (lit "led") [lit "on"] 2) demo_probe 2 (to_string demo_reply) (Str (lit "done")) [] demo_pending []).
  - exact (runs_ok _ _ _ _ demo_runs 0 new_bus_ok eq_refl).
  - cbn. set_solver.
  - apply list_elem_of_singleton. reflexivity.
  - apply list_elem_of_singleton. reflexivity.
  - reflexivity.
  - apply integer_says, demo_strings.
  - reflexivity.
Defined.

Lemma cli_call_builtin_witness :
  ∃ line w, step demo_bus (Line demo_probe 1 line) = Some (demo_bus, [(1, ok (board demo_probe))]) ∧
    same (board demo_probe) w ∧
    runs (cli_call (lit "system") (lit "board") None)
      [Call SockPath None; Call (Connect SOCK) (Ok tt); Call (WriteLine (line ++ [LF])) (Ok tt);
       Call ReadLine (Ok (to_string (ok (board demo_probe)) ++ [LF])); Call (Print (to_string w)) tt] 0.
Proof.
  apply (cli_call_builtin demo_probe demo_bus 1 (lit "board") (board demo_probe) None).
  - reflexivity.
  - unfold board. constructor. repeat constructor; cbn; unfold char_ok; lia.
  - cbn. set_solver.
Defined.

(** A reply is taken from any connection: here the caller answers itself. *)
Example reply_from_anyone :
  step demo_pending (Line demo_probe 1 (to_string demo_reply)) =
  Some (set_pending (delete 1 (pending demo_pending)) demo_pending, [(1, ok (Str (lit "done")))]).
Proof.
  cbn [step]. rewrite (handle_line_says _ _ _ _ demo_reply) by (apply integer_says, demo_strings).
  apply (f_equal Some), handle_reply_request; [lia|done|cbn; set_solver].
Qed.

(** A provider that hangs up leaves its calls in flight: the caller gets no
    frame and the entry stays. *)
Example dead_provider_strands_caller :
  step demo_pending (Hangup 2) = Some (disconnect demo_pending 2, []) ∧ pending (disconnect demo_pending 2) !! 1 = Some 1.
Proof. split; reflexivity. Qed.
End Ubus.
