(* ===== verification/Daemons.v ===== *)
(** * The listening daemons (ubus.rs: run, daemon; httpd.rs: run)

    Socket set-up and the accept loops.  Each accepted connection is handed to a
    thread of its own: the threads are the steps of [Ubus.step], and the
    handler [Httpd.handle], interleaved in [HttpdPool]. *)

From S2P Require Import Prelude RustStr IO Config Json Ubus.
Open Scope Z_scope.

Module Daemons.

Inductive ev : Set → Type :=
| Bus (X : Set) (e : Ubus.ev X) : ev X         (* the command-line clients *)
| ReadConfig : ev (option str)
| EnvBind : ev (option str)                    (* LWRT_HTTPD_BIND *)
| CreateParent (path : str) : ev unit          (* create_dir_all of the parent *)
| RemoveFile (path : str) : ev unit
| Listen (addr : str) : ev bool
| Accept : ev (option bool)                    (* None: the listener ended; was it accepted *)
| Spawn : ev unit.

(** [for stream in listener.incoming()], for [n] connections; [false] is still
    listening. *)
Fixpoint accept_loop (n : nat) : io ev bool :=
  match n with
  | O => Ret false
  | S n =>
      perform c := Accept in
      match c with
      | None => Ret true
      | Some true => perform u := Spawn in accept_loop n
      | Some false => accept_loop n
      end
  end.
Definition listening (n : nat) : io ev (option Z) :=
  await ended := accept_loop n in Ret (if (ended : bool) then Some 0 else None).

Definition ubus_daemon (n : nat) : io ev (option Z) :=
  await sock := io_map Bus Ubus.sock_path in
  perform u := CreateParent sock in
  perform v := RemoveFile sock in
  perform l := Listen sock in
  if (l : bool) then listening n else Ret (Some 1).

Section Clients.
Context `{F : Float64}.

Definition client (m : io Ubus.ev Z) : io ev (option Z) := await r := io_map Bus m in Ret (Some r).

Definition ubus_run (n : nat) (args : list str) : io ev (option Z) :=
  match args with
  | [] => ubus_daemon n
  | cmd :: rest =>
      if bool_decide (cmd = lit "daemon") then ubus_daemon n
      else if bool_decide (cmd = lit "list") then client (Ubus.cli_list (head rest))
      else if bool_decide (cmd = lit "call") then
        match rest with
        | path :: method :: rest => client (Ubus.cli_call path method (head rest))
        | _ => Ret (Some 1)
        end
      else if bool_decide (cmd = lit "send") then
        match rest with
        | event :: rest => client (Ubus.cli_send event (head rest))
        | [] => Ret (Some 1)
        end
      else if bool_decide (cmd = lit "listen") then io_map Bus (Ubus.cli_listen n)
      else Ret (Some 1)
  end.
End Clients.

Definition httpd_run (n : nat) (args : list str) : io ev (option Z) :=
  perform text := ReadConfig in
  let cfg := Config.load text in
  let lan_ip := Config.get_or cfg (lit "lan") (lit "ipaddr") (lit "192.168.1.1") in
  perform env := EnvBind in
  let bind := match env with Some b => b | None => lan_ip ++ lit ":80" end in
  perform l := Listen bind in
  if (l : bool) then listening n else Ret (Some 1).

(** ** A daemon serves every connection it accepts *)
Definition accepted (c : call ev) : bool :=
  match c with
  | Call e x => match e in ev X return X → bool with Accept => λ r, match r with Some b => b | None => false end | _ => λ _, false end x
  end.
Definition spawned (c : call ev) : bool :=
  match c with Call e _ => match e with Spawn => true | _ => false end end.
Definition count (p : call ev → bool) (t : list (call ev)) : nat := length (List.filter p t).

Theorem accept_loop_serves n t r : runs (accept_loop n) t r → count spawned t = count accepted t.
Proof.
  revert t. induction n as [|n IH]; intros t H; cbn [accept_loop] in H; [by run_inv H|].
  run_inv H. destruct x as [[]|]; [|by apply IH in H|by run_inv H].
  run_inv H. apply IH in H. unfold count in *. cbn [List.filter spawned accepted length]. by rewrite H.
Qed.
End Daemons.
