(* ===== verification/Log.v ===== *)
(** * System log (log.rs)

    The daemon that gathers user and kernel messages, the one-shot logger and
    the reader.  The two files of the log are the state behind the events; the
    specification says how large they get, which line each message that arrives
    becomes, and what the files hold of these lines. *)

From S2P Require Import Prelude Words RustStr Utf8 IO.
Open Scope Z_scope.

Module Log.

Definition MAX : Z := 64 * 1024.

(** Paths are fixed, so the events name the file they are about. *)
Inductive ev : Set → Type :=
| FileLen : ev (option Z)                 (* fs::metadata(FILE) *)
| Rotate : ev bool                        (* fs::rename(FILE, OLD) *)
| OpenAppend : ev bool                    (* create and append *)
| Write (data : bytes) : ev nat           (* bytes that reached the file *)
| ReadOld : ev (option str)
| ReadFile : ev (option str)
| Print (text : str) : ev unit
| Now : ev (option Z)                     (* seconds, unless the clock is before 1970 *)
| Unbound : ev bool
| SendLog (data : bytes) : ev bool        (* send_to(SOCK) *)
| CreateDir : ev unit
| RemoveSock : ev unit
| BindSock : ev bool
| OpenKmsg : ev bool
| GetFlags : ev Z                         (* fcntl(F_GETFL) *)
| SetNonblock (flags : Z) : ev bool       (* fcntl(F_SETFL, flags | O_NONBLOCK) *)
| Poll (kmsg : bool) : ev (result (bool * bool) bool)   (* ready; Err: was it EINTR *)
| RecvSock : ev (option bytes)
| ReadKmsg : ev (option bytes).

(** ** Lines *)
(** [stamp] *)
Definition stamp : io ev str :=
  perform now := Now in Ret (lit "[" ++ dec (default 0 now) ++ lit "]").

(** [append]: a failed rename is ignored, a file that does not open drops the
    line. *)
Definition append (line : str) : io ev unit :=
  perform len := FileLen in
  await u := (if default 0 len >=? MAX then perform r := Rotate in Ret tt else Ret tt) in
  perform f := OpenAppend in
  if (f : bool) then perform n := Write (Utf8.encode line ++ [10]) in Ret tt else Ret tt.

Definition ingest_userspace (b : bytes) : io ev unit :=
  let msg := Utf8.lossy b in
  let msg := trim_end_chars (λ c, N.eqb c LF || N.eqb c 0) msg in
  if is_nonempty msg then await s := stamp in append (s ++ lit " " ++ msg) else Ret tt.

Definition ingest_kernel (b : bytes) : io ev unit :=
  let rec := Utf8.lossy b in
  let body := match split_once (chr ";") rec with Some (_, m) => m | None => rec end in
  let body := trim_end_chars (N.eqb LF) body in
  if is_nonempty body then await s := stamp in append (s ++ lit " kernel: " ++ body) else Ret tt.

(** ** The three roles *)
Definition read : io ev Z :=
  perform o := ReadOld in
  let out := default [] o in
  perform f := ReadFile in
  let out := out ++ default [] f in
  perform u := Print out in
  Ret 0.

Definition logger (msg : str) : io ev Z :=
  await s := stamp in
  let line := s ++ lit " user: " ++ msg in
  perform sock := Unbound in
  if (sock : bool) then
    perform sent := SendLog (Utf8.encode line) in
    if (sent : bool) then Ret 0 else await u := append line in Ret 0
  else await u := append line in Ret 0.

Definition set_nonblock : io ev unit :=
  perform flags := GetFlags in
  if flags <? 0 then Ret tt
  else perform r := SetNonblock flags in Ret tt.

(** The inner loop: at most [fuel] records of [/dev/kmsg]. *)
Fixpoint drain_kmsg (fuel : nat) : io ev unit :=
  match fuel with
  | O => Ret tt
  | S fuel =>
      perform r := ReadKmsg in
      match r with
      | None => Ret tt
      | Some b => if (length b =? 0)%nat then Ret tt
          else await u := ingest_kernel b in drain_kmsg fuel
      end
  end.

(** One turn of the loop; [Some] is the exit code. *)
Definition turn (records : nat) (kmsg : bool) : io ev (option Z) :=
  perform r := Poll kmsg in
  match r with
  | Err interrupted => Ret (if (interrupted : bool) then None else Some 1)
  | Ok (user, kernel) =>
      await u := (if (user : bool) then
          perform b := RecvSock in
          match b with Some b => ingest_userspace b | None => Ret tt end
        else Ret tt) in
      await v := (if kernel && kmsg then drain_kmsg records else Ret tt) in
      Ret None
  end.

(** The daemon for [turns] turns; [None] is still running. *)
Fixpoint daemon_loop (turns records : nat) (kmsg : bool) : io ev (option Z) :=
  match turns with
  | O => Ret None
  | S turns =>
      await r := turn records kmsg in
      match r with Some code => Ret (Some code) | None => daemon_loop turns records kmsg end
  end.

Definition daemon (turns records : nat) : io ev (option Z) :=
  perform u := CreateDir in
  perform v := RemoveSock in
  perform sock := BindSock in
  if (sock : bool) then
    perform kmsg := OpenKmsg in
    await w := (if (kmsg : bool) then set_nonblock else Ret tt) in
    daemon_loop turns records kmsg
  else Ret (Some 1).

Definition run (turns records : nat) (args : list str) : io ev (option Z) :=
  match args with
  | [] => daemon turns records
  | a :: _ =>
      if bool_decide (a = lit "read") then await r := read in Ret (Some r)
      else await r := logger (join (lit " ") args) in Ret (Some r)
  end.

(** * Specification: the two files *)
Record files := Files { file : option bytes; old : option bytes }.

Definition fs_step (s : files) (c : call ev) : files :=
  match c with
  | Call e x =>
      match e in ev X return X → files with
      | Rotate => λ r, if r then Files None (file s) else s
      | OpenAppend => λ r, if r then Files (Some (default [] (file s))) (old s) else s
      | Write data => λ n, Files ((λ b, b ++ take n data) <$> file s) (old s)
      | _ => λ _, s
      end x
  end.
Definition fs_after (s : files) (t : list (call ev)) : files := foldl fs_step s t.

(** A file system without faults: lengths are true, renames, opens and writes
    succeed, and the reader gets the text of the files. *)
Definition fs_ok (s : files) (c : call ev) : Prop :=
  match c with
  | Call e x =>
      match e in ev X return X → Prop with
      | FileLen => λ r, r = (λ b, Z.of_nat (length b)) <$> file s
      | Rotate | OpenAppend => λ r, r = true
      | Write data => λ n, n = length data
      | ReadOld => λ r, r = old s ≫= Utf8.from_utf8
      | ReadFile => λ r, r = file s ≫= Utf8.from_utf8
      | _ => λ _, True
      end x
  end.
Fixpoint sound (s : files) (t : list (call ev)) : Prop :=
  match t with
  | [] => True
  | c :: t => fs_ok s c ∧ sound (fs_step s c) t
  end.

(** The answers the rotation relies on: lengths are true and renames succeed.
    Files may fail to open and writes may be short. *)
Definition rotates (s : files) (c : call ev) : Prop :=
  match c with
  | Call e x =>
      match e in ev X return X → Prop with
      | FileLen => λ r, r = (λ b, Z.of_nat (length b)) <$> file s
      | Rotate => λ r, r = true
      | _ => λ _, True
      end x
  end.
Fixpoint rotating (s : files) (t : list (call ev)) : Prop :=
  match t with
  | [] => True
  | c :: t => rotates s c ∧ rotating (fs_step s c) t
  end.

(** [P] holds of the files at the start and after every call. *)
Fixpoint always (P : files → Prop) (s : files) (t : list (call ev)) : Prop :=
  P s ∧ match t with [] => True | c :: t => always P (fs_step s c) t end.

(** ** What arrives and the line it is to become *)
Inductive source : Type :=
| FromSocket (b : bytes)
| FromKernel (b : bytes)
| FromArgs (msg : str).

Definition arrival (c : call ev) : option source :=
  match c with
  | Call e x =>
      match e in ev X return X → option source with
      | RecvSock => λ r, FromSocket <$> r
      | ReadKmsg => λ r, FromKernel <$> r
      | _ => λ _, None
      end x
  end.
Definition delivered (c : call ev) : bool :=
  match c with
  | Call e x => match e in ev X return X → bool with SendLog _ => λ r, r | _ => λ _, false end x
  end.

(** The messages a run has to log: what the socket and the kernel delivered,
    and the arguments of a logger that reached no daemon. *)
Definition messages (args : list str) (t : list (call ev)) : list source :=
  omap arrival t ++
  match args with
  | [] => []
  | a :: _ => if decide (a = lit "read") then [] else if existsb delivered t then [] else [FromArgs (join (lit " ") args)]
  end.

Definition ends_message (p : char → bool) (msg : str) : Prop := ∃ m x, msg = m ++ [x] ∧ p x = false.
(** [msg] is the text [s] without the characters of [p] at its end. *)
Definition without_end (p : char → bool) (s msg : str) : Prop :=
  ∃ tail, s = msg ++ tail ∧ forallb p tail = true ∧ ends_message p msg.
Definition nul_or_lf (c : char) : bool := (c =? 10)%N || (c =? 0)%N.
Definition is_lf (c : char) : bool := (c =? 10)%N.
(** What follows the first semicolon of a kernel record; all of it without one. *)
Definition kernel_body (rec body : str) : Prop :=
  (∃ prefix, no_char (chr ";") prefix ∧ rec = prefix ++ chr ";" :: body) ∨
  (no_char (chr ";") rec ∧ body = rec).

(** A line: the time in brackets, a mark and the text, ended by a line feed. *)
Definition log_line (now : Z) (mark text : str) : bytes :=
  Utf8.encode (lit "[" ++ dec now ++ lit "]" ++ mark ++ text) ++ [10].

(** The lines a message becomes: one, or none when its text is blank. *)
Inductive becomes : source → list bytes → Prop :=
| user_line b msg now :
    without_end nul_or_lf (Utf8.lossy b) msg → becomes (FromSocket b) [log_line now (lit " ") msg]
| user_blank b : forallb nul_or_lf (Utf8.lossy b) = true → becomes (FromSocket b) []
| kernel_line b body msg now :
    kernel_body (Utf8.lossy b) body → without_end is_lf body msg →
    becomes (FromKernel b) [log_line now (lit " kernel: ") msg]
| kernel_blank b body :
    kernel_body (Utf8.lossy b) body → forallb is_lf body = true → becomes (FromKernel b) []
| direct_line msg now : becomes (FromArgs msg) [log_line now (lit " user: ") msg].

(** What is in the log, oldest first. *)
Definition content (s : files) : bytes := default [] (old s) ++ default [] (file s).

(** The lines a trace writes. *)
Definition written (c : call ev) : option bytes :=
  match c with
  | Call e x => match e in ev X return X → option bytes with Write data => λ _, Some data | _ => λ _, None end x
  end.

(** The next state of the two files after one more line. *)
Definition push (s : files) (data : bytes) : files :=
  let f := default [] (file s) in
  if Z.of_nat (length f) >=? MAX then Files (Some data) (file s)
  else Files (Some (f ++ data)) (old s).

(** * Lemmas *)
Lemma sound_app s t u : sound s (t ++ u) ↔ sound s t ∧ sound (fs_after s t) u.
Proof.
  revert s. induction t as [|c t IH]; intros s; cbn [app sound]; [simpl; tauto|]. rewrite IH. simpl. tauto.
Qed.
Lemma fs_after_app s t u : fs_after s (t ++ u) = fs_after (fs_after s t) u.
Proof. apply foldl_app. Qed.

Lemma append_effect line s t u :
  runs (append line) t u → sound s t →
  fs_after s t = push s (Utf8.encode line ++ [10]) ∧ omap written t = [Utf8.encode line ++ [10]].
Proof.
  unfold append. intros H Hs. run_inv H. destruct Hs as [Hl Hs]. cbn [fs_ok] in Hl. subst x.
  cbn [fs_after foldl fs_step] in *. unfold push. generalize dependent (Utf8.encode line ++ [10]). intros data H.
  assert (E : default 0 ((λ b, Z.of_nat (length b)) <$> file s) = Z.of_nat (length (default [] (file s))))
    by (by destruct (file s)).
  rewrite E in H. clear E. destruct (_ >=? MAX) eqn:EM; cbn [io_bind] in H.
  - run_inv H. destruct Hs as [Hr Hs]. cbn [fs_ok] in Hr. subst x.
    run_inv H. destruct Hs as [Ho Hs]. cbn [fs_ok] in Ho. subst x.
    run_inv H. destruct Hs as [Hw Hs]. cbn [fs_ok] in Hw. subst x. run_inv H.
    cbn [foldl fs_step file old]. rewrite firstn_all. done.
  - run_inv H. destruct Hs as [Ho Hs]. cbn [fs_ok] in Ho. subst x.
    run_inv H. destruct Hs as [Hw Hs]. cbn [fs_ok] in Hw. subst x. run_inv H.
    cbn [foldl fs_step file old]. rewrite firstn_all. done.
Qed.

(** ** Every program of this file changes the log by [push] only *)
Definition logs {A} (m : io ev A) : Prop :=
  ∀ s t a, runs m t a → sound s t → fs_after s t = foldl push s (omap written t).

Lemma logs_ret {A} (a : A) : logs (Ret a).
Proof. intros s t b H _. by run_inv H. Qed.

Lemma logs_bind {A B} (m : io ev A) (f : A → io ev B) : logs m → (∀ a, logs (f a)) → logs (io_bind m f).
Proof.
  intros Hm Hf s t b H Hs. run_inv H. apply sound_app in Hs as [H1 H2].
  rewrite fs_after_app, omap_app, foldl_app. rewrite <- (Hm _ _ _ H0 H1). by eapply Hf.
Qed.

(** An event that is not about the files. *)
Definition aside {X : Set} (e : ev X) : bool :=
  match e with Rotate | OpenAppend | Write _ => false | _ => true end.
Lemma logs_vis {A} {X : Set} (e : ev X) (k : X → io ev A) :
  aside e = true → (∀ x, logs (k x)) → logs (Vis e k).
Proof.
  intros He Hk s t a H Hs. run_inv H. destruct Hs as [_ Hs].
  assert (E : fs_step s (Call e x) = s ∧ written (Call e x) = None) by (by destruct e).
  destruct E as [E1 E2]. cbn [omap list_omap]. rewrite E2. cbn [fs_after foldl]. rewrite E1 in *. by eapply Hk.
Qed.

Lemma logs_append line : logs (append line).
Proof. intros s t a H Hs. by destruct (append_effect _ _ _ _ H Hs) as [-> ->]. Qed.

Ltac logging :=
  repeat match goal with
  | |- logs (Ret _) => apply logs_ret
  | |- logs (append _) => apply logs_append
  | |- logs (Vis _ _) => apply logs_vis; [reflexivity|intros ?]
  | |- logs (io_bind _ _) => apply logs_bind; [|intros ?]
  | |- logs (if ?b then _ else _) => destruct b
  | |- logs (match ?x with _ => _ end) => destruct x
  end.

Lemma logs_user b : logs (ingest_userspace b).
Proof. unfold ingest_userspace, stamp. logging. Qed.
Lemma logs_kernel b : logs (ingest_kernel b).
Proof. unfold ingest_kernel, stamp. cbv zeta. logging. Qed.
Lemma logs_drain n : logs (drain_kmsg n).
Proof. induction n as [|n IH]; cbn [drain_kmsg]; logging; [apply logs_kernel|done]. Qed.
Lemma logs_turn n k : logs (turn n k).
Proof. unfold turn. logging; (apply logs_user || apply logs_drain). Qed.
Lemma logs_loop n k b : logs (daemon_loop n k b).
Proof. induction n as [|n IH]; cbn [daemon_loop]; logging; [apply logs_turn|done]. Qed.
Lemma logs_run n k args : logs (run n k args).
Proof.
  unfold run, daemon, read, logger, stamp, set_nonblock. cbv zeta. logging; try apply logs_loop.
Qed.

(** ** The size of the files and their content *)
Definition within_bound (L : Z) (s : files) : Prop :=
  Z.of_nat (length (default [] (file s))) < MAX + L ∧ Z.of_nat (length (default [] (old s))) < MAX + L.
Lemma push_bound L s data :
  within_bound L s → Z.of_nat (length data) <= L → within_bound L (push s data).
Proof.
  unfold within_bound, push. intros [Hf Ho] Hd. destruct (Z.geb_spec (Z.of_nat (length (default [] (file s)))) MAX);
    cbn [file old default from_option id]; rewrite ?length_app; split; unfold MAX in *; lia.
Qed.

Definition recent (h : bytes) (s : files) : Prop :=
  content s `suffix_of` h ∧ (content s = h ∨ MAX <= Z.of_nat (length (default [] (old s)))).
Lemma push_recent h s data : recent h s → recent (h ++ data) (push s data).
Proof.
  unfold recent, push, content. intros [(k & ->) Hc].
  destruct (Z.geb_spec (Z.of_nat (length (default [] (file s)))) MAX); cbn [file old default from_option id].
  - split; [|right; lia]. exists (k ++ default [] (old s)). by rewrite <- !app_assoc.
  - split; [exists k; by rewrite <- !app_assoc|]. destruct Hc as [Hc|Hc]; [left|by right].
    rewrite (app_assoc (default [] (old s))). by f_equal.
Qed.
Lemma pushes_recent l h s : recent h s → recent (h ++ concat l) (foldl push s l).
Proof.
  revert h s. induction l as [|d l IH]; intros h s H; cbn [concat foldl]; [by rewrite app_nil_r|].
  rewrite app_assoc. by apply IH, push_recent.
Qed.

(** ** At every moment *)
Lemma always_app P s t u : always P s (t ++ u) ↔ always P s t ∧ always P (fs_after s t) u.
Proof.
  revert s. induction t as [|c t IH]; intros s.
  - cbn [app always fs_after foldl]. destruct u; simpl; tauto.
  - cbn [app always]. rewrite IH. change (fs_after s (c :: t)) with (fs_after (fs_step s c) t). tauto.
Qed.
Lemma always_end P s t : always P s t → P (fs_after s t).
Proof.
  revert s. induction t as [|c t IH]; intros s; cbn [always]; [tauto|]. intros [_ H]. by apply IH.
Qed.
Lemma rotating_app s t u : rotating s (t ++ u) ↔ rotating s t ∧ rotating (fs_after s t) u.
Proof.
  revert s. induction t as [|c t IH]; intros s; cbn [app rotating]; [simpl; tauto|]. rewrite IH. simpl. tauto.
Qed.

Section Bounded.
Context (L : Z).
Abbreviation short := (λ d : bytes, Z.of_nat (length d) <= L).

(** The program keeps the files within the bound, whatever fails to open or to
    be written. *)
Definition bounded {A} (m : io ev A) : Prop :=
  ∀ s t a, runs m t a → rotating s t → within_bound L s → Forall short (omap written t) →
  always (within_bound L) s t.

Lemma bounded_ret {A} (a : A) : bounded (Ret a).
Proof. intros s t b H _ Hb _. run_inv H. by split. Qed.

Lemma bounded_bind {A B} (m : io ev A) (f : A → io ev B) :
  bounded m → (∀ a, bounded (f a)) → bounded (io_bind m f).
Proof.
  intros Hm Hf s t b H Hr Hb Hw. apply runs_bind_inv in H as (ta & tb & a & -> & H1 & H2).
  apply rotating_app in Hr as [Hr1 Hr2]. rewrite omap_app in Hw. apply Forall_app in Hw as [Hw1 Hw2].
  apply always_app. pose proof (Hm _ _ _ H1 Hr1 Hb Hw1) as Ha. split; [done|].
  eapply Hf; [done..| |done]. by apply always_end.
Qed.

(** A length is measured, files move by a rename, and an open creates at most an
    empty file. *)
Lemma bounded_vis {A} {X : Set} (e : ev X) (k : X → io ev A) :
  match e with Write _ => False | _ => True end → (∀ x, bounded (k x)) → bounded (Vis e k).
Proof.
  intros He Hk s t a H Hr Hb Hw. apply runs_vis_inv in H as (x & u & -> & H).
  cbn [rotating] in Hr. destruct Hr as [_ Hr]. cbn [always]. split; [done|].
  assert (omap written u = omap written (Call e x :: u)) as Ew by (cbn [omap list_omap]; by destruct e).
  eapply Hk; [done|done| |by rewrite Ew].
  destruct e; try done; cbn [fs_step]; destruct x; try done; destruct Hb as [Hf Ho]; split; cbn; try done.
  unfold MAX in *. lia.
Qed.

Lemma bounded_append line : bounded (append line).
Proof.
  intros s t a H Hr Hb Hw. pose proof Hb as [Hf Ho]. unfold append in H.
  generalize dependent (Utf8.encode line ++ [10]). intros data H.
  apply runs_vis_inv in H as (len & t1 & -> & H). cbn [rotating] in Hr. destruct Hr as [Hlen Hr].
  cbn [rotates] in Hlen. cbn [fs_step] in Hr. cbn [always fs_step]. split; [done|].
  assert (E : default 0 len = Z.of_nat (length (default [] (file s)))) by (subst len; by destruct (file s)).
  rewrite E in H. clear E Hlen.
  apply runs_bind_inv in H as (ta & tb & [] & -> & Hrot & H).
  apply rotating_app in Hr as [Hr1 Hr2].
  change (omap written (Call FileLen len :: ta ++ tb)) with (omap written (ta ++ tb)) in Hw.
  rewrite omap_app in Hw. apply Forall_app in Hw as [_ Hw].
  assert (always (within_bound L) s ta ∧ Z.of_nat (length (default [] (file (fs_after s ta)))) < MAX ∧
    within_bound L (fs_after s ta)) as (Ha & Hs & Hb').
  { destruct (Z.geb_spec (Z.of_nat (length (default [] (file s)))) MAX).
    - apply runs_vis_inv in Hrot as (r & u & -> & Hu). run_inv Hu. destruct Hr1 as [Hr1 _]. cbn [rotates] in Hr1.
      subst r. cbn. unfold within_bound, MAX in *. cbn. repeat split; simpl; tauto || lia.
    - run_inv Hrot. cbn. split; [by split|]. split; [lia|done]. }
  apply always_app. split; [done|]. clear Ha Hrot Hr1 Hf Ho Hb. revert Hs Hb' Hr2. generalize (fs_after s ta).
  clear s. intros s Hs Hb Hr2. pose proof Hb as [Hf Ho].
  apply runs_vis_inv in H as (o & u & -> & H). cbn [always fs_step]. split; [done|].
  destruct o; [|by run_inv H]. apply runs_vis_inv in H as (n & v & -> & H). run_inv H.
  cbn in Hw. apply Forall_cons in Hw as [Hd _]. cbn [always fs_step file old fmap option_fmap option_map].
  split; [by split|]. split; [|done]. split; cbn; [|done].
  rewrite length_app, length_take. lia.
Qed.

Ltac bounding :=
  repeat match goal with
  | |- bounded (Ret _) => apply bounded_ret
  | |- bounded (append _) => apply bounded_append
  | |- bounded (Vis _ _) => apply bounded_vis; [exact I|intros ?]
  | |- bounded (io_bind _ _) => apply bounded_bind; [|intros ?]
  | |- bounded (if ?b then _ else _) => destruct b
  | |- bounded (match ?x with _ => _ end) => destruct x
  end.

Lemma bounded_user b : bounded (ingest_userspace b).
Proof. unfold ingest_userspace, stamp. bounding. Qed.
Lemma bounded_kernel b : bounded (ingest_kernel b).
Proof. unfold ingest_kernel, stamp. cbv zeta. bounding. Qed.
Lemma bounded_drain n : bounded (drain_kmsg n).
Proof. induction n as [|n IH]; cbn [drain_kmsg]; bounding; [apply bounded_kernel|done]. Qed.
Lemma bounded_turn n k : bounded (turn n k).
Proof. unfold turn. bounding; (apply bounded_user || apply bounded_drain). Qed.
Lemma bounded_loop n k b : bounded (daemon_loop n k b).
Proof. induction n as [|n IH]; cbn [daemon_loop]; bounding; [apply bounded_turn|done]. Qed.
Lemma bounded_run n k args : bounded (run n k args).
Proof.
  unfold run, daemon, read, logger, stamp, set_nonblock. cbv zeta. bounding; try apply bounded_loop.
Qed.
End Bounded.

(** ** Every arrival becomes its lines *)
Lemma stamped_append s t u (mark text : str) :
  runs (await st := stamp in append (st ++ mark ++ text)) t u → sound s t →
  omap arrival t = [] ∧ existsb delivered t = false ∧ ∃ now, omap written t = [log_line now mark text].
Proof.
  unfold stamp. cbn [io_bind]. intros H Hs. run_inv H. destruct Hs as [_ Hs].
  destruct (append_effect _ _ _ _ H Hs) as [_ E].
  assert (∀ line, runs (append line) t0 u → omap arrival t0 = [] ∧ existsb delivered t0 = false) as Ha.
  { intros line. unfold append. generalize (Utf8.encode line ++ [10]). intros data H'. run_inv H'.
    destruct (_ >=? MAX); cbn [io_bind] in H';
      repeat (run_inv H' || match type of H' with context [if ?b then _ else _] => destruct b end); done. }
  destruct (Ha _ H) as [H1 H2]. cbn [omap list_omap arrival existsb delivered orb written].
  split; [done|]. split; [done|]. exists (default 0 x). rewrite E. unfold log_line. by rewrite <- !app_assoc.
Qed.

Lemma trim_end_without p s : is_nonempty (trim_end_chars p s) = true → without_end p s (trim_end_chars p s).
Proof.
  unfold trim_end_chars. intros Hn. destruct (rdrop_while_spec p s) as (k & E & Hk).
  exists k. split; [done|]. split; [done|].
  destruct (rdrop_while p s) as [|x l _] eqn:El using rev_ind; [done|].
  exists l, x. split; [done|]. by eapply rdrop_while_last.
Qed.
Lemma trim_end_blank p s : is_nonempty (trim_end_chars p s) = false → forallb p s = true.
Proof.
  unfold trim_end_chars. intros Hn. destruct (rdrop_while_spec p s) as (k & E & Hk).
  destruct (rdrop_while p s); [by rewrite E|done].
Qed.

Definition logs_as (src : source) (t : list (call ev)) : Prop :=
  omap arrival t = [] ∧ existsb delivered t = false ∧ ∃ l, becomes src l ∧ omap written t = l.

Lemma user_logs s b t u : runs (ingest_userspace b) t u → sound s t → logs_as (FromSocket b) t.
Proof.
  unfold ingest_userspace. intros H Hs.
  pose proof (trim_end_without nul_or_lf (Utf8.lossy b)) as Hw. pose proof (trim_end_blank nul_or_lf (Utf8.lossy b)) as Hbl.
  change (trim_end_chars (λ c, N.eqb c LF || N.eqb c 0) (Utf8.lossy b)) with (trim_end_chars nul_or_lf (Utf8.lossy b)) in H.
  destruct (is_nonempty (trim_end_chars nul_or_lf (Utf8.lossy b))).
  - destruct (stamped_append _ _ _ _ _ H Hs) as (H1 & H2 & now & H3). split; [done|]. split; [done|].
    eexists. split; [|exact H3]. by apply user_line, Hw.
  - run_inv H. split; [done|]. split; [done|]. exists []. split; [|done]. by apply user_blank, Hbl.
Qed.

Lemma kernel_body_split rec :
  kernel_body rec match split_once (chr ";") rec with Some (_, m) => m | None => rec end.
Proof.
  destruct (split_once (chr ";") rec) as [[a m]|] eqn:E; [left|right].
  - apply split_once_Some in E as [-> ?]. by exists a.
  - split; [by apply split_once_None|done].
Qed.

Lemma trim_end_chars_ext p q s : (∀ c, p c = q c) → trim_end_chars p s = trim_end_chars q s.
Proof.
  intros H. unfold trim_end_chars, rdrop_while. f_equal. induction (reverse s) as [|x l IH]; [done|].
  cbn [drop_while]. by rewrite H, IH.
Qed.

Lemma kernel_logs s b t u : runs (ingest_kernel b) t u → sound s t → logs_as (FromKernel b) t.
Proof.
  unfold ingest_kernel. cbv zeta. intros H Hs. pose proof (kernel_body_split (Utf8.lossy b)) as Hb.
  revert H Hb. generalize (match split_once (chr ";") (Utf8.lossy b) with Some (_, m) => m | None => Utf8.lossy b end).
  intros body H Hb. rewrite (trim_end_chars_ext _ is_lf) in H by (intros c; apply N.eqb_sym).
  pose proof (trim_end_without is_lf body) as Hw. pose proof (trim_end_blank is_lf body) as Hbl.
  destruct (is_nonempty (trim_end_chars is_lf body)).
  - destruct (stamped_append _ _ _ _ _ H Hs) as (H1 & H2 & now & H3). split; [done|]. split; [done|].
    eexists. split; [|exact H3]. eapply kernel_line; [done|]. by apply Hw.
  - run_inv H. split; [done|]. split; [done|]. exists []. split; [|done]. eapply kernel_blank; [done|]. by apply Hbl.
Qed.

(** The lines the trace writes are those of its arrivals, in order. *)
Definition accounts (l : list source) (t : list (call ev)) : Prop :=
  ∃ ls, Forall2 becomes l ls ∧ omap written t = concat ls.
Lemma accounts_app l k t u : accounts l t → accounts k u → accounts (l ++ k) (t ++ u).
Proof.
  intros (ls & H1 & E1) (ks & H2 & E2). exists (ls ++ ks). split; [by apply Forall2_app|].
  by rewrite omap_app, concat_app, E1, E2.
Qed.
Lemma accounts_one src t : logs_as src t → accounts [src] t ∧ omap arrival t = [] ∧ existsb delivered t = false.
Proof.
  intros (H1 & H2 & l & Hl & E). split; [|done]. exists [l]. cbn [concat]. rewrite app_nil_r.
  split; [by repeat constructor|done].
Qed.

(** A program that logs what arrives, reaching no other daemon. *)
Definition faithful {A} (m : io ev A) : Prop :=
  ∀ s t a, runs m t a → sound s t → accounts (omap arrival t) t.
Lemma faithful_ret {A} (a : A) : faithful (Ret a).
Proof. intros s t b H _. run_inv H. by exists []. Qed.
Lemma faithful_bind {A B} (m : io ev A) (f : A → io ev B) : faithful m → (∀ a, faithful (f a)) → faithful (io_bind m f).
Proof.
  intros Hm Hf s t b H Hs. apply runs_bind_inv in H as (ta & tb & a & -> & H1 & H2).
  apply sound_app in Hs as [Hs1 Hs2]. rewrite omap_app. apply accounts_app; [by eapply Hm|by eapply Hf].
Qed.
Lemma faithful_vis {A} {X : Set} (e : ev X) (k : X → io ev A) :
  match e with RecvSock | ReadKmsg | Write _ => False | _ => True end → (∀ x, faithful (k x)) → faithful (Vis e k).
Proof.
  intros He Hk s t a H Hs. apply runs_vis_inv in H as (x & u & -> & H). destruct Hs as [_ Hs].
  change (Call e x :: u) with ([Call e x] ++ u). rewrite omap_app. apply accounts_app; [|by eapply Hk].
  exists []. by destruct e.
Qed.

(** An arrival and its handling. *)
Lemma faithful_recv : faithful (perform b := RecvSock in match b with Some b => ingest_userspace b | None => Ret tt end).
Proof.
  intros s t a H Hs. apply runs_vis_inv in H as (x & u & -> & H). destruct Hs as [_ Hs].
  destruct x as [b|]; [|run_inv H; by exists []].
  destruct (accounts_one _ _ (user_logs _ _ _ _ H Hs)) as ((ls & Hl & E) & Ea & _).
  exists ls. change (omap arrival (Call RecvSock (Some b) :: u)) with (FromSocket b :: omap arrival u).
  by rewrite Ea.
Qed.
Lemma faithful_drain n : faithful (drain_kmsg n).
Proof.
  induction n as [|n IH]; cbn [drain_kmsg]; [apply faithful_ret|].
  intros s t a H Hs. apply runs_vis_inv in H as (x & u & -> & H). destruct Hs as [_ Hs]. cbn [fs_step] in Hs.
  destruct x as [b|]; [|run_inv H; by exists []]. destruct (Nat.eqb_spec (length b) 0) as [Hb|Hb].
  - run_inv H. destruct b; [|done]. exists [[]]. split; [|done]. constructor; [|constructor].
    eapply kernel_blank; [right; split; [constructor|reflexivity]|done].
  - apply runs_bind_inv in H as (ta & tb & [] & -> & H1 & H2). apply sound_app in Hs as [Hs1 Hs2].
    destruct (accounts_one _ _ (kernel_logs _ _ _ _ H1 Hs1)) as (Hacc & Ea & _).
    change (Call ReadKmsg (Some b) :: ta ++ tb) with ([Call ReadKmsg (Some b)] ++ ta ++ tb).
    rewrite !omap_app, Ea. cbn [app].
    change (FromKernel b :: omap arrival tb) with ([FromKernel b] ++ omap arrival tb).
    change (omap arrival [Call ReadKmsg (Some b)] ++ omap arrival tb) with ([FromKernel b] ++ omap arrival tb).
    pose proof (accounts_app _ _ _ _ Hacc (IH _ _ _ H2 Hs2)) as (ls & Hl & E).
    exists ls. split; [done|]. exact E.
Qed.

Ltac faithfully :=
  repeat match goal with
  | |- faithful (Ret _) => apply faithful_ret
  | |- faithful (Vis RecvSock _) => apply faithful_recv
  | |- faithful (drain_kmsg _) => apply faithful_drain
  | |- faithful (Vis _ _) => apply faithful_vis; [exact I|intros ?]
  | |- faithful (io_bind _ _) => apply faithful_bind; [|intros ?]
  | |- faithful (if ?b then _ else _) => destruct b
  | |- faithful (match ?x with _ => _ end) => destruct x
  end.
Lemma faithful_daemon n k : faithful (daemon n k).
Proof.
  assert (∀ b, faithful (daemon_loop n k b)) as Hl.
  { intros b. induction n as [|n IH]; cbn [daemon_loop]; faithfully; [|done].
    unfold turn. apply faithful_vis; [exact I|]. intros [[u q]|i]; [|apply faithful_ret].
    apply faithful_bind; [destruct u; [apply faithful_recv|apply faithful_ret]|intros _].
    apply faithful_bind; [destruct (q && b); faithfully|intros _; apply faithful_ret]. }
  unfold daemon, set_nonblock. faithfully; apply Hl.
Qed.

(** The logger writes its line exactly when the socket took none. *)
Lemma logger_accounts s m t r : runs (logger m) t r → sound s t →
  accounts (omap arrival t ++ if existsb delivered t then [] else [FromArgs m]) t.
Proof.
  unfold logger, stamp. cbn [io_bind]. intros H Hs. run_inv H. destruct Hs as [_ Hs]. cbn [fs_step] in Hs.
  assert (Happ : ∀ u v, runs (await w := append ((lit "[" ++ dec (default 0 x) ++ lit "]") ++ lit " user: " ++ m) in Ret 0) u v → sound s u →
    accounts (omap arrival u ++ [FromArgs m]) u ∧ existsb delivered u = false).
  { intros u v Hu Hsu. apply runs_bind_inv in Hu as (ta & tb & [] & -> & Hu & Hr). run_inv Hr. rewrite app_nil_r in *.
    assert (runs (await st := stamp in append (st ++ lit " user: " ++ m)) (Call Now x :: ta) tt) as Hu'
      by (unfold stamp; cbn [io_bind]; by apply runs_vis).
    destruct (stamped_append s _ _ _ _ Hu' (conj I Hsu)) as (Ha & Hd & now & E).
    change (omap arrival (Call Now x :: ta)) with (omap arrival ta) in Ha. rewrite Ha. split; [|exact Hd].
    exists [[log_line now (lit " user: ") m]]. split; [repeat constructor|exact E]. }
  run_inv H. destruct Hs as [_ Hs]. cbn [fs_step] in Hs. destruct x0.
  - run_inv H. destruct Hs as [_ Hs]. cbn [fs_step] in Hs. destruct x0.
    + run_inv H. by exists [].
    + destruct (Happ _ _ H Hs) as [Hacc Hd]. cbn [existsb delivered orb]. by rewrite Hd.
  - destruct (Happ _ _ H Hs) as [Hacc Hd]. cbn [existsb delivered orb]. by rewrite Hd.
Qed.

Lemma run_accounts turns records args s t r :
  runs (run turns records args) t r → sound s t → accounts (messages args t) t.
Proof.
  unfold run, messages. intros H Hs. destruct args as [|a args].
  { rewrite app_nil_r. by eapply faithful_daemon. }
  case_bool_decide as Ha.
  - rewrite decide_True by done. rewrite app_nil_r.
    assert (faithful (await r := read in Ret (Some r))) as Hf by (unfold read; faithfully). by eapply Hf.
  - rewrite decide_False by done. apply runs_bind_inv in H as (ta & tb & x & -> & H & Hr). run_inv Hr.
    rewrite app_nil_r in *. by eapply logger_accounts.
Qed.

(** * Theorems *)

(** C35. The log is bounded: in any run of any role, at every moment, neither
    file is longer than 64 KiB plus one line, if no line is longer than [L] bytes
    and the files start within that bound -- as long as the length of the file
    is read correctly and every rename succeeds; files may fail to open and
    writes may be cut short.  (The source ignores a failed rename and goes on
    appending, so without that condition there is no bound.) *)
Theorem log_bounded turns records args s t r L :
  runs (run turns records args) t r → rotating s t →
  within_bound L s →
  Forall (λ d, Z.of_nat (length d) <= L) (omap written t) →
  always (within_bound L) s t.
Proof. intros H Hs Hb HL. by eapply bounded_run. Qed.

(** C36. What arrives is logged and rotation loses only the oldest part.  Over a
    file system without faults (true lengths; renames, opens and writes that
    succeed), every datagram the socket delivered, every kernel record and the
    arguments of a logger that reached no daemon becomes its line, in the order
    of arrival: a time stamp, the mark of its source and its text, the kernel's
    after the first semicolon, without line feeds (and NULs of a datagram) at
    its end; blank ones become none.  What the two files hold in the end is a
    suffix of what was there before followed by these lines, and either all of
    it, or at least the last 64 KiB. *)
Theorem log_keeps_recent turns records args s t r :
  runs (run turns records args) t r → sound s t →
  ∃ ls, Forall2 becomes (messages args t) ls ∧
    recent (content s ++ concat (concat ls)) (fs_after s t).
Proof.
  intros H Hs. destruct (run_accounts _ _ _ _ _ _ H Hs) as (ls & Hl & E). exists ls. split; [done|].
  rewrite (logs_run _ _ _ _ _ _ H Hs), E. apply pushes_recent. split; [done|by left].
Qed.

(** ** Messages *)
Lemma trim_end_tail p msg tail :
  ends_message p msg → forallb p tail = true →
  trim_end_chars p (msg ++ tail) = msg ∧ is_nonempty msg = true.
Proof.
  intros (m & x & -> & Hx) Ht. unfold trim_end_chars. rewrite rdrop_while_app_all by done.
  rewrite rdrop_while_id by done. split; [done|]. by destruct m.
Qed.

(** A message is logged as sent: a datagram on the socket, with any trailing
    line feeds and NUL bytes, and a kernel record, with its prefix up to the
    first semicolon and its trailing line feeds, each add one line with a time
    stamp and the text of the message. *)
Theorem messages_are_logged s t u v w msg tail tail' prefix :
  str_ok msg → str_ok tail → str_ok tail' → str_ok prefix →
  ends_message (λ c, N.eqb c LF || N.eqb c 0) msg →
  forallb (λ c, N.eqb c LF || N.eqb c 0) tail = true →
  forallb (N.eqb LF) tail' = true →
  no_char (chr ";") prefix →
  sound s t → sound s v →
  runs (ingest_userspace (Utf8.encode (msg ++ tail))) t u →
  runs (ingest_kernel (Utf8.encode (prefix ++ chr ";" :: msg ++ tail'))) v w →
  (∃ now, omap written t = [Utf8.encode (lit "[" ++ dec now ++ lit "] " ++ msg) ++ [10]]) ∧
  (∃ now, omap written v = [Utf8.encode (lit "[" ++ dec now ++ lit "] kernel: " ++ msg) ++ [10]]).
Proof.
  intros Hm Ht Ht' Hp He Hb Hb' Hn Hs1 Hs2 H1 H2. split.
  - unfold ingest_userspace in H1. rewrite Utf8.lossy_encode in H1 by (by apply Forall_app).
    destruct (trim_end_tail _ _ _ He Hb) as [E1 E2]. rewrite E1, E2 in H1.
    destruct (stamped_append _ _ _ (lit " ") _ H1 Hs1) as (_ & _ & now & E). by exists now.
  - unfold ingest_kernel in H2. rewrite Utf8.lossy_encode in H2.
    2: { apply Forall_app; split; [done|]. apply Forall_cons; split; [left; vm_compute; reflexivity|]. by apply Forall_app. }
    rewrite split_once_app in H2 by done.
    assert (He' : ends_message (N.eqb LF) msg).
    { destruct He as (m & x & -> & Hx). exists m, x. split; [done|].
      apply orb_false_elim in Hx as [Hx _]. by rewrite N.eqb_sym. }
    destruct (trim_end_tail _ _ _ He' Hb') as [E1 E2]. rewrite E1, E2 in H2.
    destruct (stamped_append _ _ _ (lit " kernel: ") _ H2 Hs2) as (_ & _ & now & E). by exists now.
Qed.

(** ** Concrete runs *)
Definition demo_files : files := Files (Some [97; 10]) (Some [98; 10]).
Definition demo_trace : list (call ev) :=
  [Call Now (Some 7); Call Unbound true; Call (SendLog (Utf8.encode (lit "[7] user: hi"))) false;
   Call FileLen (Some 2); Call OpenAppend true; Call (Write (Utf8.encode (lit "[7] user: hi") ++ [10])) 13%nat].
Lemma demo_runs_log : runs (run 0 0 [lit "hi"]) demo_trace (Some 0).
Proof. unfold demo_trace. play. Qed.
Lemma demo_sound : sound demo_files demo_trace.
Proof. cbn [sound demo_trace fs_ok fs_step]. repeat apply conj; exact I || reflexivity. Qed.

Lemma log_bounded_witness : always (within_bound 13) demo_files demo_trace.
Proof.
  apply (log_bounded 0 0 [lit "hi"] demo_files demo_trace (Some 0)); [apply demo_runs_log|..].
  - cbn [rotating demo_trace rotates fs_step]. repeat apply conj; exact I || reflexivity.
  - split; vm_compute; reflexivity.
  - apply Forall_cons; split; [vm_compute; congruence|apply Forall_nil; exact I].
Defined.

Lemma log_keeps_recent_witness :
  ∃ ls, Forall2 becomes [FromArgs (lit "hi")] ls ∧
    recent ([98; 10; 97; 10] ++ concat (concat ls)) (fs_after demo_files demo_trace).
Proof. apply (log_keeps_recent 0 0 [lit "hi"] demo_files demo_trace (Some 0)); [apply demo_runs_log|apply demo_sound]. Defined.

(** Without the condition on renames there is no bound: a file beyond 64 KiB
    whose rename fails is appended to all the same. *)
Example failed_rename_grows data :
  let s := Files (Some data) None in
  MAX <= Z.of_nat (length data) →
  ∃ t, runs (append (lit "x")) t tt ∧ fs_after s t = Files (Some (data ++ [120; 10])) None.
Proof.
  intros s Hd.
  exists [Call FileLen (Some (Z.of_nat (length data))); Call Rotate false; Call OpenAppend true;
          Call (Write [120; 10]) 2%nat].
  split; [|done]. unfold append. apply runs_vis. cbn [default from_option id].
  destruct (Z.geb_spec (Z.of_nat (length data)) MAX); [|lia]. cbn [io_bind].
  apply runs_vis. cbn [io_bind]. apply runs_vis. cbv iota. by apply runs_vis.
Qed.

Lemma messages_are_logged_witness :
  let line text := Utf8.encode text ++ [10] in
  let t text := [Call Now (Some 7); Call FileLen (Some 2); Call OpenAppend true; Call (Write (line text)) (length (line text))] in
  ∃ now, omap written (t (lit "[7] up")) = [line (lit "[" ++ dec now ++ lit "] " ++ lit "up")].
Proof.
  intros line t.
  apply (messages_are_logged demo_files (t (lit "[7] up")) tt (t (lit "[7] kernel: up")) tt
    (lit "up") [LF; 0%N] [LF] (lit "6,1,2,-")); try (apply (bool_decide_unpack _); vm_compute; exact I); try reflexivity.
  - exists (lit "u"), (chr "p"). by split.
  - cbn [sound fs_ok fs_step]. repeat apply conj; exact I || reflexivity.
  - cbn [sound fs_ok fs_step]. repeat apply conj; exact I || reflexivity.
  - play.
  - play.
Defined.

(** A line feed inside a datagram is kept: one message can add a line that looks
    like one of the kernel. *)
Example forged_line :
  let line := lit "[1] a" ++ [LF] ++ lit "[1] kernel: b" in
  runs (ingest_userspace (Utf8.encode (lit "a" ++ [LF] ++ lit "[1] kernel: b")))
    [Call Now (Some 1); Call FileLen None; Call OpenAppend true; Call (Write (Utf8.encode line ++ [10])) 20%nat] tt.
Proof. cbv zeta. play. Qed.
End Log.
