(* ===== verification/Ntp.v ===== *)
(** * Time client (ntp.rs)

    One SNTP exchange over socket events, the decoding of the reply, and the
    loop over the configured servers. *)

From S2P Require Import Prelude Words RustStr IO Config.
Open Scope Z_scope.

Module Ntp.

(** Seconds between the NTP epoch (1900-01-01) and the Unix epoch. *)
Definition NTP_UNIX_OFFSET : Z := 2208988800.

Inductive ev : Set → Type :=
| ReadConfig : ev (option str)
| BindUdp : ev bool                       (* bind 0.0.0.0:0 and set the timeout *)
| ConnectTo (host : str) (port : Z) : ev bool
| SendReq (req : bytes) : ev bool
| RecvReply (size : nat) : ev (option bytes)
| SetClock (secs nanos : Z) : ev bool.    (* clock_settime(CLOCK_REALTIME) *)

(** What [sync_once] fails with: an I/O error, or a text of its own. *)
Inductive error := Io | Invalid (text : str).

(** [let mut req = [0u8; 48]; req[0] = 0x23]. *)
Definition request : bytes := <[0%nat := 0x23]> (replicate 48 0).

(** The bytes of the reply from the length check on: the Unix seconds and the
    nanoseconds for the clock. *)
Definition decode (n : nat) (resp : bytes) : result (Z * Z) error :=
  if (n <? 48)%nat then Err (Invalid (lit "short reply"))
  else
    let secs := of_be_bytes (slice resp 40 44) in
    let frac := of_be_bytes (slice resp 44 48) in
    if secs =? 0 then Err (Invalid (lit "null timestamp"))
    else if secs <? NTP_UNIX_OFFSET then Err (Invalid (lit "pre-1970 timestamp"))
    else
      let unix := secs - NTP_UNIX_OFFSET in
      let nanos := Z.shiftr (u64 (frac * 1000000000)) 32 in
      Ok (unix, nanos).

(** The datagram lands at the start of the 48 zero bytes of [resp]. *)
Definition sync_once (server : str) : io ev (result Z error) :=
  perform b := BindUdp in
  if negb b then Ret (Err Io) else
  perform c := ConnectTo server 123 in
  if negb c then Ret (Err Io) else
  perform s := SendReq request in
  if negb s then Ret (Err Io) else
  perform r := RecvReply 48 in
  match r with
  | None => Ret (Err Io)
  | Some d =>
      let d := take 48 d in
      let resp := splice (replicate 48 0) 0 d in
      match decode (length d) resp with
      | Err e => Ret (Err e)
      | Ok (unix, nanos) =>
          perform k := SetClock unix nanos in
          Ret (if (k : bool) then Ok unix else Err Io)
      end
  end.

(** The first argument, or the list of the configuration split at commas and
    blanks. *)
Definition servers (cfg : Config.Config) (args : list str) : list str :=
  match args with
  | h :: _ => [h]
  | [] => filter (λ s, is_nonempty s = true)
      (split_on (λ c, N.eqb c (chr ",") || N.eqb c (chr " "))
        (Config.get_or cfg (lit "ntp") (lit "server") (lit "pool.ntp.org")))
  end.

Fixpoint try_servers (l : list str) : io ev Z :=
  match l with
  | [] => Ret 1
  | server :: l =>
      await r := sync_once server in
      match r with
      | Ok _ => Ret 0
      | Err _ => try_servers l
      end
  end.

Definition run (args : list str) : io ev Z :=
  perform text := ReadConfig in
  let cfg := Config.load text in
  try_servers (servers cfg args).

(** * Specification

    The transmit timestamp of a packet, in seconds and 2^-32 seconds since
    1900. *)
Definition packet (hdr : bytes) (secs frac : Z) (rest : bytes) : bytes :=
  hdr ++ be_bytes 4 secs ++ be_bytes 4 frac ++ rest.

(** The clock settings of a trace, with whether they took effect, and the
    replies it received. *)
Definition clock_set (c : call ev) : option (Z * Z * bool) :=
  match c with
  | Call e x =>
      match e in ev X return X → option (Z * Z * bool) with
      | SetClock s n => λ ok, Some (s, n, ok)
      | _ => λ _, None
      end x
  end.
Definition reply_of (c : call ev) : option bytes :=
  match c with
  | Call e x => match e in ev X return X → option bytes with RecvReply _ => λ r, r | _ => λ _, None end x
  end.
Definition asked (c : call ev) : option str :=
  match c with
  | Call e x => match e in ev X return X → option str with ConnectTo h _ => λ _, Some h | _ => λ _, None end x
  end.

(** * Lemmas *)
Lemma decode_packet hdr secs frac rest :
  length hdr = 40%nat → in_u 32 secs → in_u 32 frac → NTP_UNIX_OFFSET <= secs →
  decode 48 (take 48 (packet hdr secs frac rest)) = Ok (secs - NTP_UNIX_OFFSET, frac * 1000000000 / 2 ^ 32).
Proof.
  intros Hh Hs Hf Ho. unfold packet.
  assert (E : take 48 (hdr ++ be_bytes 4 secs ++ be_bytes 4 frac ++ rest) = hdr ++ be_bytes 4 secs ++ be_bytes 4 frac).
  { rewrite !app_assoc. apply take_app_length'. by rewrite !length_app, !length_be_bytes, Hh. }
  rewrite E. unfold decode. cbn [Nat.ltb Nat.leb].
  rewrite slice_app_r, Hh by lia. rewrite slice_app_l, slice_full by (rewrite ?length_be_bytes; done || lia).
  rewrite slice_app_r, Hh by lia. rewrite slice_app_r by (rewrite length_be_bytes; lia).
  rewrite slice_full by (rewrite !length_be_bytes; done).
  rewrite !of_be_be_bytes_small by (unfold in_u in *; lia). unfold NTP_UNIX_OFFSET, in_u in *.
  destruct (Z.eqb_spec secs 0); [lia|]. destruct (Z.ltb_spec secs 2208988800); [lia|].
  unfold u64. rewrite wrap_small by (unfold in_u; lia). by rewrite Z.shiftr_div_pow2.
Qed.

Lemma decode_bounds n resp unix nanos :
  decode n resp = Ok (unix, nanos) → bytes_ok resp →
  0 <= unix < 2 ^ 32 - NTP_UNIX_OFFSET ∧ 0 <= nanos < 1000000000.
Proof.
  unfold decode. intros H Hb.
  assert (Hr : ∀ i, 0 <= of_be_bytes (slice resp i (i + 4)) < 2 ^ 32).
  { intros i. unfold slice. replace (i + 4 - i)%nat with 4%nat by lia.
    pose proof (of_be_bytes_bound (take 4 (drop i resp)) ltac:(by apply Forall_take, Forall_drop)) as Hq.
    assert (256 ^ Z.of_nat (length (take 4 (drop i resp))) <= 256 ^ 4) by (apply Z.pow_le_mono_r; rewrite ?length_take; lia).
    change (256 ^ 4) with (2 ^ 32) in *. lia. }
  pose proof (Hr 40%nat) as Hs. pose proof (Hr 44%nat) as Hf. cbn [Nat.add] in Hs, Hf. clear Hr.
  destruct (n <? 48)%nat; [done|]. generalize dependent (of_be_bytes (slice resp 40 44)). intros secs H Hs.
  generalize dependent (of_be_bytes (slice resp 44 48)). intros frac Hf H.
  destruct (secs =? 0); [done|]. destruct (Z.ltb_spec secs NTP_UNIX_OFFSET); [done|]. cbv zeta in H. injection H as <- <-.
  unfold NTP_UNIX_OFFSET in *. split; [lia|]. unfold u64. rewrite wrap_small by (unfold in_u; lia).
  rewrite Z.shiftr_div_pow2 by lia. split; [apply Z.div_pos; lia|]. apply Z.div_lt_upper_bound; lia.
Qed.

(** The setting comes from the reply [d]. *)
Definition from_reply (d : bytes) (x : Z * Z * bool) : Prop :=
  decode (length (take 48 d)) (splice (replicate 48 0) 0 (take 48 d)) = Ok (x.1.1, x.1.2).

Definition bytes_reply (c : call ev) : Prop :=
  match reply_of c with Some d => bytes_ok d | None => True end.
#[global] Instance bytes_reply_dec c : Decision (bytes_reply c).
Proof. unfold bytes_reply. destruct (reply_of c); apply _. Defined.

Lemma sync_once_runs server t r :
  runs (sync_once server) t r →
  (omap asked t = [] ∨ omap asked t = [server]) ∧
  match r with
  | Ok unix => ∃ d nanos, d ∈ omap reply_of t ∧ from_reply d (unix, nanos, true) ∧
      omap clock_set t = [(unix, nanos, true)]
  | Err _ => omap clock_set t = [] ∨
      ∃ d unix nanos, d ∈ omap reply_of t ∧ from_reply d (unix, nanos, false) ∧
        omap clock_set t = [(unix, nanos, false)]
  end.
Proof.
  unfold sync_once. intros H.
  run_inv H. destruct x; cbn [negb] in H; [|run_inv H; split; left; done].
  run_inv H. destruct x; cbn [negb] in H; [|run_inv H; split; [right|left]; done].
  run_inv H. destruct x; cbn [negb] in H; [|run_inv H; split; [right|left]; done].
  run_inv H. destruct x as [d|]; [|run_inv H; split; [right|left]; done]. cbv zeta in H.
  destruct (decode _ _) as [[unix nanos]|e] eqn:E; [|run_inv H; split; [right|left]; done].
  run_inv H. run_inv H. split; [by right|]. destruct x.
  - exists d, nanos. split; [by apply list_elem_of_singleton|]. by split.
  - right. exists d, unix, nanos. split; [by apply list_elem_of_singleton|]. by split.
Qed.

(** Every setting of the clock is decoded from a reply. *)
Definition sourced (t : list (call ev)) : Prop :=
  Forall (λ x, ∃ d, d ∈ omap reply_of t ∧ from_reply d x) (omap clock_set t).
Definition refused (x : Z * Z * bool) : Prop := x.2 = false.

Lemma sourced_app t u : sourced t → sourced u → sourced (t ++ u).
Proof.
  unfold sourced. rewrite !omap_app, Forall_app. intros H1 H2.
  split; (eapply Forall_impl; [eassumption|]); intros x (d & Hd & Hx); exists d; rewrite elem_of_app; auto.
Qed.

Lemma try_servers_runs l t r :
  runs (try_servers l) t r →
  (omap asked t) `sublist_of` l ∧ sourced t ∧
  ((r = 1 ∧ Forall refused (omap clock_set t)) ∨
   (r = 0 ∧ ∃ pre unix nanos, omap clock_set t = pre ++ [(unix, nanos, true)] ∧ Forall refused pre)).
Proof.
  revert t. induction l as [|server l IH]; intros t H; cbn [try_servers] in H.
  - run_inv H. split; [done|]. split; [by apply Forall_nil|]. left. by split; [|apply Forall_nil].
  - run_inv H. apply sync_once_runs in H0 as [Ha Hr].
    assert (Hs0 : (omap asked t0) `sublist_of` [server]) by (destruct Ha as [-> | ->]; [apply sublist_nil_l|done]).
    destruct a as [unix|e].
    + run_inv H. rewrite app_nil_r. destruct Hr as (d & nanos & Hd & Hf & Hc).
      split; [etrans; [exact Hs0|]; apply sublist_skip, sublist_nil_l|].
      unfold sourced. rewrite Hc. split; [apply Forall_singleton; eauto|]. right. split; [done|].
      exists [], unix, nanos. by split; [|apply Forall_nil].
    + apply IH in H as (Ha1 & Hs1 & Hc1). split; [rewrite omap_app; by apply (sublist_app _ [server])|].
      assert (Hq : sourced t0 ∧ Forall refused (omap clock_set t0)).
      { unfold sourced. destruct Hr as [-> | (d & unix & nanos & Hd & Hf & ->)]; [by split; apply Forall_nil|].
        split; apply Forall_singleton; [eauto|done]. }
      destruct Hq as [Hq1 Hq2]. split; [by apply sourced_app|]. rewrite omap_app.
      destruct Hc1 as [[-> Hc1]|[-> (pre & unix & nanos & -> & Hp)]]; [left|right]; split; try done.
      * by apply Forall_app.
      * exists (omap clock_set t0 ++ pre), unix, nanos. rewrite app_assoc. split; [done|]. by apply Forall_app.
Qed.

(** * Theorems *)

(** The servers are asked in order, each at most once; the clock is only set
    to a value decoded from a reply, with nanoseconds below a second and seconds
    that fit the era; the applet reports success exactly when the last setting
    took effect, and then it was the only one to. *)
Theorem run_sets_clock args t r :
  runs (run args) t r →
  Forall bytes_reply t →
  ∃ text u, t = Call ReadConfig text :: u ∧
    (omap asked u) `sublist_of` (servers (Config.load text) args) ∧
    Forall (λ x, 0 <= x.1.1 < 2 ^ 32 - NTP_UNIX_OFFSET ∧ 0 <= x.1.2 < 1000000000 ∧
      ∃ d, d ∈ omap reply_of u ∧ from_reply d x) (omap clock_set u) ∧
    ((r = 1 ∧ Forall refused (omap clock_set u)) ∨
     (r = 0 ∧ ∃ pre unix nanos, omap clock_set u = pre ++ [(unix, nanos, true)] ∧ Forall refused pre)).
Proof.
  unfold run. intros H Hb. run_inv H. apply Forall_cons in Hb as [_ Hb].
  apply try_servers_runs in H as (Ha & Hs & Hc). exists x, t0. do 2 (split; [done|]). split; [|done].
  eapply Forall_impl; [exact Hs|]. intros y (d & Hd & Hf).
  assert (Hok : bytes_ok d).
  { apply list_elem_of_omap in Hd as (c & Hin & E). rewrite Forall_forall in Hb.
    specialize (Hb c Hin). unfold bytes_reply in Hb. by rewrite E in Hb. }
  destruct (decode_bounds _ _ _ _ Hf) as [H1 H2]; [|eauto].
  unfold splice. rewrite take_0, app_nil_l. apply Forall_app; split; [by apply Forall_take|].
  apply Forall_drop, Forall_replicate. by vm_compute.
Qed.

(** C37. A server whose reply carries its time as an NTP timestamp, at any date
    of the era, has the clock set to it: the Unix seconds, and the fraction in
    nanoseconds rounded down. *)
Theorem server_time_is_set server hdr secs frac rest t r :
  length hdr = 40%nat → in_u 32 secs → in_u 32 frac → NTP_UNIX_OFFSET <= secs →
  runs (sync_once server) t r →
  omap reply_of t = [packet hdr secs frac rest] →
  ∃ ok : bool, omap clock_set t = [(secs - NTP_UNIX_OFFSET, frac * 1000000000 / 2 ^ 32, ok)] ∧
    r = if ok then Ok (secs - NTP_UNIX_OFFSET) else Err Io.
Proof.
  intros Hh Hs Hf Ho H. unfold sync_once in H.
  run_inv H. destruct x; cbn [negb] in H; [|by run_inv H].
  run_inv H. destruct x; cbn [negb] in H; [|by run_inv H].
  run_inv H. destruct x; cbn [negb] in H; [|by run_inv H].
  run_inv H. destruct x as [d|]; [|by run_inv H]. intros Hr.
  cbn [omap list_omap reply_of] in Hr. injection Hr as -> _. cbv zeta in H.
  assert (Hl : length (take 48 (packet hdr secs frac rest)) = 48%nat).
  { unfold packet. rewrite length_take, !length_app, !length_be_bytes, Hh. lia. }
  rewrite Hl in H. unfold splice in H at 1. rewrite Hl, take_0, app_nil_l, drop_replicate, app_nil_r in H.
  rewrite (decode_packet hdr secs frac rest Hh Hs Hf Ho) in H.
  run_inv H. run_inv H. exists x. by destruct x.
Qed.

(** ** A run against two servers *)
Definition demo_packet : bytes := packet (0x24 :: replicate 39 0) 3913056000 2147483648 [].
Definition demo_trace : list (call ev) :=
  [Call ReadConfig (Some (unlines [lit "[ntp]"; lit "server = a.example, b.example"]));
   Call BindUdp true; Call (ConnectTo (lit "a.example") 123) false;
   Call BindUdp true; Call (ConnectTo (lit "b.example") 123) true; Call (SendReq request) true;
   Call (RecvReply 48) (Some demo_packet); Call (SetClock 1704067200 500000000) true].
Lemma demo_runs_ntp : runs (run []) demo_trace 0.
Proof.
  unfold run, demo_trace. apply runs_vis. cbv zeta beta.
  replace (servers _ _) with [lit "a.example"; lit "b.example"] by (vm_compute; reflexivity). play.
Qed.

Lemma run_sets_clock_witness :
  ∃ u, demo_trace = take 1 demo_trace ++ u ∧
    Forall (λ x, 0 <= x.1.2 < 1000000000) (omap clock_set u).
Proof.
  destruct (run_sets_clock [] demo_trace 0 demo_runs_ntp) as (text & u & E & _ & Hc & _).
  - apply (bool_decide_unpack _). vm_compute. exact I.
  - exists u. split; [assert (u = tl demo_trace) as -> by (by rewrite E); reflexivity|].
    eapply Forall_impl; [exact Hc|]. intros x (_ & H & _). exact H.
Defined.

Lemma server_time_is_set_witness :
  ∃ ok, omap clock_set (drop 3 demo_trace) = [(1704067200, 500000000, ok)].
Proof.
  destruct (server_time_is_set (lit "b.example") (0x24 :: replicate 39 0) 3913056000 2147483648 []
    (drop 3 demo_trace) (Ok 1704067200)) as (ok & Hc & _); [reflexivity|split; vm_compute; congruence..|vm_compute; congruence| |reflexivity|].
  - unfold demo_trace. play.
  - exists ok. rewrite Hc. reflexivity.
Defined.

(** From 2036-02-07 06:28:16 on the 32-bit seconds start again from zero, and the
    time is refused as one before 1970. *)
Example era_one_refused :
  decode 48 (take 48 (packet (replicate 40 0) 1 0 [])) = Err (Invalid (lit "pre-1970 timestamp")).
Proof. vm_compute. reflexivity. Qed.
End Ntp.
