(* ===== verification/Main.v ===== *)
(** * Applet selection (main.rs)

    One binary serves every applet, by the name it is called with or by its
    first argument; [ifup] is the applet that main.rs holds itself. *)

From S2P Require Import Prelude Words RustStr Utf8 Num IO Sock NlSock Net.
Import Sock NlSock Net.
Open Scope Z_scope.

Module Main.

Inductive applet :=
| Init | Ifup | Dhcp | Dns | Fw | Wg | Httpd | Ipkg | Ntp | Log | Ubus | Mtd | Sysupgrade
| Version | Help
| Unknown (name : str).
#[global] Instance applet_eq_dec : EqDecision applet.
Proof. solve_decision. Defined.

(** [s.rsplit('/').next()]. *)
Definition basename (s : str) : str := default s (last (split_char (chr "/") s)).

(** [&args[n..]] aborts beyond the end. *)
Definition args_from (n : nat) (args : list str) : outcome (list str) :=
  if (n <=? length args)%nat then Done (drop n args) else Panic.

(** The name of the applet and its arguments. *)
Definition select (args : list str) : outcome (str * list str) :=
  let arg0 := match args with a :: _ => basename a | [] => lit "lwrt" end in
  let with_rest (name : str) (n : nat) :=
    match args_from n args with Done rest => Done (name, rest) | Panic => Panic end in
  if bool_decide (arg0 = lit "lwrt") || bool_decide (arg0 = []) then
    match args !! 1%nat with
    | Some a => with_rest a 2%nat
    | None => Done (lit "help", [])
    end
  else with_rest arg0 1%nat.

Definition names : list (str * applet) :=
  [(lit "init", Init); (lit "ifup", Ifup); (lit "dhcp", Dhcp); (lit "dns", Dns); (lit "fw", Fw);
   (lit "wg", Wg); (lit "httpd", Httpd); (lit "ipkg", Ipkg); (lit "ntp", Ntp); (lit "log", Log);
   (lit "ubus", Ubus); (lit "mtd", Mtd); (lit "sysupgrade", Sysupgrade); (lit "version", Version);
   (lit "help", Help); (lit "--help", Help); (lit "-h", Help)].

(** The [match] on the applet's name. *)
Definition applet_of (name : str) : applet :=
  match list_find (λ p, p.1 = name) names with
  | Some (_, p) => p.2
  | None => Unknown name
  end.

(** What [main] runs, and with which arguments. *)
Definition main (args : list str) : outcome (applet * list str) :=
  match select args with
  | Done (name, rest) => Done (applet_of name, rest)
  | Panic => Panic
  end.

(** The exit code of the applets that main.rs handles by printing. *)
Definition printed_code (a : applet) : option Z :=
  match a with
  | Version | Help => Some 0
  | Unknown _ => Some 1
  | _ => None
  end.

Definition applet_ifup (args : list str) : io ev Z :=
  match args with
  | name :: a :: m :: rest =>
      match Net.parse_v4 a, Net.parse_v4 m with
      | Ok ip, Ok mask =>
          await r := Net.configure name ip mask in
          match r with
          | Err _ => Ret 1
          | Ok _ =>
              match rest with
              | gw :: _ =>
                  match Ipv4.parse gw with
                  | Some gw => await r := Net.default_route gw in Ret 0
                  | None => Ret 0
                  end
              | [] => Ret 0
              end
          end
      | _, _ => Ret 1
      end
  | _ => Ret 1
  end.

(** * Lemmas *)
Lemma basename_path dir name : no_char (chr "/") name → basename (dir ++ chr "/" :: name) = name.
Proof.
  intros Hn. unfold basename. unfold split_char. rewrite split_on_mid by apply N.eqb_refl.
  pose proof (split_char_no_char (chr "/") name Hn) as E. unfold split_char in E. by rewrite E, last_snoc.
Qed.

Lemma basename_plain name : no_char (chr "/") name → basename name = name.
Proof. intros Hn. unfold basename. by rewrite split_char_no_char. Qed.

Lemma select_applet a0 rest :
  basename a0 ≠ lit "lwrt" → basename a0 ≠ [] → select (a0 :: rest) = Done (basename a0, rest).
Proof.
  intros H1 H2. unfold select. by rewrite !bool_decide_false by done.
Qed.
Lemma select_lwrt b0 name rest :
  basename b0 = lit "lwrt" ∨ basename b0 = [] → select (b0 :: name :: rest) = Done (name, rest).
Proof.
  intros H. unfold select. assert (bool_decide (basename b0 = lit "lwrt") || bool_decide (basename b0 = []) = true) as ->.
  { by destruct H as [-> | ->]. }
  done.
Qed.

(** * Theorems *)

(** C38. Calling the binary through a link named after an applet, from any
    directory, is the same as naming the applet in the first argument of lwrt,
    under any path of its own: the same applet with the same arguments. *)
Theorem applet_by_name_or_argument dir dir' name rest :
  no_char (chr "/") name → name ≠ lit "lwrt" → name ≠ [] →
  main ((dir ++ chr "/" :: name) :: rest) = main ((dir' ++ lit "/lwrt") :: name :: rest) ∧
  main (name :: rest) = main (lit "lwrt" :: name :: rest) ∧
  main (name :: rest) = Done (applet_of name, rest).
Proof.
  intros Hn H1 H2. unfold main.
  rewrite (select_applet (dir ++ chr "/" :: name)) by (by rewrite basename_path).
  rewrite (select_applet name) by (by rewrite basename_plain).
  rewrite (select_lwrt (dir' ++ lit "/lwrt")).
  - rewrite (select_lwrt (lit "lwrt")) by (by left). by rewrite basename_path, basename_plain.
  - left. apply (basename_path dir' (lit "lwrt")). apply (bool_decide_unpack _). vm_compute. exact I.
Qed.

(** Applet selection never indexes the arguments out of range: every command
    line, the empty one included, selects something to run. *)
Theorem selection_is_total args : ∃ a rest, main args = Done (a, rest).
Proof.
  unfold main. destruct args as [|a0 args]; [by eexists _, _|].
  destruct (decide (basename a0 = lit "lwrt" ∨ basename a0 = [])) as [H|H].
  - destruct args as [|a args]; [|rewrite select_lwrt by done; by eexists _, _].
    unfold select. by destruct H as [-> | ->]; eexists _, _.
  - rewrite select_applet by tauto. by eexists _, _.
Qed.

(** When [ifup] succeeds, its three arguments were an interface, an address
    and a mask; the interface has them and is up, no other interface changed,
    and the default route is asked for through the gateway, when one is given. *)
Theorem ifup_configures class_mask T args t :
  runs (applet_ifup args) t 0 →
  kernel_ok class_mask T t →
  (∀ name, head args = Some name → ifname_ok name) →
  ∃ name a m rest ip mask i, args = name :: a :: m :: rest ∧
    Ipv4.parse a = Some ip ∧ Ipv4.parse m = Some mask ∧ T !! Utf8.encode name = Some i ∧
    table_after class_mask T t =
      <[Utf8.encode name := Iface (Ipv4.octets ip) (Ipv4.octets mask)
          (Z.lor (if_flags i) (Z.lor IFF_UP IFF_RUNNING))]> T ∧
    match head rest ≫= Ipv4.parse with
    | Some gw => omap route_asked t = [default_rt gw] ∨ omap route_asked t = []
    | None => omap route_asked t = []
    end.
Proof.
  destruct args as [|name [|a [|m rest]]]; intros H HK Hn; cbn [applet_ifup] in H; try by run_inv H.
  unfold Net.parse_v4 in H.
  destruct (Ipv4.parse a) as [ip|] eqn:Ea; [|by run_inv H].
  destruct (Ipv4.parse m) as [mask|] eqn:Em; [|by run_inv H].
  run_inv H. apply answers_ok_app in HK as [HK _].
  pose proof (plain_asks _ (configure_plain _ _ _ _ _ H0)) as [_ Hr].
  destruct a0 as [[]|e]; [|by run_inv H].
  destruct (configure_effect class_mask T name ip mask _ (Hn name eq_refl) H0 HK) as (i & Hi & HT).
  exists name, a, m, rest, ip, mask, i. do 4 (split; [done|]).
  assert (Hg : match head rest ≫= Ipv4.parse with
    | Some gw => ∃ u r, t1 = u ∧ runs (Net.default_route gw) u r
    | None => t1 = [] end).
  { destruct rest as [|gw rest]; cbn [head mbind option_bind]; [by run_inv H|].
    destruct (Ipv4.parse gw) as [gw'|]; [|by run_inv H]. run_inv H. run_inv H.
    rewrite app_nil_r. by eexists _, _. }
  unfold table_after in *. rewrite foldl_app, HT, omap_app, Hr.
  destruct (head rest ≫= Ipv4.parse) as [gw|]; [|by subst t1].
  destruct Hg as (u & r & -> & Hu). apply (default_route_runs class_mask) in Hu as [Hu1 Hu2].
  split; [apply Hu1|]. destruct Hu2 as [-> | [_ ->]]; auto.
Qed.

(** ** Concrete command lines *)
Lemma applet_by_name_or_argument_witness :
  main [lit "/sbin/fw"; lit "flush"] = main [lit "/usr/bin/lwrt"; lit "fw"; lit "flush"] ∧
  main [lit "fw"; lit "flush"] = Done (Fw, [lit "flush"]).
Proof.
  destruct (applet_by_name_or_argument (lit "/sbin") (lit "/usr/bin") (lit "fw") [lit "flush"]) as (H1 & _ & H2);
    [apply (bool_decide_unpack _); vm_compute; exact I|discriminate..|]. split; [exact H1|exact H2].
Defined.

Example selections :
  main [] = Done (Help, []) ∧ main [lit "lwrt"] = Done (Help, []) ∧ main [lit "/bin/"; lit "ntp"] = Done (Ntp, []) ∧
  main [lit "./lwrt"; lit "nope"; lit "x"] = Done (Unknown (lit "nope"), [lit "x"]).
Proof. vm_compute. auto. Qed.

Definition demo_args : list str := [lit "lan0"; lit "10.0.0.1"; lit "255.255.255.0"; lit "10.0.0.254"].
Definition demo_route : list (call ev) :=
  [Call (Socket Inet) (Ok 3); Call (AddRoute 3 (default_rt (Ipv4.new 10 0 0 254))) (Ok tt); Call (Close 3) tt].
Lemma demo_runs_ifup : runs (applet_ifup demo_args) (Net.demo_trace ++ demo_route) 0.
Proof.
  unfold applet_ifup, demo_args, Net.parse_v4.
  replace (Ipv4.parse (lit "10.0.0.1")) with (Some (Ipv4.new 10 0 0 1)) by (vm_compute; reflexivity).
  replace (Ipv4.parse (lit "255.255.255.0")) with (Some (Ipv4.new 255 255 255 0)) by (vm_compute; reflexivity).
  replace (Ipv4.parse (lit "10.0.0.254")) with (Some (Ipv4.new 10 0 0 254)) by (vm_compute; reflexivity).
  eapply runs_bind with (a := Ok tt); [unfold Net.demo_trace, Net.demo_trace_of; cbv zeta; play|]. unfold demo_route. play.
Qed.

Lemma ifup_configures_witness :
  table_after Net.demo_mask Net.demo_table (Net.demo_trace ++ demo_route) =
    {[ Utf8.encode (lit "lan0") := Iface [10; 0; 0; 1] [255; 255; 255; 0] 0x1043 ]}.
Proof.
  destruct (ifup_configures Net.demo_mask Net.demo_table demo_args _ demo_runs_ifup)
    as (name & a & m & rest & ip & mask & i & E & Ha & Hm & Hi & HT & _).
  - apply answers_ok_app. split; [apply Net.demo_kernel_ok|]. repeat split.
  - intros name [= <-]. apply (bool_decide_unpack _). vm_compute. exact I.
  - injection E as <- <- <- _. vm_compute in Ha, Hm. injection Ha as <-. injection Hm as <-.
    rewrite HT. unfold Net.demo_table, Net.demo_table_of in Hi. rewrite lookup_singleton_eq in Hi. injection Hi as <-. reflexivity.
Defined.
End Main.
