(* ===== verification/Pool.v ===== *)
(** * Threads over a shared state

    A server that starts one thread per connection: every thread is a program
    of [IO], one call of one thread happens at a time, and the shared state
    decides which answers a call may get.  The interleaving is arbitrary. *)

From S2P Require Import Prelude IO.

Module Pool.

Section Pool.
Context {E : Set → Type} {S I A : Type}.
(** The thread of a connection, and what a call may answer and do. *)
Context (prog : I → io E A) (serves : S → call E → S → Prop).

Record pool := mkPool { shared : S; threads : list (io E A) }.

Inductive label :=
| Started (i : I)
| Performed (n : nat) (c : call E) (after : S).

Inductive step : pool → label → pool → Prop :=
| step_start s ths i : step (mkPool s ths) (Started i) (mkPool s (ths ++ [prog i]))
| step_perform s ths n c m m' s' :
    ths !! n = Some m → performs m c m' → serves s c s' →
    step (mkPool s ths) (Performed n c s') (mkPool s' (<[n := m']> ths)).

Inductive steps (p : pool) : list label → pool → Prop :=
| steps_nil : steps p [] p
| steps_snoc tr q l r : steps p tr q → step q l r → steps p (tr ++ [l]) r.

(** The connections in the order of their threads, and the calls of one. *)
Definition started_by (l : label) : option I := match l with Started i => Some i | _ => None end.
Definition started (tr : list label) : list I := omap started_by tr.
Definition call_by (n : nat) (l : label) : option (call E) :=
  match l with Performed m c _ => if decide (m = n) then Some c else None | _ => None end.
Definition calls_of (n : nat) (tr : list label) : list (call E) := omap (call_by n) tr.

(** ** Traces *)
Lemma started_app t u : started (t ++ u) = started t ++ started u.
Proof. apply omap_app. Qed.
Lemma calls_of_app n t u : calls_of n (t ++ u) = calls_of n t ++ calls_of n u.
Proof. apply omap_app. Qed.
Lemma started_start t i : started (t ++ [Started i]) = started t ++ [i].
Proof. apply started_app. Qed.
Lemma started_perform t n c s : started (t ++ [Performed n c s]) = started t.
Proof. rewrite started_app. apply app_nil_r. Qed.
Lemma calls_of_start n t i : calls_of n (t ++ [Started i]) = calls_of n t.
Proof. rewrite calls_of_app. apply app_nil_r. Qed.
Lemma calls_of_perform n t m c s :
  calls_of n (t ++ [Performed m c s]) = if decide (m = n) then calls_of n t ++ [c] else calls_of n t.
Proof. rewrite calls_of_app. cbn. case_decide; [done|apply app_nil_r]. Qed.
Lemma calls_of_elem n c t : c ∈ calls_of n t → ∃ s, Performed n c s ∈ t.
Proof.
  unfold calls_of. rewrite list_elem_of_omap. intros ([i|m c' s] & Hl & E1); [done|]. simpl in E1.
  case_decide; [|done]. simplify_eq. by exists s.
Qed.

Lemma steps_snoc_inv p t l r : steps p (t ++ [l]) r → ∃ q, steps p t q ∧ step q l r.
Proof.
  intros H. remember (t ++ [l]) as u eqn:E1. destruct H as [|tr q l' r H1 H2]; [by destruct t|].
  apply app_inj_tail in E1 as [-> ->]. by exists q.
Qed.

Lemma steps_app_inv p t u r : steps p (t ++ u) r → ∃ q, steps p t q ∧ steps q u r.
Proof.
  revert r. induction u as [|l u IH] using rev_ind; intros r H.
  - rewrite app_nil_r in H. exists r. split; [done|constructor].
  - rewrite app_assoc in H. apply steps_snoc_inv in H as (q & H1 & H2).
    destruct (IH _ H1) as (q' & H3 & H4). exists q'. split; [done|]. by eapply steps_snoc.
Qed.

Lemma steps_cons p l q tr r : step p l q → steps q tr r → steps p (l :: tr) r.
Proof.
  intros Hl H. induction H as [|tr q1 l' r H1 IH Hs]; [apply (steps_snoc _ [] p); [constructor|done]|].
  change (l :: tr ++ [l']) with ((l :: tr) ++ [l']). by eapply steps_snoc.
Qed.

(** The state in which a call of a trace was performed. *)
Lemma steps_at p t l u r : steps p (t ++ l :: u) r → ∃ q q', steps p t q ∧ step q l q' ∧ steps q' u r.
Proof.
  change (t ++ l :: u) with (t ++ ([l] ++ u)). rewrite app_assoc. intros H.
  apply steps_app_inv in H as (q' & H1 & H2). apply steps_snoc_inv in H1 as (q & H1 & H3). by exists q, q'.
Qed.

(** ** Every thread is its program part of the way *)
Record threads_ok (tr : list label) (p : pool) : Prop := {
  ok_length : length (threads p) = length (started tr);
  ok_thread n m : threads p !! n = Some m →
    ∃ i, started tr !! n = Some i ∧ reached (prog i) (calls_of n tr) m;
  ok_fresh n : (length (threads p) <= n)%nat → calls_of n tr = []
}.

Lemma step_threads tr p l q : threads_ok tr p → step p l q → threads_ok (tr ++ [l]) q.
Proof.
  intros [Hl Ht Hf] Hs. destruct Hs as [s ths i|s ths n c m m' s' Hn Hp _]; cbn [threads] in *; split;
    cbn [threads]; rewrite ?started_start, ?started_perform, ?length_app, ?length_insert; try done.
  - by rewrite Hl.
  - intros n m. rewrite calls_of_start. intros [H|[Hge H]]%lookup_app_Some.
    + destruct (Ht _ _ H) as (j & Hj & Hr). exists j. split; [by apply lookup_app_l_Some|done].
    + apply list_lookup_singleton_Some in H as [Hz <-]. exists i. rewrite Hf by done.
      replace n with (length (started tr)) by lia. split; [apply list_lookup_middle; lia|constructor].
  - intros n Hn. rewrite calls_of_start. apply Hf. lia.
  - intros k m1. rewrite calls_of_perform. case_decide as Hk.
    + subst k. rewrite list_lookup_insert_eq by (by eapply lookup_lt_Some). intros [= <-].
      destruct (Ht _ _ Hn) as (i & Hi & Hr). exists i. split; [done|]. by eapply reached_call.
    + rewrite list_lookup_insert_ne by done. apply Ht.
  - intros k Hk. rewrite calls_of_perform, decide_False; [by apply Hf|].
    apply lookup_lt_Some in Hn. lia.
Qed.

Lemma steps_threads s tr p : steps (mkPool s []) tr p → threads_ok tr p.
Proof.
  intros H. induction H as [|tr q l r _ IH Hs]; [by split; intros; simplify_list_eq|].
  by eapply step_threads.
Qed.

(** A call made by a thread belongs to a complete run of its program that
    begins with the calls the thread made before. *)
Lemma performed_run (answer : ∀ X, E X → X) s t n c s' u p :
  steps (mkPool s []) (t ++ Performed n c s' :: u) p →
  ∃ i v a, started t !! n = Some i ∧ runs (prog i) (calls_of n t ++ c :: v) a.
Proof.
  intros H. apply steps_at in H as (q & q' & H1 & H2 & _).
  remember (Performed n c s') as l eqn:El. destruct H2 as [|s1 ths n' c' m m' s2 Hn Hp _]; [done|].
  injection El as -> -> ->.
  destruct (ok_thread _ _ (steps_threads _ _ _ H1) _ _ Hn) as (i & Hi & Hr).
  destruct (reached_completes answer _ _ _ (reached_call _ _ _ _ _ Hr Hp)) as (v & a & Hv).
  exists i, v, a. split; [done|]. by rewrite <-app_assoc in Hv.
Qed.
(** Concrete steps: the next call of thread [n]. *)
Lemma steps_perform s ths n m c m' s' tr r :
  ths !! n = Some m → performs m c m' → serves s c s' → steps (mkPool s' (<[n := m']> ths)) tr r →
  steps (mkPool s ths) (Performed n c s' :: tr) r.
Proof. intros. eapply steps_cons; [by eapply step_perform|done]. Qed.
End Pool.

Arguments pool : clear implicits.
Arguments label : clear implicits.
Arguments Started {_ _ _} i.
Arguments Performed {_ _ _} n c after.

End Pool.
