(* ===== verification/HttpdPool.v ===== *)
(** * The web interface under load (httpd.rs: run, handle, Sessions)

    One thread per connection, all of them over one session store.  The threads
    are the programs of [Httpd.handle], interleaved call by call as in [Pool];
    a call on the store holds its lock, so it is one step.  Every other call is
    answered arbitrarily.  The clock never goes back. *)

From S2P Require Import Prelude Words RustStr IO Utf8 Config Settings Sha256 Httpd Pool.
Import Httpd Pool.
Open Scope Z_scope.

Module HttpdPool.

(** The shared state: the monotonic clock and the sessions. *)
Record Store := mkStore { clock : Z; sessions : Sessions }.
Definition boot_store : Store := mkStore 0 no_sessions.

(** What a call answers and does.  [valid] reads the clock once, [insert]
    twice. *)
Definition serves (s : Store) (c : call ev) (s' : Store) : Prop :=
  clock s <= clock s' ∧
  match c with
  | Call e x =>
      match e in ev X return X → Prop with
      | SessionValid tok => λ ok, ok = valid (clock s') tok (sessions s) ∧ sessions s' = sessions s
      | SessionInsert tok => λ _, ∃ now, clock s <= now <= clock s' ∧
          sessions s' = insert_session now (clock s') tok (sessions s)
      | _ => λ _, sessions s' = sessions s
      end x
  end.

Definition server : Type := pool ev Store (option bytes).
Definition trace : Type := list (label ev Store bytes).
Definition idle : server := mkPool boot_store [].
Definition run_of (tr : trace) (p : server) : Prop := steps handle serves idle tr p.

(** * Specifications *)

(** The request of a thread and the configuration it has loaded. *)
Definition asks (tr : trace) (n : nat) (req : Request) (text : option str) : Prop :=
  ∃ input, started tr !! n = Some input ∧ read_request input = Some req ∧
    head (calls_of n tr) = Some (Call (ReadFile Config.PATH) text).

(** The login check of a request passed. *)
Definition admits (req : Request) (text : option str) : Prop :=
  method req = POST ∧ path req = lit "/ui/login" ∧
  (auth_required (Config.load text) = false ∨
   verify_password (Config.load text) (default [] (field (parse_form (body req)) (lit "password"))) = true).

(** Token [tok] was stored at time [at_]. *)
Definition issued (tr : trace) (tok : str) (at_ : Z) : Prop :=
  ∃ n s, Performed n (Call (SessionInsert tok) tt) s ∈ tr ∧ clock s = at_.

(** [tok] was stored at time [at_], by a request that passed the login check. *)
Definition logged_in (tr : trace) (tok : str) (at_ : Z) : Prop :=
  ∃ ta n s tb req text, tr = ta ++ Performed n (Call (SessionInsert tok) tt) s :: tb ∧ clock s = at_ ∧
    asks ta n req text ∧ admits req text.

(** The configuration file through a trace: a load answers its content, a
    write that succeeds replaces it. *)
Definition file_step (c : call ev) (file file' : option str) : Prop :=
  match c with
  | Call e x =>
      match e in ev X return X → Prop with
      | ReadFile p => λ t, file' = file ∧ (p = Config.PATH → t = file)
      | WriteFile p data => λ ok,
          file' = if (ok : bool) && bool_decide (p = Config.PATH) then Utf8.from_utf8 data else file
      | _ => λ _, file' = file
      end x
  end.
Fixpoint file_through (file : option str) (tr : trace) (file' : option str) : Prop :=
  match tr with
  | [] => file' = file
  | Started _ :: tr => file_through file tr file'
  | Performed _ c _ :: tr => ∃ f, file_step c file f ∧ file_through f tr file'
  end.

(** * Lemmas *)

Lemma handle_runs input t a :
  runs (handle input) t a →
  t = [] ∨ ∃ req text u r, read_request input = Some req ∧
    t = Call (ReadFile Config.PATH) text :: u ∧ runs (route req (Config.load text)) u r.
Proof.
  unfold handle. destruct (read_request input) as [req|]; intros H; [|run_inv H; by left].
  right. unfold load_config in H. cbn [io_bind] in H. run_inv H. run_inv H. run_inv H.
  rewrite app_nil_r. eauto 10.
Qed.

(** Any answers at all. *)
Definition some_answer (X : Set) (e : ev X) : X :=
  match e in ev X return X with
  | SessionValid _ => false | SessionInsert _ => tt | ReadFile _ => None | CreateDirAll _ => false
  | WriteFile _ _ => false | OpenRandom => false | ReadRandom => [] | KillInit => tt
  end.

(** A thread that does more than load the configuration runs the router. *)
Lemma thread_routes ta n c s tb p :
  run_of (ta ++ Performed n c s :: tb) p → (∀ text, c ≠ Call (ReadFile Config.PATH) text) →
  ∃ req text u v r, asks ta n req text ∧ calls_of n ta = Call (ReadFile Config.PATH) text :: u ∧
    runs (route req (Config.load text)) (u ++ c :: v) r.
Proof.
  intros H Hc. destruct (performed_run _ _ some_answer _ _ _ _ _ _ _ H) as (i & v & a & Hi & Hr).
  apply handle_runs in Hr as [E1|(req & text & u & r & Hreq & E1 & Hr)]; [by destruct (calls_of n ta)|].
  destruct (calls_of n ta) as [|c0 cs] eqn:Ec; [by injection E1 as -> _; destruct (Hc text)|].
  injection E1 as -> <-. exists req, text, cs, v, r. split; [|done].
  exists i. split; [done|]. split; [done|]. by rewrite Ec.
Qed.

(** The store against the trace: an entry is an issue, and the entry of an issue
    less than the time to live old is still there, or a later one. *)
Record store_ok (tr : trace) (s : Store) : Prop := {
  ok_entry tok t : tokens (sessions s) !! tok = Some t → issued tr tok t;
  ok_kept tok t : issued tr tok t → t <= clock s ∧
    (clock s - t < SESSION_TTL → ∃ t', t <= t' ∧ tokens (sessions s) !! tok = Some t')
}.

Lemma issued_snoc tr l tok t :
  issued (tr ++ [l]) tok t ↔ issued tr tok t ∨ ∃ n s, l = Performed n (Call (SessionInsert tok) tt) s ∧ clock s = t.
Proof. unfold issued. setoid_rewrite elem_of_app. setoid_rewrite list_elem_of_singleton. naive_solver. Qed.

Definition insert_of (c : call ev) : option str :=
  match c with Call e _ => match e with SessionInsert tok => Some tok | _ => None end end.

Lemma insert_of_call c tok : insert_of c = Some tok → c = Call (SessionInsert tok) tt.
Proof. destruct c as [X e x]. destruct e; try done. destruct x. by intros [= ->]. Qed.

Lemma serves_other s c s' : serves s c s' → insert_of c = None → clock s <= clock s' ∧ sessions s' = sessions s.
Proof. intros [Hc H]. split; [done|]. destruct c as [X e x]. destruct e; try done. by destruct H. Qed.

Lemma store_ok_same tr s l s' :
  store_ok tr s → clock s <= clock s' → sessions s' = sessions s →
  (∀ n tok s, l ≠ Performed n (Call (SessionInsert tok) tt) s) → store_ok (tr ++ [l]) s'.
Proof.
  intros [He Hk] Hc Hs Hl. split; intros tok t; rewrite issued_snoc, ?Hs.
  - intros H. left. by apply He.
  - intros [H|(n & s1 & E1 & _)]; [|by apply Hl in E1]. destruct (Hk _ _ H) as [H1 H2].
    split; [lia|]. intros H3. apply H2. lia.
Qed.

Lemma store_ok_insert tr s n tok now s' :
  store_ok tr s → clock s <= now <= clock s' →
  sessions s' = insert_session now (clock s') tok (sessions s) →
  store_ok (tr ++ [Performed n (Call (SessionInsert tok) tt) s']) s'.
Proof.
  intros [He Hk] Hn Hs. split; intros k t; rewrite issued_snoc, Hs, tokens_insert.
  - case_bool_decide as Ek; [intros [= <-]; subst k; right; eauto|].
    destruct (tokens (sessions s) !! k) as [t0|] eqn:Et; [|done].
    destruct (_ <? _); [|done]. intros [= <-]. left. by apply He.
  - assert (Ho : issued tr k t → t <= clock s) by (intros H; by destruct (Hk _ _ H)).
    intros [H|(n1 & s1 & E1 & <-)].
    + split; [specialize (Ho H); lia|]. intros Hlt. case_bool_decide as Ek; [exists (clock s'); specialize (Ho H); split; [lia|done]|].
      destruct (Hk _ _ H) as [_ H2]. destruct H2 as (t' & Ht & E2); [lia|]. rewrite E2.
      exists t'. split; [done|]. destruct (Z.ltb_spec (now - t') SESSION_TTL); [done|lia].
    + injection E1 as <- <- <-. split; [done|]. intros _. rewrite bool_decide_eq_true_2 by done. exists (clock s'). split; [lia|done].
Qed.

Lemma run_store tr p : run_of tr p → store_ok tr (shared p).
Proof.
  intros H. induction H as [|tr q l r _ IH Hs].
  - split; intros tok t; [done|]. by intros (n & s & Hin & _); apply elem_of_nil in Hin.
  - destruct Hs as [s ths i|s ths n c m m' s' _ _ Hs]; cbn [shared] in *.
    + eapply store_ok_same; [exact IH|done..].
    + destruct (insert_of c) as [tok|] eqn:Ei.
      * apply insert_of_call in Ei as ->. destruct Hs as [_ (now & Hn & Hs)]. by eapply store_ok_insert.
      * destruct (serves_other _ _ _ Hs Ei) as [Hc He]. eapply store_ok_same; [done..|].
        intros n1 tok s1 [= _ E1 _]. by rewrite E1 in Ei.
Qed.

(** The state a call of a trace was performed in. *)
Lemma run_at ta n c s tb p : run_of (ta ++ Performed n c s :: tb) p → ∃ q, run_of ta q ∧ serves (shared q) c s.
Proof.
  intros H. apply steps_at in H as (q & q' & H1 & H2 & _). exists q. split; [done|].
  remember (Performed n c s) as l eqn:El. destruct H2 as [|s1 ths n' c' m m' s2 _ _ Hs]; [done|].
  by injection El as _ <- <-.
Qed.

(** Every stored token was issued by a login. *)
Lemma issued_logged_in tr p tok t : run_of tr p → issued tr tok t → logged_in tr tok t.
Proof.
  intros H (n & s & Hin & Ht). apply list_elem_of_split in Hin as (ta & tb & ->).
  destruct (thread_routes _ _ _ _ _ _ H) as (req & text & u & v & r & Ha & _ & Hr); [by intros ? [=]|].
  exists ta, n, s, tb, req, text. split; [done|]. split; [done|]. split; [done|].
  apply session_needs_password in Hr as (H1 & H2 & H3 & _); [done|].
  intros [_ Hq]%no_insert_app. by apply Forall_cons in Hq as [? _].
Qed.

(** * Theorems *)

(** C17. A session lasts one hour from its last login and no longer, whatever
    the other threads do: in every interleaving the store accepts a token
    exactly when some thread stored it less than the time to live before the
    check; the expiry run of other logins never shortens a session. *)
Theorem session_lasts ta n tok ok s tb p :
  run_of (ta ++ Performed n (Call (SessionValid tok) ok) s :: tb) p →
  ok = true ↔ ∃ t, issued ta tok t ∧ t <= clock s < t + SESSION_TTL.
Proof.
  intros H. destruct (run_at _ _ _ _ _ _ H) as (q & Hq & Hc & -> & _).
  destruct (run_store _ _ Hq) as [He Hk]. unfold valid. split.
  - destruct (tokens (sessions (shared q)) !! tok) as [t|] eqn:Et; [|done]. intros Hlt%Z.ltb_lt.
    apply He in Et. exists t. destruct (Hk _ _ Et). split; [done|]. lia.
  - intros (t & Hi & Ht). destruct (Hk _ _ Hi) as [_ (t' & Hle & ->)]; [lia|].
    apply Z.ltb_lt. lia.
Qed.

(** C16. Whoever changes the device has logged in: in every interleaving of any
    number of connections, a thread writes the settings or signals init only if
    the configuration it loaded sets no admin password, or its request carries
    the same token as cookie and as X-CSRF-Token header and the store accepted
    that token at a time less than one hour after a login request had stored
    it.  That login gave the password of the configuration it had loaded, or
    that configuration set no password: a token issued in open mode stays valid
    after a password is set ([open_session_outlives_password]). *)
Theorem changes_need_login ta n c s tb p :
  run_of (ta ++ Performed n c s :: tb) p → changes c →
  ∃ req text, asks ta n req text ∧
    (auth_required (Config.load text) = false ∨
     ∃ tok t1 s1 t2 at_, ta = t1 ++ Performed n (Call (SessionValid tok) true) s1 :: t2 ∧
       req_cookie req = Some tok ∧ csrf req = Some tok ∧
       logged_in t1 tok at_ ∧ at_ <= clock s1 < at_ + SESSION_TTL).
Proof.
  intros H Hc.
  destruct (thread_routes _ _ _ _ _ _ H) as (req & text & u & v & r & Ha & Hu & Hr); [by intros ? ->|].
  exists req, text. split; [done|].
  apply changes_need_session in Hr as [?|(tok & rest & E1 & Hk & Hf)]; [by left| |].
  2: { intros [_ Hq]%quiet_app. by apply Forall_cons in Hq as [? _]. }
  right. destruct u as [|c1 u]; [by injection E1 as -> _; destruct Hc|]. injection E1 as -> _.
  assert (Hin : Call (SessionValid tok) true ∈ calls_of n ta) by (rewrite Hu; set_solver).
  apply calls_of_elem in Hin as (s1 & (t1 & t2 & ->)%list_elem_of_split).
  rewrite <-app_assoc in H. cbn [app] in H. pose proof H as Hs.
  destruct (run_at _ _ _ _ _ _ H) as (q & Hq & Hserve & Hok & _).
  destruct (run_store _ _ Hq) as [He Hkept]. symmetry in Hok. unfold valid in Hok.
  destruct (tokens (sessions (shared q)) !! tok) as [t|] eqn:Et; [|done]. apply Z.ltb_lt in Hok.
  apply He in Et. destruct (Hkept _ _ Et) as [Hle _].
  exists tok, t1, s1, t2, t. split; [done|]. split; [done|]. split; [done|].
  split; [by eapply issued_logged_in|]. lia.
Qed.
(** ** A login and a reboot, on two connections that overlap *)
Definition demo_config : option str := Some (lit "[admin]
password = x").
Definition demo_token : str := Sha.hex (replicate 16 0).
Definition demo_login : bytes := Utf8.encode (lit "POST /ui/login
content-length: 10

password=x").
Definition demo_reboot : bytes := Utf8.encode (lit "POST /ui/reboot
cookie: session=00000000000000000000000000000000
x-csrf-token: 00000000000000000000000000000000

").
Definition demo_load : call ev := Call (ReadFile Config.PATH) demo_config.
Definition demo_before : trace :=
  [Started demo_login; Started demo_reboot;
   Performed 0 demo_load (mkStore 5 no_sessions); Performed 0 (Call OpenRandom false) (mkStore 6 no_sessions);
   Performed 1 demo_load (mkStore 6 no_sessions);
   Performed 0 (Call (SessionInsert demo_token) tt) (mkStore 7 (insert_session 7 7 demo_token no_sessions))].
Definition demo_check : label ev Store bytes :=
  Performed 1 (Call (SessionValid demo_token) true) (mkStore 9 (insert_session 7 7 demo_token no_sessions)).
Definition demo_kill : label ev Store bytes :=
  Performed 1 (Call KillInit tt) (mkStore 9 (insert_session 7 7 demo_token no_sessions)).

Ltac perform_demo :=
  eapply steps_perform;
    [reflexivity
    |lazymatch goal with |- performs ?m _ _ => let m' := eval hnf in m in change m with m' end;
     cbv beta iota delta [performs]; eexists; split; reflexivity
    |split; [cbn; lia|]; try reflexivity
    |cbn [insert list_insert alter list_alter]].

Lemma demo_pool_runs : ∃ p, run_of (demo_before ++ [demo_check; demo_kill]) p.
Proof.
  eexists. unfold run_of, demo_before, demo_check, demo_kill. cbn [app].
  do 2 (eapply steps_cons; [apply step_start|]). cbn [app].
  do 3 perform_demo.
  perform_demo. { exists 7. split; [cbn; lia|reflexivity]. }
  perform_demo. { split; [vm_compute; reflexivity|reflexivity]. }
  perform_demo. constructor.
Qed.

Lemma session_lasts_witness :
  ∃ p, run_of (demo_before ++ demo_check :: [demo_kill]) p ∧
    (true = true ↔ ∃ t, issued demo_before demo_token t ∧ t <= 9 < t + SESSION_TTL).
Proof.
  destruct demo_pool_runs as [p H]. exists p. split; [exact H|].
  exact (session_lasts demo_before 1 demo_token true _ [demo_kill] p H).
Defined.

Lemma changes_need_login_witness :
  ∃ req text, asks (demo_before ++ [demo_check]) 1 req text ∧
    (auth_required (Config.load text) = false ∨
     ∃ tok t1 s1 t2 at_,
       demo_before ++ [demo_check] = t1 ++ Performed 1 (Call (SessionValid tok) true) s1 :: t2 ∧
       req_cookie req = Some tok ∧ csrf req = Some tok ∧
       logged_in t1 tok at_ ∧ at_ <= clock s1 < at_ + SESSION_TTL).
Proof.
  destruct demo_pool_runs as [p H].
  exact (changes_need_login (demo_before ++ [demo_check]) 1 (Call KillInit tt) _ [] p H I).
Defined.

(** ** A session of the time without a password

    The first connection logs in while the configuration sets no password; then
    one is set, and with it in force the second connection restarts the router
    with the token of the first.  No login ever gave the password. *)
Definition open_load : call ev := Call (ReadFile Config.PATH) (Some []).
Definition open_then_closed : trace :=
  [Started demo_login; Started demo_reboot;
   Performed 0 open_load (mkStore 5 no_sessions); Performed 0 (Call OpenRandom false) (mkStore 6 no_sessions);
   Performed 0 (Call (SessionInsert demo_token) tt) (mkStore 7 (insert_session 7 7 demo_token no_sessions));
   Performed 1 demo_load (mkStore 8 (insert_session 7 7 demo_token no_sessions)); demo_check; demo_kill].
Example open_session_outlives_password :
  (∃ p, run_of open_then_closed p) ∧
  auth_required (Config.load demo_config) = true ∧ auth_required (Config.load (Some [])) = false.
Proof.
  split; [|split; vm_compute; reflexivity].
  eexists. unfold run_of, open_then_closed, demo_check, demo_kill.
  do 2 (eapply steps_cons; [apply step_start|]). cbn [app].
  do 2 perform_demo.
  perform_demo. { exists 7. split; [cbn; lia|reflexivity]. }
  perform_demo.
  perform_demo. { split; [vm_compute; reflexivity|reflexivity]. }
  perform_demo. constructor.
Qed.

(** ** Two settings forms at once

    Loading, merging and writing hold no lock: of two overlapping saves the
    later write drops the change of the earlier one. *)
Definition old_config : str := lit "[system]
hostname = old
[wifi]
ssid = old
[dhcp]
enabled = 0
".
Definition save_request (form : str) : bytes := Utf8.encode (lit "POST /ui/settings
content-length: 11

" ++ form).
Definition host_saved : str := lit "[system]
hostname = a
[wifi]
ssid = old
[dhcp]
enabled = 0
".
Definition ssid_saved : str := lit "[system]
hostname = old
[wifi]
ssid = b
[dhcp]
enabled = 0
".
Definition at_rest : Store := boot_store.
Definition overlapping_saves : trace :=
  [Started (save_request (lit "hostname=a&")); Started (save_request (lit "wifi_ssid=b"))] ++
  map (λ '(n, c), Performed n c at_rest)
    [(0%nat, Call (ReadFile Config.PATH) (Some old_config)); (1%nat, Call (ReadFile Config.PATH) (Some old_config));
     (0%nat, Call (ReadFile Config.PATH) (Some old_config)); (1%nat, Call (ReadFile Config.PATH) (Some old_config));
     (0%nat, Call (CreateDirAll (lit "/etc/lwrt")) true); (1%nat, Call (CreateDirAll (lit "/etc/lwrt")) true);
     (0%nat, Call (WriteFile Config.PATH (Utf8.encode host_saved)) true);
     (1%nat, Call (WriteFile Config.PATH (Utf8.encode ssid_saved)) true)].

Lemma overlapping_save_is_lost :
  (∃ p, run_of overlapping_saves p) ∧
  file_through (Some old_config) overlapping_saves (Some ssid_saved) ∧
  Config.get (Config.parse ssid_saved) (lit "system") (lit "hostname") = Some (lit "old").
Proof.
  split; [|split; [|vm_compute; reflexivity]].
  - eexists. unfold run_of, overlapping_saves, at_rest. cbn [app map].
    do 2 (eapply steps_cons; [apply step_start|]). cbn [app].
    do 8 perform_demo. constructor.
  - unfold overlapping_saves. cbn [app map file_through].
    do 4 (exists (Some old_config); split; [split; [|intros _]; reflexivity|]).
    do 2 (exists (Some old_config); split; [reflexivity|]).
    exists (Some host_saved). split; [vm_compute; reflexivity|].
    exists (Some ssid_saved). split; [vm_compute; reflexivity|reflexivity].
Qed.

End HttpdPool.
