(* ===== verification/Boot.v ===== *)
(** * Boot against the firewall (init.rs: run, run_oneshot; main.rs; fw.rs)

    PID 1 waits for the firewall applet before it starts the services, and the
    applet waits for 32 acknowledgements.  Here the two programs are put
    together: a wait is answered only when the child has come to an end, and
    the ends a child can come to are those of [Sys.exec_self] and of the applet
    that main selects from its arguments.  Everything in this file is
    specification: the programs are those of [Init], [Sys], [Main], [FwRun]. *)

From S2P Require Import Prelude RustStr IO Utf8 Num Config Sock.
From S2P Require Init Main Nl FwRun Sys.
Import Init.Init.
Open Scope Z_scope.

Module Boot.

(** How a child process came to its end: neither image could be executed and it
    exited with 127; a signal killed it; or its applet made the calls [u] and
    returned [code]. *)
Inductive ending : Type :=
| NotExecuted
| Killed
| Returned (u : list (call Sock.ev)) (code : Z).

(** The ends a process forked with arguments [argv] can come to, when the
    configuration file holds [text] and the kernel acknowledges each flagged
    netlink message once on a blocking socket.  Nothing is asked of the applets
    other than the firewall. *)
Definition can_end (text : option str) (argv : list str) (o : ending) : Prop :=
  match o with
  | NotExecuted => ∃ t, runs (Sys.Sys.exec_self argv) t 127
  | Killed => True
  | Returned u code =>
      match Main.Main.main argv with
      | Done (Main.Main.Fw, args) =>
          runs (FwRun.FwRun.run args) (Call Sock.ReadConfig text :: u) code ∧
          FwRun.FwRun.kernel_acks (Call Sock.ReadConfig text :: u)
      | _ => True
      end
  end.

(** [waitpid] on a living child is answered when the child has ended; [l] are
    the living children and [how] tells the end each process came to. *)
Definition ended (text : option str) (how : Z → ending) (l : list (Z * list str)) (c : call ev) : Prop :=
  match c with
  | Call e _ =>
      match e with WaitPid pid => ∀ argv, (pid, argv) ∈ l → can_end text argv (how pid) | _ => True end
  end.
Fixpoint waits_answered (text : option str) (how : Z → ending) (l : list (Z * list str))
    (t : list (call ev)) : Prop :=
  match t with
  | [] => True
  | c :: t => ended text how l c ∧ waits_answered text how (children_step l c) t
  end.

(** The firewall process failed: it could not be executed, it was killed, or it
    returned an error after a socket call that failed or an acknowledgement
    that refused a command. *)
Definition failed_end (o : ending) : Prop :=
  match o with
  | NotExecuted | Killed => True
  | Returned u code => code ≠ 0 ∧ Exists (λ c, ¬ FwRun.FwRun.accepts c) u
  end.

Definition forked (c : call ev) : option (list str) :=
  match c with Call e _ => match e with Fork argv => Some argv | _ => None end end.
(** The call starts no service. *)
Definition starts_none (c : call ev) : Prop := ∀ argv, forked c = Some argv → argv ∉ SERVICES.

(** * Lemmas *)

Lemma waits_app text how t u : ∀ l,
  waits_answered text how l (t ++ u) ↔
  waits_answered text how l t ∧ waits_answered text how (foldl children_step l t) u.
Proof. induction t as [|c t IH]; intros l; simpl; [tauto|]. rewrite IH. tauto. Qed.

Definition some_answer (X : Set) (e : ev X) : X :=
  match e in ev X return X with
  | CatchTerm => tt | Mkdir _ _ => tt | Mount _ _ _ _ _ => false | ReadConfig => None | NetUp _ => tt
  | NetConfigure _ _ _ => false | DefaultRoute _ => tt | Fork _ => None | WaitPid _ => tt
  | LoadStop => false | WaitAny => 0 | KillAll => tt | Reboot => tt
  end.

Lemma oneshot_runs argv t u :
  runs (run_oneshot argv) t u →
  t = [Call (Fork argv) None] ∨ ∃ pid, t = [Call (Fork argv) (Some pid); Call (WaitPid pid) tt].
Proof.
  unfold run_oneshot. intros H. run_inv H. destruct x as [pid|]; [|run_inv H; by left].
  run_inv H. run_inv H. destruct x. right. by exists pid.
Qed.

Lemma oneshot_ends text how argv l t u :
  runs (run_oneshot argv) t u → waits_answered text how l t →
  Call (Fork argv) None ∈ t ∨
  ∃ pid, Call (Fork argv) (Some pid) ∈ t ∧ Call (WaitPid pid) tt ∈ t ∧ can_end text argv (how pid).
Proof.
  intros [->|[pid ->]]%oneshot_runs Hw; [left; apply list_elem_of_singleton; done|].
  right. exists pid. destruct Hw as [_ [Hw _]].
  split; [by left|]. split; [by right; left|]. apply (Hw argv). set_solver.
Qed.

Lemma accepts_or c : FwRun.FwRun.accepts c ∨ ¬ FwRun.FwRun.accepts c.
Proof.
  destruct c as [X e x]. destruct e as [| | |fd n| | | | |]; cbn; try (by left);
    try (destruct x as [a|e]; [left; by exists a|right; by intros [? [=]]]).
  destruct x as [d|e]; [|right; by intros (? & [=] & _)].
  destruct (Nl.Nl.ack_of (take n d)) as [[]|e] eqn:E; [left; by exists d|].
  right. intros (d' & [= <-] & E'). congruence.
Qed.

Lemma all_accept_or (u : list (call Sock.ev)) :
  Forall FwRun.FwRun.accepts u ∨ Exists (λ c, ¬ FwRun.FwRun.accepts c) u.
Proof.
  induction u as [|c u [IH|IH]]; [by left| |right; by apply Exists_cons_tl].
  destruct (accepts_or c); [left; by constructor|right; by apply Exists_cons_hd].
Qed.

(** With fewer than 32 acknowledgements to come, the firewall process ends only
    by failing. *)
Lemma fw_fails text o :
  Z.of_nat (length (Utf8.encode (FwRun.FwRun.lan_of text))) < 2 ^ 31 →
  (FwRun.FwRun.acks_of text < 32)%nat → can_end text [lit "fw"] o → failed_end o.
Proof.
  intros Hlan Hacks. destruct o as [| |u code]; [done..|]. intros [Hr Hq].
  assert (¬ (code = 0 ∨ Forall FwRun.FwRun.accepts u)) as Hno.
  { intros H. pose proof (FwRun.FwRun.returns_with_32 _ _ _ _ Hlan Hr Hq H). lia. }
  split; [tauto|]. destruct (all_accept_or u); [tauto|done].
Qed.

Lemma oneshot_starts_none argv t u : argv ∉ SERVICES → runs (run_oneshot argv) t u → Forall starts_none t.
Proof.
  intros Hs [->|[pid ->]]%oneshot_runs; repeat constructor; by intros a [= <-].
Qed.

Lemma mount_starts_none t u : runs mount_all t u → Forall starts_none t.
Proof.
  unfold mount_all. generalize mounts. intros l. revert t. induction l as [|[[[[src tgt] fs] fl] d] l IH]; intros t H.
  - cbn [mount_each] in H. by run_inv H.
  - cbn [mount_each] in H. run_inv H. run_inv H. apply IH in H. by repeat (constructor; [done|]).
Qed.

(** A branch that forks nothing. *)
Ltac no_fork H := repeat (run_inv H || case_match); repeat (constructor; [done|]); constructor.

Lemma network_starts_none cfg t u : runs (bring_up_network cfg) t u → Forall starts_none t.
Proof.
  unfold bring_up_network. intros H. run_inv H. constructor; [done|]. run_inv H. apply Forall_app. split.
  - unfold bring_up_lan in H0. no_fork H0.
  - unfold bring_up_wan in H. case_bool_decide.
    + eapply oneshot_starts_none; [|exact H]. apply (bool_decide_unpack _). vm_compute. exact I.
    + case_bool_decide; [|no_fork H]. apply runs_bind_inv in H as (ta & tb & [] & -> & Ha & Hb).
      apply Forall_app. split; [unfold static_address in Ha; no_fork Ha|unfold static_route in Hb; no_fork Hb].
Qed.

(** What [boot] does: nothing before the firewall but calls that start no
    service, then the firewall. *)
Lemma boot_runs t u :
  runs boot t u → Forall starts_none t ∧
  ∃ t1 t2 t3, t = t1 ++ t2 ++ t3 ∧ runs (run_oneshot [lit "fw"]) t2 tt.
Proof.
  unfold boot. intros H. run_inv H. apply runs_bind_inv in H as (ta & tb & [] & -> & Hm & H).
  run_inv H. cbv zeta in H. apply runs_bind_inv in H as (tn & tr & [] & -> & Hn & H).
  apply runs_bind_inv in H as (tf & tw & [] & -> & Hf & Hw). split.
  - apply mount_starts_none in Hm. apply network_starts_none in Hn.
    apply oneshot_starts_none in Hf; [|apply (bool_decide_unpack _); vm_compute; exact I].
    assert (Forall starts_none tw).
    { case_bool_decide; [|no_fork Hw]. eapply oneshot_starts_none; [|exact Hw].
      apply (bool_decide_unpack _). vm_compute. exact I. }
    constructor; [done|]. apply Forall_app. split; [done|]. constructor; [done|].
    apply Forall_app. split; [done|]. by apply Forall_app.
  - eexists (_ :: ta ++ _ :: tn), tf, tw. split; [|exact Hf]. cbn [app]. by rewrite <-app_assoc.
Qed.

(** * Theorem *)

(** C9. With fewer than 32 acknowledgements to come (the default configuration
    brings 12 about), and a LAN interface name below 2^31 bytes, the router
    starts a service only after the firewall has failed: at every point of every
    run of PID 1, whatever the system answers, either no log, bus, DHCP, DNS or
    web process has been forked, or the fork of the firewall process failed, or
    PID 1 waited for a firewall process that could not be executed, was killed,
    or returned an error because a socket call failed or a command of the batch
    was refused.  A firewall that loads its ruleset never lets the router boot. *)
Theorem no_service_starts rounds text how t m :
  Z.of_nat (length (Utf8.encode (FwRun.FwRun.lan_of text))) < 2 ^ 31 →
  (FwRun.FwRun.acks_of text < 32)%nat →
  reached (run rounds) t m → waits_answered text how [] t →
  Forall starts_none t ∨
  Call (Fork [lit "fw"]) None ∈ t ∨
  ∃ pid, Call (Fork [lit "fw"]) (Some pid) ∈ t ∧ Call (WaitPid pid) tt ∈ t ∧ failed_end (how pid).
Proof.
  intros Hlan Hacks H Hw. unfold run in H. apply reached_bind_inv in H as [(m1 & H & _)|(ta & tb & [] & -> & H & _)].
  - left. apply (reached_completes some_answer) in H as (u & a & H). apply boot_runs in H as [H _].
    by apply Forall_app in H as [H _].
  - right. apply boot_runs in H as (_ & t1 & t2 & t3 & -> & H).
    rewrite <-!app_assoc, !waits_app in Hw. destruct Hw as (_ & Hw & _).
    apply (oneshot_ends text how _ _ _ _ H) in Hw as [Hw|(pid & H1 & H2 & H3)]; [left; set_solver|].
    right. exists pid. split; [set_solver|]. split; [set_solver|]. by apply (fw_fails text).
Qed.
Definition demo_boot : list (call ev) :=
  [Call CatchTerm tt] ++
  concat (map (λ '(src, tgt, fs, flags, data), [Call (Mkdir tgt 493) tt; Call (Mount src tgt fs flags data) true]) mounts) ++
  [Call ReadConfig None; Call (NetUp (lit "lo")) tt;
   Call (NetConfigure (lit "br-lan") (Ipv4.new 192 168 1 1) (Ipv4.new 255 255 255 0)) true;
   Call (Fork [lit "dhcp"; lit "client"]) (Some 20); Call (WaitPid 20) tt; Call (Fork [lit "fw"]) (Some 21)].

Lemma demo_network :
  runs (bring_up_network (Config.load None))
    [Call (NetUp (lit "lo")) tt; Call (NetConfigure (lit "br-lan") (Ipv4.new 192 168 1 1) (Ipv4.new 255 255 255 0)) true;
     Call (Fork [lit "dhcp"; lit "client"]) (Some 20); Call (WaitPid 20) tt] tt.
Proof.
  unfold bring_up_network, bring_up_lan, bring_up_wan. set (cfg := Config.load None).
  replace (Config.get_or cfg (lit "lan") (lit "ifname") (lit "br-lan")) with (lit "br-lan") by (vm_compute; reflexivity).
  replace (Ipv4.parse (Config.get_or cfg (lit "lan") (lit "ipaddr") (lit "192.168.1.1")))
    with (Some (Ipv4.new 192 168 1 1)) by (vm_compute; reflexivity).
  replace (Ipv4.parse (Config.get_or cfg (lit "lan") (lit "netmask") (lit "255.255.255.0")))
    with (Some (Ipv4.new 255 255 255 0)) by (vm_compute; reflexivity).
  replace (bool_decide (Config.get_or cfg (lit "wan") (lit "proto") (lit "dhcp") = lit "dhcp")) with true
    by (vm_compute; reflexivity).
  do 4 (apply runs_vis; cbv beta). done.
Qed.

Lemma demo_boot_reached : ∃ m, reached (run 1) demo_boot m.
Proof.
  eexists. unfold run, boot, demo_boot. cbn [app concat map mounts]. do 12 advance_step.
  change (?a :: ?b :: ?c :: ?d :: ?l) with ([a; b; c; d] ++ l).
  apply reached_within. eapply reached_bind; [exact demo_network|]. advance.
Qed.

Lemma demo_not_failed : Call (Fork [lit "fw"]) None ∉ demo_boot.
Proof.
  intros Hin. apply (list_elem_of_fmap_2 (λ c, match c with Call e x =>
    match e in ev X return X → bool with Fork [[102%N; 119%N]] => λ r, match r with None => true | _ => false end
    | _ => λ _, false end x end)) in Hin.
  revert Hin. vm_compute. intros Hin. repeat (apply elem_of_cons in Hin as [Hin|Hin]; [discriminate|]). by apply elem_of_nil in Hin.
Qed.

Lemma demo_fw_not_waited pid :
  Call (Fork [lit "fw"]) (Some pid) ∈ demo_boot → Call (WaitPid pid) tt ∈ demo_boot → False.
Proof.
  intros H1 H2.
  assert (pid = 21) as ->.
  { apply (list_elem_of_fmap_2 (λ c, match c with Call e x =>
      match e in ev X return X → option Z with Fork [[102%N; 119%N]] => λ r, r
      | _ => λ _, None end x end)) in H1.
    revert H1. vm_compute. intros H1.
    repeat (apply elem_of_cons in H1 as [H1|H1]; [try discriminate; by injection H1|]). by apply elem_of_nil in H1. }
  apply (list_elem_of_fmap_2 (λ c, match c with Call e x => match e with WaitPid p => p =? 21 | _ => false end end)) in H2.
  revert H2. vm_compute. intros H2.
  repeat (apply elem_of_cons in H2 as [H2|H2]; [discriminate|]). by apply elem_of_nil in H2.
Qed.

Lemma no_service_starts_witness : Forall starts_none demo_boot.
Proof.
  destruct demo_boot_reached as [m H].
  destruct (no_service_starts 1 None (λ _, Killed) demo_boot m) as [Hs|[Hs|(pid & H1 & H2 & _)]].
  - vm_compute. reflexivity.
  - vm_compute. lia.
  - exact H.
  - cbn. repeat split.
  - exact Hs.
  - destruct (demo_not_failed Hs).
  - destruct (demo_fw_not_waited pid H1 H2).
Defined.

End Boot.
