(* ===== verification/SaveBoot.v ===== *)
(** * From the settings form to the next boot (httpd.rs: save_settings; init.rs: bring_up_lan)

    A browser submits the form, the web interface rewrites the stored
    configuration, and PID 1 reads it when the router starts again. *)

From S2P Require Import Prelude RustStr IO Utf8 Num Config Settings.
From S2P Require Httpd Init.
Open Scope Z_scope.

Module SaveBoot.

(** What the save loaded, and the bytes it stored successfully. *)
Definition loaded (c : call Httpd.Httpd.ev) : option (option str) :=
  match c with
  | Call e x => match e in Httpd.Httpd.ev X return X → option (option str) with
                | Httpd.Httpd.ReadFile _ => λ r, Some r | _ => λ _, None end x
  end.
Definition stored (c : call Httpd.Httpd.ev) : option bytes :=
  match c with
  | Call e x => match e in Httpd.Httpd.ev X return X → option bytes with
                | Httpd.Httpd.WriteFile _ data => λ ok, if (ok : bool) then Some data else None
                | _ => λ _, None end x
  end.

(** A value that survives in a line of the configuration. *)
Definition clean_value (v : str) : Prop := no_char LF v ∧ no_char (chr "#") v ∧ trimmed v.
#[global] Instance clean_value_dec v : Decision (clean_value v).
Proof. unfold clean_value. apply _. Defined.

(** A form a browser can submit, with clean values. *)
Definition clean_form (kvs : list (str * str)) : Prop :=
  Forall (λ '(k, v), str_ok k ∧ str_ok v ∧ clean_value v) kvs.

(** * Lemmas *)

(** ** The rewritten text holds only characters of the old text and of the
    updates, and the signs of the format *)
Section Characters.
Context (P : char → Prop).
Hypothesis P_signs : Forall P ([LF] ++ lit " = " ++ lit "[" ++ lit "]").

Let P_lf : P LF.
Proof. by apply Forall_cons in P_signs as [? _]. Qed.

Definition update_chars (u : str * str * str) : Prop := Forall P u.1.1 ∧ Forall P u.1.2 ∧ Forall P u.2.

Lemma trim_chars s : Forall P s → Forall P (trim s).
Proof. destruct (trim_spec s) as (a & b & E & _). rewrite E at 1. rewrite !Forall_app. tauto. Qed.

Lemma kv_line_chars k v : Forall P k → Forall P v → Forall P (kv_line k v).
Proof.
  intros Hk Hv. unfold kv_line. rewrite !Forall_app. split; [done|]. split; [|done].
  apply Forall_cons in P_signs as [_ H]. change (lit " = " ++ lit "[" ++ lit "]") with (lit " = " ++ (lit "[" ++ lit "]")) in H.
  by apply Forall_app in H as [? _].
Qed.

Lemma split_kv_chars raw k v : Forall P raw → split_kv raw = Some (k, v) → Forall P k.
Proof.
  unfold split_kv. intros H. destruct (_ || _); [done|].
  destruct (split_once _ _) as [[a b]|] eqn:E; [|done]. intros [= <- _].
  apply split_once_Some in E as [E _]. apply trim_chars.
  assert (Hl : Forall P (trim (before_char (chr "#") raw))).
  { apply trim_chars. rewrite before_char_take_while.
    rewrite <-(take_drop_while (λ x, negb (chr "#" =? x)%N) raw) in H. by apply Forall_app in H as [? _]. }
  rewrite E in Hl. by apply Forall_app in Hl as [? _].
Qed.

Lemma flush_section_chars U : ∀ out sec, Forall P out → Forall update_chars U →
  Forall P (flush_section out sec U).1 ∧ Forall update_chars (flush_section out sec U).2.
Proof.
  induction U as [|[[s k] v] U IH]; intros out sec Ho HU; [done|].
  apply Forall_cons in HU as [(Hs & Hk & Hv) HU]. cbn [flush_section]. case_decide.
  - apply IH; [|done]. rewrite !Forall_app. split; [done|]. split; [by apply kv_line_chars|by constructor].
  - specialize (IH out sec Ho HU). destruct (flush_section out sec U) as [o r]. destruct IH as [IH1 IH2].
    split; [done|]. by constructor.
Qed.

Lemma take_update_chars s k U v U' :
  Forall update_chars U → take_update s k U = Some (v, U') → Forall P v ∧ Forall update_chars U'.
Proof.
  revert U'. induction U as [|[[s0 k0] v0] U IH]; intros U' HU; [done|].
  apply Forall_cons in HU as [Hu HU]. cbn [take_update]. case_decide.
  - intros [= <- <-]. split; [apply Hu|done].
  - destruct (take_update s k U) as [[w r]|]; [|done]. intros [= <- <-].
    destruct (IH r HU eq_refl). split; [done|]. by constructor.
Qed.

Definition state_chars (st : str * str * list (str * str * str)) : Prop :=
  Forall P st.1.1 ∧ Forall update_chars st.2.

Lemma settings_line_chars st raw : state_chars st → Forall P raw → state_chars (settings_line st raw).
Proof.
  destruct st as [[out sec] U]. intros [Ho HU] Hr. unfold settings_line.
  destruct (strip_prefix _ _ ≫= _) as [name|].
  { destruct (flush_section_chars U out sec Ho HU) as [H1 H2].
    destruct (flush_section out sec U) as [o r]. split; [|done].
    cbn [fst]. rewrite !Forall_app. split; [done|]. split; [done|by constructor]. }
  assert (Hkeep : Forall P (out ++ raw ++ [LF])).
  { rewrite !Forall_app. split; [done|]. split; [done|by constructor]. }
  destruct (split_kv raw) as [[k v]|] eqn:Es; [|done].
  destruct (take_update sec k U) as [[w U']|] eqn:Et; [|done].
  destruct (take_update_chars _ _ _ _ _ HU Et) as [Hw HU']. split; [|done].
  cbn [fst]. rewrite !Forall_app. split; [done|]. split; [split|by constructor].
  - unfold indent_of. by apply Forall_take.
  - apply kv_line_chars; [eapply split_kv_chars; [exact Hr|exact Es]|done].
Qed.

Lemma create_section_chars st s :
  Forall P st.1 → Forall update_chars st.2 → Forall P s →
  Forall P (create_section st s).1 ∧ Forall update_chars (create_section st s).2.
Proof.
  destruct st as [out U]. intros Ho HU Hs. unfold create_section. apply flush_section_chars; [|done].
  repeat (apply Forall_cons in P_signs as [? P_signs]).
  cbn [fst]. rewrite !Forall_app. split; [done|]. split; [by constructor|].
  split; [|by constructor]. split; [by constructor|]. split; [done|by constructor].
Qed.

Lemma create_sections_chars secs : Forall (Forall P) secs → ∀ st,
  Forall P st.1 → Forall update_chars st.2 → Forall P (foldl create_section st secs).1.
Proof.
  induction 1 as [|s secs Hs _ IH]; intros st H1 H2; [done|]. cbn [foldl].
  destruct (create_section_chars st s H1 H2 Hs). by apply IH.
Qed.

Lemma seen_sections_chars U : ∀ seen, Forall (Forall P) seen → Forall update_chars U →
  Forall (Forall P) (seen_sections seen U).
Proof.
  induction U as [|[[s k] v] U IH]; intros seen Hs HU; [done|].
  apply Forall_cons in HU as [(Hk & _) HU]. cbn [seen_sections]. apply IH; [|done].
  case_decide; [done|]. apply Forall_app. split; [done|]. by constructor.
Qed.

Lemma split_lines_chars s : Forall P s → Forall (Forall P) (split_lines s).1 ∧ Forall P (split_lines s).2.
Proof.
  induction 1 as [|c s Hc _ [IH1 IH2]]; [done|]. cbn [split_lines].
  destruct (split_lines s) as [ls r]. cbn [fst snd] in *. destruct (c =? LF)%N; [by split; [constructor|]|].
  destruct ls as [|l ls]; [by split; [|constructor]|].
  apply Forall_cons in IH1 as [Hl IH1]. split; [|done]. constructor; [by constructor|done].
Qed.

Lemma lines_chars s : Forall P s → Forall (Forall P) (lines s).
Proof.
  intros H%split_lines_chars. unfold lines. destruct (split_lines s) as [ls r]. destruct H as [H1 H2].
  apply Forall_app. split; [|by destruct r; [constructor|constructor]].
  apply Forall_fmap. eapply Forall_impl; [exact H1|]. intros l Hl. unfold compose, strip_cr.
  destruct (strip_suffix [CR] l) as [k|] eqn:E; [|done]. apply strip_suffix_Some in E as ->.
  by apply Forall_app in Hl as [? _].
Qed.

Lemma apply_settings_chars old U : Forall P old → Forall update_chars U → Forall P (apply_settings old U).
Proof.
  intros Ho HU. unfold apply_settings.
  assert (HV : Forall update_chars (List.filter keep_update U)).
  { apply Forall_forall. intros u Hu%list_elem_of_In%filter_In. rewrite Forall_forall in HU.
    apply HU, list_elem_of_In. by destruct Hu. }
  assert (H1 : state_chars (foldl settings_line ([], [], List.filter keep_update U) (lines old))).
  { assert (Hst : state_chars ([], [], List.filter keep_update U)) by done. revert Hst.
    generalize (@nil char, @nil char, List.filter keep_update U). pose proof (lines_chars old Ho) as Hl.
    induction Hl as [|raw ls Hr _ IH]; intros st Hst; [done|]. cbn [foldl]. apply IH. by apply settings_line_chars. }
  destruct (foldl settings_line _ _) as [[out sec] V]. destruct H1 as [H1 H2]. cbn [fst snd] in *.
  destruct (flush_section_chars V out sec H1 H2) as [H3 H4].
  destruct (flush_section out sec V) as [o W]. cbn [fst snd] in *.
  by apply create_sections_chars; [apply seen_sections_chars|..].
Qed.
End Characters.

(** ** The updates of a form *)
Lemma str_ok_settings old U :
  str_ok old → Forall (update_chars char_ok) U → str_ok (apply_settings old U).
Proof. apply apply_settings_chars. repeat constructor; unfold char_ok; cbn; lia. Qed.

Lemma field_value kvs name v (Q : str → Prop) :
  Forall (λ '(_, w), Q w) kvs → Httpd.Httpd.field kvs name = Some v → Q v.
Proof.
  intros H. unfold Httpd.Httpd.field. induction H as [|[k w] kvs Hw _ IH]; [done|].
  cbn [List.filter]. case_bool_decide; [|done]. by intros [= <-].
Qed.

(** The updates a form can bring, by section and key. *)
Definition managed : list (str * str) :=
  [(lit "system", lit "hostname"); (lit "lan", lit "ipaddr"); (lit "wifi", lit "ssid"); (lit "wifi", lit "key");
   (lit "wan", lit "proto"); (lit "dhcp", lit "enabled")].

Lemma put_spec (Q : str → Prop) kvs s k n :
  Forall (λ '(_, w), Q w) kvs →
  Forall (λ u, u.1 ∈ [(s, k)] ∧ Q u.2) (Httpd.Httpd.put kvs s k n) ∧
  keys_of (Httpd.Httpd.put kvs s k n) `sublist_of` [(s, k)].
Proof.
  intros Hk. unfold Httpd.Httpd.put. destruct (Httpd.Httpd.field kvs n) as [v|] eqn:E.
  - apply (field_value _ _ _ Q Hk) in E. split; [|done]. apply Forall_singleton. split; [set_solver|done].
  - split; [constructor|apply sublist_nil_l].
Qed.

Lemma form_updates_spec (Q : str → Prop) kvs :
  Forall (λ '(_, w), Q w) kvs → Q (lit "0") → Q (lit "1") →
  Forall (λ u, u.1 ∈ managed ∧ Q u.2) (Httpd.Httpd.form_updates kvs) ∧
  keys_of (Httpd.Httpd.form_updates kvs) `sublist_of` managed.
Proof.
  intros Hk H0 H1. unfold Httpd.Httpd.form_updates.
  assert (Happ : ∀ U V l m,
    Forall (λ u, u.1 ∈ l ∧ Q u.2) U ∧ keys_of U `sublist_of` l →
    Forall (λ u, u.1 ∈ m ∧ Q u.2) V ∧ keys_of V `sublist_of` m →
    Forall (λ u, u.1 ∈ l ++ m ∧ Q u.2) (U ++ V) ∧ keys_of (U ++ V) `sublist_of` l ++ m).
  { intros U V l m [HU KU] [HV KV]. split; [apply Forall_app; split|].
    - eapply Forall_impl; [exact HU|]. intros u []. split; [set_solver|done].
    - eapply Forall_impl; [exact HV|]. intros u []. split; [set_solver|done].
    - unfold keys_of. rewrite fmap_app. by apply sublist_app. }
  change managed with ([(lit "system", lit "hostname")] ++ [(lit "lan", lit "ipaddr")] ++ [(lit "wifi", lit "ssid")] ++
    [(lit "wifi", lit "key")] ++ [(lit "wan", lit "proto")] ++ [(lit "dhcp", lit "enabled")]).
  do 5 (apply Happ; [by apply put_spec|]). split; [|done].
  apply Forall_singleton. split; [set_solver|]. by destruct (existsb _ kvs).
Qed.

Lemma keys_filter (p : str * str * str → bool) U : keys_of (List.filter p U) `sublist_of` keys_of U.
Proof.
  unfold keys_of. induction U as [|u U IH]; [done|]. cbn [List.filter]. rewrite fmap_cons.
  destruct (p u); [by apply sublist_skip|by apply sublist_cons].
Qed.

(** With clean values the updates of a form are well formed, one per key. *)
Lemma form_updates_clean kvs :
  clean_form kvs →
  Forall clean_update (List.filter keep_update (Httpd.Httpd.form_updates kvs)) ∧
  NoDup (keys_of (List.filter keep_update (Httpd.Httpd.form_updates kvs))) ∧
  Forall (update_chars char_ok) (Httpd.Httpd.form_updates kvs).
Proof.
  intros Hf.
  assert (Hq : Forall (λ '(_, w), str_ok w ∧ clean_value w) kvs)
    by (eapply Forall_impl; [exact Hf|]; by intros [k v] (_ & ? & ?)).
  destruct (form_updates_spec (λ w, str_ok w ∧ clean_value w) kvs Hq) as [H1 H2];
    [split; [repeat constructor; unfold char_ok; cbn; lia|apply (bool_decide_unpack _); vm_compute; exact I]..|].
  assert (Hm : Forall (λ sk : str * str, clean_update (sk, []) ∧ str_ok sk.1 ∧ str_ok sk.2) managed).
  { repeat (constructor; [split; [apply (bool_decide_unpack _); vm_compute; exact I|
      split; repeat constructor; unfold char_ok; cbn; lia]|]). constructor. }
  rewrite Forall_forall in Hm. rewrite Forall_forall in H1. split; [|split].
  - apply Forall_forall. intros [[s k] v] [Hu _]%list_elem_of_In%filter_In. apply list_elem_of_In, H1 in Hu.
    destruct Hu as [Hu [_ Hv]]. destruct (Hm _ Hu) as [[Hs Hk Hk2 _] _]. by split.
  - eapply sublist_NoDup; [|apply keys_filter]. eapply sublist_NoDup; [|exact H2].
    apply (bool_decide_unpack _). vm_compute. exact I.
  - apply Forall_forall. intros [[s k] v] Hu. apply H1 in Hu as [Hu [Hv _]]. destruct (Hm _ Hu) as (_ & ? & ?).
    by repeat split.
Qed.

Lemma wanted_kept s k v U :
  is_secret_key k = false → wanted s k U = Some v → wanted s k (List.filter keep_update U) = Some v.
Proof.
  intros Hs. unfold wanted. induction U as [|[[s0 k0] v0] U IH]; [done|]. cbn [take_update List.filter].
  case_decide as E1.
  - destruct E1 as [-> ->]. intros [= ->]. unfold keep_update. rewrite Hs. cbn [andb negb take_update].
    by rewrite decide_True.
  - intros H. destruct (keep_update _); [cbn [take_update]; rewrite decide_False by done|].
    all: destruct (take_update s k U) as [[w r]|]; [|done]; cbn in *;
      destruct (take_update s k (List.filter keep_update U)) as [[w' r']|]; cbn in *; auto.
Qed.

Lemma wanted_none s k U : (s, k) ∉ keys_of U → wanted s k U = None.
Proof. intros H. by apply wanted_None. Qed.

(** The LAN address is the only update of its section. *)
Lemma form_lan_updates kvs v :
  clean_form kvs → Httpd.Httpd.field kvs (lit "lan_ipaddr") = Some v →
  let U := List.filter keep_update (Httpd.Httpd.form_updates kvs) in
  wanted (lit "lan") (lit "ipaddr") U = Some v ∧ wanted (lit "lan") (lit "ifname") U = None ∧
  wanted (lit "lan") (lit "netmask") U = None.
Proof.
  intros Hf Hv U.
  assert (Hn : ∀ s k, (s, k) ∉ managed → wanted s k U = None).
  { intros s k Hn. apply wanted_none. intros Hin. apply Hn.
    destruct (form_updates_spec (λ _, True) kvs) as [_ Hs]; [|done..|].
    - eapply Forall_impl; [exact Hf|]. by intros [].
    - eapply sublist_subseteq; [exact Hs|]. by eapply sublist_subseteq; [apply keys_filter|]. }
  split; [|split; apply Hn; apply (bool_decide_unpack _); vm_compute; exact I].
  apply wanted_kept; [reflexivity|]. unfold Httpd.Httpd.form_updates, wanted.
  unfold Httpd.Httpd.put at 1 2. rewrite Hv.
  destruct (Httpd.Httpd.field kvs (lit "hostname")); cbn [app take_update];
    repeat (rewrite decide_False by (intros [? ?]; discriminate)); by rewrite decide_True.
Qed.

(** What a save does against the file it read. *)
Lemma save_runs bd t r old data :
  runs (Httpd.Httpd.save_settings bd) t r → head (omap loaded t) = Some (Some old) →
  head (omap stored t) = Some data →
  data = Utf8.encode (apply_settings old (Httpd.Httpd.form_updates (Httpd.Httpd.parse_form bd))).
Proof.
  unfold Httpd.Httpd.save_settings. intros H Hl Hs. run_inv H. cbv zeta in H. run_inv H. run_inv H.
  cbn in Hl. injection Hl as ->. destruct x1; run_inv H; cbn in Hs; by injection Hs as <-.
Qed.

(** * Theorem *)

(** C3. What is typed into the settings form is what the router uses after the
    next boot, provided that the old configuration is a plain document
    ([plain_document]: no section or key twice, no comment on a header line) of
    Unicode text whose netmask parses, and that no field of the form holds a line
    feed or a comment sign or has white space around it: a browser submits a
    form whose LAN address field is a dotted quad; when the web interface has
    stored the settings, PID 1, reading the stored bytes at boot, configures
    exactly that address on the LAN interface, with the interface and mask the
    old configuration names. *)
Theorem saved_address_is_configured old kvs a m t resp data t' u :
  plain_document old → str_ok old → clean_form kvs → Ipv4.ip_ok a →
  Httpd.Httpd.field kvs (lit "lan_ipaddr") = Some (Ipv4.show a) →
  runs (Httpd.Httpd.save_settings (Httpd.Httpd.form_body kvs)) t resp →
  head (omap loaded t) = Some (Some old) → head (omap stored t) = Some data →
  Ipv4.parse (Config.get_or (Config.parse old) (lit "lan") (lit "netmask") (lit "255.255.255.0")) = Some m →
  runs (Init.Init.bring_up_lan (Config.load (Utf8.from_utf8 data))) t' u →
  ∃ ok, t' = [Call (Init.Init.NetConfigure
    (Config.get_or (Config.parse old) (lit "lan") (lit "ifname") (lit "br-lan")) a m) ok].
Proof.
  intros Hp Ho Hf Ha Hv H Hl Hs Hm H'. apply (save_runs _ _ _ _ _ H Hl) in Hs as ->.
  rewrite Httpd.Httpd.parse_form_body in H'
    by (eapply Forall_impl; [exact Hf|]; by intros [k v] (? & ? & _)).
  destruct (form_updates_clean kvs Hf) as (Hc & Hn & Hk).
  rewrite Utf8.from_utf8_encode in H' by (by apply str_ok_settings).
  pose proof (λ s k, apply_settings_get old _ s k Hp Hc Hn) as Hget.
  destruct (form_lan_updates kvs _ Hf Hv) as (E1 & E2 & E3).
  unfold Init.Init.bring_up_lan, Config.load, Config.get_or in H'. unfold Config.get_or in Hm.
  rewrite !Hget, E1, E2, E3, Ipv4.parse_show, Hm in H' by done. run_inv H'. run_inv H'. by exists x.
Qed.

(** ** A form with an address and a blank secret *)
Definition demo_old : str := lit "# router
[lan]
  ipaddr = 192.168.1.1  # static
ifname = br0
[wifi]
key = secret
".
Definition demo_form : list (str * str) :=
  [(lit "hostname", lit "box"); (lit "lan_ipaddr", lit "10.0.0.1"); (lit "wifi_key", [])].
Definition demo_data : bytes := Utf8.encode (apply_settings demo_old (Httpd.Httpd.form_updates demo_form)).
Definition demo_save : list (call Httpd.Httpd.ev) :=
  [Call (Httpd.Httpd.ReadFile Config.PATH) (Some demo_old); Call (Httpd.Httpd.CreateDirAll (lit "/etc/lwrt")) true;
   Call (Httpd.Httpd.WriteFile Config.PATH demo_data) true].
Definition demo_lan : list (call Init.Init.ev) :=
  [Call (Init.Init.NetConfigure (lit "br0") (Ipv4.new 10 0 0 1) (Ipv4.new 255 255 255 0)) true].

Lemma demo_save_runs : ∃ r, runs (Httpd.Httpd.save_settings (Httpd.Httpd.form_body demo_form)) demo_save r.
Proof.
  eexists. unfold Httpd.Httpd.save_settings, demo_save.
  replace (Httpd.Httpd.parse_form (Httpd.Httpd.form_body demo_form)) with demo_form by (vm_compute; reflexivity).
  do 3 (apply runs_vis; cbv beta). by split.
Qed.

Lemma demo_lan_runs : runs (Init.Init.bring_up_lan (Config.load (Utf8.from_utf8 demo_data))) demo_lan tt.
Proof.
  unfold Init.Init.bring_up_lan, demo_lan. set (cfg := Config.load (Utf8.from_utf8 demo_data)).
  replace (Config.get_or cfg (lit "lan") (lit "ifname") (lit "br-lan")) with (lit "br0") by (vm_compute; reflexivity).
  replace (Ipv4.parse (Config.get_or cfg (lit "lan") (lit "ipaddr") (lit "192.168.1.1")))
    with (Some (Ipv4.new 10 0 0 1)) by (vm_compute; reflexivity).
  replace (Ipv4.parse (Config.get_or cfg (lit "lan") (lit "netmask") (lit "255.255.255.0")))
    with (Some (Ipv4.new 255 255 255 0)) by (vm_compute; reflexivity).
  by apply runs_vis.
Qed.

Lemma saved_address_is_configured_witness :
  ∃ ok, demo_lan = [Call (Init.Init.NetConfigure
    (Config.get_or (Config.parse demo_old) (lit "lan") (lit "ifname") (lit "br-lan"))
    (Ipv4.new 10 0 0 1) (Ipv4.new 255 255 255 0)) ok].
Proof.
  destruct demo_save_runs as [r Hr].
  eapply (saved_address_is_configured demo_old demo_form (Ipv4.new 10 0 0 1) (Ipv4.new 255 255 255 0) demo_save r demo_data).
  - apply (bool_decide_unpack _). vm_compute. exact I.
  - repeat constructor; left; reflexivity.
  - repeat (constructor; [split; [repeat constructor; left; reflexivity|
      split; [repeat constructor; left; reflexivity|apply (bool_decide_unpack _); vm_compute; exact I]]|]). constructor.
  - split; [vm_compute; discriminate|vm_compute; reflexivity].
  - vm_compute. reflexivity.
  - exact Hr.
  - reflexivity.
  - reflexivity.
  - vm_compute. reflexivity.
  - exact demo_lan_runs.
Defined.
End SaveBoot.
