(* ===== verification/Tests.v ===== *)
(** * The unit tests of the sources

    Each [#[test]] function of the program as a boolean over the definitions of
    this development, assertion by assertion, one Module per source file; a
    failed [unwrap] or [expect] is [false].  That the tests pass here shows the
    models agree with the expectations the authors wrote down. *)

From S2P Require Import Prelude Words RustStr IO Utf8 Num.
From S2P Require Config Settings Sha256 Util Nl Fw Dhcp Ipkg Httpd Mtd Sysupgrade Json Ubus.
Open Scope Z_scope.

(** ** Assertions *)
Definition eq_of {A} `{EqDecision A} (a b : A) : bool := bool_decide (a = b).
Definition is_some {A} (o : option A) : bool := match o with Some _ => true | None => false end.
Definition is_none {A} (o : option A) : bool := negb (is_some o).
(** [x.unwrap()] followed by assertions on the value. *)
Definition unwrap {A} (o : option A) (k : A → bool) : bool := match o with Some a => k a | None => false end.
Definition unwrap_ok {A E} (r : result A E) (k : A → bool) : bool := match r with Ok a => k a | Err _ => false end.
Definition is_err {A E} (r : result A E) : bool := match r with Ok _ => false | Err _ => true end.
Definition all_pass (l : list bool) : bool := forallb (λ b, b) l.
(** A text written with apostrophes for quotation marks. *)
Definition dq (s : str) : str := map (λ c, if (c =? chr "'")%N then DQ else c) s.

(** A program with its calls answered. *)
Fixpoint eval {E : Set → Type} {A} (answer : ∀ X, E X → X) (m : io E A) : A :=
  match m with Ret a => a | Vis e k => eval answer (k (answer _ e)) end.

Lemma eval_runs {E : Set → Type} {A} (answer : ∀ X, E X → X) (m : io E A) : ∃ t, runs m t (eval answer m).
Proof.
  induction m as [a|X e k IH]; [by exists []|]. destruct (IH (answer X e)) as [t H].
  exists (Call e (answer X e) :: t). by apply runs_vis.
Qed.

(** ** config.rs *)
Module ConfigTests.
Import Config.

Definition parses_sections_keys_and_comments : bool :=
  let c := parse (lit "# top
[a]
x = 1 # inline

[b]
y=hello world
") in
  all_pass [eq_of (get c (lit "a") (lit "x")) (Some (lit "1"));
            eq_of (get c (lit "b") (lit "y")) (Some (lit "hello world"));
            eq_of (get_or c (lit "b") (lit "z") (lit "def")) (lit "def")].

Definition defaults_are_valid : bool :=
  let c := parse DEFAULT in
  all_pass [eq_of (get c (lit "lan") (lit "ipaddr")) (Some (lit "192.168.1.1"));
            eq_of (get c (lit "dhcp") (lit "enabled")) (Some (lit "1"))].

Example config_tests_pass : all_pass [parses_sections_keys_and_comments; defaults_are_valid] = true.
Proof. vm_compute. reflexivity. Qed.
End ConfigTests.

(** ** util.rs *)
Module UtilTests.
Import Util.Util.

Definition b64_roundtrip_known : bool :=
  all_pass [eq_of (b64_decode (lit "aGVsbG8=")) (Some (Utf8.encode (lit "hello")));
            unwrap (b64_decode (lit "AAAAAAAAAAAAAAAAAAAAAAAAAAAAAAAAAAAAAAAAAEE=")) (λ b, (length b =? 32)%nat)].

Example util_tests_pass : b64_roundtrip_known = true.
Proof. vm_compute. reflexivity. Qed.
End UtilTests.

(** ** sha256.rs *)
Module ShaTests.
Import Sha256.Sha.

Definition hd (data : bytes) : str := hex (digest_bytes data).

Definition known_vectors : bool :=
  all_pass [eq_of (hd []) (lit "e3b0c44298fc1c149afbf4c8996fb92427ae41e4649b934ca495991b7852b855");
            eq_of (hd (Utf8.encode (lit "abc"))) (lit "ba7816bf8f01cfea414140de5dae2223b00361a396177a9cb410ff61f20015ad");
            eq_of (hd (Utf8.encode (lit "abcdbcdecdefdefgefghfghighijhijkijkljklmklmnlmnomnopnopq")))
              (lit "248d6a61d20638b8e5c026930c3e6039a33ce45964ff2167f6ecedd419db06c1")].

(** [data.chunks(n)] *)
Fixpoint chunks (fuel n : nat) (data : bytes) : list bytes :=
  match fuel, data with
  | O, _ | _, [] => []
  | S fuel, _ => take n data :: chunks fuel n (drop n data)
  end.
Definition streaming_matches_oneshot : bool :=
  let data := map (λ i, Z.of_nat i mod 251) (seq 0 1000) in
  let s := update_all new (chunks 1000 7 data) in
  eq_of (s ≫= finish) (digest data) && is_some (digest data).

Definition block_boundary_lengths : bool :=
  forallb (λ n, let data := replicate n 0x61 in
    let s := update_all new [take (n / 2) data; drop (n / 2) data] in
    eq_of (s ≫= finish) (digest data) && is_some (digest data)) [54; 55; 56; 57; 63; 64; 65; 119; 128]%nat.

Lemma chunks_pass cs data : concat cs = data →
  eq_of (update_all new cs ≫= finish) (digest data) && is_some (digest data) = true.
Proof.
  intros <-. rewrite digest_fips. destruct (update_all_absorbed cs new [] new_absorbed) as (s & -> & Hs).
  cbn [mbind option_bind app] in *. unfold eq_of. rewrite (finish_absorbed _ _ Hs). by rewrite bool_decide_eq_true_2.
Qed.

Example known_vectors_pass : known_vectors = true.
Proof. vm_compute. reflexivity. Qed.
Lemma streaming_tests_pass : all_pass [streaming_matches_oneshot; block_boundary_lengths] = true.
Proof.
  unfold all_pass, streaming_matches_oneshot, block_boundary_lengths. cbn [forallb]. cbv zeta.
  rewrite !chunks_pass; [done|..]; try (cbn [concat]; rewrite app_nil_r; apply take_drop).
  vm_compute. reflexivity.
Qed.
End ShaTests.

(** ** nl.rs *)
Module NlTests.
Import Nl.Nl.

Definition u16_at (b : bytes) (i : nat) : Z := u16_from_le (byte_at b i) (byte_at b (S i)).
Definition u32_at (b : bytes) (i : nat) : Z := of_le_bytes (slice b i (i + 4)).

Definition attr_is_4byte_aligned_with_correct_len_field : bool :=
  let a := attr empty 5 [1; 2; 3] in
  all_pass [(length a =? 8)%nat; u16_at a 0 =? 7; u16_at a 2 =? 5;
            eq_of (slice a 4 7) [1; 2; 3]; byte_at a 7 =? 0].

Definition nested_sets_flag_and_backpatches_length : bool :=
  let '(b, s) := begin_nested empty 2 in
  let n := end_nested (attr b 1 [9]) s in
  let typ := u16_at n 2 in
  all_pass [u16_at n 0 =? 12; Z.land typ NLA_F_NESTED =? NLA_F_NESTED;
            Z.land typ (u16 (Z.lnot NLA_F_NESTED)) =? 2; (length n =? 12)%nat].

Definition message_header_length_is_total_including_body : bool :=
  let '(b, m) := begin_message empty 0x10 NLM_F_REQUEST 42 in
  let msg := end_message (attr_u32_le b 1 0xdeadbeef) m in
  all_pass [u32_at msg 0 =? 24; u16_at msg 4 =? 0x10; u16_at msg 6 =? NLM_F_REQUEST;
            u32_at msg 8 =? 42; (length msg =? 24)%nat].

Definition for_each_attr_walks_back_what_we_wrote : bool :=
  let b := attr_u32_le (attr empty 1 [0xaa]) 2 0xdeadbeef in
  match for_each_attr b with
  | (t0, v0) :: (t1, v1) :: _ => all_pass [t0 =? 1; eq_of v0 [0xaa]; t1 =? 2; u32_at v1 0 =? 0xdeadbeef]
  | _ => false
  end.

Example nl_tests_pass : all_pass [attr_is_4byte_aligned_with_correct_len_field;
  nested_sets_flag_and_backpatches_length; message_header_length_is_total_including_body;
  for_each_attr_walks_back_what_we_wrote] = true.
Proof. vm_compute. reflexivity. Qed.
End NlTests.

(** ** fw.rs *)
Module FwTests.
Import Fw.Fw.

Definition parse_forward_accepts_well_formed : bool :=
  all_pass [eq_of (parse_forward (lit "tcp:8080:192.168.1.10:80"))
              (Some (mkForward IPPROTO_TCP 8080 (Ipv4.new 192 168 1 10) 80));
            unwrap (parse_forward (lit "UDP:53:10.0.0.2:53")) (λ f, proto f =? IPPROTO_UDP)].

Definition parse_forward_rejects_garbage : bool :=
  all_pass (map (λ s, is_none (parse_forward s))
    [lit "sctp:1:2.2.2.2:1"; lit "tcp:notaport:1.2.3.4:80"; lit "tcp:80:999.1.1.1:80"; lit "tcp:80:1.2.3.4";
     lit "tcp:80:1.2.3.4:80:extra"]).

Definition parse_forwards_skips_blanks_and_bad : bool :=
  match parse_forwards (lit "tcp:80:1.2.3.4:80, , garbage, udp:53:1.2.3.4:53") with
  | [v0; v1] => all_pass [dport v0 =? 80; proto v1 =? IPPROTO_UDP]
  | _ => false
  end.

Definition ruleset_without_forwards_has_expected_shape : bool :=
  unwrap (count_msgs (build_ruleset (lit "br-lan") true []))
    (λ '(tables, chains, rules), all_pass [(tables =? 1)%nat; (chains =? 4)%nat; (rules =? 7)%nat]).

Definition ruleset_with_forwards_adds_dnat_and_forward_accepts : bool :=
  let fwds := parse_forwards (lit "tcp:8080:192.168.1.10:80, udp:5000:192.168.1.20:5000") in
  unwrap (count_msgs (build_ruleset (lit "br-lan") true fwds))
    (λ '(_, chains, rules), all_pass [(chains =? 4)%nat; (rules =? 11)%nat]).

Definition masq_disabled_drops_the_masquerade_rule : bool :=
  unwrap (count_msgs (build_ruleset (lit "br-lan") true [])) (λ '(_, _, r_with),
  unwrap (count_msgs (build_ruleset (lit "br-lan") false [])) (λ '(_, _, r_without),
    (r_with =? r_without + 1)%nat)).

Example fw_tests_pass : all_pass [parse_forward_accepts_well_formed; parse_forward_rejects_garbage;
  parse_forwards_skips_blanks_and_bad; ruleset_without_forwards_has_expected_shape;
  ruleset_with_forwards_adds_dnat_and_forward_accepts; masq_disabled_drops_the_masquerade_rule] = true.
Proof. vm_compute. reflexivity. Qed.
End FwTests.

(** ** dhcp.rs *)
Module DhcpTests.
Import Dhcp.Dhcp.

Definition cookie_header : bytes := splice (replicate 240 0) 236 MAGIC.

Definition options_walker_yields_each_tlv_and_stops_at_end : bool :=
  let buf := cookie_header ++ [OPT_MSGTYPE; 1; DISCOVER] ++ [OPT_REQIP; 4; 192; 168; 1; 50] ++ [OPT_END] ++ [0xff; 0xff] in
  eq_of (options buf) [(OPT_MSGTYPE, [DISCOVER]); (OPT_REQIP, [192; 168; 1; 50])].

Definition parse_reads_a_built_client_packet : bool :=
  let id := [0xde; 0xad; 0xbe; 0xef] in
  let mac := [0x02; 0; 0; 0; 0; 1] in
  unwrap (parse (build_client id mac REQUEST (Some (Ipv4.new 10 0 0 5)) None)) (λ p,
    all_pass [op p =? OP_REQUEST; eq_of (xid p) id; eq_of (chaddr p) mac; msg_type p =? REQUEST;
              eq_of (req_ip p) (Some (Ipv4.new 10 0 0 5))]).

Definition truncated_option_does_not_panic : bool :=
  unwrap (parse (cookie_header ++ [OPT_REQIP; 4; 1; 2])) (λ p, eq_of (req_ip p) None).

Example dhcp_tests_pass : all_pass [options_walker_yields_each_tlv_and_stops_at_end;
  parse_reads_a_built_client_packet; truncated_option_does_not_panic] = true.
Proof. vm_compute. reflexivity. Qed.
End DhcpTests.

(** ** ipkg.rs *)
Module IpkgTests.
Import Ipkg.Ipkg.

Definition INDEX : str := lit "Package: hello
Version: 1.0
Filename: hello_1.0_mipsel.ipk
Size: 2048
SHA256sum: abc123

Package: world
Version: 2.1
Filename: world_2.1_mipsel.ipk
Size: 99
SHA256sum: deadbeef
".

Definition find_entry_pulls_the_right_stanza : bool :=
  unwrap (find_entry INDEX (lit "world")) (λ e,
    all_pass [eq_of (filename e) (lit "world_2.1_mipsel.ipk"); eq_of (size e) (Some 99);
              eq_of (sha256 e) (Some (lit "deadbeef"))])
  && is_none (find_entry INDEX (lit "missing")).

Definition sanitize_refuses_escapes : bool :=
  all_pass [eq_of (sanitize (lit "./etc/lwrt/config")) (lit "/etc/lwrt/config");
            eq_of (sanitize (lit "../../etc/shadow")) (lit "/etc/shadow");
            eq_of (sanitize (lit "/usr/bin/foo")) (lit "/usr/bin/foo")].

Example ipkg_tests_pass : all_pass [find_entry_pulls_the_right_stanza; sanitize_refuses_escapes] = true.
Proof. vm_compute. reflexivity. Qed.
End IpkgTests.

(** ** mtd.rs *)
Module MtdTests.
Import Mtd.Mtd.

(** Both branches of the [cfg]: the host and MIPS. *)
Definition ioctl_numbers_match_asm_generic : bool :=
  all_pass [MEMGETINFO ioc_generic =? 0x80204d01; MEMERASE ioc_generic =? 0x40084d02;
            MEMUNLOCK ioc_generic =? 0x40084d06;
            MEMGETINFO ioc_mips =? 0x40204d01; MEMERASE ioc_mips =? 0x80084d02; MEMUNLOCK ioc_mips =? 0x80084d06].

(** The system of the test host, with [table] as /proc/mtd. *)
Definition host (table : option str) (X : Set) (e : ev X) : X :=
  match e in ev X return X with
  | ReadTable => table | ReadStdin => None | ReadImage _ => None | OpenPart _ => false | GetInfo => None
  | Unlock _ => tt | Erase _ => false | SeekStart _ => false | WriteAll _ => false | ReadExact _ => None
  | Flush => false
  end.

Definition resolve_accepts_dev_paths_and_shorthand (table : option str) : bool :=
  all_pass [eq_of (eval (host table) (resolve (lit "/dev/mtd3"))) (Some (lit "/dev/mtd3"));
            eq_of (eval (host table) (resolve (lit "mtd7"))) (Some (lit "/dev/mtd7"))].

Definition resolve_rejects_unknown_name (table : option str) : bool :=
  is_none (eval (host table) (resolve (lit "definitely-not-a-partition-xyz"))).

Definition some_table : str := dq (lit "dev:    size   erasesize  name
mtd0: 00030000 00010000 'u-boot'
mtd3: 00f80000 00010000 'firmware'
").

Example mtd_tests_pass :
  all_pass (ioctl_numbers_match_asm_generic ::
    concat (map (λ t, [resolve_accepts_dev_paths_and_shorthand t; resolve_rejects_unknown_name t])
      [None; Some []; Some some_table])) = true.
Proof. vm_compute. reflexivity. Qed.
End MtdTests.

(** ** sysupgrade.rs *)
Module SysupgradeTests.
Import Sysupgrade.Sysupgrade.

Definition parse_defaults_keep_config_and_firmware_part : bool :=
  unwrap_ok (parse [lit "fw.bin"]) (λ o,
    all_pass [keep_config o; negb (test_only o); eq_of (part o) (lit "firmware"); eq_of (image o) (Some (lit "fw.bin"))]).

Definition parse_flags_and_partition_override : bool :=
  unwrap_ok (parse [lit "-n"; lit "-T"; lit "-p"; lit "kernel"; lit "img"]) (λ o,
    all_pass [negb (keep_config o); test_only o; eq_of (part o) (lit "kernel"); eq_of (image o) (Some (lit "img"))]).

Definition parse_rejects_unknown_flag_and_missing_p_arg : bool :=
  all_pass [is_err (parse [lit "-z"; lit "img"]); is_err (parse [lit "-p"])].

(** A host without the image. *)
Definition bare_host (X : Set) (e : ev X) : X :=
  match e in ev X return X with
  | Flash e => MtdTests.host None _ e
  | Metadata _ => None | Exists _ => false | Copy _ _ => false | Sync => tt | Reboot => tt
  end.
Definition validate_rejects_missing_image : bool :=
  let o := mkOpts true true (lit "firmware") (Some (lit "/nonexistent/firmware.bin")) in
  is_none (eval bare_host (validate o)).

Example sysupgrade_tests_pass : all_pass [parse_defaults_keep_config_and_firmware_part;
  parse_flags_and_partition_override; parse_rejects_unknown_flag_and_missing_p_arg;
  validate_rejects_missing_image] = true.
Proof. vm_compute. reflexivity. Qed.
End SysupgradeTests.

(** ** httpd.rs *)
Module HttpdTests.
Import Httpd.Httpd.

Definition cfg (text : str) : Config.Config := Config.parse text.
(** [str::contains] *)
Definition contains (s pat : str) : bool := Ipkg.Ipkg.contains pat s.

Definition cookie_token_extracts_session : bool :=
  all_pass [eq_of (cookie_token (lit "foo=1; session=abc123; bar=2")) (Some (lit "abc123"));
            eq_of (cookie_token (lit "nothing=here")) None].

Definition auth_required_only_when_password_set : bool :=
  all_pass [negb (auth_required (cfg (lit "[lan]
ipaddr = 1.1.1.1
"))); auth_required (cfg (lit "[admin]
password = hunter2
")); auth_required (cfg (lit "[admin]
password_sha256 = deadbeef
"))].

Definition verify_password_plaintext_and_hash : bool :=
  let c := cfg (lit "[admin]
password = hunter2
") in
  let h := Sha256.Sha.hex (Sha256.Sha.digest_bytes (Utf8.encode (lit "hunter2"))) in
  let c2 := cfg (lit "[admin]
password_sha256 = " ++ h ++ [LF]) in
  all_pass [verify_password c (lit "hunter2"); negb (verify_password c (lit "nope"));
            verify_password c2 (lit "hunter2"); negb (verify_password c2 (lit "Hunter2"))].

(** At the readings of the clock: two by [insert], one by each [valid]. *)
Definition sessions_validate_membership (gc_at stored_at t1 t2 : Z) : bool :=
  let s := insert_session gc_at stored_at (lit "tok") no_sessions in
  all_pass [valid t1 (lit "tok") s; negb (valid t2 (lit "other") s)].

Definition csrf_requires_matching_cookie_and_header_when_locked : bool :=
  let locked := cfg (lit "[admin]
password = x
") in
  let open := cfg (lit "[lan]
x = 1
") in
  let mk c h := mkRequest (lit "POST") (lit "/ui/reboot") [] c h in
  all_pass [csrf_ok (mk (Some (lit "t")) (Some (lit "t"))) locked;
            negb (csrf_ok (mk (Some (lit "t")) (Some (lit "u"))) locked);
            negb (csrf_ok (mk (Some (lit "t")) None) locked);
            csrf_ok (mk None None) open].

Definition urldecode_handles_plus_and_percent : bool :=
  all_pass [eq_of (urldecode (lit "a+b%20c")) (lit "a b c");
            eq_of (urldecode (lit "%2Fetc%2Flwrt")) (lit "/etc/lwrt");
            eq_of (urldecode (lit "plain")) (lit "plain");
            eq_of (urldecode (lit "bad%2")) (lit "bad%2")].

Definition parse_form_splits_pairs : bool :=
  let f := parse_form (Utf8.encode (lit "hostname=router1&wan_proto=pppoe&wifi_key=")) in
  all_pass [eq_of (field f (lit "hostname")) (Some (lit "router1"));
            eq_of (field f (lit "wan_proto")) (Some (lit "pppoe"));
            eq_of (field f (lit "wifi_key")) (Some []);
            eq_of (field f (lit "missing")) None].

Definition hesc_blocks_script_injection : bool :=
  all_pass [eq_of (hesc (lit "<script>x</script>")) (lit "&lt;script&gt;x&lt;/script&gt;");
            eq_of (hesc (lit "a&" ++ [DQ] ++ lit "b'")) (lit "a&amp;&quot;b&#39;")].

Definition apply_settings_replaces_existing_value_in_place : bool :=
  let out := Settings.apply_settings (lit "[system]
hostname = old
[lan]
ipaddr = 192.168.1.1
") [(lit "system", lit "hostname", lit "new")] in
  all_pass [contains out (lit "hostname = new"); contains out (lit "ipaddr = 192.168.1.1");
            negb (contains out (lit "hostname = old"))].

Definition apply_settings_keeps_blank_secret_but_writes_new_one : bool :=
  let old := lit "[wifi]
ssid = Net
key = realkey
" in
  let out := Settings.apply_settings old [(lit "wifi", lit "ssid", lit "NewNet"); (lit "wifi", lit "key", [])] in
  let out2 := Settings.apply_settings old [(lit "wifi", lit "key", lit "brandnew")] in
  all_pass [contains out (lit "ssid = NewNet"); contains out (lit "key = realkey");
            contains out2 (lit "key = brandnew")].

Definition apply_settings_appends_missing_key_and_section : bool :=
  let old := lit "[lan]
ipaddr = 1.1.1.1
" in
  let out := Settings.apply_settings old [(lit "lan", lit "netmask", lit "255.255.255.0")] in
  let out2 := Settings.apply_settings old [(lit "dhcp", lit "enabled", lit "1")] in
  all_pass [contains out (lit "netmask = 255.255.255.0"); contains out2 (lit "[dhcp]");
            contains out2 (lit "enabled = 1")].

Example httpd_tests_pass : all_pass [cookie_token_extracts_session; auth_required_only_when_password_set;
  verify_password_plaintext_and_hash; csrf_requires_matching_cookie_and_header_when_locked;
  urldecode_handles_plus_and_percent; parse_form_splits_pairs; hesc_blocks_script_injection;
  apply_settings_replaces_existing_value_in_place; apply_settings_keeps_blank_secret_but_writes_new_one;
  apply_settings_appends_missing_key_and_section] = true.
Proof. vm_compute. reflexivity. Qed.

(** The session test passes whenever less than an hour goes by. *)
Lemma session_test_passes gc_at stored_at t1 t2 :
  sessions_validate_membership gc_at stored_at t1 t2 = (t1 <? stored_at + SESSION_TTL).
Proof.
  unfold sessions_validate_membership, valid. rewrite !tokens_insert.
  rewrite bool_decide_eq_true_2, bool_decide_eq_false_2 by done. cbn [tokens no_sessions].
  rewrite lookup_empty. cbn [all_pass forallb negb]. rewrite andb_true_r.
  destruct (Z.ltb_spec (t1 - stored_at) SESSION_TTL), (Z.ltb_spec t1 (stored_at + SESSION_TTL)); (done || lia).
Qed.
End HttpdTests.

(** ** json.rs

    Numbers as the integers [f64] represents exactly, read from a literal with
    fraction and exponent when its value is one. *)
Definition signed (s : str) : option Z :=
  match strip_prefix (lit "-") s with
  | Some r => Z.opp <$> parse_uint 64 r
  | None => parse_uint 64 (default s (strip_prefix (lit "+") s))
  end.
Definition decimal_literal (s : str) : option Z :=
  let '(mant, ex) := default (s, lit "0") (split_once (chr "e") (to_ascii_lowercase s)) in
  let '(whole, frac) := default (mant, []) (split_once (chr ".") mant) in
  e ← signed ex;
  m ← signed (whole ++ frac);
  let k := e - Z.of_nat (length frac) in
  if 0 <=? k then Some (m * 10 ^ k)
  else if m mod 10 ^ (- k) =? 0 then Some (m / 10 ^ (- k)) else None.

#[local] Instance decimal_floats : Json.Float64 := {|
  Json.f64 := Z;
  Json.f64_eqb := Z.eqb;
  Json.is_finite x := Z.abs x <=? 2 ^ 53;
  Json.is_integral _ := true;
  Json.is_below_1e15 x := Z.abs x <? 10 ^ 15;
  Json.is_nonneg x := 0 <=? x;
  Json.to_i64 x := x;
  Json.to_u64 x := x;
  Json.of_int x := x;
  Json.f64_from_str := decimal_literal;
  Json.f64_display := Json.show_i64
|}.

Module JsonTests.
Import Json.Json.

(** The derived [PartialEq] of [Value]. *)
Fixpoint value_eq (v w : Value) : bool :=
  match v, w with
  | Null, Null => true
  | Bool a, Bool b => Bool.eqb a b
  | Num a, Num b => Json.f64_eqb a b
  | Str a, Str b => eq_of a b
  | Array a, Array b =>
      (fix items (a b : list Value) : bool :=
         match a, b with
         | [], [] => true
         | x :: a, y :: b => value_eq x y && items a b
         | _, _ => false
         end) a b
  | Object a, Object b =>
      (fix pairs (a b : list (str * Value)) : bool :=
         match a, b with
         | [], [] => true
         | (k, x) :: a, (l, y) :: b => eq_of k l && value_eq x y && pairs a b
         | _, _ => false
         end) a b
  | _, _ => false
  end.

(** [Value::parse], whose fuel is enough ([Json.parse_terminates]). *)
Definition read (text : str) : result Value str := default (Err []) (parse text).
Definition reads (text : str) (v : Value) : bool := unwrap_ok (read text) (value_eq v).

Definition parses_scalars_and_literals : bool :=
  all_pass [reads (lit "null") Null; reads (lit "true") (Bool true); reads (lit "false") (Bool false);
            reads (lit "  42 ") (Num 42); reads (lit "-3.5e2") (Num (-350)); reads (dq (lit "'hi'")) (Str (lit "hi"))].

Definition parses_nested_object_and_array : bool :=
  unwrap_ok (read (dq (lit "{'a':1,'b':[true,null,'x'],'c':{'d':2}}"))) (λ v,
    all_pass [unwrap (get v (lit "a")) (λ a, eq_of (as_u64 a) (Some 1));
              unwrap (get v (lit "b") ≫= as_array) (λ b, (length b =? 3)%nat);
              unwrap (get v (lit "c") ≫= λ c, get c (lit "d")) (λ d, eq_of (as_u64 d) (Some 2));
              is_none (get v (lit "missing"))]).

Definition string_escapes_roundtrip : bool :=
  unwrap_ok (read (dq (lit "'line\ntab\tquote\'slash\\end'"))) (λ v,
    all_pass [eq_of (as_str v) (Some (lit "line" ++ [LF] ++ lit "tab" ++ [9%N] ++ lit "quote" ++ [DQ] ++ lit "slash\end"));
              reads (to_string v) v]).

Definition unicode_and_surrogate_pairs : bool :=
  all_pass [unwrap_ok (read (dq (lit "'A'"))) (λ v, eq_of (as_str v) (Some (lit "A")));
            unwrap_ok (read [DQ; 0x1F600%N; DQ]) (λ v, eq_of (as_str v) (Some [0x1F600%N]))].

Definition compact_serialization_drops_integer_point : bool :=
  let v := obj [(lit "n", Num 5); (lit "s", Str (lit "hi"))] in
  eq_of (to_string v) (dq (lit "{'n':5,'s':'hi'}")).

Definition rejects_trailing_and_malformed : bool :=
  all_pass (map (λ s, is_err (read s)) [lit "1 2"; lit "{"; lit "[1,]"; dq (lit "{'k':}"); []]).

Example json_tests_pass : all_pass [parses_scalars_and_literals; parses_nested_object_and_array;
  string_escapes_roundtrip; unicode_and_surrogate_pairs; compact_serialization_drops_integer_point;
  rejects_trailing_and_malformed] = true.
Proof. vm_compute. reflexivity. Qed.

(** The pair of escapes that the comment in the source's test announces. *)
Example surrogate_pair : reads (dq (lit "'\ud83d\ude00'")) (Str [0x1F600%N]) = true.
Proof. vm_compute. reflexivity. Qed.
End JsonTests.

(** ** ubus.rs *)
Module UbusTests.
Import Json.Json Ubus.Ubus.

Definition str_of (v : option Value) : option str := v ≫= as_str.

Definition board_has_expected_shape (s : probe) : bool :=
  let b := board s in
  all_pass [eq_of (str_of (get b (lit "system"))) (Some (lit "LWRT"));
            eq_of (str_of (get b (lit "release") ≫= λ r, get r (lit "distribution"))) (Some (lit "LWRT"));
            is_nonempty (default [] (str_of (get b (lit "release") ≫= λ r, get r (lit "version"))))].

Definition builtin_dispatch_and_misses (s : probe) : bool :=
  all_pass [is_some (builtin_call s (lit "system") (lit "board") Null);
            is_some (builtin_call s (lit "system") (lit "info") Null);
            is_none (builtin_call s (lit "system") (lit "nope") Null);
            is_none (builtin_call s (lit "other") (lit "board") Null)].

Definition reply_helpers_are_well_formed : bool :=
  all_pass [unwrap (get (ok Null) (lit "status")) (JsonTests.value_eq (Num 0));
            unwrap (get (err (-2) (lit "x")) (lit "status")) (JsonTests.value_eq (Num (-2)));
            eq_of (str_of (get (err (-2) (lit "x")) (lit "error"))) (Some (lit "x"))].

Definition list_includes_builtin_system : bool :=
  unwrap (get (list_objects new_bus) (lit "objects") ≫= as_array) (λ objs,
    existsb (λ o, eq_of (str_of (get o (lit "path"))) (Some (lit "system"))) objs).

Example ubus_tests_pass : all_pass [reply_helpers_are_well_formed; list_includes_builtin_system] = true.
Proof. vm_compute. reflexivity. Qed.

(** Whatever the machine reports. *)
Lemma system_object_tests_pass s : board_has_expected_shape s = true ∧ builtin_dispatch_and_misses s = true.
Proof. split; reflexivity. Qed.
End UbusTests.
